(* ===== verification/_CoqProject ===== *)
-Q . S2P
Prelude.v
Types.v
Models.v
Files.v
Transaction.v
Event.v
Mempool.v
Workflow.v
Watchdog.v
Resources.v
Scheduler.v
Turns.v
Acl.v
Database.v
Progress.v
Deletion.v
Rpc.v
Vmm.v
VmServer.v
Protocol.v
P2P.v
Noise.v
Mesh.v
KeyCapsule.v
Download.v
Spread.v
Http.v
Cli.v
Shim.v
Node.v
Pipeline.v
Executions.v
Startup.v
Handshake.v
Ffi.v
Serve.v
Client.v
E2e.v
StoreSpec.v
Submission.v
Metrics.v
Counters.v
Columns.v
NodeCli.v
Launch.v
Qmp.v
Tests.v
NetTests.v
DbTests.v
