(* ===== verification/Prelude.v ===== *)
(** * Gevulot node: a verification library

    Gevulot is a network of nodes that run zero-knowledge provers and verifiers.  Users
    send signed transactions: [Deploy] (a prover and a verifier image), [Run] (a workflow
    of program steps), and the results the nodes produce themselves, [Proof] and
    [Verification].  This library models the code under [src/crates] as executable
    functions and proves what makes its parts correct.

    ** The parts of the program and the files that model them

    A transaction enters through RPC, the p2p network or the node's own scheduler.  The
    validation event loop checks it against the access list and its signature, downloads
    its assets, passes it on to the peers and parks it until the programs and the parent
    it depends on are known; then it is stored in the database and queued in the mempool.
    The scheduler takes it from there: the workflow engine computes the next task, the
    program manager reserves resources and has the VM provider start a VM, the program in
    the VM fetches the task over gRPC and hands in a result, which becomes a new
    transaction of the event loop.

    - [Prelude]: machine integers, the [result] type (a value, an error, or a panic), the
      state monad [M] in which stateful code is written, Hoare triples for it, loops, the
      [gevulot] hint database.
    - [Types] ([types/hash.rs], [signature.rs], [program.rs], [task.rs], data of
      [transaction.rs] and [file.rs]): hashes are vectors of 32 bytes, enums inductive
      types in a module of the enum's name.  External crates are classes here and below:
      [Hex], [Secp], [Sha3], [NumBigint], [Bincode], [Lru], [UrlParse], [Uuid], [Snow],
      [Framing], [Ecies], [Wire], [RpcLib], [Clap], [Prometheus], [QmpLib], [ProgressBar],
      [Utf8], [PeerUrls], [BodyFrames]; what is documented of them and used by a proof is a [...Laws] class or a
      hypothesis.  [Models] instantiates them with concrete
      functions for the witnesses.
    - [Files] ([types/file.rs]): paths and the file system as a finite map from resolved
      paths to contents.  [output_path_contained], [output_reaches_next_task].
    - [Transaction] ([types/transaction.rs]): the bytes that are hashed, signing,
      validation.  [validate_spec], [new_tx_validates] and what validation misses.
    - [Event] ([mempool/event.rs], [acl/mod.rs]): the events and the dependency caches.
      [validate_tx_dep_spec] gives the complete result of the dependency stage for a
      transaction that deploys no program; [validate_tx_dep_conserves],
      [waiting_wf_invariant] and [released_run_programs_known] hold for all.
    - [Mempool] ([mempool/mod.rs], [txvalidation/mod.rs]): the event loop as the step
      relation [run] over every interleaving of receiving, verifying and finishing.
      [mempool_only_accepted], [p2p_never_echoed], [callbacks_answered_once];
      [mempool_fifo] is the refinement of a queue.
    - [Progress]: when nothing more is submitted, the event loop comes to rest.
      [loop_drains] holds for every storage that answers ([CalmStorage]), whatever the
      order of the steps; [database_calm] makes the database one.  A verification task
      that panics stalls the loop until the next message ([panicked_task_stalls_loop]).
    - [Workflow] ([workflow/mod.rs]): the loops over parents take fuel.  [walks_terminate]
      bounds them when parents have a rank, [workflow_for_transaction_iff] is their
      specification, [next_task_progress] the progress of a workflow.
    - [Watchdog] ([watchdog/mod.rs]), [Resources] ([resource_manager.rs],
      [program_manager.rs], [vmm/mod.rs]) and [Scheduler] ([scheduler/mod.rs]): one turn
      of the scheduling loop on a [World] of scheduler state, mempool, files, signals and
      channel.  [scheduler_resources_conserved] is the invariant of all reachable states
      ([sched_run]); [reap_zombies_spec], [get_pending_task_spec], [submit_result_spec].
      [Provider] and [TransactionStore] are records of operations; the theorems hold for
      every provider and store.
    - [Turns]: the same turn cut where the loop does not hold its lock.  A position is
      where the loop waits, [turn_step] takes it to the next one; uninterrupted, the steps
      are the turn of [Scheduler] ([turn_steps_run_turn]).
    - [Acl] ([networking/mod.rs], [entity/public_key.rs]): whitelist synchronisation
      against the interface [MergeStoredAcl] with [AclLaws].
    - [Database] ([storage/database/postgres.rs], [entity/*.rs], the instances of
      [main.rs]): the tables as finite maps and lists of rows, each query as a function,
      the SQL transaction with its rollback.  [add_transaction_integrity],
      [stored_run_found], [stored_transaction_found], [proof_stored_iff]; the instances
      for the interfaces of [Acl], [Event], [Mempool] and [Workflow].
    - [Deletion] ([postgres.rs], migrations): [delete_transaction] and [delete_program] with
      the cascades of the schema.  [delete_undoes_add]: they take back what was stored;
      [delete_strands_shared_deployment] where programs are shared.
    - [StoreSpec]: the store the rest of the node thinks it is talking to, a map of
      transactions, a map of programs and a set of keys.  [database_refines_store]: adding
      a transaction inserts it, and queries answer as the store does, exactly for
      payloads the schema keeps whole ([payload_kept]), and up to the losses that
      [found_payload] spells out for the others.
    - [Columns]: hashes, signatures and keys as text columns and JSON strings;
      [signed_columns_roundtrip].
    - [Rpc] ([rpc_server/mod.rs], [types/rpc.rs]): the handlers on the database;
      [get_tx_tree_spec].
    - [Vmm] ([vmm/qemu.rs]), [VmServer] ([vmm/vm_server.rs]) and [Shim]
      ([crates/shim/src/lib.rs]): the provider, the gRPC service and its client.
      [qemu_registry_invariant], [allocate_cid_spec], [start_vm_identifies],
      [vm_result_isolation]; [vm_session_spec] composes client, service and scheduler.
    - [Pipeline]: a transaction from the head of the mempool through scheduler, VM and program
      to the result that is sent to validation, [execution_spec], for every provider and
      store with the laws [StopLaws] and [MarkLaws]; QEMU and the database are instances.
    - [Protocol] ([p2p/protocol]), [P2P] ([p2p/pea2pea.rs]), [Noise] ([p2p/noise.rs]):
      [deserialize_sent_msg], [broadcast_received], [do_connect_spec],
      [noise_stream_roundtrip].
    - [Mesh] ([p2p/pea2pea.rs]): networks of such nodes, each running its own side of every
      handshake.  A node that connects to one member of a mesh becomes a member
      ([connect_joins_mesh]), one that disconnects is forgotten ([disconnect_leaves_mesh]),
      and what a member broadcasts goes through the noise codecs of its connections: what
      fits in a frame every other one with room in its queue receives, once, and what does
      not fit nobody ([broadcast_reaches_mesh]).  Nodes join one at a time.
    - [Handshake] ([p2p/noise.rs], [p2p/pea2pea.rs]): the two ends of a new connection as
      programs on byte streams and the connection as a step relation.  Programs that
      follow the two projections of one order of messages finish
      ([choreography_completes]); hence [handshake_completes], and [handshake_deadlock]
      when writes are read together.
    - [Ffi] ([crates/shim-ffi/src/lib.rs]): the C interface of [Shim] on a heap of blocks,
      where a wrong access is a value of its own; [ffi_callback_spec].  [Qmp]: the monitor
      client of [Vmm].  [Metrics] ([metrics/mod.rs]): collectors, their registration and
      export, the gauges of [Resources], the timing of [Rpc]'s handlers.  [Counters]: the
      counters of [P2P] and [Scheduler]; erased, the metered operations are the plain ones
      ([erases]), and [connected_peers_counts_handshakes].
    - [KeyCapsule] ([types/key_capsule.rs]), [Download]
      ([txvalidation/download_manager.rs]), [Cli] ([crates/cli/src]):
      [capsule_recipients], [download_all_or_nothing] (also when the disk fails),
      [run_exec_command_spec].  [Serve]
      ([crates/cli/src/server.rs]): the loop that ends when the files are downloaded,
      [serve_file_stops_iff].
    - [Spread]: downloads of several nodes against each other's file servers.
      [asset_spreads]: a file one node has reaches all that ask, through peers alone;
      [bad_peer_blocks], [slow_url_blocks] and [encoded_name_not_served] where it does not.
    - [Http]: the accept loops of the file server and of the health checks, with
      connections that come, fail and are served in any order.  [healthz_spec] says what
      the health check answers at any time.
    - [Client] ([rpc_client/mod.rs], [crates/cli/src/main.rs]): the RPC client, the
      dispatch of the command line tool and the tree it prints, [print_tx_tree_inj].
    - [E2e] ([crates/tests]): the end-to-end test's client, file server and programs.
      [proving_task_runs] follows its task from the prover to the verifier.
    - [Submission]: a transaction from the tool through client, server, event loop and
      database and back.  [submission_spec] says which of four verdicts it gets (rejected,
      parked, refused by the store, stored) and what the client can read afterwards.
    - [Node] ([main.rs], [run]): the parts composed as one step relation [node_run] over
      the event loop, the steps of the scheduling loop, the VM service, the whitelist
      refresh, the operator's commands, RPC clients and peers, with the history of what was
      submitted and what was given to VMs.  [node_queue_stored]: what is queued is stored,
      [node_tasks_stored]: what runs in a VM comes from a stored transaction,
      [node_results_own]: what passes for the node's result, wherever it is in the event
      loop, is signed with the node's key;
      [sync_spec]: the whitelist refresh on the database.
    - [Executions]: how often a transaction is executed.  [executions_submitted]: at most as
      often as it was submitted, over all interleavings; [replayed_transaction_runs_again]:
      it can be as often.
    - [Startup] ([main.rs], the commands): key files, whitelist commands, joining the
      network as a node or a beacon.  [generated_key_usable], [join_network_spec],
      [beacon_join_spec].
    - [NodeCli] ([node/src/cli.rs]): arguments, environment variables and defaults of
      every command.  [Launch] ([main.rs], [start_scheduler]): the dispatch of [main] and
      the stages of [run] with what each may fail with; [run_starts_node]: what comes up is
      an initial state of [Node], with an empty queue whatever is stored.
    - [Tests], [NetTests], [DbTests]: the unit tests of the repository as scenarios of the
      model, which pass: on the concrete models, or for all values a test may draw.

    Theorems that show a defect ([forged_hash_validates], [self_parent_diverges],
    [proof_key_last_step_panics], [copy_failure_still_starts], [garbage_list_empties_whitelist],
    [failed_start_leaks_cid], [served_file_escapes],
    [panicked_task_stalls_loop],
    [replayed_transaction_runs_again], [generate_key_failures], [beacon_listener_ends],
    [connected_peer_reported_failed], ...) stand beside the properties they
    limit.

    ** Bounds and fuel

    Structural recursion wherever the code iterates over data.  The walks of [Workflow] and
    [Rpc.build_tx_tree] take fuel and are proved to end for enough of it ([walks_terminate];
    depth 3 for a tree without proof cycles); [Vmm.allocate_cid] needs one round more than
    the ids in use and the four that are skipped at the wrap-around, [Vmm.connect] its 101
    retries and one; [P2P.do_connect] and [Mesh.connect] are bounded by the square of the number of addresses;
    [Shim.wait_mount] by its 30 seconds.  Running out of fuel is a value of its own, never
    an error of the program.  Context ids, nonces and resource counters keep their width:
    wrap-around and saturation are written out, and the cast of resource limits to [i64]
    is modelled.

    ** What is abstracted

    Time is an argument, in seconds or milliseconds as the code uses it.  What the outside
    world answers (HTTP responses, QMP connections, the log files, process ids, random
    labels) is an argument.  Iteration over hash maps and tables without an order goes
    through a parameter that permutes.  Column widths of the SQL schema are not checked.
    Concurrency is modelled where tasks interleave: the branches of the event loop, the
    sections of the scheduling loop between which its lock is free, the operations of the
    VM service, which hold that lock throughout, and everything else that happens to a
    node.  In [Scheduler] itself a turn is one step.  Downloads run one after the other:
    two that write the same temporary file at once are not modelled.  Dialling is
    idealised in [P2P] and [Mesh]: who is reached answers with its handshake message
    (no other passphrase, no limit on connections), a failed dial leaves no trace, and
    nodes do not dial each other at the same time, so [connect_lock] is not contended.

    ** Not modelled

    The bytes on sockets and streams below the framing and the HTTP messages;
    logging and migrations; the [clap] attributes of the command line tools (their parsed
    structures are the inputs of [Client] and [E2e]); the dashboard triggers of the
    schema; tests of the byte layouts of [bincode] and [prometheus]; the types of
    [account.rs] and [deployment.rs], which nothing uses.  The crates named as classes
    above are not modelled either, they are parameters.

    ** Plan

    Done: every component of the node, both command lines, the shim with its C interface,
    the tests, the node as a whole, its start-up, networks of nodes, and a submission from
    end to end.  What could follow: joins of several nodes at the same time in [Mesh], whose
    handshakes the code serialises with [connect_lock] on each node; the query of a
    transaction tree through the abstract store; the rows the dashboard triggers write. *)

From Stdlib Require Export Ascii ZArith Lia.
From stdpp Require Export prelude strings gmap fin_maps vector.

(** ** Scopes and machine integers *)

Declare Scope gevulot_scope.
Delimit Scope gevulot_scope with gev.
Open Scope gevulot_scope.

(** A Rust [u8] is an [ascii] (eight bits), so that [String::as_bytes] is a
    plain conversion; [u32]/[u64]/[usize] values are kept as [Z] (or [nat] for
    lengths and indices) together with their range. *)
Abbreviation u8 := ascii.

Definition u8_val (b : u8) : Z := Z.of_N (N_of_ascii b).
Definition u32_MAX : Z := 2 ^ 32 - 1.
Definition u64_MAX : Z := 2 ^ 64 - 1.
Definition in_u64 (z : Z) : Prop := (0 ≤ z ≤ u64_MAX)%Z.
Definition u32_wrap (z : Z) : Z := (z `mod` 2 ^ 32)%Z.
Definition u64_wrap (z : Z) : Z := (z `mod` 2 ^ 64)%Z.
Lemma u64_wrap_id z : in_u64 z → u64_wrap z = z.
Proof. unfold in_u64, u64_wrap, u64_MAX. intros ?. apply Z.mod_small. lia. Qed.
Lemma u64_wrap_range z : (0 ≤ u64_wrap z < 2 ^ 64)%Z.
Proof. apply Z.mod_pos_bound. lia. Qed.

(** [u64::to_be_bytes], and in general the [n] big-endian bytes of [z]. *)
Fixpoint be_bytes (n : nat) (z : Z) : list u8 :=
  match n with
  | O => []
  | S m => ascii_of_N (Z.to_N ((z / 2 ^ (8 * Z.of_nat m)) `mod` 256)) :: be_bytes m z
  end.

(** [uN::from_be_bytes] of a slice. *)
Definition from_be_bytes (l : list u8) : Z :=
  fold_left (λ acc b, (acc * 256 + u8_val b)%Z) l 0%Z.

Lemma length_be_bytes n z : length (be_bytes n z) = n.
Proof. induction n as [|n IH]; simpl; [done|]. by rewrite IH. Qed.

Lemma u8_val_of x : (0 ≤ x < 256)%Z → u8_val (ascii_of_N (Z.to_N x)) = x.
Proof. intros Hx. unfold u8_val. rewrite N_ascii_embedding; lia. Qed.

Lemma fold_be_bytes n z acc :
  fold_left (λ acc b, (acc * 256 + u8_val b)%Z) (be_bytes n z) acc
  = (acc * 2 ^ (8 * Z.of_nat n) + z `mod` 2 ^ (8 * Z.of_nat n))%Z.
Proof.
  revert acc. induction n as [|n IH]; intros acc.
  - simpl. rewrite Z.mod_1_r. lia.
  - cbn [be_bytes fold_left]. rewrite IH, u8_val_of by (apply Z.mod_pos_bound; lia).
    replace (8 * Z.of_nat (S n))%Z with (8 * Z.of_nat n + 8)%Z by lia.
    rewrite Z.pow_add_r by lia. change (2 ^ 8)%Z with 256%Z.
    rewrite Z.rem_mul_r by lia. ring.
Qed.

(** [from_be_bytes(to_be_bytes(z))] *)
Lemma from_be_bytes_be_bytes n z :
  (0 ≤ z < 2 ^ (8 * Z.of_nat n))%Z → from_be_bytes (be_bytes n z) = z.
Proof. intros Hz. unfold from_be_bytes. rewrite fold_be_bytes, Z.mod_small by lia. lia. Qed.

(** The bytes of a Rust string ([str::as_bytes]). *)
Definition as_bytes (s : string) : list u8 := String.list_ascii_of_string s.

Lemma string_length_app s1 s2 : String.length (s1 +:+ s2) = String.length s1 + String.length s2.
Proof. induction s1 as [|c s1 IH]; [done|]. change (S (String.length (s1 +:+ s2)) = S (String.length s1) + String.length s2). rewrite IH. lia. Qed.

(** ** Results: [Ok], [Err] and a panic of the running task *)

Inductive result (E A : Type) : Type :=
  | Ok (a : A)
  | Err (e : E)
  | Panic.
Global Arguments Ok {_ _} _.
Global Arguments Err {_ _} _.
Global Arguments Panic {_ _}.

Global Instance result_eq_dec {E A} `{EqDecision E, EqDecision A} : EqDecision (result E A).
Proof. solve_decision. Defined.

Global Instance result_ret E : MRet (result E) := λ A a, Ok a.
Global Instance result_bind E : MBind (result E) := λ A B f m,
  match m with Ok a => f a | Err e => Err e | Panic => Panic end.
Global Instance result_fmap E : FMap (result E) := λ A B f m,
  match m with Ok a => Ok (f a) | Err e => Err e | Panic => Panic end.

Definition map_err {E F A} (f : E → F) (m : result E A) : result F A :=
  match m with Ok a => Ok a | Err e => Err (f e) | Panic => Panic end.

(** [Option::ok_or] and [Option::unwrap]. *)
Definition ok_or {E A} (o : option A) (e : E) : result E A :=
  match o with Some a => Ok a | None => Err e end.
Definition unwrap {E A} (o : option A) : result E A :=
  match o with Some a => Ok a | None => Panic end.

Definition is_ok {E A} (m : result E A) : bool :=
  match m with Ok _ => true | _ => false end.
Definition is_err {E A} (m : result E A) : bool :=
  match m with Err _ => true | _ => false end.

(** [iter.map(f).collect::<Result<Vec<_>, _>>()]: the first error wins. *)
Fixpoint collect_results {E A B} (f : A → result E B) (l : list A) : result E (list B) :=
  match l with
  | [] => Ok []
  | x :: l' => y ← f x; ys ← collect_results f l'; Ok (y :: ys)
  end.

(** ** State and errors

    [M S E A] is the type of code that mutates a state [S] and may fail: the
    state survives a failure, as Rust's [&mut] borrows do when [?] returns
    early. *)

Definition M (S E A : Type) : Type := S → result E A * S.

Global Instance M_ret S E : MRet (M S E) := λ A a s, (Ok a, s).
Global Instance M_bind S E : MBind (M S E) := λ A B f m s,
  match m s with
  | (Ok a, s') => f a s'
  | (Err e, s') => (Err e, s')
  | (Panic, s') => (Panic, s')
  end.

Definition lift {S E A} (r : result E A) : M S E A := λ s, (r, s).
Definition get {S E} : M S E S := λ s, (Ok s, s).
Definition modify {S E} (f : S → S) : M S E () := λ s, (Ok (), f s).
Definition throw {S E A} (e : E) : M S E A := λ s, (Err e, s).

(** A [for] loop whose body returns a vector that is appended to the result. *)
Fixpoint flat_mapM {S E A B} (f : A → M S E (list B)) (l : list A) : M S E (list B) :=
  match l with
  | [] => mret []
  | x :: l' => ys ← f x; zs ← flat_mapM f l'; mret (ys ++ zs)
  end.

(** A [for] loop run for its effects. *)
Fixpoint for_eachM {S E A} (f : A → M S E ()) (l : list A) : M S E () :=
  match l with
  | [] => mret ()
  | x :: l' => _ ← f x; for_eachM f l'
  end.

(** ** Hoare triples for the state-and-error monad

    [hoare P m Q R]: started in a state satisfying [P], [m] ends in [Q a] when
    it returns [Ok a] and in [R] when it fails. *)

Definition hoare {S E A} (P : S → Prop) (m : M S E A) (Q : A → S → Prop) (R : S → Prop) : Prop :=
  ∀ s, P s → match m s with (Ok a, s') => Q a s' | (_, s') => R s' end.

Create HintDb gevulot.

Section hoare_rules.
Context {S E : Type}.
Implicit Types (P R : S → Prop).

Lemma hoare_ret {A} (a : A) P (Q : A → S → Prop) R :
  (∀ s, P s → Q a s) → hoare (E:=E) P (mret a) Q R.
Proof. intros H s Hs. by apply H. Qed.

Lemma hoare_bind {A B} (m : M S E A) (f : A → M S E B) P Q1 Q R :
  hoare P m Q1 R → (∀ a, hoare (Q1 a) (f a) Q R) → hoare P (m ≫= f) Q R.
Proof.
  intros Hm Hf s Hs. specialize (Hm s Hs).
  unfold mbind, M_bind. destruct (m s) as [[a|e|] s']; try done.
  by apply Hf.
Qed.

Lemma hoare_conseq {A} (m : M S E A) P P' (Q Q' : A → S → Prop) R R' :
  hoare P' m Q' R' → (∀ s, P s → P' s) → (∀ a s, Q' a s → Q a s) → (∀ s, R' s → R s) →
  hoare P m Q R.
Proof.
  intros Hm HP HQ HR s Hs. specialize (Hm s (HP s Hs)).
  destruct (m s) as [[a|e|] s']; eauto.
Qed.

Lemma hoare_modify (f : S → S) P Q R :
  (∀ s, P s → Q () (f s)) → hoare (E:=E) P (modify f) Q R.
Proof. intros H s Hs. by apply H. Qed.

Lemma hoare_get P (Q : S → S → Prop) R :
  (∀ s, P s → Q s s) → hoare (E:=E) P get Q R.
Proof. intros H s Hs. by apply H. Qed.

Lemma hoare_lift {A} (r : result E A) P (Q : A → S → Prop) R :
  (∀ s a, P s → r = Ok a → Q a s) → (∀ s, P s → R s) → hoare P (lift r) Q R.
Proof. intros HQ HR s Hs. unfold lift. destruct r; eauto. Qed.

(** Loop rule for [flat_mapM]: [I done todo acc] is the loop invariant over the
    processed prefix, the remaining elements and the accumulated output. *)
Lemma hoare_flat_mapM {A B} (f : A → M S E (list B)) (I : list A → list B → S → Prop) R :
  (∀ x todo acc, hoare (I (x :: todo) acc) (f x) (λ ys, I todo (acc ++ ys)) R) →
  ∀ l acc, hoare (I l acc) (flat_mapM f l) (λ ys, I [] (acc ++ ys)) R.
Proof.
  intros Hf l. induction l as [|x l IH]; intros acc; simpl.
  - apply hoare_ret. intros s Hs. by rewrite app_nil_r.
  - eapply hoare_bind; [apply Hf|]. intros ys.
    eapply hoare_bind; [apply IH|]. intros zs.
    apply hoare_ret. intros s Hs. by rewrite app_assoc.
Qed.

Lemma hoare_loop {A B} (f : A → M S E (list B)) (I : list A → list B → S → Prop) R :
  (∀ x todo acc, hoare (I (x :: todo) acc) (f x) (λ ys, I todo (acc ++ ys)) R) →
  ∀ l, hoare (I l []) (flat_mapM f l) (λ ys, I [] ys) R.
Proof. intros Hf l. exact (hoare_flat_mapM f I R Hf l []). Qed.

(** An invariant of the state together with a property of the elements. *)
Lemma hoare_flat_mapM_Forall {A B} (f : A → M S E (list B)) (GA : A → Prop) (GB : B → Prop) I R :
  (∀ x, GA x → hoare I (f x) (λ ys s, I s ∧ Forall GB ys) R) →
  ∀ l, Forall GA l → hoare I (flat_mapM f l) (λ ys s, I s ∧ Forall GB ys) R.
Proof.
  intros Hf l Hl. induction Hl as [|x l Hx Hl IH]; cbn [flat_mapM]; [by apply hoare_ret|].
  eapply hoare_bind; [by apply Hf|]. intros ys s [Hs Hys]. simpl.
  specialize (IH s Hs). unfold mbind, M_bind. destruct (flat_mapM f l s) as [[zs|e|] s']; [|done..].
  destruct IH as [Hs' Hzs]. split; [done|]. by apply Forall_app.
Qed.

Lemma hoare_modify_seq {A} (f : S → S) (m : M S E A) P P1 Q R :
  (∀ s, P s → P1 (f s)) → hoare P1 m Q R → hoare P (modify f ≫= λ _, m) Q R.
Proof. intros Hf Hm s Hs. exact (Hm _ (Hf s Hs)). Qed.

Lemma hoare_for_eachM {A} (f : A → M S E ()) (I : list A → S → Prop) R :
  (∀ x todo, hoare (I (x :: todo)) (f x) (λ _, I todo) R) →
  ∀ l, hoare (I l) (for_eachM f l) (λ _, I []) R.
Proof.
  intros Hf l. induction l as [|x l IH]; simpl.
  - by apply hoare_ret.
  - eapply hoare_bind; [apply Hf|]. intros []. apply IH.
Qed.

(** Reading a triple off a run of the code. *)
Lemma hoare_run {A} (m : M S E A) P Q R s r s' :
  hoare P m Q R → P s → m s = (r, s') →
  match r with Ok a => Q a s' | _ => R s' end.
Proof. intros Hm Hs Heq. specialize (Hm s Hs). rewrite Heq in Hm. by destruct r. Qed.

Lemma hoare_run_Ok {A} (m : M S E A) P Q R s a s' :
  hoare P m Q R → P s → m s = (Ok a, s') → Q a s'.
Proof. intros Hm Hs Heq. exact (hoare_run m P Q R s (Ok a) s' Hm Hs Heq). Qed.

End hoare_rules.

(** Handle an error instead of returning it: [if let Err(e) = ...]; a panic still
    unwinds. *)
Definition attempt {S E F A} (m : M S E A) : M S F (result E A) := λ s,
  match m s with (Panic, s') => (Panic, s') | (r, s') => (Ok r, s') end.

Lemma hoare_attempt {S E F A} (m : M S E A) P Q R :
  hoare P m Q R →
  hoare P (attempt (F:=F) m) (λ r s, match r with Ok a => Q a s | _ => R s end) R.
Proof.
  intros Hm s Hs. specialize (Hm s Hs). unfold attempt. by destruct (m s) as [[a|e|] s'].
Qed.

(** An invariant [I] kept by every outcome. *)
Definition keeps {S E A} (I : S → Prop) (m : M S E A) : Prop := hoare I m (λ _, I) I.

Section keeps.
Context {S E : Type} (I : S → Prop).

Lemma keeps_snd {A} (m : M S E A) s : keeps I m → I s → I (snd (m s)).
Proof. intros Hm Hs. specialize (Hm s Hs). by destruct (m s) as [[] ?]. Qed.
Lemma keeps_ret {A} (a : A) : keeps (E:=E) I (mret a).
Proof. by apply hoare_ret. Qed.
Lemma keeps_bind {A B} (m : M S E A) (f : A → M S E B) :
  keeps I m → (∀ a, keeps I (f a)) → keeps I (m ≫= f).
Proof. apply hoare_bind. Qed.
Lemma keeps_modify f : (∀ s, I s → I (f s)) → keeps (E:=E) I (modify f).
Proof. intros Hf. by apply hoare_modify. Qed.
Lemma keeps_get : keeps (E:=E) I get.
Proof. by apply hoare_get. Qed.
Lemma keeps_lift {A} (r : result E A) : keeps I (lift r).
Proof. by apply hoare_lift. Qed.
Lemma keeps_throw {A} (e : E) : keeps (A:=A) I (throw e).
Proof. by intros s Hs. Qed.
Lemma keeps_attempt {F A} (m : M S F A) : keeps I m → keeps (E:=E) I (attempt m).
Proof.
  intros Hm. eapply hoare_conseq; [apply hoare_attempt, Hm|done| |done]. by intros [].
Qed.
Lemma keeps_for_eachM {A} (f : A → M S E ()) l : (∀ x, keeps I (f x)) → keeps I (for_eachM f l).
Proof. intros Hf. apply (hoare_for_eachM _ (λ _, I)). intros x _. apply Hf. Qed.
End keeps.

#[export] Hint Resolve keeps_ret keeps_bind keeps_get keeps_lift keeps_throw keeps_attempt
  keeps_for_eachM : gevulot.

(** Equation-level view of a run, for case analysis on a given execution. *)
Lemma M_bind_Ok {S E A B} (m : M S E A) (f : A → M S E B) s b s' :
  (m ≫= f) s = (Ok b, s') → ∃ a s1, m s = (Ok a, s1) ∧ f a s1 = (Ok b, s').
Proof.
  unfold mbind, M_bind. destruct (m s) as [[a|e|] s1]; intros H; simplify_eq; eauto.
Qed.

Lemma M_bind_run {S E A B} (m : M S E A) (f : A → M S E B) s a s1 :
  m s = (Ok a, s1) → (m ≫= f) s = f a s1.
Proof. intros H. unfold mbind, M_bind. by rewrite H. Qed.

Lemma result_bind_Ok {E A B} (m : result E A) (f : A → result E B) b :
  (m ≫= f) = Ok b → ∃ a, m = Ok a ∧ f a = Ok b.
Proof. destruct m; simpl; intros H; simplify_eq; eauto. Qed.

Lemma collect_results_Ok {E A B} (f : A → result E B) l ys :
  collect_results f l = Ok ys ↔ Forall2 (λ x y, f x = Ok y) l ys.
Proof.
  revert ys. induction l as [|x l IH]; intros ys; simpl.
  - split; [intros ?; simplify_eq; constructor|]. intros H. by inversion H.
  - split.
    + intros (y & Hy & (ys' & Hys & ?)%result_bind_Ok)%result_bind_Ok. simplify_eq.
      constructor; [done|]. by apply IH.
    + inversion 1 as [|? y ? ys' Hy Hys]; subst. rewrite Hy. simpl.
      apply IH in Hys. by rewrite Hys.
Qed.

Lemma collect_results_total {E A B} (f : A → result E B) l :
  (∀ x, x ∈ l → ∃ y, f x = Ok y) → ∃ ys, collect_results f l = Ok ys.
Proof.
  intros H. induction l as [|x l IH]; [by eexists|].
  destruct (H x) as [y Hy]; [by left|].
  destruct IH as [ys Hys]; [intros z Hz; apply H; by right|].
  exists (y :: ys). simpl. by rewrite Hy; simpl; rewrite Hys.
Qed.

Lemma collect_results_no_panic {E A B} (f : A → result E B) l :
  (∀ x, x ∈ l → f x ≠ Panic) → collect_results f l ≠ Panic.
Proof.
  intros Hf. induction l as [|x l IH]; simpl; [done|].
  assert (f x ≠ Panic) by (apply Hf; by left). destruct (f x); simpl; [|done..].
  assert (collect_results f l ≠ Panic) by (apply IH; intros y Hy; apply Hf; by right).
  by destruct (collect_results f l).
Qed.

(** Destruct every [Ok] run of a monadic bind found in the context. *)
Ltac inv_ok :=
  repeat match goal with
  | H : (_ ≫= _) _ = (Ok _, _) |- _ =>
      apply M_bind_Ok in H; destruct H as (? & ? & ? & H)
  | H : (_ ≫= _) = Ok _ |- _ => apply result_bind_Ok in H; destruct H as (? & ? & H)
  | H : mret _ _ = (Ok _, _) |- _ => unfold mret, M_ret in H
  | H : get _ = (Ok _, _) |- _ => unfold get in H
  | H : modify _ _ = (Ok _, _) |- _ => unfold modify in H
  | H : lift _ _ = (Ok _, _) |- _ => unfold lift in H
  | _ => progress simplify_eq/=
  end.

(** Split every [match] or [if] of the goal on the value it inspects. *)
Ltac case_all := repeat (case_match; simplify_eq/=).

(** A run given by its result alone. *)
Lemma run_snd {A B} (p : A * B) a : fst p = a → p = (a, snd p).
Proof. destruct p. by intros <-. Qed.

(** Decide a closed proposition by running its decision procedure. *)
Ltac by_evaluation := apply (bool_decide_unpack _); vm_compute; exact I.

(** ** Lists and options *)

Lemma head_filter_Some {A} (P : A → Prop) `{∀ x, Decision (P x)} (l : list A) x :
  head (filter P l) = Some x → x ∈ l ∧ P x.
Proof.
  intros H1. assert (x ∈ filter P l) as H2.
  { destruct (filter P l); simplify_eq/=. by left. }
  apply list_elem_of_filter in H2. naive_solver.
Qed.

Lemma filter_none {A} (P : A → Prop) `{∀ x, Decision (P x)} (l : list A) :
  (∀ x, x ∈ l → ¬ P x) → filter P l = [].
Proof.
  induction l as [|x l IH]; [done|]. intros Hl. rewrite filter_cons_False by (apply Hl; by left).
  apply IH. intros y Hy. apply Hl. by right.
Qed.

Lemma filter_all {A} (P : A → Prop) `{∀ x, Decision (P x)} (l : list A) :
  (∀ x, x ∈ l → P x) → filter P l = l.
Proof.
  induction l as [|x l IH]; [done|]. intros Hl. rewrite filter_cons_True by (apply Hl; by left).
  f_equal. apply IH. intros y Hy. apply Hl. by right.
Qed.

(** [iter().position(p)] *)
Fixpoint position {A} (p : A → bool) (l : list A) : option nat :=
  match l with
  | [] => None
  | x :: l' => if p x then Some 0 else S <$> position p l'
  end.

Lemma position_Some {A} (p : A → bool) l i :
  position p l = Some i ↔
  ∃ x, l !! i = Some x ∧ p x = true ∧ ∀ j y, j < i → l !! j = Some y → p y = false.
Proof.
  revert i. induction l as [|a l IH]; intros i; simpl.
  - split; [done|]. intros (x & Hx & _). by rewrite lookup_nil in Hx.
  - destruct (p a) eqn:Ha.
    + split.
      * intros ?; simplify_eq. exists a. split_and!; [done..|]. intros j y Hj. lia.
      * intros (x & Hx & Hp & Hlt). destruct i as [|i]; [done|].
        specialize (Hlt 0 a ltac:(lia) eq_refl). congruence.
    + rewrite fmap_Some. split.
      * intros (i' & Hi' & ->). apply IH in Hi' as (x & Hx & Hp & Hlt).
        exists x. split_and!; [done..|]. intros [|j] y Hj Hy; [simpl in Hy; congruence|].
        apply (Hlt j); [lia|done].
      * intros (x & Hx & Hp & Hlt). destruct i as [|i]; [simpl in Hx; congruence|].
        exists i. split; [|done]. apply IH. exists x. split_and!; [done..|].
        intros j y Hj Hy. apply (Hlt (S j)); [lia|done].
Qed.

Lemma position_None {A} (p : A → bool) l :
  position p l = None ↔ ∀ x, x ∈ l → p x = false.
Proof.
  induction l as [|a l IH]; simpl.
  - split; [intros _ x Hx; by apply elem_of_nil in Hx|done].
  - destruct (p a) eqn:Ha.
    + split; [done|]. intros H. specialize (H a (list_elem_of_here _ _)). congruence.
    + rewrite fmap_None, IH. split.
      * intros H x [->|Hx]%elem_of_cons; auto.
      * intros H x Hx. apply H. by right.
Qed.

(** [slice.first()], [slice\[i\]] with its bounds check. *)
Definition index {E A} (l : list A) (i : nat) : result E A := unwrap (l !! i).

Lemma Permutation_flat_map_insert {K V A} `{Countable K} (f : K * V → list A) (m : gmap K V) k v :
  m !! k = None →
  map_to_list (<[k:=v]> m) ≫= f ≡ₚ f (k, v) ++ (map_to_list m ≫= f).
Proof. intros Hk. by rewrite map_to_list_insert. Qed.

Lemma Permutation_flat_map_delete {K V A} `{Countable K} (f : K * V → list A) (m : gmap K V) k v :
  m !! k = Some v →
  map_to_list m ≫= f ≡ₚ f (k, v) ++ (map_to_list (delete k m) ≫= f).
Proof.
  intros Hk. rewrite <-(insert_delete_id m k v Hk) at 1.
  apply Permutation_flat_map_insert. apply lookup_delete_eq.
Qed.

#[export] Hint Resolve hoare_ret hoare_modify hoare_get : gevulot.
