(* ===== verification/Types.v ===== *)
(** * Data of the node ([crates/node/src/types])

    The records and enumerations that every other component exchanges: hashes,
    signatures, programs, workflows, payloads, transactions with their type
    state, files and tasks.  The cryptographic and serialisation libraries are
    interfaces ([Hex], [Secp], [Sha3], [NumBigint], [Bincode]): the code under
    [crates/] only calls them. *)

From S2P Require Import Prelude.

(** ** Hashes ([types/hash.rs]) *)

Definition HASH_SIZE : nat := 32.

Record Hash := MkHash { hash_0 : vec u8 HASH_SIZE }.

Global Instance Hash_eq_dec : EqDecision Hash.
Proof. solve_decision. Defined.

(** [<\[T; n\]>::try_from(slice)]: succeeds exactly on slices of length [n]. *)
Fixpoint array_of_list {A} (n : nat) (l : list A) : option (vec A n) :=
  match n, l with
  | O, [] => Some [#]
  | S m, x :: l' => vcons x <$> array_of_list m l'
  | _, _ => None
  end.

Lemma array_of_list_vec {A} n (v : vec A n) : array_of_list n (vec_to_list v) = Some v.
Proof. induction v as [|x n v IH]; simpl; [done|]. by rewrite IH. Qed.

(** An executable enumeration of arrays, for maps keyed by them. *)
Definition array_countable {A} `{Countable A} n : Countable (vec A n) :=
  inj_countable vec_to_list (array_of_list n) (array_of_list_vec n).

Lemma Hash_array_inv (h : Hash) : MkHash (hash_0 h) = h.
Proof. by destruct h. Qed.
Global Instance Hash_countable : Countable Hash :=
  let _ := array_countable (A:=u8) HASH_SIZE in inj_countable' hash_0 MkHash Hash_array_inv.

Definition Hash_new (bytes : vec u8 HASH_SIZE) : Hash := MkHash bytes.
Definition Hash_default : Hash := MkHash (vreplicate HASH_SIZE zero).
Definition Hash_to_vec (h : Hash) : list u8 := vec_to_list (hash_0 h).

(** [impl From<&\[u8\]> for Hash]: panics unless the slice has 32 bytes. *)
Definition Hash_from_slice {E} (value : list u8) : result E Hash :=
  MkHash <$> unwrap (array_of_list HASH_SIZE value).

(** The [hex] crate. *)
Class Hex := {
  hex_encode : list u8 → string;
  hex_decode : string → result string (list u8)
}.
Definition is_hex_digit (c : u8) : bool :=
  let n := u8_val c in
  bool_decide (48 ≤ n ≤ 57)%Z || bool_decide (97 ≤ n ≤ 102)%Z.

(** Its documentation: two lower-case hexadecimal digits per byte, read back by
    [decode]. *)
Class HexLaws `{Hex} : Prop := {
  hex_decode_encode bs : hex_decode (hex_encode bs) = Ok bs;
  hex_encode_digits bs : Forall (λ c, is_hex_digit c = true) (as_bytes (hex_encode bs));
  hex_encode_length bs : String.length (hex_encode bs) = 2 * length bs
}.

(** [impl Display for Hash] and [impl From<&str> for Hash]. *)
Definition Hash_to_string `{Hex} (h : Hash) : string := hex_encode (Hash_to_vec h).
Definition Hash_from_str `{Hex} {E} (value : string) : result E Hash :=
  match hex_decode value with
  | Ok bs => MkHash <$> unwrap (array_of_list HASH_SIZE bs)
  | _ => Panic
  end.

(** [libsecp256k1::Message(Scalar(\[u32; 8\]))] built from the 32 bytes of a hash,
    four bytes per limb in big-endian order. *)
Fixpoint be_limbs (l : list u8) : list Z :=
  match l with
  | a :: b :: c :: d :: l' => from_be_bytes [a; b; c; d] :: be_limbs l'
  | _ => []
  end.
Definition Message := list Z.
Definition Hash_to_message (h : Hash) : Message := be_limbs (Hash_to_vec h).

(** ** Signatures ([types/signature.rs]) *)

Record Scalar := MkScalar { scalar_0 : list Z }.
Record Signature := MkSignature { sig_r : Scalar; sig_s : Scalar }.

Global Instance Scalar_eq_dec : EqDecision Scalar.
Proof. solve_decision. Defined.
Global Instance Signature_eq_dec : EqDecision Signature.
Proof. solve_decision. Defined.

Definition Scalar_default : Scalar := MkScalar (replicate 8 0%Z).
Definition Signature_default : Signature := MkSignature Scalar_default Scalar_default.

(** [libsecp256k1::Signature], whose two scalars are limb arrays as well. *)
Record SecpSignature := MkSecpSignature { secp_r : list Z; secp_s : list Z }.

Definition Signature_of_secp (value : SecpSignature) : Signature :=
  MkSignature (MkScalar (secp_r value)) (MkScalar (secp_s value)).
Definition Signature_to_secp (value : Signature) : SecpSignature :=
  MkSecpSignature (scalar_0 (sig_r value)) (scalar_0 (sig_s value)).

(** The [libsecp256k1] crate: keys, signing and verification. *)
Class Secp := {
  PublicKey : Type;
  SecretKey : Type;
  #[global] PublicKey_eq_dec :: EqDecision PublicKey;
  #[global] PublicKey_countable :: Countable PublicKey;
  pk_serialize : PublicKey → list u8;
  pk_parse : list u8 → result string PublicKey;
  from_secret_key : SecretKey → PublicKey;
  SecretKey_default : SecretKey;
  secp_sign : Message → SecretKey → SecpSignature;
  secp_verify : Message → SecpSignature → PublicKey → bool;
  secp_sig_serialize : SecpSignature → list u8;
  secp_sig_parse_standard : list u8 → result string SecpSignature
}.

(** What the documentation of the crate promises: a signature made with a secret
    key verifies under the matching public key, and both wire formats are read
    back ([PublicKey::parse] on 65 bytes, [Signature::parse_standard] on 64). *)
Class SecpLaws `{Secp} : Prop := {
  secp_verify_sign m sk : secp_verify m (secp_sign m sk) (from_secret_key sk) = true;
  pk_serialize_length pk : length (pk_serialize pk) = 65;
  pk_parse_serialize pk : pk_parse (pk_serialize pk) = Ok pk
}.

(** [sha3::Sha3_256]: updates concatenate, the digest has 32 bytes. *)
Class Sha3 := { sha3_256 : list u8 → vec u8 32 }.

(** [num_bigint::BigInt]. *)
Class NumBigint := {
  to_signed_bytes_be : Z → list u8;
  bigint_to_string : Z → string
}.

(** [impl Display / TryFrom<&str> for Signature]. *)
Inductive SignatureError := SignatureParseError (msg : string).

Definition Signature_to_string `{Hex, Secp} (s : Signature) : string :=
  hex_encode (secp_sig_serialize (Signature_to_secp s)).

Definition Signature_try_from `{Hex, Secp} (value : string) : result SignatureError Signature :=
  bs ← map_err SignatureParseError (hex_decode value);
  arr ← ok_or (array_of_list 64 bs) (SignatureParseError "byte array length");
  sig ← map_err SignatureParseError (secp_sig_parse_standard (vec_to_list arr));
  Ok (Signature_of_secp sig).

(** ** Programs ([types/program.rs], [types/transaction.rs]) *)

Record ResourceRequest := MkResourceRequest { rr_mem : Z; rr_cpus : Z; rr_gpus : Z }.
Global Instance ResourceRequest_eq_dec : EqDecision ResourceRequest.
Proof. solve_decision. Defined.
Definition ResourceRequest_default : ResourceRequest := MkResourceRequest 2048 2 0.

Record ProgramMetadata := MkProgramMetadata {
  pm_name : string;
  pm_hash : Hash;
  pm_image_file_name : string;
  pm_image_file_url : string;
  pm_image_file_checksum : string;
  pm_resource_requirements : option ResourceRequest
}.
Global Instance ProgramMetadata_eq_dec : EqDecision ProgramMetadata.
Proof. solve_decision. Defined.

Record Program := MkProgram {
  prg_hash : Hash;
  prg_name : string;
  prg_image_file_name : string;
  prg_image_file_url : string;
  prg_image_file_checksum : string;
  prg_limits : option ResourceRequest
}.
Global Instance Program_eq_dec : EqDecision Program.
Proof. solve_decision. Defined.

Definition Program_of_metadata (value : ProgramMetadata) : Program :=
  {| prg_hash := pm_hash value;
     prg_name := pm_name value;
     prg_image_file_name := pm_image_file_name value;
     prg_image_file_url := pm_image_file_url value;
     prg_image_file_checksum := pm_image_file_checksum value;
     prg_limits := pm_resource_requirements value |}.
Definition ProgramMetadata_of_program (value : Program) : ProgramMetadata :=
  {| pm_name := prg_name value;
     pm_hash := prg_hash value;
     pm_image_file_name := prg_image_file_name value;
     pm_image_file_url := prg_image_file_url value;
     pm_image_file_checksum := prg_image_file_checksum value;
     pm_resource_requirements := prg_limits value |}.

Module ProgramData.
Inductive t :=
  | Input (file_name file_url checksum : string)
  | Output (source_program : Hash) (file_name : string).
End ProgramData.
Global Instance ProgramData_eq_dec : EqDecision ProgramData.t.
Proof. solve_decision. Defined.

Record WorkflowStep := MkWorkflowStep {
  ws_program : Hash;
  ws_args : list string;
  ws_inputs : list ProgramData.t
}.
Global Instance WorkflowStep_eq_dec : EqDecision WorkflowStep.
Proof. solve_decision. Defined.

Record Workflow := MkWorkflow { wf_steps : list WorkflowStep }.
Global Instance Workflow_eq_dec : EqDecision Workflow.
Proof. solve_decision. Defined.

(** ** Files ([types/file.rs]); paths are modelled in [Files] *)

Record TxFile (E : Type) := MkTxFile {
  tf_name : string;
  tf_url : string;
  tf_checksum : Hash;
  tf_extention : E
}.
Global Arguments MkTxFile {E} _ _ _ _.
Global Arguments tf_name {E} _.
Global Arguments tf_url {E} _.
Global Arguments tf_checksum {E} _.
Global Arguments tf_extention {E} _.

(** Type-state markers: [Output] carries nothing, [Image] the program hash. *)
Inductive Output := MkOutput.
Record Image := MkImage { image_0 : Hash }.

Global Instance Output_eq_dec : EqDecision Output.
Proof. solve_decision. Defined.
Global Instance TxFile_eq_dec {E} `{EqDecision E} : EqDecision (TxFile E).
Proof. solve_decision. Defined.

Record TaskVmFile (E : Type) := MkTaskVmFile { vm_file_path : string; tv_extension : E }.
Global Arguments MkTaskVmFile {E} _ _.
Global Arguments vm_file_path {E} _.
Global Arguments tv_extension {E} _.
Record VmInput := MkVmInput { vm_input_0 : string }.
Record VmOutput := MkVmOutput { vm_output_0 : Hash }.
Global Instance VmInput_eq_dec : EqDecision VmInput.
Proof. solve_decision. Defined.
Global Instance TaskVmFile_eq_dec {E} `{EqDecision E} : EqDecision (TaskVmFile E).
Proof. solve_decision. Defined.

(** [bincode::serialize] of the file list of a proof or verification. *)
Class Bincode := { bincode_txfiles : list (TxFile Output) → result string (list u8) }.

(** The [lru] crate, at the key type [Hash]: [LruCache::new], [put], [contains]. *)
Class Lru := {
  LruCache : Type;
  lru_new : nat → LruCache;
  lru_put : Hash → LruCache → LruCache;
  lru_contains : Hash → LruCache → bool;
  (** the keys, most recently used first, and the capacity *)
  lru_keys : LruCache → list Hash;
  lru_cap : LruCache → nat
}.

(** Its documentation: [put] makes the key the most recent one and, past the
    capacity, evicts the least recently used key; [contains] does not touch the
    recency order. *)
Class LruLaws `{Lru} : Prop := {
  lru_keys_new n : lru_keys (lru_new n) = [];
  lru_cap_new n : lru_cap (lru_new n) = n;
  lru_contains_keys h c : lru_contains h c = true ↔ h ∈ lru_keys c;
  lru_keys_put h c : lru_keys (lru_put h c) =
    take (lru_cap c) (h :: filter (λ k, k ≠ h) (lru_keys c));
  lru_cap_put h c : lru_cap (lru_put h c) = lru_cap c
}.

(** ** Payloads ([types/transaction.rs]) *)

Module Payload.
Inductive t `{Secp} :=
  | Empty
  | Transfer (to : PublicKey) (value : Z)
  | Stake (value : Z)
  | Unstake (value : Z)
  | Deploy (name : string) (prover verifier : ProgramMetadata)
  | Run (workflow : Workflow)
  | Proof (parent prover : Hash) (proof : list u8) (files : list (TxFile Output))
  | ProofKey (parent : Hash) (key : list u8)
  | Verification (parent verifier : Hash) (verification : list u8) (files : list (TxFile Output))
  | Cancel (parent : Hash).
End Payload.
Global Instance Payload_eq_dec `{Secp} : EqDecision Payload.t.
Proof. solve_decision. Defined.

(** ** Transactions and their type state *)

Inductive Created := MkCreated.
Module Received.
Inductive t := P2P | RPC | TXRESULT.
End Received.
Inductive Validated := MkValidated.
Global Instance Received_eq_dec : EqDecision Received.t.
Proof. solve_decision. Defined.
Global Instance Validated_eq_dec : EqDecision Validated.
Proof. solve_decision. Defined.

Record Transaction `{Secp} (T : Type) := MkTransaction {
  author : PublicKey;
  hash : Hash;
  payload : Payload.t;
  nonce : Z;
  signature : Signature;
  propagated : bool;
  executed : bool;
  state : T
}.
Global Arguments MkTransaction {_ T} _ _ _ _ _ _ _ _.
Global Arguments author {_ T} _.
Global Arguments hash {_ T} _.
Global Arguments payload {_ T} _.
Global Arguments nonce {_ T} _.
Global Arguments signature {_ T} _.
Global Arguments propagated {_ T} _.
Global Arguments executed {_ T} _.
Global Arguments state {_ T} _.
Global Instance Transaction_eq_dec `{Secp} {T} `{EqDecision T} : EqDecision (Transaction T).
Proof. solve_decision. Defined.

(** ** Tasks ([types/task.rs]) *)

Module TaskState.
Inductive t := New | Pending | Running | Ready | Failed.
End TaskState.
Module TaskKind.
Inductive t := Proof | Verification | PoW | Nop.
End TaskKind.
Global Instance TaskState_eq_dec : EqDecision TaskState.t.
Proof. solve_decision. Defined.
Global Instance TaskKind_eq_dec : EqDecision TaskKind.t.
Proof. solve_decision. Defined.

(** [Uuid::new_v4()] draws are the arguments of the code that makes them. *)
Definition TaskId := Z.

Record Task := MkTask {
  task_id : TaskId;
  task_tx : Hash;
  task_name : string;
  task_kind : TaskKind.t;
  task_program_id : Hash;
  task_args : list string;
  task_files : list (TaskVmFile VmInput);
  task_serial : Z;
  task_state : TaskState.t
}.
Global Instance Task_eq_dec : EqDecision Task.
Proof. solve_decision. Defined.

(** ** Facts about the data types *)

Lemma array_of_list_Some {A} n (l : list A) v :
  array_of_list n l = Some v ↔ vec_to_list v = l.
Proof.
  split; [|intros <-; apply array_of_list_vec].
  revert l v. induction n as [|n IH]; intros [|x l] v Hv; simpl in Hv; simplify_eq; [done|].
  apply fmap_Some in Hv as (v' & Hv' & ->). simpl. f_equal. by apply IH.
Qed.

Lemma array_of_list_length {A} n (l : list A) :
  is_Some (array_of_list n l) ↔ length l = n.
Proof.
  split.
  - intros [v Hv]. apply array_of_list_Some in Hv as <-. apply length_vec_to_list.
  - intros <-. exists (list_to_vec l). apply array_of_list_Some, vec_to_list_to_vec.
Qed.

Lemma Hash_to_vec_inj h1 h2 : Hash_to_vec h1 = Hash_to_vec h2 → h1 = h2.
Proof.
  destruct h1 as [v1], h2 as [v2]. unfold Hash_to_vec; simpl. intros Heq. f_equal.
  assert (array_of_list HASH_SIZE (vec_to_list v1) = array_of_list HASH_SIZE (vec_to_list v2)) as Hv
    by by rewrite Heq.
  rewrite !array_of_list_vec in Hv. by simplify_eq.
Qed.

Lemma length_Hash_to_vec h : length (Hash_to_vec h) = HASH_SIZE.
Proof. apply length_vec_to_list. Qed.

Lemma u8_val_bound b : (0 ≤ u8_val b < 256)%Z.
Proof. unfold u8_val. assert (Hb := N_ascii_bounded b). lia. Qed.

Lemma u8_val_inj a b : u8_val a = u8_val b → a = b.
Proof.
  unfold u8_val. intros Hab. rewrite <-(ascii_N_embedding a), <-(ascii_N_embedding b).
  f_equal. lia.
Qed.

#[export] Hint Resolve u8_val_bound u8_val_inj Hash_to_vec_inj length_Hash_to_vec : gevulot.
