(* ===== verification/Models.v ===== *)
(** * Concrete models of the external interfaces

    One executable instance per interface class of [Types]: the witnesses of the
    theorems that assume the laws of an external library are evaluated on these,
    which shows that the laws can hold together.  Nothing here is code of the
    repository; [hex_crate] follows the documentation of the [hex] crate, the
    others are the simplest functions with the documented properties. *)

From S2P Require Import Prelude Types.

(** ** A concrete [hex] crate *)

Definition hex_digit (n : Z) : u8 :=
  ascii_of_N (Z.to_N (if (n <? 10)%Z then 48 + n else 87 + n)).
Definition hex_value (c : u8) : option Z :=
  let n := u8_val c in
  if bool_decide (48 ≤ n ≤ 57)%Z then Some (n - 48)%Z
  else if bool_decide (97 ≤ n ≤ 102)%Z then Some (n - 87)%Z
  else None.
Fixpoint hex_encode_list (bs : list u8) : string :=
  match bs with
  | [] => ""
  | b :: bs' => String (hex_digit (u8_val b / 16)) (String (hex_digit (u8_val b `mod` 16))
                  (hex_encode_list bs'))
  end.
Fixpoint hex_decode_list (s : string) : result string (list u8) :=
  match s with
  | EmptyString => Ok []
  | String c (String d s') =>
      match hex_value c, hex_value d with
      | Some x, Some y =>
          bs ← hex_decode_list s'; Ok (ascii_of_N (Z.to_N (16 * x + y)) :: bs)
      | _, _ => Err "Invalid character"
      end
  | _ => Err "Odd number of digits"
  end.
Definition hex_crate : Hex := {| hex_encode := hex_encode_list; hex_decode := hex_decode_list |}.

Lemma hex_byte_ok (b : u8) :
  is_hex_digit (hex_digit (u8_val b / 16)) = true ∧
  is_hex_digit (hex_digit (u8_val b `mod` 16)) = true ∧
  hex_value (hex_digit (u8_val b / 16)) = Some (u8_val b / 16)%Z ∧
  hex_value (hex_digit (u8_val b `mod` 16)) = Some (u8_val b `mod` 16)%Z ∧
  ascii_of_N (Z.to_N (16 * (u8_val b / 16) + u8_val b `mod` 16)) = b.
Proof. destruct b as [[] [] [] [] [] [] [] []]; by vm_compute. Qed.

Lemma hex_crate_laws : @HexLaws hex_crate.
Proof.
  split; simpl; intros bs; induction bs as [|b bs IH]; simpl; try done;
    destruct (hex_byte_ok b) as (H1 & H2 & H3 & H4 & H5).
  - rewrite H3, H4, IH. simpl. by rewrite H5.
  - by repeat constructor.
  - rewrite IH. lia.
Qed.

Definition fill (b : u8) : Hash := MkHash (vreplicate HASH_SIZE b).

(** ** Keys and signatures *)

Definition secp_toy : Secp := {|
  PublicKey := vec u8 65;
  SecretKey := vec u8 65;
  PublicKey_countable := array_countable 65;
  pk_serialize := vec_to_list;
  pk_parse bs := ok_or (array_of_list 65 bs) "InvalidPublicKey";
  from_secret_key sk := sk;
  SecretKey_default := vreplicate 65 zero;
  secp_sign m sk := MkSecpSignature m (u8_val <$> vec_to_list sk);
  secp_verify m sig pk :=
    bool_decide (secp_r sig = m) && bool_decide (secp_s sig = u8_val <$> vec_to_list pk);
  secp_sig_serialize sig := (secp_r sig ++ secp_s sig) ≫= be_bytes 4;
  secp_sig_parse_standard bs := Ok (MkSecpSignature (be_limbs (take 32 bs)) (be_limbs (drop 32 bs)))
|}.

Lemma secp_toy_laws : @SecpLaws secp_toy.
Proof.
  split.
  - intros m sk. simpl. by rewrite !bool_decide_eq_true_2.
  - intros pk. apply length_vec_to_list.
  - intros pk. cbn [pk_parse pk_serialize secp_toy]. by rewrite array_of_list_vec.
Qed.

(** A digest that keeps the first 32 bytes, zero padded. *)
Definition sha3_toy : Sha3 :=
  {| sha3_256 bs := default (vreplicate 32 zero)
       (array_of_list 32 (take 32 (bs ++ replicate 32 zero))) |}.

Definition bigint_toy : NumBigint :=
  {| to_signed_bytes_be z := be_bytes 8 z; bigint_to_string z := hex_encode_list (be_bytes 8 z) |}.

Definition bincode_toy : Bincode :=
  {| bincode_txfiles fs := Ok (fs ≫= λ f, as_bytes (tf_name f) ++ as_bytes (tf_url f)
                                ++ Hash_to_vec (tf_checksum f)) |}.

Definition toy_key (b : u8) : @SecretKey secp_toy := vreplicate 65 b.

(** ** An LRU cache as the list of its keys *)

Definition lru_list : Lru := {|
  LruCache := nat * list Hash;
  lru_new n := (n, []);
  lru_put h c := (fst c, take (fst c) (h :: filter (λ k, k ≠ h) (snd c)));
  lru_contains h c := bool_decide (h ∈ snd c);
  lru_keys := snd;
  lru_cap := fst
|}.

Lemma lru_list_laws : @LruLaws lru_list.
Proof. split; intros; try done. apply bool_decide_eq_true. Qed.
