(* ===== verification/Files.v ===== *)
(** * Files and paths ([crates/node/src/types/file.rs])

    [std::path] on Unix is modelled on the raw strings the code manipulates
    ([PathBuf::push], [Path::strip_prefix], [Path::file_name]); the file system
    is a finite map from resolved paths to contents, so that two spellings of a
    path ([a//b], [a/./b], [a/c/../b]) are the same file. *)

From S2P Require Import Prelude Types Models.

(** ** [std::path] *)

Definition slash : u8 := "/"%char.

(** The pieces between separators; [""] is the single piece of [""]. *)
Fixpoint split_slash (s : string) : list string :=
  match s with
  | EmptyString => [""]
  | String c s' =>
      if decide (c = slash) then "" :: split_slash s'
      else match split_slash s' with
           | [] => [String c ""]
           | p :: ps => String c p :: ps
           end
  end.

Fixpoint join_slash (l : list string) : string :=
  match l with
  | [] => ""
  | [p] => p
  | p :: ps => p +:+ String slash (join_slash ps)
  end.

Definition is_absolute (s : string) : bool :=
  match s with String c _ => bool_decide (c = slash) | EmptyString => false end.

Fixpoint ends_with_slash (s : string) : bool :=
  match s with
  | EmptyString => false
  | String c EmptyString => bool_decide (c = slash)
  | String _ s' => ends_with_slash s'
  end.

(** [PathBuf::push] / [Path::join]: an absolute argument replaces the path, and a
    separator is added only to a non-empty path that does not end with one. *)
Definition path_push (base p : string) : string :=
  if is_absolute p then p
  else if bool_decide (base = "") || ends_with_slash base then base +:+ p
  else base +:+ String slash p.

(** Components ([Path::components]): repeated separators and [.] are ignored. *)
Definition skipped (c : string) : bool := bool_decide (c = "") || bool_decide (c = ".").
Definition components (s : string) : list string :=
  filter (λ c, skipped c = false) (split_slash s).

Fixpoint drop_skipped (l : list string) : list string :=
  match l with
  | c :: l' => if skipped c then drop_skipped l' else l
  | [] => []
  end.

(** [strip_prefix("/")] of an absolute path: what is left between the first and
    the last component, inner separators untouched. *)
Definition strip_root (s : string) : string :=
  join_slash (reverse (drop_skipped (reverse (drop_skipped (split_slash s))))).

(** [Path::file_name]: the last component unless it is [..]. *)
Definition file_name (s : string) : option string :=
  match last (components s) with
  | Some c => if bool_decide (c = "..") then None else Some c
  | None => None
  end.

(** The file a path denotes: [..] goes up one component. *)
Definition resolve_step (st : list string) (c : string) : list string :=
  if bool_decide (c = "..") then take (length st - 1) st else st ++ [c].
Definition path_resolve (s : string) : list string :=
  fold_left resolve_step (components s) [].

(** ** Directories and relative names *)

Definition IMAGES_DIR : string := "images".
Definition TX_FILES_DIR : string := "txfiles".
Definition VM_FILES_DIR : string := "vmfiles".
Definition WORKSPACE_NAME : string := "workspace".

(** The common prologue [if p.is_absolute() { p = p.strip_prefix("/") }]. *)
Definition relative_of (p : string) : string :=
  if is_absolute p then strip_root p else p.

(** The file system: resolved path to content. *)
Abbreviation fs := (gmap (list string) (list u8)).

Section files.
Context `{Hex}.

Definition get_workspace_path (data_directory : string) (tx_hash : Hash) : string :=
  path_push (path_push (path_push (path_push "" data_directory) VM_FILES_DIR)
    (Hash_to_string tx_hash)) WORKSPACE_NAME.

(** [TxFile::build], [TxFile<Output>::new]. *)
Definition TxFile_build {E} (name url : string) (checksum : Hash) (extention : E) : TxFile E :=
  MkTxFile name url checksum extention.
Definition TxFile_Output_new (path http_download_host : string) (checksum : Hash) : TxFile Output :=
  TxFile_build path http_download_host checksum MkOutput.

(** [TxFile<Output>::get_relatif_path]: [txfiles/<tx hash>/<checksum>/<file name>]. *)
Definition TxFile_get_relatif_path (f : TxFile Output) (tx_hash : Hash) : string :=
  let name := default "" (file_name (tf_name f)) in
  path_push (path_push (path_push TX_FILES_DIR (Hash_to_string tx_hash))
    (Hash_to_string (tf_checksum f))) name.

(** [TaskVmFile<VmInput>::new]. *)
Definition TaskVmFile_input_new (vm_path : string) (task_tx : Hash) : TaskVmFile VmInput :=
  let path := path_push (path_push TX_FILES_DIR (Hash_to_string task_tx)) (relative_of vm_path) in
  MkTaskVmFile vm_path (MkVmInput path).

(** [TaskVmFile<VmInput>::try_from_prg_data]. *)
Definition try_from_prg_data (tx_hash : Hash) (parent_output_files : list (TxFile Output))
    (value : ProgramData.t) : result string (TaskVmFile VmInput) :=
  match value with
  | ProgramData.Input file_name _ _ => Ok (TaskVmFile_input_new file_name tx_hash)
  | ProgramData.Output _ file_name =>
      match list_find (λ f, tf_name f = file_name) parent_output_files with
      | Some (_, f) =>
          Ok (MkTaskVmFile file_name (MkVmInput (TxFile_get_relatif_path f tx_hash)))
      | None =>
          Err ("Tx:" +:+ Hash_to_string tx_hash +:+ " program output file:" +:+ file_name
               +:+ " not found")
      end
  end.

(** [TaskVmFile<VmOutput>::new] and [get_relatif_path]. *)
Definition TaskVmFile_output_new (vm_path : string) (task_tx : Hash) : TaskVmFile VmOutput :=
  MkTaskVmFile vm_path (MkVmOutput task_tx).
Definition TaskVmFile_get_relatif_path (f : TaskVmFile VmOutput) : string :=
  path_push (path_push VM_FILES_DIR (Hash_to_string (vm_output_0 (tv_extension f))))
    (relative_of (vm_file_path f)).

(** ** Operations on the file system *)

Definition try_exists (root : fs) (p : string) : bool :=
  bool_decide (is_Some (root !! path_resolve p)).

(** [TxFile<Output>::exist] *)
Definition TxFile_exist (root : fs) (f : TxFile Output) (root_path : string) (tx_hash : Hash) : bool :=
  try_exists root (path_push root_path (TxFile_get_relatif_path f tx_hash)).

(** [TaskVmFile<VmInput>::copy_file_for_vm_exe] *)
Definition copy_file_for_vm_exe (f : TaskVmFile VmInput) (data_dir : string) (tx_hash : Hash)
    : M fs string () := λ root,
  let tx_file := TaskVmFile_output_new (vm_file_path f) tx_hash in
  let to := path_push (path_push "" data_dir) (TaskVmFile_get_relatif_path tx_file) in
  let from := path_push (path_push "" data_dir) (vm_input_0 (tv_extension f)) in
  match root !! path_resolve from with
  | Some content => (Ok (), <[path_resolve to := content]> root)
  | None => (Err ("copy file from:" +:+ from +:+ " to:" +:+ to), root)
  end.

(** [TaskVmFile<VmOutput>::remove_file] *)
Definition remove_file (f : TaskVmFile VmOutput) (base_path : string) : M fs string () := λ root,
  let p := path_push base_path (TaskVmFile_get_relatif_path f) in
  match root !! path_resolve p with
  | Some _ => (Ok (), delete (path_resolve p) root)
  | None => (Err "No such file or directory", root)
  end.

(** [move_vmfile]: rename, or drop the source when the destination is there. *)
Definition move_vmfile (source : TaskVmFile VmOutput) (dest : TxFile Output) (base_path : string)
    (proofverif_tx_hash : Hash) : M fs string () := λ root,
  if TxFile_exist root dest base_path proofverif_tx_hash then
    remove_file source base_path root
  else
    let src := path_resolve (path_push base_path (TaskVmFile_get_relatif_path source)) in
    let dst := path_resolve (path_push base_path (TxFile_get_relatif_path dest proofverif_tx_hash)) in
    match root !! src with
    | Some content => (Ok (), <[dst := content]> (delete src root))
    | None => (Err "No such file or directory", root)
    end.

(** ** Assets to download *)

Record AssetFile := MkAssetFile {
  af_name : string;
  af_file_path : string;
  af_url : string;
  af_checksum : Hash;
  af_verify_exist : bool
}.

Record DbFile := MkDbFile { db_name : string; db_url : string; db_checksum : Hash }.

(** [impl From<DbFile> for TxFile<Output>] *)
Definition TxFile_of_DbFile (file : DbFile) : TxFile Output :=
  TxFile_Output_new (db_name file) (db_url file) (db_checksum file).

(** [reqwest::Url::parse], used here only to reject malformed urls. *)
Class UrlParse := { url_parse : string → result string () }.

(** [AssetFile::new_from_program_data] *)
Definition new_from_program_data `{UrlParse} (data : ProgramData.t) (tx_hash : Hash)
    : result string (option AssetFile) :=
  match data with
  | ProgramData.Input file_name file_url checksum =>
      _ ← url_parse file_url;
      let file_path :=
        path_push (path_push TX_FILES_DIR (Hash_to_string tx_hash)) (relative_of file_name) in
      cs ← Hash_from_str checksum;
      Ok (Some {| af_name := file_name; af_file_path := file_path; af_url := file_url;
                  af_checksum := cs; af_verify_exist := false |})
  | ProgramData.Output _ _ => Ok None
  end.

(** [AssetFile::get_save_path], [get_uri], [exist]. *)
Definition get_save_path (a : AssetFile) : string := af_file_path a.
Definition get_uri (a : AssetFile) : string := get_save_path a.
Definition AssetFile_exist (root : fs) (a : AssetFile) (root_path : string) : bool :=
  if af_verify_exist a then try_exists root (path_push root_path (get_save_path a)) else false.

(** [TxFile<Output>::into_download_file] *)
Definition into_download_file (f : TxFile Output) (tx_hash : Hash) : AssetFile :=
  let relative_path := TxFile_get_relatif_path f tx_hash in
  {| af_name := tf_name f;
     af_file_path := relative_path;
     af_url := tf_url f +:+ String slash relative_path;
     af_checksum := tf_checksum f;
     af_verify_exist := true |}.

(** [TxFile<Image>::try_from_prg_meta_data] and [impl From<TxFile<Image>> for AssetFile]. *)
Definition try_from_prg_meta_data {E} (value : ProgramMetadata) : result E (TxFile Image) :=
  cs ← Hash_from_str (pm_image_file_checksum value);
  Ok (TxFile_build (pm_image_file_name value) (pm_image_file_url value) cs (MkImage (pm_hash value))).
Definition AssetFile_of_image (file : TxFile Image) : AssetFile :=
  {| af_name := tf_name file;
     af_file_path := path_push (path_push IMAGES_DIR (Hash_to_string (image_0 (tf_extention file))))
                       (tf_name file);
     af_url := tf_url file;
     af_checksum := tf_checksum file;
     af_verify_exist := false |}.

End files.

(** ** Lemmas on paths *)

Definition no_slash (s : string) : Prop := Forall (λ c, c ≠ slash) (as_bytes s).
Definition safe_piece (c : string) : Prop := no_slash c ∧ c ≠ "" ∧ c ≠ "." ∧ c ≠ "..".

Lemma split_slash_nonempty s : split_slash s ≠ [].
Proof. destruct s; simpl; [done|]. case_decide; [done|]. by destruct (split_slash s). Qed.

Lemma split_slash_sep a b :
  split_slash (a +:+ String slash b) = split_slash a ++ split_slash b.
Proof.
  induction a as [|c a IH]; simpl; [done|].
  rewrite IH. case_decide; [done|].
  destruct (split_slash a) eqn:Ha; [by apply split_slash_nonempty in Ha|done].
Qed.

Lemma split_slash_pieces s c : c ∈ split_slash s → no_slash c.
Proof.
  revert c. induction s as [|x s IH]; simpl; intros c Hc.
  - apply list_elem_of_singleton in Hc as ->. constructor.
  - case_decide.
    + apply elem_of_cons in Hc as [->|Hc]; [constructor|by apply IH].
    + destruct (split_slash s) as [|p ps] eqn:Hs.
      * apply list_elem_of_singleton in Hc as ->. constructor; [done|constructor].
      * apply elem_of_cons in Hc as [->|Hc].
        -- constructor; [done|]. apply IH. by left.
        -- apply IH. by right.
Qed.

Lemma split_slash_one c : no_slash c → split_slash c = [c].
Proof.
  induction c as [|x c IH]; [done|]. intros Hc. simpl.
  inversion Hc as [|? ? Hx Hc']; subst. rewrite decide_False by done.
  by rewrite IH.
Qed.

Lemma components_sep a b : components (a +:+ String slash b) = components a ++ components b.
Proof. unfold components. by rewrite split_slash_sep, filter_app. Qed.

Lemma ends_with_slash_inv s : ends_with_slash s = true → ∃ s', s = s' +:+ String slash "".
Proof.
  induction s as [|c s IH]; [done|]. destruct s as [|d s]; intros Hs.
  - cbn in Hs. apply bool_decide_eq_true_1 in Hs as ->. by exists "".
  - destruct IH as [s' Hs']; [done|]. exists (String c s'). by rewrite Hs'.
Qed.

Lemma append_assoc (a b c : string) : (a +:+ b) +:+ c = a +:+ (b +:+ c).
Proof.
  induction a as [|x a IH]; [done|].
  change (String x ((a +:+ b) +:+ c) = String x (a +:+ (b +:+ c))). by rewrite IH.
Qed.

Lemma components_push base p :
  is_absolute p = false → components (path_push base p) = components base ++ components p.
Proof.
  intros Hp. unfold path_push. rewrite Hp.
  case_bool_decide as Hb; simpl; [by subst|].
  destruct (ends_with_slash base) eqn:He; [|apply components_sep].
  apply ends_with_slash_inv in He as [b ->].
  rewrite append_assoc.
  change (String slash "" +:+ p) with (String slash p). rewrite !components_sep.
  change (components "") with (@nil string). by rewrite app_nil_r.
Qed.

Lemma push_relative base p :
  is_absolute base = false ∧ base ≠ "" → is_absolute p = false →
  is_absolute (path_push base p) = false ∧ path_push base p ≠ "".
Proof.
  intros [Hb Hne] Hp. unfold path_push. rewrite Hp.
  destruct base as [|c base]; [done|]. by destruct (_ || _).
Qed.

Lemma no_slash_relative p : no_slash p → is_absolute p = false.
Proof.
  destruct p as [|c p]; [done|]. inversion 1; subst. simpl. by apply bool_decide_eq_false_2.
Qed.

Lemma safe_component c : safe_piece c → components c = [c] ∧ is_absolute c = false.
Proof.
  intros (Hs & Hne & Hd & _). split; [|by apply no_slash_relative].
  unfold components. rewrite (split_slash_one c Hs), filter_cons_True; [done|].
  unfold skipped. by rewrite !bool_decide_eq_false_2.
Qed.

Lemma resolve_safe l st :
  Forall safe_piece l → fold_left resolve_step l st = st ++ l.
Proof.
  intros Hl. revert st. induction Hl as [|c l Hc Hl IH]; intros st; simpl.
  - by rewrite app_nil_r.
  - rewrite IH. unfold resolve_step. destruct Hc as (_ & _ & _ & Hc).
    rewrite bool_decide_eq_false_2 by done. by rewrite <-app_assoc.
Qed.

Lemma resolve_push base p :
  is_absolute p = false →
  path_resolve (path_push base p) = fold_left resolve_step (components p) (path_resolve base).
Proof.
  intros Hp. unfold path_resolve. by rewrite components_push, fold_left_app.
Qed.

Lemma file_name_safe s c : file_name s = Some c → safe_piece c.
Proof.
  unfold file_name. destruct (last (components s)) as [d|] eqn:Hl; [|done].
  case_bool_decide as Hd; [done|]. intros ?; simplify_eq.
  apply last_Some_elem_of in Hl. unfold components in Hl.
  apply list_elem_of_filter in Hl as [Hk Hin].
  unfold skipped in Hk. apply orb_false_iff in Hk as [Hk1 Hk2].
  apply bool_decide_eq_false_1 in Hk1, Hk2.
  split_and!; try done. by apply (split_slash_pieces s).
Qed.

Section path_theorems.
Context `{HexLaws}.

Lemma hash_string_safe h : safe_piece (Hash_to_string h).
Proof.
  assert (Hd := hex_encode_digits (Hash_to_vec h)).
  assert (Hl := hex_encode_length (Hash_to_vec h)).
  unfold Hash_to_string, Hash_to_vec in *. rewrite length_vec_to_list in Hl.
  set (s := hex_encode _) in *. clearbody s.
  assert (no_slash s) as Hns.
  { eapply Forall_impl; [exact Hd|]. by intros c Hc ->. }
  split_and!; [done|by intros -> .. ].
Qed.

Lemma txfile_path_components f tx :
  components (TxFile_get_relatif_path f tx) =
    [TX_FILES_DIR; Hash_to_string tx; Hash_to_string (tf_checksum f)]
    ++ option_list (file_name (tf_name f))
  ∧ is_absolute (TxFile_get_relatif_path f tx) = false.
Proof.
  unfold TxFile_get_relatif_path.
  destruct (safe_component _ (hash_string_safe tx)) as [Ht Hta].
  destruct (safe_component _ (hash_string_safe (tf_checksum f))) as [Hc Hca].
  assert (is_absolute (default "" (file_name (tf_name f))) = false
          ∧ components (default "" (file_name (tf_name f))) = option_list (file_name (tf_name f)))
    as [Hna Hn].
  { destruct (file_name (tf_name f)) as [n|] eqn:Hf; simpl; [|done].
    apply file_name_safe, safe_component in Hf as [-> ->]. done. }
  split.
  - rewrite !components_push by done. by rewrite Ht, Hc, Hn.
  - do 3 (apply push_relative; [|done]). done.
Qed.

(** C26: wherever the data directory is, the on-disk location of an output file of
    a proof or verification is [<data dir>/txfiles/<tx hash>/<checksum>/<name>]
    (or that directory itself when the VM path has no file name): whatever name a
    peer or a VM gives to the file, [..] and absolute names included, the path
    stays below the directory of its own transaction and checksum. *)
Theorem output_path_contained (f : TxFile Output) (tx : Hash) (base : string) :
  path_resolve (path_push base (TxFile_get_relatif_path f tx)) =
    path_resolve base ++ [TX_FILES_DIR; Hash_to_string tx; Hash_to_string (tf_checksum f)]
    ++ option_list (file_name (tf_name f)).
Proof.
  destruct (txfile_path_components f tx) as [Hc Ha].
  rewrite resolve_push, Hc by done. apply resolve_safe.
  repeat constructor; try apply hash_string_safe; try done.
  destruct (file_name (tf_name f)) eqn:Hf; simpl; repeat constructor.
  all: by apply file_name_safe in Hf as (? & ? & ? & ?).
Qed.

Lemma path_push_empty d : path_push "" d = d.
Proof. unfold path_push. by destruct (is_absolute d). Qed.

Lemma move_vmfile_spec source dest base tx root root' :
  move_vmfile source dest base tx root = (Ok (), root') →
  let src := path_resolve (path_push base (TaskVmFile_get_relatif_path source)) in
  let dst := path_resolve (path_push base (TxFile_get_relatif_path dest tx)) in
  ∃ content, root !! src = Some content ∧
    root' = match root !! dst with
            | Some _ => delete src root
            | None => <[dst := content]> (delete src root)
            end.
Proof.
  unfold move_vmfile, TxFile_exist, try_exists, remove_file. cbn zeta.
  case_bool_decide as Hd.
  - destruct Hd as [c Hc]. rewrite Hc. case_match; intros ?; simplify_eq; eauto.
  - case_match eqn:Hs; intros ?; simplify_eq. eexists; split; [done|].
    by rewrite (proj2 (eq_None_not_Some _) Hd).
Qed.

(** C27: the file hand-over between two tasks of a workflow. When the result file
    of a VM has been moved under the hash of the proof transaction, the task that
    the workflow engine derives from that transaction for a step whose input is
    this output copies exactly the same content into the workspace of the next
    VM. *)
Theorem output_reaches_next_task (vm_path host : string) (cs task_tx proof_tx : Hash)
    (base : string) (files : list (TxFile Output)) (src_prog : Hash) (idx : nat)
    (root root1 : fs) (content : list u8) (vf : TaskVmFile VmInput) :
  let source := TaskVmFile_output_new vm_path task_tx in
  let dest := TxFile_Output_new vm_path host cs in
  root !! path_resolve (path_push base (TaskVmFile_get_relatif_path source)) = Some content →
  TxFile_exist root dest base proof_tx = false →
  move_vmfile source dest base proof_tx root = (Ok (), root1) →
  list_find (λ f, tf_name f = vm_path) files = Some (idx, dest) →
  try_from_prg_data proof_tx files (ProgramData.Output src_prog vm_path) = Ok vf →
  ∃ root2, copy_file_for_vm_exe vf base proof_tx root1 = (Ok (), root2) ∧
    root2 !! path_resolve (path_push base
      (TaskVmFile_get_relatif_path (TaskVmFile_output_new vm_path proof_tx))) = Some content.
Proof.
  intros source dest Hsrc Hne Hmv Hfind Htry.
  apply move_vmfile_spec in Hmv as (c & Hc & Hr). rewrite Hc in Hsrc. simplify_eq.
  unfold TxFile_exist, try_exists in Hne. apply bool_decide_eq_false_1 in Hne.
  rewrite (proj2 (eq_None_not_Some _) Hne).
  simpl in Htry. rewrite Hfind in Htry. simplify_eq.
  unfold copy_file_for_vm_exe; simpl. rewrite !path_push_empty.
  rewrite lookup_insert_eq. eexists; split; [done|]. by rewrite lookup_insert_eq.
Qed.

End path_theorems.

Example output_path_contained_witness :
  let f := TxFile_Output_new "/workspace/../../etc/passwd" "http://h" (fill "a") in
  @path_resolve (path_push "data" (@TxFile_get_relatif_path hex_crate f (fill "b"))) =
    ["data"; "txfiles"; @Hash_to_string hex_crate (fill "b");
     @Hash_to_string hex_crate (fill "a"); "passwd"].
Proof. exact (@output_path_contained hex_crate hex_crate_laws _ (fill "b") "data"). Defined.

Example output_reaches_next_task_witness :
  let path := "/workspace/proof.dat" in
  let source := TaskVmFile_output_new path (fill "r") in
  let dest := TxFile_Output_new path "http://h" (fill "c") in
  let src := path_resolve (path_push "d" (@TaskVmFile_get_relatif_path hex_crate source)) in
  let root : fs := {[ src := as_bytes "proof" ]} in
  ∃ root1 vf root2,
    @move_vmfile hex_crate source dest "d" (fill "p") root = (Ok (), root1) ∧
    @try_from_prg_data hex_crate (fill "p") [dest] (ProgramData.Output (fill "x") path) = Ok vf ∧
    @copy_file_for_vm_exe hex_crate vf "d" (fill "p") root1 = (Ok (), root2) ∧
    root2 !! path_resolve (path_push "d" (@TaskVmFile_get_relatif_path hex_crate
      (TaskVmFile_output_new path (fill "p")))) = Some (as_bytes "proof").
Proof.
  intros path source dest src root.
  set (mv := @move_vmfile hex_crate source dest "d" (fill "p") root).
  assert (mv = (Ok (), snd mv)) as Hmv.
  { rewrite (surjective_pairing mv) at 1. by f_equal. }
  exists (snd mv), (MkTaskVmFile path (MkVmInput (@TxFile_get_relatif_path hex_crate dest (fill "p")))).
  destruct (@output_reaches_next_task hex_crate path "http://h" (fill "c") (fill "r") (fill "p")
    "d" [dest] (fill "x") 0 root (snd mv) (as_bytes "proof")
    (MkTaskVmFile path (MkVmInput (@TxFile_get_relatif_path hex_crate dest (fill "p")))))
    as (root2 & Hcopy & Hres); [by vm_compute|by vm_compute|exact Hmv|reflexivity..|].
  exists root2. split_and!; [exact Hmv|reflexivity|exact Hcopy|exact Hres].
Defined.

(** The containment of [output_path_contained] is not shared by the names of
    program inputs: [..] is kept by [strip_prefix] and [push], so that the
    download location of an input asset can leave the data directory. *)
Example input_path_escapes :
  @path_resolve (path_push "data" (vm_input_0 (tv_extension
    (@TaskVmFile_input_new hex_crate "/../../../etc/passwd" (fill "a"))))) = ["etc"; "passwd"].
Proof. by vm_compute. Qed.
