(* ===== verification/Transaction.v ===== *)
(** * Transactions ([crates/node/src/types/transaction.rs])

    Serialisation and hashing of payloads, signing, the type-state transition
    [Created -> Received], verification and validation, and the list of assets a
    received transaction makes the node download. *)

From S2P Require Import Prelude Types Models Files.

Section transaction.
Context `{Hex, Secp, Sha3, NumBigint, Bincode}.

(** ** Serialisation: every function appends to the buffer it is given *)

Definition update_hash (p : ProgramMetadata) : ProgramMetadata :=
  {| pm_name := pm_name p;
     pm_hash := MkHash (sha3_256 (as_bytes (pm_name p) ++ as_bytes (pm_image_file_name p)
                 ++ as_bytes (pm_image_file_url p) ++ as_bytes (pm_image_file_checksum p)));
     pm_image_file_name := pm_image_file_name p;
     pm_image_file_url := pm_image_file_url p;
     pm_image_file_checksum := pm_image_file_checksum p;
     pm_resource_requirements := pm_resource_requirements p |}.

Definition ProgramMetadata_serialize_into (p : ProgramMetadata) (buf : list u8) : list u8 :=
  let buf := buf ++ as_bytes (pm_name p) in
  let buf := buf ++ Hash_to_vec (pm_hash p) in
  let buf := buf ++ as_bytes (pm_image_file_name p) in
  let buf := buf ++ as_bytes (pm_image_file_url p) in
  buf ++ as_bytes (pm_image_file_checksum p).

Definition ProgramData_serialize_into (d : ProgramData.t) (buf : list u8) : list u8 :=
  match d with
  | ProgramData.Input file_name file_url checksum =>
      ((buf ++ as_bytes file_name) ++ as_bytes file_url) ++ as_bytes checksum
  | ProgramData.Output source_program file_name =>
      (buf ++ Hash_to_vec source_program) ++ as_bytes file_name
  end.

Definition WorkflowStep_serialize_into (s : WorkflowStep) (buf : list u8) : list u8 :=
  let buf := buf ++ Hash_to_vec (ws_program s) in
  let buf := fold_left (λ buf e, buf ++ as_bytes e) (ws_args s) buf in
  fold_left (λ buf e, ProgramData_serialize_into e buf) (ws_inputs s) buf.

Definition Workflow_serialize_into (w : Workflow) (buf : list u8) : list u8 :=
  fold_left (λ buf e, WorkflowStep_serialize_into e buf) (wf_steps w) buf.

(** [vec_to_bytes(files).unwrap()] panics when [bincode] fails. *)
Definition vec_to_bytes {E} (files : list (TxFile Output)) : result E (list u8) :=
  match bincode_txfiles files with Ok bs => Ok bs | _ => Panic end.

Definition Payload_serialize_into {E} (p : Payload.t) (buf : list u8) : result E (list u8) :=
  match p with
  | Payload.Empty => Ok buf
  | Payload.Transfer to value => Ok ((buf ++ pk_serialize to) ++ to_signed_bytes_be value)
  | Payload.Stake value => Ok (buf ++ to_signed_bytes_be value)
  | Payload.Unstake value => Ok (buf ++ to_signed_bytes_be value)
  | Payload.Deploy name prover verifier =>
      Ok (ProgramMetadata_serialize_into verifier
            (ProgramMetadata_serialize_into prover (buf ++ as_bytes name)))
  | Payload.Run workflow => Ok (Workflow_serialize_into workflow buf)
  | Payload.Proof parent prover proof files =>
      bs ← vec_to_bytes files;
      Ok (((((buf ++ Hash_to_vec parent) ++ Hash_to_vec prover) ++ proof) ++ proof) ++ bs)
  | Payload.ProofKey parent key => Ok ((buf ++ Hash_to_vec parent) ++ key)
  | Payload.Verification parent verifier verification files =>
      bs ← vec_to_bytes files;
      Ok ((((buf ++ Hash_to_vec parent) ++ Hash_to_vec verifier) ++ verification) ++ bs)
  | Payload.Cancel parent => Ok (buf ++ Hash_to_vec parent)
  end.

(** ** Accessors of a payload *)

Definition Payload_display (p : Payload.t) : string :=
  match p with
  | Payload.Empty => "(Empty)"
  | Payload.Transfer _ _ => "(Transfer)"
  | Payload.Stake _ => "(Stake)"
  | Payload.Unstake _ => "(Unstake)"
  | Payload.Deploy _ _ _ => "(Deploy)"
  | Payload.Run _ => "(Run)"
  | Payload.Proof _ _ _ _ => "(Proof)"
  | Payload.ProofKey _ _ => "(ProofKey)"
  | Payload.Verification _ _ _ _ => "(Verification)"
  | Payload.Cancel _ => "(Cancel)"
  end.

Definition get_parent_tx (p : Payload.t) : option Hash :=
  match p with
  | Payload.Proof parent _ _ _ => Some parent
  | Payload.ProofKey parent _ => Some parent
  | Payload.Verification parent _ _ _ => Some parent
  | _ => None
  end.

Definition get_deploy_programs (p : Payload.t) : list Hash :=
  match p with
  | Payload.Deploy _ prover verifier => [pm_hash prover; pm_hash verifier]
  | _ => []
  end.

Definition get_run_programs_dep (p : Payload.t) : list Hash :=
  match p with
  | Payload.Run workflow => ws_program <$> wf_steps workflow
  | _ => []
  end.

Definition is_run_payload (p : Payload.t) : bool :=
  match p with Payload.Run _ => true | _ => false end.

(** ** Hashing, signing and type-state transitions *)

Definition compute_hash {E T} (tx : Transaction T) : result E Hash :=
  buf ← Payload_serialize_into (payload tx) [];
  Ok (MkHash (sha3_256 (pk_serialize (author tx) ++ buf ++ be_bytes 8 (nonce tx)))).

Definition sign {E} (tx : Transaction Created) (key : SecretKey) : result E (Transaction Created) :=
  h ← compute_hash tx;
  let sig := secp_sign (Hash_to_message h) key in
  Ok {| author := author tx; hash := h; payload := payload tx; nonce := nonce tx;
        signature := Signature_of_secp sig; propagated := propagated tx;
        executed := executed tx; state := state tx |}.

Definition Transaction_new {E} (p : Payload.t) (signing_key : SecretKey)
    : result E (Transaction Created) :=
  sign {| author := from_secret_key signing_key; hash := Hash_default; payload := p; nonce := 0;
          signature := Signature_default; propagated := false; executed := false;
          state := MkCreated |} signing_key.

Definition Transaction_default : Transaction Created :=
  {| author := from_secret_key SecretKey_default; hash := Hash_default; payload := Payload.Empty;
     nonce := 0; signature := Signature_default; propagated := false; executed := false;
     state := MkCreated |}.

Definition into_received (tx : Transaction Created) (st : Received.t) : Transaction Received.t :=
  {| author := author tx; hash := hash tx; payload := payload tx; nonce := nonce tx;
     signature := signature tx; propagated := propagated tx; executed := executed tx;
     state := st |}.

(** ** Verification and validation of a received transaction *)

Definition verify {E} (tx : Transaction Received.t) : result E bool :=
  h ← compute_hash tx;
  Ok (secp_verify (Hash_to_message h) (Signature_to_secp (signature tx)) (author tx)).

Inductive TransactionError :=
  | TxValidation (msg : string)
  | TxGeneral (msg : string).

(** The [HashSet] loop over the steps of a [Run] payload. *)
Fixpoint check_programs (steps : list WorkflowStep) (programs : gset Hash)
    : result TransactionError () :=
  match steps with
  | [] => Ok ()
  | step :: rest =>
      if decide (ws_program step ∈ programs)
      then Err (TxValidation ("multiple programs in workflow: " +:+ Hash_to_string (ws_program step)))
      else check_programs rest ({[ws_program step]} ∪ programs)
  end.

Definition validate (tx : Transaction Received.t) : result TransactionError () :=
  _ ← match payload tx with
      | Payload.Run workflow => check_programs (wf_steps workflow) ∅
      | _ => Ok ()
      end;
  ok ← verify tx;
  if negb ok then Err (TxValidation "signature verification failed") else Ok ().

Definition is_from_tx_exec_result (s : Received.t) : bool :=
  match s with Received.TXRESULT => true | _ => false end.

(** [flat_map(inputs).filter_map(new_from_program_data(..).transpose()).collect()] *)
Fixpoint run_assets `{UrlParse} (inputs : list ProgramData.t) (tx_hash : Hash)
    : result string (list AssetFile) :=
  match inputs with
  | [] => Ok []
  | input :: rest =>
      o ← new_from_program_data input tx_hash;
      l ← run_assets rest tx_hash;
      Ok (option_list o ++ l)
  end.

Definition get_asset_list `{UrlParse} (tx : Transaction Received.t) : result string (list AssetFile) :=
  match payload tx with
  | Payload.Deploy _ prover verifier =>
      p ← try_from_prg_meta_data prover;
      v ← try_from_prg_meta_data verifier;
      Ok [AssetFile_of_image p; AssetFile_of_image v]
  | Payload.Run workflow => run_assets (wf_steps workflow ≫= ws_inputs) (hash tx)
  | Payload.Proof _ _ _ files | Payload.Verification _ _ _ files =>
      if is_from_tx_exec_result (state tx) then Ok []
      else Ok ((λ f, into_download_file f (hash tx)) <$> files)
  | _ => Ok []
  end.

End transaction.

(** ** Hashes as messages and strings *)

Lemma from_be_bytes_4 a b c d :
  from_be_bytes [a; b; c; d] =
    (((u8_val a * 256 + u8_val b) * 256 + u8_val c) * 256 + u8_val d)%Z.
Proof. unfold from_be_bytes. simpl. lia. Qed.

Lemma be_limbs_inj n l1 l2 :
  length l1 = 4 * n → length l2 = 4 * n → be_limbs l1 = be_limbs l2 → l1 = l2.
Proof.
  revert l1 l2. induction n as [|n IH]; intros l1 l2 H1 H2 Heq.
  - destruct l1, l2; simpl in *; done || lia.
  - destruct l1 as [|a1 [|b1 [|c1 [|d1 l1]]]]; simpl in H1; try lia.
    destruct l2 as [|a2 [|b2 [|c2 [|d2 l2]]]]; simpl in H2; try lia.
    cbn [be_limbs] in Heq. apply (inj2 cons) in Heq as [Hh Ht].
    rewrite !from_be_bytes_4 in Hh.
    pose proof (u8_val_bound a1). pose proof (u8_val_bound a2).
    pose proof (u8_val_bound b1). pose proof (u8_val_bound b2).
    pose proof (u8_val_bound c1). pose proof (u8_val_bound c2).
    pose proof (u8_val_bound d1). pose proof (u8_val_bound d2).
    assert (u8_val a1 = u8_val a2 ∧ u8_val b1 = u8_val b2 ∧ u8_val c1 = u8_val c2
            ∧ u8_val d1 = u8_val d2) as (Ha & Hb & Hc & Hd) by lia.
    apply u8_val_inj in Ha, Hb, Hc, Hd. subst. do 4 f_equal.
    apply IH; [lia|lia|done].
Qed.

(** The conversion of a transaction hash into the message that is signed loses
    nothing: two different hashes give two different messages. *)
Theorem message_of_hash_injective (h1 h2 : Hash) :
  Hash_to_message h1 = Hash_to_message h2 → h1 = h2.
Proof.
  intros Heq. apply Hash_to_vec_inj.
  by apply (be_limbs_inj 8); [rewrite length_Hash_to_vec..|].
Qed.

Example message_of_hash_injective_witness : fill "a" = fill "a".
Proof. apply message_of_hash_injective. by vm_compute. Defined.

Lemma hash_from_slice_to_vec {E} h : Hash_from_slice (E:=E) (Hash_to_vec h) = Ok h.
Proof. destruct h as [v]. unfold Hash_from_slice, Hash_to_vec. by rewrite array_of_list_vec. Qed.

Lemma hash_string_back `{HexLaws} {E} (h : Hash) : Hash_from_str (E:=E) (Hash_to_string h) = Ok h.
Proof.
  unfold Hash_from_str, Hash_to_string. rewrite hex_decode_encode.
  apply hash_from_slice_to_vec.
Qed.

(** A hash survives its textual form: what [Display] prints (and Postgres or
    JSON stores) is parsed back to the same hash without a panic. *)
Theorem hash_string_roundtrip `{HexLaws} {E} (h : Hash) :
  Hash_from_str (E:=E) (Hash_to_string h) = Ok h.
Proof. apply hash_string_back. Qed.

Example hash_string_roundtrip_witness :
  @Hash_from_str hex_crate string (@Hash_to_string hex_crate (fill "x")) = Ok (fill "x").
Proof. exact (@hash_string_roundtrip hex_crate hex_crate_laws string (fill "x")). Defined.

(** ** Signing and validation *)

(** The transaction with another value in its [hash] field. *)
Definition set_hash `{Secp} {T} (tx : Transaction T) (h : Hash) : Transaction T :=
  {| author := author tx; hash := h; payload := payload tx; nonce := nonce tx;
     signature := signature tx; propagated := propagated tx; executed := executed tx;
     state := state tx |}.

(** The steps of a [Run] payload, the empty list for the other payloads. *)
Definition run_steps `{Secp} (p : Payload.t) : list WorkflowStep :=
  match p with Payload.Run workflow => wf_steps workflow | _ => [] end.

Section validation.
Context `{Hex, SL : SecpLaws, Sha3, NumBigint, Bincode}.

Lemma compute_hash_fields {E T T'} (tx : Transaction T) (tx' : Transaction T') :
  author tx = author tx' → payload tx = payload tx' → nonce tx = nonce tx' →
  compute_hash (E:=E) tx = compute_hash tx'.
Proof. unfold compute_hash. by intros -> -> ->. Qed.

Lemma check_programs_ok steps seen :
  check_programs steps seen = Ok () ↔
  NoDup (ws_program <$> steps) ∧ ∀ s, s ∈ steps → ws_program s ∉ seen.
Proof.
  revert seen. induction steps as [|s steps IH]; intros seen; simpl.
  - split; [|done]. intros _. split; [constructor|]. by intros s Hs%elem_of_nil.
  - case_decide as Hin.
    + split; [done|]. intros [_ Hs]. by destruct (Hs s (list_elem_of_here _ _)).
    + rewrite IH, NoDup_cons. split.
      * intros [Hnd Hs]. split_and!; [|done|].
        -- intros (s' & Heq & Hs')%list_elem_of_fmap. apply (Hs s' Hs'). set_solver.
        -- intros s' [->|Hs']%elem_of_cons; [done|]. specialize (Hs s' Hs'). set_solver.
      * intros [[Hnot Hnd] Hs]. split; [done|]. intros s' Hs'.
        apply not_elem_of_union. split; [|apply Hs; by right].
        rewrite elem_of_singleton. intros Heq. apply Hnot.
        rewrite <-Heq. by apply list_elem_of_fmap_2.
Qed.

Lemma check_programs_no_panic steps seen : check_programs steps seen ≠ Panic.
Proof. revert seen. induction steps; intros seen; simpl; [done|]. by case_decide. Qed.

Lemma check_programs_payload (p : Payload.t) :
  match p with Payload.Run workflow => check_programs (wf_steps workflow) ∅ | _ => Ok () end
  = check_programs (run_steps p) ∅.
Proof. by destruct p. Qed.

Lemma validate_spec_aux (tx : Transaction Received.t) :
  validate tx = Ok () ↔
  NoDup (ws_program <$> run_steps (payload tx)) ∧
  ∃ h : Hash, compute_hash (E:=TransactionError) tx = Ok h ∧
    secp_verify (Hash_to_message h) (Signature_to_secp (signature tx)) (author tx) = true.
Proof.
  unfold validate, verify. rewrite check_programs_payload. split.
  - intros ([] & Hp & (ok & (h & Hh & Hok)%result_bind_Ok & Hif)%result_bind_Ok)%result_bind_Ok.
    apply check_programs_ok in Hp as [Hp _]. simplify_eq.
    destruct (secp_verify _ _ _) eqn:Hv; simplify_eq/=. eauto.
  - intros [Hp (h & Hh & Hv)].
    assert (check_programs (run_steps (payload tx)) ∅ = Ok ()) as ->.
    { apply check_programs_ok. set_solver. }
    simpl. rewrite Hh. simpl. by rewrite Hv.
Qed.

(** C2: validation accepts exactly the transactions whose signature verifies under
    the author's key over the recomputed hash and whose workflow, if any, names
    every program once; nothing else is accepted and nothing else is checked. *)
Theorem validate_spec (tx : Transaction Received.t) :
  validate tx = Ok () ↔
  NoDup (ws_program <$> run_steps (payload tx)) ∧
  ∃ h : Hash, compute_hash (E:=TransactionError) tx = Ok h ∧
    secp_verify (Hash_to_message h) (Signature_to_secp (signature tx)) (author tx) = true.
Proof. apply validate_spec_aux. Qed.

Lemma signature_secp_roundtrip sig : Signature_to_secp (Signature_of_secp sig) = sig.
Proof. by destruct sig. Qed.

Lemma compute_hash_new {T} p sk (tx : Transaction Created) (tx' : Transaction T) :
  Transaction_new (E:=TransactionError) p sk = Ok tx →
  author tx' = author tx → payload tx' = payload tx → nonce tx' = nonce tx →
  compute_hash (E:=TransactionError) tx' = Ok (hash tx).
Proof.
  intros Hnew Ha Hpl Hn. unfold Transaction_new, sign in Hnew.
  apply result_bind_Ok in Hnew as (h & Hh & Hnew). simplify_eq/=.
  rewrite <-Hh. by apply compute_hash_fields.
Qed.

Lemma new_tx_validates_aux p sk (tx : Transaction Created) src :
  NoDup (ws_program <$> run_steps p) →
  Transaction_new (E:=TransactionError) p sk = Ok tx →
  validate (into_received tx src) = Ok ().
Proof.
  intros Hp Hnew. apply validate_spec_aux.
  assert (payload tx = p ∧ author tx = from_secret_key sk ∧
    signature tx = Signature_of_secp (secp_sign (Hash_to_message (hash tx)) sk)) as (Hpl & Ha & Hs).
  { unfold Transaction_new, sign in Hnew.
    by apply result_bind_Ok in Hnew as (h & _ & Hnew); simplify_eq/=. }
  split; [simpl; by rewrite Hpl|]. exists (hash tx).
  split; [by apply (compute_hash_new p sk)|].
  simpl. rewrite Ha, Hs, signature_secp_roundtrip. apply secp_verify_sign.
Qed.

(** A transaction built by [Transaction::new] with a workflow that names every
    program once is accepted by the validation of every node, from whichever
    source it is received. *)
Theorem new_tx_validates (p : Payload.t) (sk : SecretKey) (tx : Transaction Created)
    (src : Received.t) :
  NoDup (ws_program <$> run_steps p) →
  Transaction_new (E:=TransactionError) p sk = Ok tx →
  validate (into_received tx src) = Ok ().
Proof. apply new_tx_validates_aux. Qed.

(** Validation does not tie the [hash] field to the content it recomputes: for
    every well-signed transaction and every other hash [h], the transaction that
    carries [h] instead is accepted too, although [h] is not the hash of its
    content. *)
Theorem forged_hash_validates (p : Payload.t) (sk : SecretKey) (tx : Transaction Created)
    (src : Received.t) (h : Hash) :
  NoDup (ws_program <$> run_steps p) →
  Transaction_new (E:=TransactionError) p sk = Ok tx →
  h ≠ hash tx →
  let forged := set_hash (into_received tx src) h in
  validate forged = Ok () ∧ compute_hash (E:=TransactionError) forged ≠ Ok (hash forged).
Proof.
  intros Hp Hnew Hne forged. split.
  - rewrite <-(new_tx_validates_aux p sk tx src Hp Hnew). reflexivity.
  - rewrite (compute_hash_new p sk tx forged Hnew) by done. simpl. congruence.
Qed.

(** The payload encoding that is hashed and signed does not say which kind of
    payload it is: a signed [Stake] is also a validly signed [Unstake] of the same
    amount by the same author, and conversely. *)
Theorem stake_signature_transfers (tx : Transaction Received.t) (v : Z) (p q : Payload.t) :
  p ∈ [Payload.Stake v; Payload.Unstake v] → q ∈ [Payload.Stake v; Payload.Unstake v] →
  payload tx = p →
  validate {| author := author tx; hash := hash tx; payload := q; nonce := nonce tx;
              signature := signature tx; propagated := propagated tx; executed := executed tx;
              state := state tx |} = validate tx.
Proof.
  intros Hp Hq Htx. unfold validate, verify, compute_hash. simpl. rewrite Htx.
  assert (p = Payload.Stake v ∨ p = Payload.Unstake v) as [-> | ->] by set_solver;
  assert (q = Payload.Stake v ∨ q = Payload.Unstake v) as [-> | ->] by set_solver; done.
Qed.

End validation.

(** ** Witnesses *)

Section witnesses.
Local Existing Instances hex_crate hex_crate_laws secp_toy secp_toy_laws sha3_toy bigint_toy
  bincode_toy.

Definition demo_step (c : u8) : WorkflowStep := MkWorkflowStep (fill c) [] [].
Definition demo_run : Payload.t := Payload.Run (MkWorkflow [demo_step "p"; demo_step "v"]).
Definition demo_tx : Transaction Created :=
  match Transaction_new (E:=TransactionError) demo_run (toy_key "k") with
  | Ok tx => tx
  | _ => Transaction_default
  end.

Lemma demo_run_nodup : NoDup (ws_program <$> run_steps demo_run).
Proof. apply (bool_decide_unpack _). by vm_compute. Qed.

Example validate_spec_witness :
  validate (into_received demo_tx Received.P2P) = Ok ().
Proof.
  apply validate_spec. split; [exact demo_run_nodup|].
  exists (hash demo_tx). split; by vm_compute.
Defined.

Example new_tx_validates_witness :
  validate (into_received demo_tx Received.RPC) = Ok ().
Proof.
  apply (new_tx_validates demo_run (toy_key "k")); [exact demo_run_nodup|reflexivity].
Defined.

Example forged_hash_validates_witness :
  let forged := set_hash (into_received demo_tx Received.P2P) (fill "z") in
  validate forged = Ok () ∧ compute_hash (E:=TransactionError) forged ≠ Ok (hash forged).
Proof.
  apply (forged_hash_validates demo_run (toy_key "k"));
    [exact demo_run_nodup|reflexivity|by vm_compute].
Defined.

Definition demo_stake : Transaction Received.t :=
  match Transaction_new (E:=TransactionError) (Payload.Stake 7) (toy_key "k") with
  | Ok tx => into_received tx Received.RPC
  | _ => into_received Transaction_default Received.RPC
  end.

Example stake_signature_transfers_witness :
  validate {| author := author demo_stake; hash := hash demo_stake; payload := Payload.Unstake 7;
              nonce := nonce demo_stake; signature := signature demo_stake; propagated := false;
              executed := false; state := Received.RPC |} = validate demo_stake.
Proof.
  apply (stake_signature_transfers demo_stake 7 (Payload.Stake 7) (Payload.Unstake 7));
    [set_solver|set_solver|reflexivity].
Defined.

End witnesses.
