(* ===== verification/Event.v ===== *)
(** * Transaction events ([crates/node/src/mempool/event.rs])

    The five stages of a transaction on its way into the mempool (received,
    download, propagate, wait, new), and the dependency bookkeeping of the wait
    stage: [TxCache] parks a [Run] until its programs are deployed and a
    proof/verification until its parent is known, and releases what an arriving
    transaction was missing. *)

From S2P Require Import Prelude Types Models Files Transaction.

(** ** Events and errors *)

Inductive ReceivedTx := MkReceivedTx.
Inductive DownloadTx := MkDownloadTx.
Inductive WaitTx := MkWaitTx.
Inductive NewTx := MkNewTx.
Inductive PropagateTx := MkPropagateTx.

Record TxEvent `{Secp} (T : Type) := MkTxEvent { ev_tx : Transaction Received.t; ev_type : T }.
Global Arguments MkTxEvent {_ T} _ _.
Global Arguments ev_tx {_ T} _.
Global Arguments ev_type {_ T} _.

Global Instance TxEvent_eq_dec `{Secp} {T} `{EqDecision T} : EqDecision (TxEvent T).
Proof. solve_decision. Defined.
Global Instance WaitTx_eq_dec : EqDecision WaitTx.
Proof. solve_decision. Defined.
Global Instance NewTx_eq_dec : EqDecision NewTx.
Proof. solve_decision. Defined.

Inductive AclWhiteListError := AclInternalError (msg : string).

Module EventProcessError.
Inductive t `{Secp} :=
  | PropagateTxError (tx : Transaction Validated)
  | ValidateError (msg : string)
  | DownloadAssetError (msg : string)
  | SaveTxError (msg : string)
  | StorageError (msg : string)
  | AclWhiteListAuthError (e : AclWhiteListError).
End EventProcessError.
Global Instance AclWhiteListError_eq_dec : EqDecision AclWhiteListError.
Proof. solve_decision. Defined.
Global Instance EventProcessError_eq_dec `{Secp} : EqDecision EventProcessError.t.
Proof. solve_decision. Defined.

(** The traits the events talk to. *)
Record AclWhitelist `{Secp} := MkAclWhitelist {
  acl_contains : PublicKey → result AclWhiteListError bool
}.
Record ValidateStorage `{Secp} := MkValidateStorage {
  get_tx : Hash → result string (option (Transaction Validated));
  contains_program : Hash → result string bool
}.

Global Arguments MkAclWhitelist {_} _.
Global Arguments acl_contains {_} _ _.
Global Arguments MkValidateStorage {_} _ _.
Global Arguments get_tx {_} _ _.
Global Arguments contains_program {_} _ _.

(** [AlwaysGrantAclWhitelist] of [acl/mod.rs]. *)
Definition AlwaysGrantAclWhitelist `{Secp} : AclWhitelist := MkAclWhitelist (λ _, Ok true).

(** ** The wait caches *)

Definition MAX_CACHED_TX_FOR_VERIFICATION : nat := 50.
Definition MAX_WAITING_TX_FOR_VERIFICATION : nat := 100.
Definition MAX_WAITING_TIME_IN_MS : Z := 3600 * 1000.

(** [Kind] only marks what the keys stand for (programs or parent transactions).
    Instants and durations are in milliseconds. *)
Record TxCache `{Secp, Lru} (Kind : Type) := MkTxCache {
  waiting_tx : gmap Hash (list (TxEvent WaitTx) * Z);
  cached_tx_for_verification : LruCache;
  max_waiting_tx : nat;
  max_waiting_time : Z
}.
Global Arguments MkTxCache {_ _ Kind} _ _ _ _.
Global Arguments waiting_tx {_ _ Kind} _.
Global Arguments cached_tx_for_verification {_ _ Kind} _.
Global Arguments max_waiting_tx {_ _ Kind} _.
Global Arguments max_waiting_time {_ _ Kind} _.

Section event.
Context `{Hex, Secp, Sha3, NumBigint, Bincode, Lru}.

Definition TxCache_build {Kind} (cache_size max_waiting : nat) (max_time : Z) : TxCache Kind :=
  {| waiting_tx := ∅;
     cached_tx_for_verification := lru_new cache_size;
     max_waiting_tx := max_waiting;
     max_waiting_time := max_time |}.

Definition TxCache_new {Kind} : TxCache Kind :=
  TxCache_build MAX_CACHED_TX_FOR_VERIFICATION MAX_WAITING_TX_FOR_VERIFICATION
    MAX_WAITING_TIME_IN_MS.

Definition set_waiting {Kind} (c : TxCache Kind) (w : gmap Hash (list (TxEvent WaitTx) * Z))
    : TxCache Kind :=
  {| waiting_tx := w;
     cached_tx_for_verification := cached_tx_for_verification c;
     max_waiting_tx := max_waiting_tx c;
     max_waiting_time := max_waiting_time c |}.

Definition is_tx_cached {Kind} (c : TxCache Kind) (h : Hash) : bool :=
  lru_contains h (cached_tx_for_verification c).

Definition add_cached_tx {Kind} (h : Hash) (c : TxCache Kind) : TxCache Kind :=
  {| waiting_tx := waiting_tx c;
     cached_tx_for_verification := lru_put h (cached_tx_for_verification c);
     max_waiting_tx := max_waiting_tx c;
     max_waiting_time := max_waiting_time c |}.

(** Collect the keys whose entry is older than [max_waiting_time], remove them. *)
Definition evict_old_waiting_tx {Kind} (now : Z) (c : TxCache Kind) : TxCache Kind :=
  let to_remove_hash :=
    omap (λ e : Hash * (list (TxEvent WaitTx) * Z),
            if decide (now - snd (snd e) > max_waiting_time c)%Z then Some (fst e) else None)
         (map_to_list (waiting_tx c)) in
  set_waiting c (foldr delete (waiting_tx c) to_remove_hash).

Definition add_new_waiting_tx {Kind} (now : Z) (parent : Hash) (tx : TxEvent WaitTx)
    (c : TxCache Kind) : TxCache Kind :=
  let c := if decide (max_waiting_tx c ≤ size (waiting_tx c))
           then evict_old_waiting_tx now c else c in
  let '(waiting_txs, ts) := default ([], now) (waiting_tx c !! parent) in
  set_waiting c (<[parent := (waiting_txs ++ [tx], ts)]> (waiting_tx c)).

Definition remove_waiting_children_txs {Kind} (parent : Hash)
    : M (TxCache Kind) EventProcessError.t (list (TxEvent WaitTx)) := λ c,
  match waiting_tx c !! parent with
  | Some (txs, _) => (Ok txs, set_waiting c (delete parent (waiting_tx c)))
  | None => (Ok [], c)
  end.

(** ** The wait stage: program and parent dependencies *)

(** The two caches the event loop owns. *)
Record DepState := MkDepState {
  programid_cache : TxCache Program;
  parent_cache : TxCache (Transaction Validated)
}.

(** A computation on one of the caches, seen as a computation on both. *)
Definition on_program {A} (m : M (TxCache Program) EventProcessError.t A)
    : M DepState EventProcessError.t A := λ s,
  let '(r, c) := m (programid_cache s) in (r, MkDepState c (parent_cache s)).
Definition on_parent {A} (m : M (TxCache (Transaction Validated)) EventProcessError.t A)
    : M DepState EventProcessError.t A := λ s,
  let '(r, c) := m (parent_cache s) in (r, MkDepState (programid_cache s) c).

(** [now] is the reading of the monotonic clock while the event is processed. *)
Context (now : Z).

Definition wait_if_not_cached {Kind} (ev : TxEvent WaitTx) (cache_key : option Hash)
    (storage_contains : Hash → result string bool)
    : M (TxCache Kind) EventProcessError.t (option (TxEvent WaitTx)) :=
  match cache_key with
  | Some cache_key =>
      cache ← get;
      known ← (if is_tx_cached cache cache_key then mret true
               else lift (map_err EventProcessError.StorageError (storage_contains cache_key)));
      if known : bool then mret (Some ev)
      else _ ← modify (add_new_waiting_tx now cache_key ev); mret None
  | None => mret (Some ev)
  end.

(** The [for program_id in run_tx_programs] loop with its [break]. *)
Fixpoint wait_for_programs (ev : TxEvent WaitTx) (programs : list Hash)
    (storage : ValidateStorage) : M (TxCache Program) EventProcessError.t (option (TxEvent WaitTx)) :=
  match programs with
  | [] => mret (Some ev)
  | program_id :: rest =>
      new_tx ← wait_if_not_cached ev (Some program_id) (contains_program storage);
      match new_tx with
      | Some ev => wait_for_programs ev rest storage
      | None => mret None
      end
  end.

Definition manage_program_dep (ev : TxEvent WaitTx) (storage : ValidateStorage)
    : M (TxCache Program) EventProcessError.t (list (TxEvent WaitTx)) :=
  new_tx ← wait_for_programs ev (get_run_programs_dep (payload (ev_tx ev))) storage;
  match new_tx with
  | Some tx =>
      ret_tx ← flat_mapM (λ prg,
        _ ← modify (add_cached_tx prg);
        remove_waiting_children_txs prg) (get_deploy_programs (payload (ev_tx tx)));
      mret (tx :: ret_tx)
  | None => mret []
  end.

Definition query_db_for_tx (storage : ValidateStorage) (cache_key : Hash) : result string bool :=
  res ← get_tx storage cache_key; Ok (bool_decide (is_Some res)).

Definition manage_parent_dep (ev : TxEvent WaitTx) (storage : ValidateStorage)
    : M DepState EventProcessError.t (list (TxEvent WaitTx)) :=
  let parent := get_parent_tx (payload (ev_tx ev)) in
  new_tx ← on_parent (wait_if_not_cached ev parent (query_db_for_tx storage));
  tmp_new_txs ←
    match new_tx with
    | Some tx =>
        ret ← on_parent (remove_waiting_children_txs (hash (ev_tx tx)));
        mret (tx :: ret)
    | None => mret []
    end;
  new_txs ← flat_mapM (λ new_tx : TxEvent WaitTx,
      if is_run_payload (payload (ev_tx new_tx))
      then on_program (manage_program_dep new_tx storage)
      else mret [new_tx]) tmp_new_txs;
  _ ← for_eachM (λ new_tx : TxEvent WaitTx,
      on_parent (modify (add_cached_tx (hash (ev_tx new_tx))))) new_txs;
  mret new_txs.

Definition NewTx_of_wait (ev : TxEvent WaitTx) : TxEvent NewTx := MkTxEvent (ev_tx ev) MkNewTx.

Definition validate_tx_dep (ev : TxEvent WaitTx) (storage : ValidateStorage)
    : M DepState EventProcessError.t (list (TxEvent NewTx)) :=
  prg_ok_txs ← on_program (manage_program_dep ev storage);
  new_txs ← flat_mapM (λ prog_ok_tx, manage_parent_dep prog_ok_tx storage) prg_ok_txs;
  mret (NewTx_of_wait <$> new_txs).

(** ** The other stages *)

Definition ReceivedTx_of_tx (tx : Transaction Received.t) : TxEvent ReceivedTx :=
  MkTxEvent tx MkReceivedTx.
Definition DownloadTx_of_received (ev : TxEvent ReceivedTx) : TxEvent DownloadTx :=
  MkTxEvent (ev_tx ev) MkDownloadTx.
Definition WaitTx_of_download (ev : TxEvent DownloadTx) : TxEvent WaitTx :=
  MkTxEvent (ev_tx ev) MkWaitTx.
Definition PropagateTx_of_download (ev : TxEvent DownloadTx) : option (TxEvent PropagateTx) :=
  match state (ev_tx ev) with
  | Received.P2P => None
  | Received.RPC => Some (MkTxEvent (ev_tx ev) MkPropagateTx)
  | Received.TXRESULT => Some (MkTxEvent (ev_tx ev) MkPropagateTx)
  end.

Definition TransactionError_display (e : TransactionError) : string :=
  match e with
  | TxValidation msg => "validation: " +:+ msg
  | TxGeneral msg => "General error: " +:+ msg
  end.

Definition EventProcessError_display (e : EventProcessError.t) : string :=
  match e with
  | EventProcessError.PropagateTxError _ => "Fail to send the Tx on the channel: channel closed"
  | EventProcessError.ValidateError m => "validation fail: " +:+ m
  | EventProcessError.DownloadAssetError m => "Tx asset fail to download because " +:+ m
  | EventProcessError.SaveTxError m => "Save Tx error: " +:+ m
  | EventProcessError.StorageError m => "Storage access error: " +:+ m
  | EventProcessError.AclWhiteListAuthError (AclInternalError m) =>
      "AclWhite list authenticate error: An error occurs during ACLlist validation: " +:+ m
  end.

Definition validate_tx (ev : TxEvent ReceivedTx) (acl_whitelist : AclWhitelist)
    : result EventProcessError.t () :=
  _ ← map_err (λ err, EventProcessError.ValidateError
        ("Error during transaction validation:" +:+ TransactionError_display err))
        (validate (ev_tx ev));
  allowed ← map_err EventProcessError.AclWhiteListAuthError
        (acl_contains acl_whitelist (author (ev_tx ev)));
  if negb allowed
  then Err (EventProcessError.ValidateError "Tx permission denied signer not authorized")
  else Ok ().

Definition verify_tx (ev : TxEvent ReceivedTx) (acl_whitelist : AclWhitelist)
    : result EventProcessError.t (TxEvent DownloadTx) :=
  match validate_tx ev acl_whitelist with
  | Ok () => Ok (DownloadTx_of_received ev)
  | Err err => Err (EventProcessError.ValidateError
                      ("Tx validation fail:" +:+ EventProcessError_display err))
  | Panic => Panic
  end.

(** [download] is the outcome of [download_manager::download_asset_file] on each
    asset: [join_all] runs every download to its end, [collect] keeps the first
    error. *)
Definition downlod_tx_assets `{UrlParse} (ev : TxEvent DownloadTx)
    (download : AssetFile → result string ())
    : result EventProcessError.t (TxEvent WaitTx * option (TxEvent PropagateTx)) :=
  asset_file_list ← map_err (λ err, EventProcessError.DownloadAssetError
        ("Asset file param conversion error:" +:+ err)) (get_asset_list (ev_tx ev));
  _ ← map_err (λ err, EventProcessError.DownloadAssetError ("Execution error:" +:+ err))
        (collect_results download asset_file_list);
  Ok (WaitTx_of_download ev, PropagateTx_of_download ev).

(** The [Transaction<Validated>] both [propagate_tx] and [save_tx] build. *)
Definition into_validated (tx : Transaction Received.t) : Transaction Validated :=
  {| author := author tx; hash := hash tx; payload := payload tx; nonce := nonce tx;
     signature := signature tx; propagated := true; executed := executed tx;
     state := MkValidated |}.

(** [p2p_sender] is an unbounded channel: sending appends, unless it is closed. *)
Definition propagate_tx (ev : TxEvent PropagateTx) (channel_open : bool)
    : M (list (Transaction Validated)) EventProcessError.t () :=
  let tx := into_validated (ev_tx ev) in
  if channel_open then modify (λ sent, sent ++ [tx])
  else throw (EventProcessError.PropagateTxError tx).

(** [send_new_tx] is the receiver's method (the mempool's, see [Mempool]). *)
Definition save_tx {S} (ev : TxEvent NewTx) (send_new_tx : Transaction Validated → M S string ())
    : M S EventProcessError.t () := λ s,
  let tx := into_validated (ev_tx ev) in
  let '(r, s') := send_new_tx tx s in
  (map_err (λ err, EventProcessError.SaveTxError
      ("Tx:" +:+ Hash_to_string (hash tx) +:+ " " +:+ err)) r, s').

End event.

(** ** Lemmas on the wait caches *)

Section cache_lemmas.
Context `{Secp, Lru}.
Context (now : Z).

(** The transactions a cache holds back, in no particular order. *)
Definition waiting_list {Kind} (c : TxCache Kind) : list (TxEvent WaitTx) :=
  map_to_list (waiting_tx c) ≫= λ e, fst (snd e).

(** No entry is old enough to be evicted. *)
Definition fresh {Kind} (c : TxCache Kind) : Prop :=
  (0 ≤ max_waiting_time c)%Z ∧
  ∀ p e, waiting_tx c !! p = Some e → (now - snd e ≤ max_waiting_time c)%Z.

Lemma set_waiting_same {Kind} (c : TxCache Kind) : set_waiting c (waiting_tx c) = c.
Proof. by destruct c. Qed.

Lemma evict_keys_elem {Kind} (c : TxCache Kind) p :
  p ∈ omap (λ e : Hash * (list (TxEvent WaitTx) * Z),
              if decide (now - snd (snd e) > max_waiting_time c)%Z then Some (fst e) else None)
           (map_to_list (waiting_tx c)) ↔
  ∃ e, waiting_tx c !! p = Some e ∧ (now - snd e > max_waiting_time c)%Z.
Proof.
  rewrite list_elem_of_omap. split.
  - intros ([k e] & Hin & Hif). simpl in Hif. case_decide; simplify_eq.
    apply elem_of_map_to_list in Hin. eauto.
  - intros (e & Hp & Hold). exists (p, e).
    rewrite elem_of_map_to_list, decide_True by done. done.
Qed.

(** Eviction removes exactly the entries older than the limit. *)
Lemma evict_lookup {Kind} (c : TxCache Kind) p e :
  waiting_tx (evict_old_waiting_tx now c) !! p = Some e ↔
  waiting_tx c !! p = Some e ∧ (now - snd e ≤ max_waiting_time c)%Z.
Proof.
  unfold evict_old_waiting_tx. simpl. split.
  - intros Hl. destruct (decide (now - snd e > max_waiting_time c)%Z) as [Hold|Hnew].
    + apply lookup_foldr_delete_Some in Hl as [Hnin Hl].
      rewrite evict_keys_elem in Hnin. naive_solver.
    + apply lookup_foldr_delete_Some in Hl as [_ Hl]. split; [done|lia].
  - intros [Hp Hle]. apply lookup_foldr_delete_Some. split; [|done].
    rewrite evict_keys_elem. intros (e' & Hp' & Hold). simplify_eq. lia.
Qed.

Lemma evict_fresh {Kind} (c : TxCache Kind) : fresh c → evict_old_waiting_tx now c = c.
Proof.
  intros [_ Hf]. unfold evict_old_waiting_tx.
  assert (omap (λ e : Hash * (list (TxEvent WaitTx) * Z),
      if decide (now - snd (snd e) > max_waiting_time c)%Z then Some (fst e) else None)
      (map_to_list (waiting_tx c)) = []) as ->; [|apply set_waiting_same].
  apply elem_of_nil_inv. intros p (e & Hp & Hold)%evict_keys_elem.
  specialize (Hf p e Hp). lia.
Qed.

Lemma delete_all_waiting (m : gmap Hash (list (TxEvent WaitTx) * Z)) ks :
  ∃ lost, (map_to_list (foldr delete m ks) ≫= λ e, fst (snd e)) ++ lost
          ≡ₚ map_to_list m ≫= λ e, fst (snd e).
Proof.
  induction ks as [|k ks [lost IH]]; simpl.
  - exists []. by rewrite app_nil_r.
  - destruct (foldr delete m ks !! k) as [v|] eqn:Hk.
    + exists (fst v ++ lost). rewrite <-IH.
      rewrite (Permutation_flat_map_delete _ _ _ _ Hk). simpl. solve_Permutation.
    + exists lost. by rewrite delete_id.
Qed.

(** *** Conservation: nothing is invented, nothing but stale entries is lost

    [conserved F fr L c]: the transactions [L] in flight together with those
    parked in [c] are the initial ones [F], up to a list of lost ones that is
    empty when no entry was stale at the start ([fr]). *)

Definition conserved {Kind} (F : list (TxEvent WaitTx)) (fr : Prop) (L : list (TxEvent WaitTx))
    (c : TxCache Kind) : Prop :=
  ∃ lost, L ++ waiting_list c ++ lost ≡ₚ F ∧ (fr → lost = [] ∧ fresh c).

Lemma conserved_perm {Kind} F fr L L' (c : TxCache Kind) :
  L ≡ₚ L' → conserved F fr L c → conserved F fr L' c.
Proof. intros HL (lost & Hp & Hf). exists lost. by rewrite <-HL. Qed.

Lemma conserved_evict {Kind} F fr L (c : TxCache Kind) :
  conserved F fr L c → conserved F fr L (evict_old_waiting_tx now c).
Proof.
  intros (lost & Hp & Hf).
  destruct (delete_all_waiting (waiting_tx c)
    (omap (λ e : Hash * (list (TxEvent WaitTx) * Z),
       if decide (now - snd (snd e) > max_waiting_time c)%Z then Some (fst e) else None)
       (map_to_list (waiting_tx c)))) as [lost' Hl].
  exists (lost' ++ lost). split.
  - rewrite <-Hp. unfold waiting_list, evict_old_waiting_tx. simpl.
    rewrite <-Hl. solve_Permutation.
  - intros Hfr. destruct (Hf Hfr) as [-> Hfc].
    assert (Hev := evict_fresh c Hfc). rewrite Hev. split; [|done].
    rewrite app_nil_r.
    assert (omap (λ e : Hash * (list (TxEvent WaitTx) * Z),
       if decide (now - snd (snd e) > max_waiting_time c)%Z then Some (fst e) else None)
       (map_to_list (waiting_tx c)) = []) as Hnil.
    { apply elem_of_nil_inv. intros p (e & He & Hold)%evict_keys_elem.
      destruct Hfc as [_ Hfc]. specialize (Hfc p e He). lia. }
    rewrite Hnil in Hl. simpl in Hl. apply Permutation_length in Hl.
    rewrite length_app in Hl. destruct lost'; [done|]. simpl in Hl. lia.
Qed.

Lemma conserved_add {Kind} F fr L p ev (c : TxCache Kind) :
  conserved F fr (ev :: L) c → conserved F fr L (add_new_waiting_tx now p ev c).
Proof.
  intros Hc. unfold add_new_waiting_tx.
  set (c1 := if decide (max_waiting_tx c ≤ size (waiting_tx c)) then _ else c).
  assert (conserved F fr (ev :: L) c1) as (lost & Hp & Hf).
  { subst c1. case_decide; [by apply conserved_evict|done]. }
  clearbody c1. clear Hc.
  destruct (waiting_tx c1 !! p) as [[txs ts]|] eqn:Hl; simpl.
  - exists lost. split.
    + rewrite <-Hp. unfold waiting_list. simpl.
      rewrite <-(insert_delete_eq (waiting_tx c1)).
      rewrite Permutation_flat_map_insert by apply lookup_delete_eq.
      rewrite (Permutation_flat_map_delete _ (waiting_tx c1) _ _ Hl). simpl. solve_Permutation.
    + intros Hfr. destruct (Hf Hfr) as [-> [Hm Hfc]]. split; [done|]. split; [done|].
      intros q e. simpl. intros [[<- <-]|[_ Hq]]%lookup_insert_Some; [|eauto].
      exact (Hfc p _ Hl).
  - exists lost. split.
    + rewrite <-Hp. unfold waiting_list. simpl.
      rewrite Permutation_flat_map_insert by done. simpl. solve_Permutation.
    + intros Hfr. destruct (Hf Hfr) as [-> [Hm Hfc]]. split; [done|]. split; [done|].
      intros q e. simpl. intros [[<- <-]|[_ Hq]]%lookup_insert_Some; [simpl; lia|eauto].
Qed.

Lemma conserved_cached {Kind} F fr L h (c : TxCache Kind) :
  conserved F fr L c → conserved F fr L (add_cached_tx h c).
Proof. by intros (lost & Hp & Hf); exists lost. Qed.

Lemma conserved_remove {Kind} F fr L p R :
  hoare (conserved F fr L) (remove_waiting_children_txs (Kind:=Kind) p)
    (λ txs, conserved F fr (txs ++ L)) R.
Proof.
  intros c (lost & Hp & Hf). unfold remove_waiting_children_txs.
  destruct (waiting_tx c !! p) as [[txs ts]|] eqn:Hl; exists lost; [|done]. split.
  - rewrite <-Hp. unfold waiting_list. simpl.
    rewrite (Permutation_flat_map_delete _ (waiting_tx c) _ _ Hl). simpl. solve_Permutation.
  - intros Hfr. destruct (Hf Hfr) as [-> [Hm Hfc]]. split; [done|]. split; [done|].
    intros q e. simpl. intros [_ Hq]%lookup_delete_Some. eauto.
Qed.

End cache_lemmas.

Section conservation.
Context `{Secp, Lru}.
Context (now : Z) (storage : ValidateStorage).

(** After a failure: what is left over, beside [K]. *)
Definition spilt {Kind} (F : list (TxEvent WaitTx)) (fr : Prop) (K : list (TxEvent WaitTx))
    (c : TxCache Kind) : Prop := ∃ X, conserved now F fr (X ++ K) c.

Lemma spilt_app {Kind} F fr L K (c : TxCache Kind) : spilt F fr (L ++ K) c → spilt F fr K c.
Proof. intros [X Hc]. exists (X ++ L). by rewrite <-app_assoc. Qed.

Lemma wait_conserved {Kind} F fr L ev key contains :
  hoare (conserved now F fr (ev :: L)) (wait_if_not_cached (Kind:=Kind) now ev key contains)
    (λ o, conserved now F fr (option_list o ++ L)) (spilt F fr L).
Proof.
  destruct key as [k|]; cbn [wait_if_not_cached]; [|by apply hoare_ret].
  eapply (hoare_bind _ _ _ (λ _ c', conserved now F fr (ev :: L) c')); [by apply hoare_get|].
  intros c.
  eapply (hoare_bind _ _ _ (λ _ c', conserved now F fr (ev :: L) c')).
  { case_match; [by apply hoare_ret|]. apply hoare_lift; [done|]. intros s Hs. by exists [ev]. }
  intros []; [by apply hoare_ret|].
  eapply (hoare_bind _ _ _ (λ _, conserved now F fr L)); [|intros []; by apply hoare_ret].
  apply hoare_modify. intros s Hs. by apply conserved_add.
Qed.

Lemma wait_for_programs_conserved F fr L ev ps :
  hoare (conserved now F fr (ev :: L)) (wait_for_programs now ev ps storage)
    (λ o, conserved now F fr (option_list o ++ L)) (spilt F fr L).
Proof.
  revert ev. induction ps as [|p ps IH]; intros ev; cbn [wait_for_programs]; [by apply hoare_ret|].
  eapply hoare_bind; [apply wait_conserved|]. intros [ev'|]; [apply IH|by apply hoare_ret].
Qed.

Lemma program_dep_conserved F fr L ev :
  hoare (conserved now F fr (ev :: L)) (manage_program_dep now ev storage)
    (λ outs, conserved now F fr (outs ++ L)) (spilt F fr L).
Proof.
  unfold manage_program_dep.
  eapply hoare_bind; [apply wait_for_programs_conserved|].
  intros [tx|]; [|by apply hoare_ret]. simpl.
  eapply hoare_bind.
  - apply (hoare_loop _ (λ _ acc, conserved now F fr (acc ++ tx :: L))).
    intros prg todo acc.
    eapply hoare_modify_seq; [intros s; apply conserved_cached|].
    eapply hoare_conseq; [apply conserved_remove|intros s Hs; exact Hs| |done].
    intros txs s. apply conserved_perm. solve_Permutation.
  - intros ys. apply hoare_ret. intros s. apply conserved_perm. simpl. solve_Permutation.
Qed.

(** The same for both caches together. *)
Definition conserved2 (F : list (TxEvent WaitTx)) (fr : Prop) (L : list (TxEvent WaitTx))
    (s : DepState) : Prop :=
  conserved now F fr (L ++ waiting_list (parent_cache s)) (programid_cache s)
  ∧ (fr → fresh now (parent_cache s)).

Definition spilt2 (F : list (TxEvent WaitTx)) (fr : Prop) (s : DepState) : Prop :=
  ∃ X, conserved2 F fr X s.

Lemma conserved2_parent F fr L s :
  conserved2 F fr L s ↔
  conserved now F fr (L ++ waiting_list (programid_cache s)) (parent_cache s)
  ∧ (fr → fresh now (programid_cache s)).
Proof.
  unfold conserved2, conserved. split; intros [(lost & Hp & Hf) Hf'].
  - split; [|by intros Hfr; destruct (Hf Hfr)]. exists lost.
    split; [rewrite <-Hp; solve_Permutation|]. intros Hfr. destruct (Hf Hfr). auto.
  - split; [|by intros Hfr; destruct (Hf Hfr)]. exists lost.
    split; [rewrite <-Hp; solve_Permutation|]. intros Hfr. destruct (Hf Hfr). auto.
Qed.

Lemma on_program_conserved {A} F fr L (m : M (TxCache Program) EventProcessError.t A)
    (g : A → list (TxEvent WaitTx)) (L' : list (TxEvent WaitTx)) :
  (∀ K, hoare (conserved now F fr (L ++ K)) m (λ a, conserved now F fr (g a ++ L' ++ K)) (spilt F fr K)) →
  hoare (conserved2 F fr L) (on_program m) (λ a, conserved2 F fr (g a ++ L')) (spilt2 F fr).
Proof.
  intros Hm s [Hc Hf]. specialize (Hm _ _ Hc). unfold on_program.
  destruct (m (programid_cache s)) as [[a|e|] c]; [|destruct Hm as [X Hm]; exists X; by split..].
  split; [|done]. simpl. by rewrite <-app_assoc.
Qed.

Lemma on_parent_conserved {A} F fr L (m : M (TxCache (Transaction Validated)) EventProcessError.t A)
    (g : A → list (TxEvent WaitTx)) (L' : list (TxEvent WaitTx)) :
  (∀ K, hoare (conserved now F fr (L ++ K)) m (λ a, conserved now F fr (g a ++ L' ++ K)) (spilt F fr K)) →
  hoare (conserved2 F fr L) (on_parent m) (λ a, conserved2 F fr (g a ++ L')) (spilt2 F fr).
Proof.
  intros Hm s [Hc Hf]%conserved2_parent. specialize (Hm _ _ Hc). unfold on_parent.
  destruct (m (parent_cache s)) as [[a|e|] c];
    [|destruct Hm as [X Hm]; exists X; by apply conserved2_parent..].
  apply conserved2_parent. split; [|done]. simpl. by rewrite <-app_assoc.
Qed.

Lemma conserved2_perm F fr L L' s : L ≡ₚ L' → conserved2 F fr L s → conserved2 F fr L' s.
Proof. intros HL [Hc Hf]. split; [|done]. eapply conserved_perm; [|done]. by rewrite HL. Qed.

Lemma parent_dep_conserved F fr L ev :
  hoare (conserved2 F fr (ev :: L)) (manage_parent_dep now ev storage)
    (λ outs, conserved2 F fr (outs ++ L)) (spilt2 F fr).
Proof.
  unfold manage_parent_dep.
  eapply hoare_bind.
  { apply (on_parent_conserved F fr (ev :: L) _ option_list L). intros K. by eapply hoare_conseq; [apply wait_conserved|..|intros c; apply spilt_app]. }
  intros o.
  eapply (hoare_bind _ _ _ (λ tmp, conserved2 F fr (tmp ++ L))).
  { destruct o as [tx|]; [|by apply hoare_ret].
    eapply hoare_bind.
    - apply (on_parent_conserved F fr (tx :: L) _ id (tx :: L)).
      intros K. apply conserved_remove.
    - intros ret. apply hoare_ret. intros s. apply conserved2_perm. unfold id. solve_Permutation. }
  intros tmp.
  eapply hoare_bind.
  { apply (hoare_loop _ (λ todo acc, conserved2 F fr (acc ++ todo ++ L))).
    intros x todo acc. case_match.
    + eapply hoare_conseq.
      * apply (on_program_conserved F fr (x :: acc ++ todo ++ L) _ id (acc ++ todo ++ L)).
        intros K. by eapply hoare_conseq; [apply program_dep_conserved|..|intros c; apply spilt_app].
      * intros s. apply conserved2_perm. solve_Permutation.
      * intros ys s. apply conserved2_perm. unfold id. solve_Permutation.
      * done.
    + apply hoare_ret. intros s. apply conserved2_perm. solve_Permutation. }
  intros ys. simpl.
  eapply (hoare_bind _ _ _ (λ _, conserved2 F fr (ys ++ L))).
  { apply (hoare_for_eachM _ (λ _, conserved2 F fr (ys ++ L))). intros x _.
    apply (on_parent_conserved F fr (ys ++ L) _ (λ _, []) (ys ++ L)). intros K.
    apply hoare_modify. intros s. apply conserved_cached. }
  intros []. by apply hoare_ret.
Qed.

End conservation.

Section conservation_theorems.
Context `{Secp, Lru}.

Lemma validate_tx_dep_conserved (now : Z) (storage : ValidateStorage) F fr ev :
  hoare (conserved2 now F fr [ev]) (validate_tx_dep now ev storage)
    (λ outs s', ∃ l, outs = NewTx_of_wait <$> l ∧ conserved2 now F fr l s') (spilt2 now F fr).
Proof.
  unfold validate_tx_dep. eapply hoare_bind.
  { apply (on_program_conserved now F fr [ev] _ id []). intros K.
    by eapply hoare_conseq; [apply program_dep_conserved|..|intros c; apply spilt_app]. }
  intros oks. unfold id. rewrite app_nil_r. eapply hoare_bind.
  { apply (hoare_loop _ (λ todo acc, conserved2 now F fr (acc ++ todo))).
    intros x todo acc.
    eapply hoare_conseq; [apply (parent_dep_conserved now storage F fr (acc ++ todo) x)| | |done].
    - intros s1. apply conserved2_perm. solve_Permutation.
    - intros ys s1. apply conserved2_perm. solve_Permutation. }
  intros ys. apply hoare_ret. intros s1 Hs1. exists ys. by rewrite app_nil_r in Hs1.
Qed.

Lemma conserved2_init now ev s :
  conserved2 now (ev :: waiting_list (programid_cache s) ++ waiting_list (parent_cache s))
    (fresh now (programid_cache s) ∧ fresh now (parent_cache s)) [ev] s.
Proof.
  split; [exists []|by intros [? ?]]. split; [simpl; solve_Permutation|by intros [? ?]].
Qed.

(** C21: conservation of transactions in the dependency stage. Whenever
    [validate_tx_dep] succeeds, the transactions it hands to the mempool together
    with those left waiting in the two caches are, each with its multiplicity,
    the incoming one and those that were waiting before, less a list of lost
    ones; and if no waiting entry had outlived [max_waiting_time] nothing at all
    is lost. In particular no transaction is ever duplicated or invented. *)
Theorem validate_tx_dep_conserves (now : Z) (storage : ValidateStorage) (ev : TxEvent WaitTx)
    (s s' : DepState) (outs : list (TxEvent NewTx)) :
  validate_tx_dep now ev storage s = (Ok outs, s') →
  ∃ lost : list (TxEvent WaitTx),
    (ev_tx <$> outs) ++ (ev_tx <$> (waiting_list (programid_cache s')
       ++ waiting_list (parent_cache s') ++ lost))
    ≡ₚ ev_tx <$> (ev :: waiting_list (programid_cache s) ++ waiting_list (parent_cache s))
    ∧ (fresh now (programid_cache s) → fresh now (parent_cache s) → lost = []).
Proof.
  intros Hrun.
  set (F := ev :: waiting_list (programid_cache s) ++ waiting_list (parent_cache s)).
  set (fr := fresh now (programid_cache s) ∧ fresh now (parent_cache s)).
  destruct (hoare_run_Ok _ _ _ _ _ _ _ (validate_tx_dep_conserved now storage F fr ev)
    (conserved2_init now ev s) Hrun) as (l & -> & [(lost & Hp & Hf) _]).
  exists lost. split; [|intros H1 H2; by apply Hf].
  rewrite <-list_fmap_compose. change (ev_tx ∘ NewTx_of_wait) with (@ev_tx _ WaitTx).
  rewrite <-fmap_app. apply fmap_Permutation. fold F. rewrite <-Hp. solve_Permutation.
Qed.

End conservation_theorems.

(** ** What the dependency stage releases, and when *)

Section dependency_spec.
Context `{Secp, Lru}.

(** Parked transactions sit under a dependency they really have. *)
Definition keyed_wf {Kind} (D : Hash → TxEvent WaitTx → Prop) (c : TxCache Kind) : Prop :=
  ∀ p e t, waiting_tx c !! p = Some e → t ∈ fst e → D p t.

Definition needs_program (p : Hash) (t : TxEvent WaitTx) : Prop :=
  p ∈ get_run_programs_dep (payload (ev_tx t)).
Definition needs_parent (p : Hash) (t : TxEvent WaitTx) : Prop :=
  get_parent_tx (payload (ev_tx t)) = Some p.

(** [G] is any property of the parked transactions themselves. *)
Definition program_wf (G : TxEvent WaitTx → Prop) : TxCache Program → Prop :=
  keyed_wf (λ p t, needs_program p t ∧ G t).
Definition parent_wf (G : TxEvent WaitTx → Prop) : TxCache (Transaction Validated) → Prop :=
  keyed_wf (λ p t, needs_parent p t ∧ G t).
Definition dep_wf (G : TxEvent WaitTx → Prop) (s : DepState) : Prop :=
  program_wf G (programid_cache s) ∧ parent_wf G (parent_cache s).

Lemma keyed_wf_add {Kind} D now p t (c : TxCache Kind) :
  D p t → keyed_wf D c → keyed_wf D (add_new_waiting_tx now p t c).
Proof.
  intros Hp Hc. unfold add_new_waiting_tx.
  set (c1 := if decide (max_waiting_tx c ≤ size (waiting_tx c)) then _ else c).
  assert (keyed_wf D c1) as Hc1.
  { subst c1. case_decide; [|done]. intros q e u [He _]%evict_lookup. eauto. }
  clearbody c1. destruct (waiting_tx c1 !! p) as [[txs ts]|] eqn:Hl; simpl;
    intros q e u; simpl; intros [[<- <-]|[_ Hq]]%lookup_insert_Some; eauto; simpl;
    rewrite ?elem_of_app, ?list_elem_of_singleton; [|naive_solver].
  intros [Hu | ->]; [|done]. eapply Hc1; [exact Hl|done].
Qed.

Lemma keyed_wf_remove {Kind} D p :
  hoare (keyed_wf D) (remove_waiting_children_txs (Kind:=Kind) p)
    (λ txs c, keyed_wf D c ∧ ∀ t, t ∈ txs → D p t) (keyed_wf D).
Proof.
  intros c Hc. unfold remove_waiting_children_txs.
  destruct (waiting_tx c !! p) as [[txs ts]|] eqn:Hl.
  - split; [|intros t Ht; exact (Hc p _ t Hl Ht)].
    intros q e t. simpl. intros [_ Hq]%lookup_delete_Some. eauto.
  - split; [done|]. by intros t ?%elem_of_nil.
Qed.

Lemma keyed_wf_wait {Kind} D now ev key contains :
  (∀ k, key = Some k → D k ev) →
  hoare (keyed_wf D) (wait_if_not_cached (Kind:=Kind) now ev key contains)
    (λ o c, keyed_wf D c ∧ (o = None ∨ o = Some ev)) (keyed_wf D).
Proof.
  intros HD. destruct key as [k|]; cbn [wait_if_not_cached]; [|apply hoare_ret; auto].
  eapply (hoare_bind _ _ _ (λ _, keyed_wf D)); [by apply hoare_get|]. intros c.
  eapply (hoare_bind _ _ _ (λ _, keyed_wf D)).
  { case_match; [by apply hoare_ret|]. by apply hoare_lift. }
  intros []; [apply hoare_ret; auto|].
  eapply hoare_modify_seq; [intros s Hs; by apply keyed_wf_add; [apply HD|]|].
  apply hoare_ret; auto.
Qed.

Lemma cache_loop_run l s :
  for_eachM (λ t : TxEvent WaitTx,
     on_parent (modify (add_cached_tx (hash (ev_tx t))))) l s =
  (Ok (), MkDepState (programid_cache s)
     (fold_left (λ c t, add_cached_tx (hash (ev_tx t)) c) l (parent_cache s))).
Proof. revert s. induction l as [|t l IH]; intros s; [by destruct s|]. exact (IH _). Qed.

Lemma waiting_fold_cached (l : list (TxEvent WaitTx)) (c : TxCache (Transaction Validated)) :
  waiting_tx (fold_left (λ c t, add_cached_tx (hash (ev_tx t)) c) l c) = waiting_tx c.
Proof. revert c. induction l as [|t l IH]; intros c; [done|]. simpl. by rewrite IH. Qed.

(** [hoare] triples on one cache, lifted to both. *)
Lemma hoare_on_program {A} (m : M (TxCache Program) EventProcessError.t A) P Q R J :
  hoare P m Q R →
  hoare (λ s, P (programid_cache s) ∧ J (parent_cache s)) (on_program m)
    (λ a s, Q a (programid_cache s) ∧ J (parent_cache s))
    (λ s, R (programid_cache s) ∧ J (parent_cache s)).
Proof.
  intros Hm s [HP HJ]. specialize (Hm _ HP). unfold on_program.
  by destruct (m (programid_cache s)) as [[a|e|] c].
Qed.

Lemma hoare_on_parent {A} (m : M (TxCache (Transaction Validated)) EventProcessError.t A) P Q R J :
  hoare P m Q R →
  hoare (λ s, J (programid_cache s) ∧ P (parent_cache s)) (on_parent m)
    (λ a s, J (programid_cache s) ∧ Q a (parent_cache s))
    (λ s, J (programid_cache s) ∧ R (parent_cache s)).
Proof.
  intros Hm s [HJ HP]. specialize (Hm _ HP). unfold on_parent.
  by destruct (m (parent_cache s)) as [[a|e|] c].
Qed.

Context (now : Z) (storage : ValidateStorage) (G : TxEvent WaitTx → Prop).

Lemma program_wf_wait ev ps :
  G ev → (∀ p, p ∈ ps → needs_program p ev) →
  hoare (program_wf G) (wait_for_programs now ev ps storage)
    (λ o c, program_wf G c ∧ (o = None ∨ o = Some ev)) (program_wf G).
Proof.
  intros HG. induction ps as [|p ps IH]; intros Hps; cbn [wait_for_programs];
    [apply hoare_ret; auto|].
  eapply hoare_bind; [apply (keyed_wf_wait (λ p t, needs_program p t ∧ G t))|].
  { intros k [= <-]. split; [|done]. apply Hps. by left. }
  intros [ev'|].
  - intros c [Hc [?|?]]; simplify_eq. apply IH; [|done]. intros q Hq. apply Hps. by right.
  - apply hoare_ret. intros s [Hs _]. auto.
Qed.

Lemma program_wf_manage ev :
  G ev →
  hoare (program_wf G) (manage_program_dep now ev storage)
    (λ outs c, program_wf G c ∧ Forall G outs) (program_wf G).
Proof.
  intros HG. unfold manage_program_dep. eapply hoare_bind; [apply program_wf_wait; auto|].
  intros [tx|]; [|by apply hoare_ret; intros s [Hs _]].
  intros c [Hc [?|[= ->]]]; [done|]. revert c Hc.
  eapply (hoare_bind _ _ _ (λ ys c, program_wf G c ∧ Forall G ys));
    [|intros ys; apply hoare_ret; intros s [Hs Hys]; auto].
  apply (hoare_flat_mapM_Forall _ (λ _, True)); [|by apply Forall_true].
  intros prg _ s Hs.
  specialize (keyed_wf_remove (λ p t, needs_program p t ∧ G t) prg (add_cached_tx prg s) Hs).
  unfold mbind, M_bind, modify.
  destruct (remove_waiting_children_txs prg (add_cached_tx prg s)) as [[ys|e|] c]; [|done..].
  intros [Hc Hys]. split; [done|]. apply Forall_forall. intros t Ht. by destruct (Hys t Ht).
Qed.

Lemma dep_wf_parent ev :
  G ev →
  hoare (dep_wf G) (manage_parent_dep now ev storage)
    (λ outs s, dep_wf G s ∧ Forall G outs) (dep_wf G).
Proof.
  intros HG. unfold manage_parent_dep.
  set (D := λ p t, needs_parent p t ∧ G t).
  eapply (hoare_bind _ _ _ (λ o s, dep_wf G s ∧ (o = None ∨ o = Some ev))).
  { eapply hoare_conseq; [eapply (hoare_on_parent _ _ _ _ (program_wf G)), (keyed_wf_wait D)|..].
    - by intros k Hk.
    - done.
    - intros a s [? [? ?]]. done.
    - done. }
  intros o. eapply (hoare_bind _ _ _ (λ tmp s, dep_wf G s ∧ Forall G tmp)).
  { destruct o as [tx|]; [|apply hoare_ret; naive_solver].
    intros s [Hs [?|[= ->]]]; [done|]. revert s Hs.
    eapply (hoare_bind _ _ _ (λ ys s, dep_wf G s ∧ Forall G ys));
      [|intros ys; apply hoare_ret; naive_solver].
    eapply hoare_conseq; [eapply (hoare_on_parent _ _ _ _ (program_wf G)), (keyed_wf_remove D)|..].
    - done.
    - intros ys s [? [? Hys]]. split; [done|]. apply Forall_forall. intros t Ht.
      by destruct (Hys t Ht).
    - done. }
  intros tmp. eapply (hoare_bind _ _ _ (λ ys s, dep_wf G s ∧ Forall G ys)).
  { intros s [Hs Htmp]. revert s Hs. apply (hoare_flat_mapM_Forall _ G); [|done]. intros x Hx.
    case_match; [|apply hoare_ret; auto].
    eapply hoare_conseq;
      [eapply (hoare_on_program _ _ _ _ (parent_wf G)), (program_wf_manage x Hx)|done| |done].
    intros ys s [[? ?] ?]. by split; [split|]. }
  intros ys s [[Hs1 Hs2] Hys]. unfold mbind, M_bind. rewrite cache_loop_run.
  split; [|done]. split; [done|]. unfold parent_wf, keyed_wf. simpl. by rewrite waiting_fold_cached.
Qed.

Lemma dep_wf_validate ev :
  G ev →
  hoare (dep_wf G) (validate_tx_dep now ev storage)
    (λ outs s, dep_wf G s ∧ ∃ ws, outs = NewTx_of_wait <$> ws ∧ Forall G ws) (dep_wf G).
Proof.
  intros HG. unfold validate_tx_dep.
  eapply (hoare_bind _ _ _ (λ ys s, dep_wf G s ∧ Forall G ys)).
  { eapply hoare_conseq;
      [eapply (hoare_on_program _ _ _ _ (parent_wf G)), (program_wf_manage ev HG)|done| |done].
    intros ys s [[? ?] ?]. by split; [split|]. }
  intros oks. eapply (hoare_bind _ _ _ (λ ys s, dep_wf G s ∧ Forall G ys));
    [|intros ys; apply hoare_ret; naive_solver].
  intros s [Hs Hoks]. revert s Hs.
  apply (hoare_flat_mapM_Forall _ G); [exact dep_wf_parent|done].
Qed.

(** Well-formedness of the wait caches is an invariant: whatever event is
    processed, and whether processing succeeds or fails on a storage error, every
    parked [Run] stays filed under a program of its workflow and every parked
    proof, proof key or verification under its own parent; and any property [G]
    that the incoming and the parked transactions have is kept, by the parked as
    well as by the released ones. *)
Theorem waiting_wf_invariant (ev : TxEvent WaitTx) (s : DepState) :
  G ev → dep_wf G s →
  let '(res, s') := validate_tx_dep now ev storage s in
  dep_wf G s' ∧
  ∀ outs, res = Ok outs → ∃ ws, outs = NewTx_of_wait <$> ws ∧ Forall G ws.
Proof.
  intros HG Hs. specialize (dep_wf_validate ev HG s Hs).
  destruct (validate_tx_dep now ev storage s) as [[outs|e|] s']; [|by intros ?; split..].
  intros [? ?]. split; [done|]. by intros outs' [= <-].
Qed.

End dependency_spec.

Section functional_spec.
Context `{Secp, Lru}.
Context (now : Z) (storage : ValidateStorage).

(** A storage that answers: [stored] programs, [saved] transactions. *)
Context (stored : Hash → bool) (saved : Hash → option (Transaction Validated)).

Definition storage_answers : Prop :=
  (∀ p, contains_program storage p = Ok (stored p)) ∧ (∀ h, get_tx storage h = Ok (saved h)).

(** The first program of a workflow that is neither cached nor stored. *)
Definition missing_program (c : TxCache Program) (ps : list Hash) : option Hash :=
  List.find (λ p, negb (is_tx_cached c p || stored p)) ps.
Definition missing_parent (c : TxCache (Transaction Validated)) (p : option Hash) : option Hash :=
  q ← p; if is_tx_cached c q || bool_decide (is_Some (saved q)) then None else Some q.
Definition children (c : TxCache (Transaction Validated)) (h : Hash) : list (TxEvent WaitTx) :=
  default [] (fst <$> waiting_tx c !! h).

Lemma wait_if_not_cached_run {Kind} ev k contains known (c : TxCache Kind) :
  contains k = Ok known →
  wait_if_not_cached now ev (Some k) contains c =
  if is_tx_cached c k || known then (Ok (Some ev), c)
  else (Ok None, add_new_waiting_tx now k ev c).
Proof.
  intros Hk. unfold wait_if_not_cached, mbind, M_bind, get, lift, mret, M_ret, modify. simpl.
  destruct (is_tx_cached c k); simpl; [done|]. rewrite Hk. simpl. by destruct known.
Qed.

Context (Hst : storage_answers).

Lemma wait_for_programs_run ev ps c :
  wait_for_programs now ev ps storage c =
  match missing_program c ps with
  | None => (Ok (Some ev), c)
  | Some p => (Ok None, add_new_waiting_tx now p ev c)
  end.
Proof.
  induction ps as [|p ps IH]; [done|]. cbn [wait_for_programs].
  unfold mbind, M_bind. rewrite (wait_if_not_cached_run _ _ _ (stored p)) by apply Hst.
  unfold missing_program. cbn [List.find]. by destruct (is_tx_cached c p || stored p).
Qed.

Lemma manage_program_dep_run ev c :
  get_deploy_programs (payload (ev_tx ev)) = [] →
  manage_program_dep now ev storage c =
  match missing_program c (get_run_programs_dep (payload (ev_tx ev))) with
  | None => (Ok [ev], c)
  | Some p => (Ok [], add_new_waiting_tx now p ev c)
  end.
Proof.
  intros Hd. unfold manage_program_dep, mbind, M_bind. rewrite wait_for_programs_run.
  destruct (missing_program c _); [done|]. by rewrite Hd.
Qed.

Lemma remove_waiting_run {Kind} h (c : TxCache Kind) :
  remove_waiting_children_txs h c =
  (Ok (default [] (fst <$> waiting_tx c !! h)), set_waiting c (delete h (waiting_tx c))).
Proof.
  unfold remove_waiting_children_txs. destruct (waiting_tx c !! h) as [[txs ts]|] eqn:Hl; [done|].
  simpl. rewrite delete_id by done. by rewrite set_waiting_same.
Qed.

(** Children carry a parent, so none of them is a [Run]. *)
Lemma flat_mapM_children l s :
  (∀ t, t ∈ l → is_run_payload (payload (ev_tx t)) = false) →
  flat_mapM (λ t : TxEvent WaitTx,
      if is_run_payload (payload (ev_tx t))
      then on_program (manage_program_dep now t storage) else mret [t]) l s = (Ok l, s).
Proof.
  induction l as [|t l IH]; intros Hl; [done|]. cbn [flat_mapM].
  unfold mbind, M_bind. rewrite (Hl t) by (by left). unfold mret at 1, M_ret at 1.
  rewrite IH; [done|]. intros u Hu. apply Hl. by right.
Qed.

Lemma children_not_run c h t :
  parent_wf (λ _, True) c → t ∈ children c h → is_run_payload (payload (ev_tx t)) = false.
Proof.
  intros Hwf. unfold children. destruct (waiting_tx c !! h) as [e|] eqn:He; simpl.
  - intros Ht. destruct (Hwf h e t He Ht) as [Hp _]. unfold needs_parent in Hp.
    by destruct (payload (ev_tx t)).
  - by intros ?%elem_of_nil.
Qed.

(** The caches after [ev] and the children it releases went through. *)
Definition released (s : DepState) (ev : TxEvent WaitTx) : DepState :=
  MkDepState (programid_cache s)
    (fold_left (λ c t, add_cached_tx (hash (ev_tx t)) c)
       (ev :: children (parent_cache s) (hash (ev_tx ev)))
       (set_waiting (parent_cache s)
          (delete (hash (ev_tx ev)) (waiting_tx (parent_cache s))))).

Lemma manage_parent_dep_run ev s :
  get_deploy_programs (payload (ev_tx ev)) = [] →
  parent_wf (λ _, True) (parent_cache s) →
  missing_program (programid_cache s) (get_run_programs_dep (payload (ev_tx ev))) = None →
  manage_parent_dep now ev storage s =
  match missing_parent (parent_cache s) (get_parent_tx (payload (ev_tx ev))) with
  | Some q => (Ok [], MkDepState (programid_cache s) (add_new_waiting_tx now q ev (parent_cache s)))
  | None => (Ok (ev :: children (parent_cache s) (hash (ev_tx ev))), released s ev)
  end.
Proof.
  intros Hd Hwf Hmiss. unfold manage_parent_dep.
  assert (on_parent (wait_if_not_cached now ev (get_parent_tx (payload (ev_tx ev)))
      (query_db_for_tx storage)) s =
    match missing_parent (parent_cache s) (get_parent_tx (payload (ev_tx ev))) with
    | Some q => (Ok None, MkDepState (programid_cache s) (add_new_waiting_tx now q ev (parent_cache s)))
    | None => (Ok (Some ev), s)
    end) as Hw.
  { unfold on_parent, missing_parent. destruct (get_parent_tx (payload (ev_tx ev))) as [q|].
    - rewrite (wait_if_not_cached_run _ _ _ (bool_decide (is_Some (saved q)))).
      + cbn [mbind option_bind]. destruct (is_tx_cached _ q || _); by destruct s.
      + unfold query_db_for_tx. by rewrite (proj2 Hst).
    - by destruct s. }
  unfold mbind at 1, M_bind at 1. rewrite Hw.
  destruct (missing_parent _ _) as [q|]; [done|]. clear Hw.
  unfold mbind, M_bind, on_parent at 1. rewrite remove_waiting_run. cbn [mret M_ret].
  fold (children (parent_cache s) (hash (ev_tx ev))).
  cbn [flat_mapM]. unfold mbind, M_bind.
  set (s1 := MkDepState _ _).
  assert ((if is_run_payload (payload (ev_tx ev))
           then on_program (manage_program_dep now ev storage) else mret [ev]) s1
          = (Ok [ev], s1)) as ->.
  { destruct (is_run_payload _); [|done]. unfold on_program. simpl.
    rewrite manage_program_dep_run by done. by rewrite Hmiss. }
  rewrite flat_mapM_children; [|intros t; by apply children_not_run].
  cbn [mret M_ret]. by rewrite cache_loop_run.
Qed.

Lemma validate_tx_dep_run (ev : TxEvent WaitTx) (s : DepState) :
  get_deploy_programs (payload (ev_tx ev)) = [] →
  parent_wf (λ _, True) (parent_cache s) →
  validate_tx_dep now ev storage s =
  match missing_program (programid_cache s) (get_run_programs_dep (payload (ev_tx ev))) with
  | Some p => (Ok [], MkDepState (add_new_waiting_tx now p ev (programid_cache s)) (parent_cache s))
  | None =>
    match missing_parent (parent_cache s) (get_parent_tx (payload (ev_tx ev))) with
    | Some q => (Ok [], MkDepState (programid_cache s) (add_new_waiting_tx now q ev (parent_cache s)))
    | None => (Ok (NewTx_of_wait <$> ev :: children (parent_cache s) (hash (ev_tx ev))),
               released s ev)
    end
  end.
Proof.
  intros Hd Hwf. unfold validate_tx_dep, mbind at 1, M_bind at 1, on_program.
  rewrite manage_program_dep_run by done.
  destruct (missing_program _ _) as [p|] eqn:Hm; [done|].
  cbn [flat_mapM]. unfold mbind, M_bind.
  rewrite manage_parent_dep_run; simpl; [|done..].
  destruct (missing_parent _ _); [done|]. simpl. by rewrite app_nil_r.
Qed.

(** C4: complete functional behaviour of the dependency stage for every transaction
    that does not deploy programs, over a storage that answers and well-formed
    caches. A [Run] with an unknown program is parked under the first one; a
    transaction with an unknown parent is parked under it; anything else goes to
    the mempool at once, followed by all the transactions that were waiting for
    exactly this one, in arrival order, which leave the wait cache; every released
    hash is remembered. *)
Theorem validate_tx_dep_spec (ev : TxEvent WaitTx) (s : DepState) :
  get_deploy_programs (payload (ev_tx ev)) = [] →
  parent_wf (λ _, True) (parent_cache s) →
  validate_tx_dep now ev storage s =
  match missing_program (programid_cache s) (get_run_programs_dep (payload (ev_tx ev))) with
  | Some p => (Ok [], MkDepState (add_new_waiting_tx now p ev (programid_cache s)) (parent_cache s))
  | None =>
    match missing_parent (parent_cache s) (get_parent_tx (payload (ev_tx ev))) with
    | Some q => (Ok [], MkDepState (programid_cache s) (add_new_waiting_tx now q ev (parent_cache s)))
    | None => (Ok (NewTx_of_wait <$> ev :: children (parent_cache s) (hash (ev_tx ev))),
               released s ev)
    end
  end.
Proof. apply validate_tx_dep_run. Qed.

Lemma waiting_released s ev :
  waiting_tx (parent_cache (released s ev)) =
  delete (hash (ev_tx ev)) (waiting_tx (parent_cache s)).
Proof. unfold released. simpl. by rewrite waiting_fold_cached. Qed.

(** Releasing is not transitive. When a transaction arrives and its waiting
    children go to the mempool with it, the transactions that wait for one of those
    children stay parked, although their parent is now known to the node: their
    entry is exactly what it was. *)
Theorem grandchildren_stay_parked (ev child : TxEvent WaitTx) (s : DepState) :
  get_deploy_programs (payload (ev_tx ev)) = [] →
  parent_wf (λ _, True) (parent_cache s) →
  missing_program (programid_cache s) (get_run_programs_dep (payload (ev_tx ev))) = None →
  missing_parent (parent_cache s) (get_parent_tx (payload (ev_tx ev))) = None →
  child ∈ children (parent_cache s) (hash (ev_tx ev)) →
  hash (ev_tx child) ≠ hash (ev_tx ev) →
  ∃ outs s', validate_tx_dep now ev storage s = (Ok outs, s') ∧
    NewTx_of_wait child ∈ outs ∧
    waiting_tx (parent_cache s') !! hash (ev_tx child)
      = waiting_tx (parent_cache s) !! hash (ev_tx child).
Proof.
  intros Hd Hwf Hmiss Hpar Hc Hne.
  exists (NewTx_of_wait <$> ev :: children (parent_cache s) (hash (ev_tx ev))), (released s ev).
  split_and!.
  - rewrite validate_tx_dep_run by done. by rewrite Hmiss, Hpar.
  - apply list_elem_of_fmap_2. by right.
  - rewrite waiting_released. by apply lookup_delete_ne.
Qed.

End functional_spec.

(** ** Safety: a workflow is released only when its programs are known *)

Section release_safety.
Context `{Secp, LruLaws}.
Context (now : Z) (storage : ValidateStorage).

(** Every key of the cache satisfies [K]. *)
Definition cached_in {Kind} (K : Hash → Prop) (c : TxCache Kind) : Prop :=
  ∀ p, is_tx_cached c p = true → K p.

Lemma lru_put_contains h p c : lru_contains p (lru_put h c) = true → p = h ∨ lru_contains p c = true.
Proof.
  rewrite !lru_contains_keys, lru_keys_put. intros Hin%elem_of_take.
  destruct Hin as (i & Hi & _). apply list_elem_of_lookup_2 in Hi.
  apply elem_of_cons in Hi as [->|Hi]; [by left|].
  apply list_elem_of_filter in Hi as [_ Hi]. by right.
Qed.

Lemma cached_in_put {Kind} K h (c : TxCache Kind) :
  K h → cached_in K c → cached_in K (add_cached_tx h c).
Proof. intros Hh Hc p Hp. apply lru_put_contains in Hp as [->|Hp]; [done|]. by apply Hc. Qed.

Lemma cached_in_add {Kind} K p t (c : TxCache Kind) :
  cached_in K c → cached_in K (add_new_waiting_tx now p t c).
Proof. intros Hc q. unfold add_new_waiting_tx. by case_decide; case_match; apply Hc. Qed.

(** Each program of a released [Run] is in storage or satisfies [K]. *)
Definition programs_ok (K : Hash → Prop) (t : TxEvent WaitTx) : Prop :=
  ∀ p, p ∈ get_run_programs_dep (payload (ev_tx t)) → contains_program storage p = Ok true ∨ K p.

Lemma wait_known K ev k :
  hoare (cached_in K) (wait_if_not_cached now ev (Some k) (contains_program storage))
    (λ o c, cached_in (Kind:=Program) K c ∧
            (o = None ∨ o = Some ev ∧ (contains_program storage k = Ok true ∨ K k)))
    (cached_in K).
Proof.
  intros c Hc. unfold wait_if_not_cached, mbind, M_bind, get, lift, mret, M_ret, modify.
  destruct (is_tx_cached c k) eqn:Hk; [by auto 6|].
  destruct (contains_program storage k) as [[]|e|] eqn:Hs; simpl; [auto 6| |done..].
  split; [by apply cached_in_add|by left].
Qed.

Lemma wait_for_programs_known K ev ps :
  hoare (cached_in K) (wait_for_programs now ev ps storage)
    (λ o c, cached_in K c ∧ (o = None ∨ o = Some ev ∧
              ∀ p, p ∈ ps → contains_program storage p = Ok true ∨ K p))
    (cached_in K).
Proof.
  induction ps as [|p ps IH]; cbn [wait_for_programs].
  - apply hoare_ret. intros s Hs. split; [done|]. right. split; [done|]. by intros p ?%elem_of_nil.
  - eapply hoare_bind; [apply wait_known|]. intros [ev'|]; [|apply hoare_ret; naive_solver].
    intros c [Hc [?|[? Hp]]]; simplify_eq. specialize (IH c Hc).
    destruct (wait_for_programs now ev ps storage c) as [[o|e|] c']; [|done..].
    destruct IH as [Hc' [->|[-> Hps]]]; [by auto|]. split; [done|]. right. split; [done|].
    intros q [->|Hq]%elem_of_cons; auto.
Qed.

Lemma deploy_loop_known (K : Hash → Prop) l :
  (∀ p, p ∈ l → K p) →
  hoare (cached_in (Kind:=Program) K)
    (flat_mapM (λ prg, _ ← modify (add_cached_tx prg); remove_waiting_children_txs prg) l)
    (λ _, cached_in K) (cached_in K).
Proof.
  induction l as [|p l IH]; intros Hl; cbn [flat_mapM]; [by apply hoare_ret|].
  eapply (hoare_bind _ _ _ (λ _, cached_in K)).
  - eapply (hoare_modify_seq _ _ _ (cached_in K)).
    + intros s Hs. apply cached_in_put; [apply Hl; by left|exact Hs].
    + intros c Hc. unfold remove_waiting_children_txs.
      by destruct (waiting_tx c !! p) as [[txs ts]|].
  - intros ys. eapply (hoare_bind _ _ _ (λ _, cached_in K)); [|intros zs; by apply hoare_ret].
    apply IH. intros q Hq. apply Hl. by right.
Qed.

Lemma program_dep_known (K : Hash → Prop) ev :
  (∀ p, p ∈ get_deploy_programs (payload (ev_tx ev)) → K p) →
  hoare (cached_in K) (manage_program_dep now ev storage)
    (λ outs c, cached_in K c ∧ ∀ t, head outs = Some t → programs_ok K t) (cached_in K).
Proof.
  intros HK. unfold manage_program_dep.
  eapply hoare_bind; [apply wait_for_programs_known|].
  intros [tx|]; [|apply hoare_ret; naive_solver].
  intros c [Hc [?|[[= ->] Hps]]]; [done|]. revert c Hc.
  eapply (hoare_bind _ _ _ (λ _, cached_in K)); [|intros ys; apply hoare_ret; naive_solver].
  by apply deploy_loop_known.
Qed.

Lemma run_no_deploy (p : Payload.t) : is_run_payload p = true → get_deploy_programs p = [].
Proof. by destruct p. Qed.
Lemma not_run_no_programs (p : Payload.t) : is_run_payload p = false → get_run_programs_dep p = [].
Proof. by destruct p. Qed.

(** For a [Run], [manage_program_dep] returns the transaction itself or nothing. *)
Lemma program_dep_known_run K ev :
  is_run_payload (payload (ev_tx ev)) = true →
  hoare (cached_in K) (manage_program_dep now ev storage)
    (λ outs c, cached_in K c ∧ ∀ t, t ∈ outs → programs_ok K t) (cached_in K).
Proof.
  intros Hrun. unfold manage_program_dep.
  eapply hoare_bind; [apply wait_for_programs_known|].
  intros [tx|]; [|apply hoare_ret; set_solver].
  intros c [Hc [?|[[= ->] Hps]]]; [done|]. rewrite run_no_deploy by done. simpl.
  split; [done|]. intros t ->%list_elem_of_singleton. exact Hps.
Qed.

Lemma parent_dep_known K ev :
  hoare (λ s, cached_in K (programid_cache s)) (manage_parent_dep now ev storage)
    (λ outs s, cached_in K (programid_cache s) ∧ ∀ t, t ∈ outs → programs_ok K t)
    (λ s, cached_in K (programid_cache s)).
Proof.
  set (J := λ s, cached_in K (programid_cache s)).
  assert (∀ A (m : M _ EventProcessError.t A), hoare J (on_parent m) (λ _, J) J) as Hpar.
  { intros A m s Hs. unfold on_parent. by destruct (m (parent_cache s)) as [[]]. }
  unfold manage_parent_dep. eapply (hoare_bind _ _ _ (λ _, J)); [apply Hpar|]. intros o.
  eapply (hoare_bind _ _ _ (λ _, J)).
  { destruct o; [|by apply hoare_ret]. eapply hoare_bind; [apply Hpar|]. intros ys. by apply hoare_ret. }
  intros tmp. eapply (hoare_bind _ _ _ (λ ys s, J s ∧ ∀ t, t ∈ ys → programs_ok K t)).
  - eapply hoare_conseq;
      [apply (hoare_loop _ (λ _ acc s, J s ∧ ∀ t, t ∈ acc → programs_ok K t) J)| |done|done].
    + intros x todo acc s [Hs Hacc]. destruct (is_run_payload (payload (ev_tx x))) eqn:Hrun.
      * specialize (program_dep_known_run K x Hrun _ Hs). unfold on_program.
        destruct (manage_program_dep now x storage (programid_cache s)) as [[ys|e|] c]; [|done..].
        intros [Hc Hys]. split; [done|]. intros t [Ht|Ht]%elem_of_app; auto.
      * simpl. split; [done|]. intros t [Ht| ->%list_elem_of_singleton]%elem_of_app; [auto|].
        intros p Hp. rewrite not_run_no_programs in Hp by done. by apply elem_of_nil in Hp.
    + intros s Hs. split; [done|]. by intros t ?%elem_of_nil.
  - intros ys s [Hs Hys]. unfold mbind, M_bind. rewrite cache_loop_run. done.
Qed.

(** C6: safety of the dependency stage: every workflow that is handed to the
    mempool names only programs that are in storage, or were known to the node
    before, or are deployed by the very transaction being processed. This covers
    the transaction itself and all the parked ones it releases. *)
Theorem released_run_programs_known (ev : TxEvent WaitTx) (s s' : DepState)
    (outs : list (TxEvent NewTx)) (t : TxEvent NewTx) (p : Hash) :
  validate_tx_dep now ev storage s = (Ok outs, s') →
  t ∈ outs → p ∈ get_run_programs_dep (payload (ev_tx t)) →
  contains_program storage p = Ok true ∨ is_tx_cached (programid_cache s) p = true
  ∨ p ∈ get_deploy_programs (payload (ev_tx ev)).
Proof.
  intros Hrun Ht Hp.
  set (K := λ p, is_tx_cached (programid_cache s) p = true
                 ∨ p ∈ get_deploy_programs (payload (ev_tx ev))).
  assert (hoare (λ s, cached_in K (programid_cache s)) (validate_tx_dep now ev storage)
    (λ outs _, ∀ t, t ∈ outs → ∃ w, t = NewTx_of_wait w ∧ programs_ok K w) (λ _, True)) as Hh.
  { unfold validate_tx_dep.
    eapply (hoare_bind _ _ _ (λ _ s, cached_in K (programid_cache s))).
    { intros s1 Hs1. unfold on_program.
      specialize (program_dep_known K ev ltac:(by right) _ Hs1).
      destruct (manage_program_dep now ev storage (programid_cache s1)) as [[ys|e|] c]; [|done..].
      by intros [? _]. }
    intros oks.
    eapply (hoare_bind _ _ _ (λ ys _, ∀ t, t ∈ ys → programs_ok K t)).
    { eapply hoare_conseq; [apply (hoare_loop _ (λ _ acc s1, cached_in K (programid_cache s1) ∧
          ∀ t, t ∈ acc → programs_ok K t) (λ _, True))| |by intros ys s1 [_ ?]|done].
      - intros x todo acc s1 [Hs1 Hacc]. specialize (parent_dep_known K x s1 Hs1).
        destruct (manage_parent_dep now x storage s1) as [[ys|e|] s2]; [|done..].
        intros [Hc Hys]. split; [done|]. intros u [Hu|Hu]%elem_of_app; auto.
      - intros s1 Hs1. split; [done|]. by intros u ?%elem_of_nil. }
    intros ys. apply hoare_ret. intros _ Hys u (w & -> & Hw)%list_elem_of_fmap. eauto. }
  assert (cached_in K (programid_cache s)) as Hs0 by (intros q Hq; by left).
  destruct (hoare_run_Ok _ _ _ _ _ _ _ Hh Hs0 Hrun t Ht) as (w & -> & Hw).
  destruct (Hw p Hp) as [?|[?|?]]; auto.
Qed.

End release_safety.

(** ** Witnesses *)

Section event_witnesses.
Local Existing Instances hex_crate secp_toy sha3_toy bigint_toy bincode_toy lru_list lru_list_laws.

(** An event for a transaction with a given hash and payload. *)
Definition demo_event (h : u8) (p : Payload.t) : TxEvent WaitTx :=
  MkTxEvent {| author := toy_key "k"; hash := fill h; payload := p; nonce := 0;
               signature := Signature_default; propagated := false; executed := false;
               state := Received.RPC |} MkWaitTx.

Definition demo_metadata (h : u8) : ProgramMetadata :=
  MkProgramMetadata "prg" (fill h) "img" "url" "" None.
Definition demo_deploy : TxEvent WaitTx :=
  demo_event "d" (Payload.Deploy "d" (demo_metadata "a") (demo_metadata "b")).
(** A workflow over program [a], deployed by [demo_deploy], and [x], unknown. *)
Definition demo_wait_run : TxEvent WaitTx :=
  demo_event "r" (Payload.Run (MkWorkflow [demo_step "a"; demo_step "x"])).
Definition demo_wait_proof : TxEvent WaitTx :=
  demo_event "p" (Payload.Proof (fill "r") (fill "a") [] []).
Definition demo_wait_verif : TxEvent WaitTx :=
  demo_event "v" (Payload.Verification (fill "p") (fill "b") [] []).

Definition empty_storage : ValidateStorage :=
  MkValidateStorage (λ _, Ok None) (λ _, Ok false).
Definition demo_deps : DepState :=
  MkDepState (set_waiting TxCache_new {[fill "a" := ([demo_wait_run], 0%Z)]})
    (set_waiting TxCache_new {[fill "r" := ([demo_wait_proof], 0%Z)]}).

(** The release order is not safe for children. A workflow [r] waits for
    program [a] and its proof waits for [r]; the deployment of [a] sends the proof
    to the mempool, although [r] itself goes back to waiting, for program [x]:
    the child is released before its parent. *)
Theorem child_released_before_parent :
  fst (validate_tx_dep 0 demo_deploy empty_storage demo_deps) = Ok [NewTx_of_wait demo_deploy; NewTx_of_wait demo_wait_proof] ∧
  get_parent_tx (payload (ev_tx demo_wait_proof)) = Some (hash (ev_tx demo_wait_run)) ∧
  waiting_tx (programid_cache (snd (validate_tx_dep 0 demo_deploy empty_storage demo_deps)))
    = {[fill "x" := ([demo_wait_run], 0%Z)]}.
Proof. by_evaluation. Qed.
Lemma demo_deps_wf : dep_wf (λ _, True) demo_deps.
Proof.
  split; intros p e t; simpl; intros [<- <-]%lookup_singleton_Some;
    intros ->%list_elem_of_singleton; [|done]. split; [|done]. unfold needs_program. simpl. set_solver.
Qed.

Definition demo_out : result EventProcessError.t (list (TxEvent NewTx)) * DepState :=
  validate_tx_dep 0 demo_deploy empty_storage demo_deps.

Lemma demo_out_Ok :
  demo_out = (Ok [NewTx_of_wait demo_deploy; NewTx_of_wait demo_wait_proof], snd demo_out).
Proof.
  apply run_snd. by_evaluation.
Qed.

Example validate_tx_dep_conserves_witness :
  ∃ lost : list (TxEvent WaitTx),
    (ev_tx <$> [NewTx_of_wait demo_deploy; NewTx_of_wait demo_wait_proof])
    ++ (ev_tx <$> (waiting_list (programid_cache (snd demo_out))
                   ++ waiting_list (parent_cache (snd demo_out)) ++ lost))
    ≡ₚ ev_tx <$> (demo_deploy :: waiting_list (programid_cache demo_deps)
                    ++ waiting_list (parent_cache demo_deps))
    ∧ (fresh 0 (programid_cache demo_deps) → fresh 0 (parent_cache demo_deps) → lost = []).
Proof.
  exact (validate_tx_dep_conserves 0 empty_storage demo_deploy demo_deps _ _ demo_out_Ok).
Defined.

Example waiting_wf_invariant_witness :
  let '(res, s') := validate_tx_dep 0 demo_deploy empty_storage demo_deps in
  dep_wf (λ _, True) s' ∧
  ∀ outs, res = Ok outs → ∃ ws, outs = NewTx_of_wait <$> ws ∧ Forall (λ _, True) ws.
Proof.
  exact (waiting_wf_invariant 0 empty_storage (λ _, True) demo_deploy demo_deps I demo_deps_wf).
Defined.

Lemma empty_storage_answers : storage_answers empty_storage (λ _, false) (λ _, None).
Proof. by split. Qed.

(** A transfer with the hash the proof waits for, and a verification behind it. *)
Definition demo_parent : TxEvent WaitTx := demo_event "r" (Payload.Stake 1).
Definition demo_chain : DepState :=
  MkDepState TxCache_new
    (set_waiting TxCache_new {[fill "r" := ([demo_wait_proof], 0%Z);
                               fill "p" := ([demo_wait_verif], 0%Z)]}).

Lemma demo_chain_wf : parent_wf (λ _, True) (parent_cache demo_chain).
Proof.
  intros p e t. simpl.
  intros [[<- <-]|[_ [<- <-]%lookup_singleton_Some]]%lookup_insert_Some;
    by intros ->%list_elem_of_singleton.
Qed.

Example validate_tx_dep_spec_witness :
  fst (validate_tx_dep 0 demo_parent empty_storage demo_chain)
  = Ok [NewTx_of_wait demo_parent; NewTx_of_wait demo_wait_proof].
Proof.
  rewrite (validate_tx_dep_spec 0 empty_storage (λ _, false) (λ _, None) empty_storage_answers);
    [by_evaluation|reflexivity|exact demo_chain_wf].
Defined.

Example grandchildren_stay_parked_witness :
  ∃ outs s', validate_tx_dep 0 demo_parent empty_storage demo_chain = (Ok outs, s') ∧
    NewTx_of_wait demo_wait_proof ∈ outs ∧
    waiting_tx (parent_cache s') !! fill "p" = waiting_tx (parent_cache demo_chain) !! fill "p".
Proof.
  apply (grandchildren_stay_parked 0 empty_storage (λ _, false) (λ _, None)
    empty_storage_answers demo_parent demo_wait_proof demo_chain);
    [reflexivity|exact demo_chain_wf|reflexivity|reflexivity|by_evaluation|by_evaluation].
Defined.

(** The same deployment when both programs of the workflow are the deployed ones. *)
Definition demo_ready_run : TxEvent WaitTx :=
  demo_event "r" (Payload.Run (MkWorkflow [demo_step "a"; demo_step "b"])).
Definition demo_ready : DepState :=
  MkDepState (set_waiting TxCache_new {[fill "a" := ([demo_ready_run], 0%Z)]}) TxCache_new.

Example released_run_programs_known_witness :
  contains_program empty_storage (fill "b") = Ok true ∨
  is_tx_cached (programid_cache demo_ready) (fill "b") = true ∨
  fill "b" ∈ get_deploy_programs (payload (ev_tx demo_deploy)).
Proof.
  apply (released_run_programs_known 0 empty_storage demo_deploy demo_ready
    (snd (validate_tx_dep 0 demo_deploy empty_storage demo_ready))
    [NewTx_of_wait demo_deploy; NewTx_of_wait demo_ready_run] (NewTx_of_wait demo_ready_run)).
  - apply run_snd. by_evaluation.
  - by_evaluation.
  - by_evaluation.
Defined.

End event_witnesses.
