(* ===== verification/Mempool.v ===== *)
(** * Mempool and the validation event loop
    ([crates/node/src/mempool/mod.rs], [mempool/txvalidation/mod.rs])

    The queue of validated transactions with the storage behind it, the three
    kinds of senders that feed the node, and the event loop that verifies,
    downloads, propagates, orders and saves what they send.  The loop is a
    transition system: receiving a transaction, the end of a spawned verification
    task and the handling of its result may interleave in any order, and the
    scheduler may take a transaction out of the mempool at any time. *)

From S2P Require Import Prelude Types Models Files Transaction Event.

(** ** Errors and senders *)

Module MempoolError.
Inductive t `{Secp} :=
  | TxValidationError (msg : string)
  | PermissionDenied
  | EventProcess (e : EventProcessError.t)
  | SendChannelError
  | RcvChannelError.
End MempoolError.

(** A callback is the oneshot channel of one request; requests are numbered. *)
Definition CallbackId := nat.

Section mempool.
Context `{Hex, Secp, Sha3, NumBigint, Bincode, Lru, UrlParse}.

Definition Message := (Transaction Received.t * option CallbackId)%type.

(** The unbounded channel into the event loop; sending fails once it is closed. *)
Record Channel := MkChannel { ch_queue : list Message; ch_open : bool }.

Definition channel_send (m : Message) : M Channel MempoolError.t () := λ ch,
  if ch_open ch then (Ok (), MkChannel (ch_queue ch ++ [m]) (ch_open ch))
  else (Err MempoolError.SendChannelError, ch).

(** [TxEventSender<P2pSender>::send_tx] expects no answer. *)
Definition p2p_send_tx (tx : Transaction Created) : M Channel MempoolError.t () :=
  channel_send (into_received tx Received.P2P, None).
(** The two others attach a fresh callback [id] and then wait for its answer:
    [callback_result] is [rx.await?]. *)
Definition rpc_send_tx (id : CallbackId) (tx : Transaction Created) : M Channel MempoolError.t () :=
  channel_send (into_received tx Received.RPC, Some id).
Definition txresult_send_tx (id : CallbackId) (tx : Transaction Created)
    : M Channel MempoolError.t () :=
  channel_send (into_received tx Received.TXRESULT, Some id).

(** What became of a callback: an answer, or dropped without one. *)
Inductive Reply := Replied (r : result MempoolError.t ()) | Dropped.
Definition callback_result (r : Reply) : result MempoolError.t () :=
  match r with
  | Replied r => r
  | Dropped => Err MempoolError.RcvChannelError
  end.

(** ** The mempool *)

(** The storage behind the mempool, as operations on its state: [Storage::set] and
    the [ValidateStorage] view of the same database. *)
Record MempoolStorage (S : Type) := MkMempoolStorage {
  storage_set : Transaction Validated → M S string ();
  storage_view : S → ValidateStorage
}.
Global Arguments MkMempoolStorage {S} _ _.
Global Arguments storage_set {S} _ _.
Global Arguments storage_view {S} _ _.

Record Mempool (S : Type) := MkMempool { storage : S; deque : list (Transaction Validated) }.
Global Arguments MkMempool {S} _ _.
Global Arguments storage {S} _.
Global Arguments deque {S} _.

Definition Mempool_new {S} (s : S) : Mempool S := MkMempool s [].

(** [next]: the transaction and the mempool without it. *)
Definition next {S} (m : Mempool S) : option (Transaction Validated) * Mempool S :=
  match deque m with
  | [] => (None, m)
  | tx :: rest => (Some tx, MkMempool (storage m) rest)
  end.
Definition peek {S} (m : Mempool S) : option (Transaction Validated) := head (deque m).
Definition Mempool_size {S} (m : Mempool S) : nat := length (deque m).

Definition add {S} (st : MempoolStorage S) (tx : Transaction Validated) : M (Mempool S) string () :=
  λ m,
  match storage_set st tx (storage m) with
  | (Ok (), s) => (Ok (), MkMempool s (deque m ++ [tx]))
  | (Err e, s) => (Err e, MkMempool s (deque m))
  | (Panic, s) => (Panic, MkMempool s (deque m))
  end.

Definition send_new_tx {S} (st : MempoolStorage S) (tx : Transaction Validated)
    : M (Mempool S) string () := add st tx.

(** ** The event loop *)

(** What the spawned task computes: verify, download, then propagate. *)
Definition process_received (acl : AclWhitelist) (download : AssetFile → result string ())
    (p2p_open : bool) (tx : Transaction Received.t)
    : M (list (Transaction Validated)) EventProcessError.t (TxEvent WaitTx) :=
  download_event ← lift (verify_tx (ReceivedTx_of_tx tx) acl);
  '(wait_tx, propagate_ev) ← lift (downlod_tx_assets download_event download);
  _ ← match propagate_ev with
      | Some ev => propagate_tx ev p2p_open
      | None => mret ()
      end;
  mret wait_tx.

(** A future of [validated_txs_futures]: still running, or done with its result
    ([Panic] when the spawned task panicked, a [JoinError]). *)
Inductive Fut :=
  | Running (tx : Transaction Received.t)
  | Done (res : result EventProcessError.t (TxEvent WaitTx)).

Record EventLoop (S : Type) := MkEventLoop {
  el_channel : list Message;
  el_futures : list (Fut * option CallbackId);
  el_deps : DepState;
  el_p2p : list (Transaction Validated);
  el_mempool : Mempool S;
  el_replies : list (CallbackId * Reply);
  (** The branch of finished futures is disabled until a message arrives. *)
  el_stalled : bool
}.
Global Arguments MkEventLoop {S} _ _ _ _ _ _ _.
Global Arguments el_channel {S} _.
Global Arguments el_futures {S} _.
Global Arguments el_deps {S} _.
Global Arguments el_p2p {S} _.
Global Arguments el_mempool {S} _.
Global Arguments el_replies {S} _.
Global Arguments el_stalled {S} _.

Definition EventLoop_new {S} (s : S) : EventLoop S :=
  MkEventLoop [] [] (MkDepState TxCache_new TxCache_new) [] (Mempool_new s) [] false.

(** First [select!] branch: take a message, spawn its verification.  The next turn of
    the loop polls both branches again. *)
Definition on_receive {S} (el : EventLoop S) : option (EventLoop S) :=
  match el_channel el with
  | [] => None
  | (tx, callback) :: rest =>
      Some (MkEventLoop rest (el_futures el ++ [(Running tx, callback)]) (el_deps el)
              (el_p2p el) (el_mempool el) (el_replies el) false)
  end.

(** The spawned task number [i] runs to its end. *)
Definition on_task {S} (acl : AclWhitelist) (download : AssetFile → result string ())
    (p2p_open : bool) (i : nat) (el : EventLoop S) : option (EventLoop S) :=
  match el_futures el !! i with
  | Some (Running tx, callback) =>
      let '(res, p2p) := process_received acl download p2p_open tx (el_p2p el) in
      Some (MkEventLoop (el_channel el) (<[i := (Done res, callback)]> (el_futures el))
              (el_deps el) p2p (el_mempool el) (el_replies el) (el_stalled el))
  | _ => None
  end.

(** The [for new_tx in new_tx_list] loop: every transaction is tried, the last
    error is the one reported. *)
Fixpoint save_txs {S} (st : MempoolStorage S) (new_tx_list : list (TxEvent NewTx))
    (res : result EventProcessError.t ())
    : M (Mempool S) EventProcessError.t (result EventProcessError.t ()) := λ m,
  match new_tx_list with
  | [] => (Ok res, m)
  | new_tx :: rest =>
      match save_tx new_tx (send_new_tx st) m with
      | (Ok (), m') => save_txs st rest res m'
      | (Err err, m') => save_txs st rest (Err err) m'
      | (Panic, m') => (Panic, m')
      end
  end.

Definition reply (callback : option CallbackId) (r : Reply) (l : list (CallbackId * Reply))
    : list (CallbackId * Reply) :=
  match callback with Some id => l ++ [(id, r)] | None => l end.

(** Second [select!] branch, on the finished future number [i]. [None]: not a
    finished future, the branch is disabled, or the loop itself panics. The future of a
    task that panicked yields [Some(Err(_))], which does not match the branch's
    pattern: its callback is dropped, and [select!] disables the branch and waits for
    the other one, a message. *)
Definition on_finished {S} (st : MempoolStorage S) (now : Z) (i : nat) (el : EventLoop S)
    : option (EventLoop S) :=
  if el_stalled el then None else
  match el_futures el !! i with
  | Some (Done wait_tx_res, callback) =>
      let futures := delete i (el_futures el) in
      match wait_tx_res with
      | Ok wait_tx =>
          match validate_tx_dep now wait_tx (storage_view st (storage (el_mempool el)))
                  (el_deps el) with
          | (Ok new_tx_list, deps) =>
              match save_txs st new_tx_list (Ok ()) (el_mempool el) with
              | (Ok res, m) =>
                  Some (MkEventLoop (el_channel el) futures deps (el_p2p el) m
                    (reply callback (Replied (map_err MempoolError.EventProcess res))
                       (el_replies el)) false)
              | _ => None
              end
          | (Err err, deps) =>
              Some (MkEventLoop (el_channel el) futures deps (el_p2p el) (el_mempool el)
                (reply callback (Replied (Err (MempoolError.EventProcess err))) (el_replies el)) false)
          | (Panic, _) => None
          end
      | Err err =>
          Some (MkEventLoop (el_channel el) futures (el_deps el) (el_p2p el) (el_mempool el)
            (reply callback (Replied (Err (MempoolError.EventProcess err))) (el_replies el)) false)
      | Panic =>
          Some (MkEventLoop (el_channel el) futures (el_deps el) (el_p2p el) (el_mempool el)
            (reply callback Dropped (el_replies el)) true)
      end
  | _ => None
  end.

End mempool.

(** ** What is on its way through the loop *)

Section loop_invariant.
Context `{Hex, Secp, Sha3, NumBigint, Bincode, Lru, UrlParse}.
Context {S : Type} (st : MempoolStorage S).

Lemma verify_tx_Ok acl ev d :
  verify_tx ev acl = Ok d →
  ev_tx d = ev_tx ev ∧ validate (ev_tx ev) = Ok () ∧ acl_contains acl (author (ev_tx ev)) = Ok true.
Proof.
  unfold verify_tx, validate_tx. destruct (validate (ev_tx ev)) as [[]|e|]; [|done..]. simpl.
  destruct (acl_contains acl _) as [[]|e|]; simpl; try done. by intros [= <-].
Qed.

(** What the spawned task returns and propagates. *)
Lemma process_received_spec acl download p2p_open tx sent res sent' :
  process_received acl download p2p_open tx sent = (res, sent') →
  (∀ w, res = Ok w → ev_tx w = tx ∧ validate tx = Ok () ∧ acl_contains acl (author tx) = Ok true) ∧
  (sent' = sent ∨ sent' = sent ++ [into_validated tx] ∧ state tx ≠ Received.P2P ∧
     validate tx = Ok () ∧ acl_contains acl (author tx) = Ok true).
Proof.
  unfold process_received, mbind, M_bind, lift.
  destruct (verify_tx _ acl) as [d|e|] eqn:Hv; [|naive_solver..].
  apply verify_tx_Ok in Hv as (Hd & Hval & Hacl). simpl in *.
  destruct (downlod_tx_assets d download) as [[w p]|e|] eqn:Hdl; [|naive_solver..].
  apply result_bind_Ok in Hdl as (? & _ & (? & _ & [= <- <-])%result_bind_Ok).
  unfold PropagateTx_of_download. rewrite !Hd.
  destruct (state tx) eqn:Hst; simpl; unfold propagate_tx; destruct p2p_open;
    intros [= <- <-]; simpl; naive_solver congruence.
Qed.

Lemma save_txs_spec ws res m r m' :
  save_txs st (NewTx_of_wait <$> ws) res m = (r, m') →
  ∃ saved, saved `sublist_of` ((λ w, into_validated (ev_tx w)) <$> ws) ∧
    deque m' = deque m ++ saved.
Proof.
  revert res m. induction ws as [|w ws IH]; intros res m; simpl.
  - intros [= <- <-]. exists []. by rewrite app_nil_r.
  - unfold save_tx, send_new_tx, add. simpl.
    destruct (storage_set st _ (storage m)) as [[[]|e|] s']; simpl.
    + intros (l & Hl & Hd)%IH. exists (into_validated (ev_tx w) :: l).
      split; [by apply sublist_skip|]. rewrite Hd. simpl. by rewrite <-app_assoc.
    + intros (l & Hl & Hd)%IH. exists l. split; [by apply sublist_cons|done].
    + intros [= <- <-]. exists []. split; [apply sublist_nil_l|]. by rewrite app_nil_r.
Qed.

Definition from_accepted (Acc : Transaction Received.t → Prop) (t : Transaction Validated) : Prop :=
  ∃ tx, Acc tx ∧ t = into_validated tx.

Definition fut_ok (Rcv Acc : Transaction Received.t → Prop) (f : Fut) : Prop :=
  match f with
  | Running tx => Rcv tx
  | Done (Ok w) => Acc (ev_tx w)
  | Done _ => True
  end.

(** The transaction of a task, unless it failed. *)
Definition fut_tx (f : Fut * option CallbackId) : option (Transaction Received.t) :=
  match fst f with
  | Running tx => Some tx
  | Done (Ok ev) => Some (ev_tx ev)
  | Done _ => None
  end.

(** The transactions that wait for a program or a parent. *)
Definition parked (s : DepState) : list (Transaction Received.t) :=
  ev_tx <$> (waiting_list (programid_cache s) ++ waiting_list (parent_cache s)).

(** What is on its way through the event loop. *)
Definition on_the_way {S} (el : EventLoop S) : list (Transaction Received.t) :=
  (el_channel el).*1 ++ omap fut_tx (el_futures el) ++ parked (el_deps el).

(** The loop's invariant: whatever is on its way was received ([Rcv]), whatever
    passed verification was accepted ([Acc]). *)
Record loop_inv (Rcv Acc : Transaction Received.t → Prop) (taken : list (Transaction Validated))
    (el : EventLoop S) : Prop := {
  inv_channel : ∀ m, m ∈ el_channel el → Rcv (fst m);
  inv_futures : Forall (λ f, fut_ok Rcv Acc (fst f)) (el_futures el);
  inv_deps : dep_wf (λ t, Acc (ev_tx t)) (el_deps el);
  inv_p2p : Forall (from_accepted (λ tx, Acc tx ∧ state tx ≠ Received.P2P)) (el_p2p el);
  inv_mempool : Forall (from_accepted Acc) (taken ++ deque (el_mempool el))
}.

Lemma from_accepted_mono (Acc Acc' : Transaction Received.t → Prop) t :
  (∀ tx, Acc tx → Acc' tx) → from_accepted Acc t → from_accepted Acc' t.
Proof. intros HA (tx & ? & ?). exists tx. auto. Qed.

Lemma keyed_wf_mono {Kind} (D D' : Hash → TxEvent WaitTx → Prop) (c : TxCache Kind) :
  (∀ p t, D p t → D' p t) → keyed_wf D c → keyed_wf D' c.
Proof. intros HD Hc p e t He Ht. apply HD. eauto. Qed.

Lemma loop_inv_mono (Rcv Acc Rcv' Acc' : Transaction Received.t → Prop) taken el :
  (∀ tx, Rcv tx → Rcv' tx) → (∀ tx, Acc tx → Acc' tx) →
  loop_inv Rcv Acc taken el → loop_inv Rcv' Acc' taken el.
Proof.
  intros HR HA [Hc Hf [Hd1 Hd2] Hp Hm]. split.
  - auto.
  - eapply Forall_impl; [exact Hf|]. intros [[tx|[w|e|]] cb]; simpl; auto.
  - split; (eapply keyed_wf_mono; [|done]); intros p t [? ?]; split; auto.
  - eapply Forall_impl; [exact Hp|]. intros t. apply from_accepted_mono. naive_solver.
  - eapply Forall_impl; [exact Hm|]. intros t. by apply from_accepted_mono.
Qed.

Lemma keyed_wf_waiting {Kind} (D : Hash → TxEvent WaitTx → Prop) (c : TxCache Kind) t :
  keyed_wf D c → t ∈ waiting_list c → ∃ p, D p t.
Proof.
  intros Hc ([p e] & Ht & Hp)%list_elem_of_bind. apply elem_of_map_to_list in Hp. eauto.
Qed.

Lemma loop_inv_on_the_way (Rcv Acc : Transaction Received.t → Prop) taken el tx :
  (∀ tx, Acc tx → Rcv tx) → loop_inv Rcv Acc taken el → tx ∈ on_the_way el → Rcv tx.
Proof.
  intros HR [Hc Hf [Hd1 Hd2] _ _]. unfold on_the_way, parked. rewrite !elem_of_app.
  intros [(m & -> & Hm)%list_elem_of_fmap|[([f cb] & Hin & Hfut)%list_elem_of_omap
    |(ev & -> & [Hev|Hev]%elem_of_app)%list_elem_of_fmap]].
  - by apply Hc.
  - eapply Forall_forall in Hf; [|exact Hin]. unfold fut_tx in Hfut.
    destruct f as [tx'|[w|e|]]; simpl in Hf, Hfut; simplify_eq; auto.
  - apply (keyed_wf_waiting _ _ _ Hd1) in Hev as (p & _ & ?). auto.
  - apply (keyed_wf_waiting _ _ _ Hd2) in Hev as (p & _ & ?). auto.
Qed.

Lemma loop_inv_new Rcv Acc s : loop_inv Rcv Acc [] (EventLoop_new s).
Proof.
  split; simpl; [by intros m ?%elem_of_nil|constructor| |constructor|constructor].
  by split; intros p e t; simpl; rewrite lookup_empty.
Qed.

Lemma loop_inv_send (Rcv Acc : Transaction Received.t → Prop) taken el m :
  Rcv (fst m) → loop_inv Rcv Acc taken el →
  loop_inv Rcv Acc taken
    (MkEventLoop (el_channel el ++ [m]) (el_futures el) (el_deps el) (el_p2p el)
       (el_mempool el) (el_replies el) (el_stalled el)).
Proof.
  intros Hr [Hc Hf Hd Hp Hm]. split; simpl; auto.
  intros m' [Hm'|Hm']%elem_of_app; [auto|]. by apply list_elem_of_singleton in Hm' as ->.
Qed.

Lemma loop_inv_receive Rcv Acc taken el el' :
  loop_inv Rcv Acc taken el → on_receive el = Some el' → loop_inv Rcv Acc taken el'.
Proof.
  intros [Hc Hf Hd Hp Hm]. unfold on_receive.
  destruct (el_channel el) as [|[tx cb] rest] eqn:Hch; [done|]. intros [= <-]. split; simpl; auto.
  - intros m Hin. apply Hc. by right.
  - apply Forall_app. split; [done|]. apply Forall_singleton. simpl.
    apply (Hc (tx, cb)). by left.
Qed.

Lemma loop_inv_task (Rcv Acc : Transaction Received.t → Prop) acl taken el el' download p2p_open i :
  (∀ tx, Rcv tx → validate tx = Ok () → acl_contains acl (author tx) = Ok true → Acc tx) →
  loop_inv Rcv Acc taken el → on_task acl download p2p_open i el = Some el' →
  loop_inv Rcv Acc taken el'.
Proof.
  intros Hacc [Hc Hf Hd Hp Hm]. unfold on_task.
  destruct (el_futures el !! i) as [[[tx|] cb]|] eqn:Hi; [|done..].
  destruct (process_received acl download p2p_open tx (el_p2p el)) as [res p2p] eqn:Hpr.
  intros [= <-]. apply process_received_spec in Hpr as [Hres Hsent].
  assert (Rcv tx) as Hin by exact (Forall_lookup_1 _ _ _ _ Hf Hi).
  split; simpl; auto.
  - apply Forall_insert; [done|]. simpl. destruct res as [w|e|]; simpl; [|done..].
    destruct (Hres w eq_refl) as (-> & ? & ?). auto.
  - destruct Hsent as [->|(-> & Hne & ? & ?)]; [done|]. apply Forall_app. split; [done|].
    apply Forall_singleton. exists tx. auto.
Qed.

Lemma loop_inv_finished Rcv Acc taken el el' now i :
  loop_inv Rcv Acc taken el → on_finished st now i el = Some el' → loop_inv Rcv Acc taken el'.
Proof.
  intros [Hc Hf Hd Hp Hm]. unfold on_finished. destruct (el_stalled el); [done|].
  destruct (el_futures el !! i) as [[[tx|res] cb]|] eqn:Hi; [done| |done].
  assert (Forall (λ f, fut_ok Rcv Acc (fst f)) (delete i (el_futures el))) as Hf'
    by by apply Forall_delete.
  assert (fut_ok Rcv Acc (Done res)) as Hres by exact (Forall_lookup_1 _ _ _ _ Hf Hi).
  destruct res as [w|e|]; [|by intros [= <-]; split..].
  pose proof (dep_wf_validate now (storage_view st (storage (el_mempool el)))
    (λ t, Acc (ev_tx t)) w Hres (el_deps el) Hd) as Hdep.
  destruct (validate_tx_dep now w _ (el_deps el)) as [[outs|e|] deps];
    [|by intros [= <-]; split|done].
  destruct Hdep as [Hd' (ws & -> & Hws)].
  destruct (save_txs st _ (Ok ()) (el_mempool el)) as [[r|e|] m] eqn:Hsave; [|done..].
  intros [= <-]. apply save_txs_spec in Hsave as (saved & Hsub & Hdeque).
  split; simpl; auto. rewrite Hdeque, app_assoc. apply Forall_app. split; [done|].
  apply Forall_forall. intros t Ht. eapply elem_of_sublist in Ht; [|exact Hsub].
  apply list_elem_of_fmap in Ht as (w' & -> & Hw').
  exists (ev_tx w'). split; [|done]. by eapply Forall_forall in Hws.
Qed.
End loop_invariant.

(** ** Runs of the loop *)

Section runs.
Context `{Hex, Secp, Sha3, NumBigint, Bincode, Lru, UrlParse}.
Context {S : Type} (st : MempoolStorage S) (acl : AclWhitelist) (s0 : S).

(** [run inputs taken el]: the loop can reach [el] after the senders sent [inputs]
    and the scheduler took [taken] out of the mempool.  Downloads, the clock and
    the p2p channel's state are the environment's choice at every step. *)
Inductive run : list Message → list (Transaction Validated) → EventLoop S → Prop :=
  | run_start : run [] [] (EventLoop_new s0)
  | run_send inputs taken el m :
      run inputs taken el →
      run (inputs ++ [m]) taken
        (MkEventLoop (el_channel el ++ [m]) (el_futures el) (el_deps el) (el_p2p el)
           (el_mempool el) (el_replies el) (el_stalled el))
  | run_receive inputs taken el el' :
      run inputs taken el → on_receive el = Some el' → run inputs taken el'
  | run_task inputs taken el el' download p2p_open i :
      run inputs taken el → on_task acl download p2p_open i el = Some el' → run inputs taken el'
  | run_finished inputs taken el el' now i :
      run inputs taken el → on_finished st now i el = Some el' → run inputs taken el'
  | run_next inputs taken el tx m :
      run inputs taken el → next (el_mempool el) = (Some tx, m) →
      run inputs (taken ++ [tx])
        (MkEventLoop (el_channel el) (el_futures el) (el_deps el) (el_p2p el) m (el_replies el)
           (el_stalled el)).

(** The transactions that may enter the mempool: received, well signed, with a
    workflow of distinct programs, and from an author on the whitelist. *)
Definition accepted (inputs : list Message) (tx : Transaction Received.t) : Prop :=
  tx ∈ inputs.*1 ∧ validate tx = Ok () ∧ acl_contains acl (author tx) = Ok true.

Lemma run_inv inputs taken el :
  run inputs taken el → loop_inv (λ tx, tx ∈ inputs.*1) (accepted inputs) taken el.
Proof.
  induction 1 as [|inputs taken el m _ IH|inputs taken el el' _ IH Hr
    |inputs taken el el' download op i _ IH Hr|inputs taken el el' now i _ IH Hr
    |inputs taken el tx m _ IH Hn].
  - apply loop_inv_new.
  - assert (∀ tx, tx ∈ inputs.*1 → tx ∈ (inputs ++ [m]).*1) as Hm by (rewrite fmap_app; set_solver).
    apply loop_inv_send; [rewrite fmap_app; set_solver|].
    eapply loop_inv_mono; [exact Hm| |exact IH]. intros tx (? & ? & ?). split_and!; auto.
  - by eapply loop_inv_receive.
  - eapply loop_inv_task; [|exact IH|exact Hr]. intros tx ???. by split_and!.
  - by eapply loop_inv_finished.
  - destruct IH as [Hc Hf Hd Hp Hm]. split; simpl; auto. unfold next in Hn.
    destruct (deque (el_mempool el)) as [|t rest] eqn:Hq; [done|]. injection Hn as <- <-. simpl.
    by rewrite <-app_assoc.
Qed.

(** C1: nothing reaches the mempool unchecked. In every run of the node, with any
    interleaving of senders, verification tasks, dependency handling and the
    scheduler, each transaction in the mempool's queue or already taken by the
    scheduler is the validated form of a transaction that was received, whose
    signature and workflow passed validation and whose author the whitelist
    accepts. *)
Theorem mempool_only_accepted (inputs : list Message) (taken : list (Transaction Validated))
    (el : EventLoop S) (t : Transaction Validated) :
  run inputs taken el → t ∈ taken ++ deque (el_mempool el) →
  ∃ tx, t = into_validated tx ∧ tx ∈ inputs.*1 ∧ validate tx = Ok () ∧
        acl_contains acl (author tx) = Ok true.
Proof.
  intros [_ _ _ _ Hm]%run_inv Ht.
  eapply Forall_forall in Hm as (tx & (? & ? & ?) & ->); [|exact Ht]. eauto 6.
Qed.

(** A transaction that came from the p2p network is never sent back to it:
    what the node propagates was received from an RPC client or produced by its
    own execution, and was accepted like everything in the mempool. *)
Theorem p2p_never_echoed (inputs : list Message) (taken : list (Transaction Validated))
    (el : EventLoop S) (t : Transaction Validated) :
  run inputs taken el → t ∈ el_p2p el →
  ∃ tx, t = into_validated tx ∧ tx ∈ inputs.*1 ∧ validate tx = Ok () ∧
        acl_contains acl (author tx) = Ok true ∧
        (state tx = Received.RPC ∨ state tx = Received.TXRESULT).
Proof.
  intros [_ _ _ Hp _]%run_inv Ht.
  eapply Forall_forall in Hp as (tx & [(? & ? & ?) Hs] & ->); [|exact Ht].
  exists tx. split_and!; auto. by destruct (state tx); auto.
Qed.

(** *** Callbacks *)

(** Every callback id the senders attached, still pending or answered. *)
Definition pending (el : EventLoop S) : list CallbackId :=
  omap snd (el_channel el) ++ omap snd (el_futures el).

Lemma omap_delete_perm {A B} (f : A → option B) (l : list A) (i : nat) x :
  l !! i = Some x → omap f l ≡ₚ option_list (f x) ++ omap f (delete i l).
Proof.
  intros Hi. rewrite (delete_Permutation l i x Hi) at 1. simpl. by destruct (f x).
Qed.

Lemma reply_ids cb r l : (reply cb r l).*1 ≡ₚ option_list cb ++ l.*1.
Proof. destruct cb as [id|]; simpl; [|done]. rewrite fmap_app. simpl. solve_Permutation. Qed.

Lemma omap_insert_same {A B} (f : A → option B) (l : list A) (i : nat) x y :
  l !! i = Some x → f y = f x → omap f (<[i:=y]> l) = omap f l.
Proof.
  revert i. induction l as [|a l IH]; intros [|i] Hi Hf; simplify_eq/=; [by rewrite Hf|].
  by rewrite (IH i).
Qed.

Lemma callbacks_finished el el' now i :
  on_finished st now i el = Some el' →
  pending el' ++ (el_replies el').*1 ≡ₚ pending el ++ (el_replies el).*1.
Proof.
  unfold on_finished. destruct (el_stalled el); [done|].
  destruct (el_futures el !! i) as [[[tx|res] cb]|] eqn:Hi; [done| |done].
  unfold pending. rewrite (omap_delete_perm snd (el_futures el) i _ Hi). simpl.
  destruct res as [w|e|]; [|by intros [= <-]; simpl; rewrite reply_ids; solve_Permutation..].
  destruct (validate_tx_dep _ _ _ _) as [[outs|e|] deps];
    [|by intros [= <-]; simpl; rewrite reply_ids; solve_Permutation|done].
  destruct (save_txs _ _ _ _) as [[r|e|] m]; [|done..].
  intros [= <-]. simpl. rewrite reply_ids. solve_Permutation.
Qed.

Lemma run_callbacks inputs taken el :
  run inputs taken el → pending el ++ (el_replies el).*1 ≡ₚ omap snd inputs.
Proof.
  induction 1 as [|inputs taken el m _ IH|inputs taken el el' _ IH Hr
    |inputs taken el el' download op i _ IH Hr|inputs taken el el' now i _ IH Hr
    |inputs taken el tx m _ IH Hn]; unfold pending in *; simpl; [done|..].
  - rewrite !omap_app, <-IH. solve_Permutation.
  - rewrite <-IH. unfold on_receive in Hr.
    destruct (el_channel el) as [|[tx cb] rest] eqn:Hch; [done|]. injection Hr as <-. simpl.
    rewrite omap_app. simpl. destruct cb; simpl; rewrite ?app_nil_r; [|done]. solve_Permutation.
  - rewrite <-IH. unfold on_task in Hr.
    destruct (el_futures el !! i) as [[[tx|] cb]|] eqn:Hi; [|done..].
    destruct (process_received _ _ _ _ _). injection Hr as <-. simpl.
    by rewrite (omap_insert_same _ _ _ _ _ Hi).
  - rewrite <-IH. by apply (callbacks_finished _ _ now i).
  - exact IH.
Qed.

(** No request is answered twice and none is forgotten. If the callbacks of the
    requests are distinct, then in every run each of them has at most one answer
    (or drop), and once the loop has nothing left to do each of them has exactly
    one. *)
Theorem callbacks_answered_once (inputs : list Message) (taken : list (Transaction Validated))
    (el : EventLoop S) :
  NoDup (omap snd inputs) → run inputs taken el →
  NoDup ((el_replies el).*1) ∧
  (el_channel el = [] → el_futures el = [] → (el_replies el).*1 ≡ₚ omap snd inputs).
Proof.
  intros Hnd Hp%run_callbacks. split.
  - rewrite <-Hp in Hnd. by apply NoDup_app in Hnd as (_ & _ & ?).
  - intros Hc Hf. unfold pending in Hp. by rewrite Hc, Hf in Hp.
Qed.

End runs.

(** ** The mempool is a FIFO queue over what the storage accepted *)

Section fifo.
Context `{Secp} {S : Type} (st : MempoolStorage S).

Inductive Op := Add (tx : Transaction Validated) | Next.

(** A sequence of operations: what [next] returned, what [add] accepted. *)
Fixpoint exec (ops : list Op) (m : Mempool S)
    : list (Transaction Validated) * list (Transaction Validated) * Mempool S :=
  match ops with
  | [] => ([], [], m)
  | Add tx :: rest =>
      let '(r, m1) := add st tx m in
      let '(out, acc, m2) := exec rest m1 in
      (out, if is_ok r then tx :: acc else acc, m2)
  | Next :: rest =>
      let '(o, m1) := next m in
      let '(out, acc, m2) := exec rest m1 in
      (option_list o ++ out, acc, m2)
  end.

(** The mempool is a first-in first-out queue: over any sequence of [add] and
    [next], the transactions handed out followed by those still queued are the
    initially queued ones followed by the successfully stored ones, in order; a
    transaction whose storage fails is not queued. *)
Theorem mempool_fifo (ops : list Op) (m : Mempool S) :
  let '(out, acc, m') := exec ops m in out ++ deque m' = deque m ++ acc.
Proof.
  revert m. induction ops as [|[tx|] ops IH]; intros m; simpl; [by rewrite app_nil_r|..].
  - unfold add. destruct (storage_set st tx (storage m)) as [[[]|e|] s'] eqn:Hset; simpl;
      match goal with |- context [exec ops ?m1] => specialize (IH m1) end;
      destruct (exec ops _) as [[out acc] m2]; simpl in *; rewrite IH; [|done..].
    by rewrite <-app_assoc.
  - unfold next. destruct (deque m) as [|t rest] eqn:Hq; simpl;
      match goal with |- context [exec ops ?m1] => specialize (IH m1) end;
      destruct (exec ops _) as [[out acc] m2]; simpl in *; rewrite IH; by rewrite ?Hq.
Qed.

End fifo.

(** ** Witnesses *)

Section mempool_witnesses.
Definition url_toy : UrlParse := {| url_parse _ := Ok () |}.
Local Existing Instances hex_crate secp_toy secp_toy_laws sha3_toy bigint_toy bincode_toy lru_list
  url_toy.

(** A database that keeps every transaction it is given. *)
Definition list_storage : MempoolStorage (list (Transaction Validated)) :=
  MkMempoolStorage (λ tx, modify (λ l, l ++ [tx]))
    (λ l, MkValidateStorage
       (λ h, Ok (head (filter (λ t, hash t = h) l))) (λ h, Ok true)).

(** One workflow received by RPC with callback 0, verified, released, saved. *)
Definition demo_msg : Message := (into_received demo_tx Received.RPC, Some 0).
Definition demo_loop : option (EventLoop (list (Transaction Validated))) :=
  let el := EventLoop_new [] in
  el1 ← on_receive (MkEventLoop (el_channel el ++ [demo_msg]) (el_futures el) (el_deps el)
          (el_p2p el) (el_mempool el) (el_replies el) (el_stalled el));
  el2 ← on_task AlwaysGrantAclWhitelist (λ _, Ok ()) true 0 el1;
  on_finished list_storage 0 0 el2.

Lemma demo_loop_run : ∃ el,
  run list_storage AlwaysGrantAclWhitelist [] [demo_msg] [] el ∧
  deque (el_mempool el) = [into_validated (fst demo_msg)] ∧
  el_p2p el = [into_validated (fst demo_msg)].
Proof.
  assert (from_option (λ el,
    bool_decide (deque (el_mempool el) = [into_validated (fst demo_msg)] ∧
                 el_p2p el = [into_validated (fst demo_msg)])) false demo_loop = true) as Heval
    by by vm_compute.
  destruct demo_loop as [el|] eqn:Hel; [|done]. simpl in Heval. apply bool_decide_eq_true in Heval.
  exists el. split; [|done]. unfold demo_loop in Hel.
  apply bind_Some in Hel as (el1 & H1 & (el2 & H2 & H3)%bind_Some).
  eapply run_finished; [|exact H3]. eapply run_task; [|exact H2].
  eapply run_receive; [|exact H1]. apply (run_send _ _ _ [] [] (EventLoop_new [])), run_start.
Qed.

Example mempool_only_accepted_witness :
  ∃ tx, into_validated (fst demo_msg) = into_validated tx ∧ tx ∈ [demo_msg].*1 ∧
        validate tx = Ok () ∧ acl_contains AlwaysGrantAclWhitelist (author tx) = Ok true.
Proof.
  destruct demo_loop_run as (el & Hrun & Hq & _).
  apply (mempool_only_accepted _ _ _ _ _ _ _ Hrun). rewrite Hq. set_solver.
Defined.

Example p2p_never_echoed_witness :
  ∃ tx, into_validated (fst demo_msg) = into_validated tx ∧ tx ∈ [demo_msg].*1 ∧
        validate tx = Ok () ∧ acl_contains AlwaysGrantAclWhitelist (author tx) = Ok true ∧
        (state tx = Received.RPC ∨ state tx = Received.TXRESULT).
Proof.
  destruct demo_loop_run as (el & Hrun & _ & Hq).
  apply (p2p_never_echoed _ _ _ _ _ _ _ Hrun). rewrite Hq. set_solver.
Defined.

Example callbacks_answered_once_witness :
  ∃ el, run list_storage AlwaysGrantAclWhitelist [] [demo_msg] [] el ∧
  NoDup ((el_replies el).*1) ∧
  (el_channel el = [] → el_futures el = [] → (el_replies el).*1 ≡ₚ [0]).
Proof.
  destruct demo_loop_run as (el & Hrun & _). exists el. split; [exact Hrun|].
  apply (callbacks_answered_once list_storage AlwaysGrantAclWhitelist [] [demo_msg] [] el);
    [|exact Hrun]. by_evaluation.
Defined.

End mempool_witnesses.
