(* ===== verification/Workflow.v ===== *)
(** * Workflow engine ([crates/node/src/workflow/mod.rs])

    From an executed transaction to the next task: the workflow is found by
    walking up the parents to the [Run] transaction, and the step after the
    transaction's own program becomes a task.  The walks are unbounded loops in
    the source; here they take fuel and return [None] when it is used up, and the
    theorems say when and with how much fuel they return. *)

From S2P Require Import Prelude Types Models Files Transaction Event.

Module WorkflowError.
Inductive t :=
  | IncompatibleTransaction (msg : string)
  | WorkflowTransactionMissing (msg : string)
  | WorkflowStepMissing (msg : string)
  | TransactionNotFound (tx : Hash)
  | FileDefinitionError (msg : string)
  (** an error of the transaction store, passed on by [?] *)
  | Store (msg : string).
End WorkflowError.
Global Instance WorkflowError_eq_dec : EqDecision WorkflowError.t.
Proof. solve_decision. Defined.

(** The trait [TransactionStore] over the state [S] of the store. *)
Record TransactionStore `{Secp} (S : Type) := MkTransactionStore {
  find_transaction : S → Hash → result string (option (Transaction Validated));
  mark_tx_executed : Hash → M S string ()
}.
Global Arguments MkTransactionStore {_ S} _ _.
Global Arguments find_transaction {_ S} _ _ _.
Global Arguments mark_tx_executed {_ S} _ _.

(** [Display] of the [uuid] crate. *)
Class Uuid := { uuid_to_string : TaskId → string }.

(** One turn of a [loop]: continue with another hash or return. *)
Inductive Turn (A : Type) := Continue (h : Hash) | Return (r : result WorkflowError.t A).
Global Arguments Continue {A} _.
Global Arguments Return {A} _.

Fixpoint loop {A} (fuel : nat) (turn : Hash → Turn A) (h : Hash)
    : option (result WorkflowError.t A) :=
  match fuel with
  | O => None
  | S fuel => match turn h with Continue h' => loop fuel turn h' | Return r => Some r end
  end.

Section workflow.
Context `{Hex, Secp, Uuid} {S : Type} (tx_store : TransactionStore S).

Definition find_parent_turn (s : S) (tx_hash program cur_tx : Hash) : Turn Hash :=
  match find_transaction tx_store s cur_tx with
  | Err e => Return (Err (WorkflowError.Store e))
  | Panic => Return Panic
  | Ok None => Return (Err (WorkflowError.TransactionNotFound cur_tx))
  | Ok (Some tx) =>
      match payload tx with
      | Payload.Run workflow =>
          match wf_steps workflow with
          | [] => Return (Err (WorkflowError.TransactionNotFound cur_tx))
          | first :: _ =>
              if decide (ws_program first = program) then Return (Ok cur_tx)
              else Return (Err (WorkflowError.TransactionNotFound cur_tx))
          end
      | Payload.Proof parent prover _ _ =>
          if bool_decide (cur_tx ≠ tx_hash) && bool_decide (prover = program)
          then Return (Ok cur_tx) else Continue parent
      | Payload.ProofKey parent _ => Continue parent
      | Payload.Verification parent verifier _ _ =>
          if bool_decide (cur_tx ≠ tx_hash) && bool_decide (verifier = program)
          then Return (Ok cur_tx) else Continue parent
      | _ => Return (Err (WorkflowError.IncompatibleTransaction (Hash_to_string cur_tx)))
      end
  end.

Definition find_parent_tx_for_program (fuel : nat) (s : S) (tx_hash program : Hash)
    : option (result WorkflowError.t Hash) :=
  loop fuel (find_parent_turn s tx_hash program) tx_hash.

Definition workflow_turn (s : S) (tx_hash : Hash) : Turn (option Workflow) :=
  match find_transaction tx_store s tx_hash with
  | Err e => Return (Err (WorkflowError.Store e))
  | Panic => Return Panic
  | Ok None => Return (Err (WorkflowError.TransactionNotFound tx_hash))
  | Ok (Some tx) =>
      match payload tx with
      | Payload.Run workflow => Return (Ok (Some workflow))
      | Payload.Proof parent _ _ _ => Continue parent
      | Payload.ProofKey parent _ => Continue parent
      | Payload.Verification _ _ _ _ => Return (Ok None)
      | Payload.Deploy _ _ _ => Return (Ok None)
      | _ => Return (Err (WorkflowError.IncompatibleTransaction (Hash_to_string tx_hash)))
      end
  end.

Definition workflow_for_transaction (fuel : nat) (s : S) (tx_hash : Hash)
    : option (result WorkflowError.t (option Workflow)) :=
  loop fuel (workflow_turn s) tx_hash.

(** [id] is the draw of [Uuid::new_v4]. *)
Definition workflow_step_to_task (id : TaskId) (tx : Hash) (step : WorkflowStep)
    (files : list (TxFile Output)) (kind : TaskKind.t) : result WorkflowError.t Task :=
  files ← collect_results (λ e, map_err WorkflowError.FileDefinitionError
            (try_from_prg_data tx files e)) (ws_inputs step);
  Ok {| task_id := id;
        task_tx := tx;
        task_name := uuid_to_string id +:+ "-" +:+ Hash_to_string (ws_program step);
        task_kind := kind;
        task_program_id := ws_program step;
        task_args := ws_args step;
        task_files := files;
        task_serial := 0;
        task_state := TaskState.New |}.

Definition has_program (program : Hash) (s : WorkflowStep) : bool :=
  bool_decide (ws_program s = program).

(** The [match &cur_tx.payload] of [next_task], once the workflow is known. *)
Definition next_task_of (id : TaskId) (cur_tx : Transaction Validated)
    (opt_workflow : option Workflow) : M S WorkflowError.t (option Task) := λ s,
  match payload cur_tx with
  | Payload.Run workflow =>
      match wf_steps workflow with
      | [] => (Ok None, s)
      | step :: _ =>
          (Some <$> workflow_step_to_task id (hash cur_tx) step [] TaskKind.Proof, s)
      end
  | Payload.Proof parent prover proof files =>
      match opt_workflow with
      | None => (Err (WorkflowError.WorkflowTransactionMissing
                        ("Proof tx with no workflow " +:+ Hash_to_string (hash cur_tx))), s)
      | Some workflow =>
          match position (has_program prover) (wf_steps workflow) with
          | Some proof_step_idx =>
              if decide (length (wf_steps workflow) ≤ proof_step_idx + 1)
              then (Err (WorkflowError.WorkflowStepMissing
                           ("verifier for proof tx " +:+ Hash_to_string (hash cur_tx))), s)
              else (step ← index (wf_steps workflow) (proof_step_idx + 1);
                    Some <$> workflow_step_to_task id (hash cur_tx) step files
                               TaskKind.Verification, s)
          | None => (Err (WorkflowError.WorkflowStepMissing
                            ("verifier for proof tx " +:+ Hash_to_string (hash cur_tx))), s)
          end
      end
  | Payload.ProofKey parent key =>
      match find_transaction tx_store s parent with
      | Ok None => (Err (WorkflowError.WorkflowTransactionMissing
                           ("Proof tx, hash " +:+ Hash_to_string parent)), s)
      | Err err => (Err (WorkflowError.Store err), s)
      | Panic => (Panic, s)
      | Ok (Some proof_tx) =>
          match payload proof_tx with
          | Payload.Proof parent prover proof files =>
              match opt_workflow with
              | None => (Err (WorkflowError.WorkflowTransactionMissing
                                ("Proof tx with no workflow " +:+ Hash_to_string (hash cur_tx))), s)
              | Some workflow =>
                  match position (has_program prover) (wf_steps workflow) with
                  | Some proof_step_idx =>
                      if decide (length (wf_steps workflow) ≤ proof_step_idx)
                      then (Err (WorkflowError.WorkflowStepMissing
                                   ("verifier for proof tx " +:+ Hash_to_string (hash proof_tx))), s)
                      else (step ← index (wf_steps workflow) (proof_step_idx + 1);
                            Some <$> workflow_step_to_task id (hash proof_tx) step files
                                       TaskKind.Verification, s)
                  | None => (Err (WorkflowError.WorkflowStepMissing
                                    ("verifier for proof tx " +:+ Hash_to_string (hash proof_tx))), s)
                  end
              end
          | _ => (Err (WorkflowError.IncompatibleTransaction (Hash_to_string (hash proof_tx))), s)
          end
      end
  | Payload.Verification _ _ _ _ | Payload.Deploy _ _ _ =>
      let '(r, s') := mark_tx_executed tx_store (hash cur_tx) s in
      (_ ← map_err WorkflowError.Store r; Ok None, s')
  | _ => (Err (WorkflowError.IncompatibleTransaction "unsupported payload type"), s)
  end.

Definition next_task (fuel : nat) (id : TaskId) (cur_tx : Transaction Validated) (s : S)
    : option (result WorkflowError.t (option Task) * S) :=
  match workflow_for_transaction fuel s (hash cur_tx) with
  | None => None
  | Some (Err e) => Some (Err e, s)
  | Some Panic => Some (Panic, s)
  | Some (Ok opt_workflow) => Some (next_task_of id cur_tx opt_workflow s)
  end.

End workflow.

(** ** The walk up the parents *)

Section walk.
Context `{Hex, Secp, Uuid} {S : Type} (tx_store : TransactionStore S) (s : S).

Lemma loop_mono {A} (turn : Hash → Turn A) fuel fuel' h r :
  fuel ≤ fuel' → loop fuel turn h = Some r → loop fuel' turn h = Some r.
Proof.
  revert fuel' h. induction fuel as [|fuel IH]; intros fuel' h Hle; simpl; [done|].
  destruct fuel' as [|fuel']; [lia|]. simpl. destruct (turn h); [|done]. apply IH. lia.
Qed.

(** [p] is the parent the walk goes to from [h]. *)
Definition parent_of (h p : Hash) : Prop :=
  ∃ tx, find_transaction tx_store s h = Ok (Some tx) ∧ get_parent_tx (payload tx) = Some p.

Lemma workflow_turn_parent h h' : workflow_turn tx_store s h = Continue h' → parent_of h h'.
Proof.
  unfold workflow_turn, parent_of. destruct (find_transaction tx_store s h) as [[tx|]|e|]; try done.
  intros Ht. exists tx. split; [done|]. destruct (payload tx); by simplify_eq.
Qed.

Lemma find_parent_turn_parent tx_hash program h h' :
  find_parent_turn tx_store s tx_hash program h = Continue h' → parent_of h h'.
Proof.
  unfold find_parent_turn, parent_of.
  destruct (find_transaction tx_store s h) as [[tx|]|e|]; try done.
  intros Ht. exists tx. split; [done|]. destruct (payload tx); repeat case_match; by simplify_eq.
Qed.

(** A store without parent cycles: some rank decreases towards the parents. *)
Definition ranked (rank : Hash → nat) : Prop := ∀ h p, parent_of h p → rank p < rank h.

Lemma loop_ranked {A} (turn : Hash → Turn A) rank :
  ranked rank → (∀ h h', turn h = Continue h' → parent_of h h') →
  ∀ h, ∃ r, loop (rank h + 1) turn h = Some r.
Proof.
  intros Hrank Hturn h. remember (rank h) as n eqn:Hn. revert h Hn.
  induction n as [n IH] using lt_wf_ind; intros h ->.
  rewrite Nat.add_1_r. simpl. destruct (turn h) as [h'|r] eqn:Ht; [|eauto].
  specialize (Hrank h h' (Hturn h h' Ht)).
  destruct (IH (rank h') Hrank h' eq_refl) as [r Hr]. exists r.
  eapply loop_mono; [|exact Hr]. lia.
Qed.

(** C24: termination of both walks: over a transaction store without parent cycles
    the loops of [workflow_for_transaction] and [find_parent_tx_for_program]
    return, after at most as many turns as the transaction has ancestors; and
    more fuel does not change the answer. *)
Theorem walks_terminate (rank : Hash → nat) (h program : Hash) (fuel : nat) :
  ranked rank → rank h < fuel →
  (∃ r, workflow_for_transaction tx_store fuel s h = Some r ∧
        workflow_for_transaction tx_store (rank h + 1) s h = Some r) ∧
  (∃ r, find_parent_tx_for_program tx_store fuel s h program = Some r ∧
        find_parent_tx_for_program tx_store (rank h + 1) s h program = Some r).
Proof.
  intros Hrank Hfuel. split.
  - destruct (loop_ranked (workflow_turn tx_store s) rank Hrank workflow_turn_parent h) as [r Hr].
    exists r. split; [|done]. eapply loop_mono; [|exact Hr]. lia.
  - destruct (loop_ranked (find_parent_turn tx_store s h program) rank Hrank
      (find_parent_turn_parent h program) h) as [r Hr].
    exists r. split; [|done]. eapply loop_mono; [|exact Hr]. lia.
Qed.

(** Without that guarantee the loop does not end: a stored proof that names its
    own hash as its parent (nothing checks that the hash field is the hash of the
    content) keeps [next_task] walking for ever. *)
Theorem self_parent_diverges (id : TaskId) (tx : Transaction Validated) (prover : Hash)
    (proof : list u8) (files : list (TxFile Output)) (fuel : nat) :
  payload tx = Payload.Proof (hash tx) prover proof files →
  find_transaction tx_store s (hash tx) = Ok (Some tx) →
  next_task tx_store fuel id tx s = None.
Proof.
  intros Hp Hf. unfold next_task, workflow_for_transaction.
  assert (loop fuel (workflow_turn tx_store s) (hash tx) = None) as ->; [|done].
  induction fuel as [|fuel IH]; [done|]. simpl. unfold workflow_turn at 1. by rewrite Hf, Hp.
Qed.

(** [run_chain h w]: from [h] proofs and proof keys lead up to the [Run] of [w]. *)
Inductive run_chain : Hash → Workflow → Prop :=
  | chain_run h tx w :
      find_transaction tx_store s h = Ok (Some tx) → payload tx = Payload.Run w → run_chain h w
  | chain_proof h tx p prover proof files w :
      find_transaction tx_store s h = Ok (Some tx) →
      payload tx = Payload.Proof p prover proof files → run_chain p w → run_chain h w
  | chain_key h tx p key w :
      find_transaction tx_store s h = Ok (Some tx) →
      payload tx = Payload.ProofKey p key → run_chain p w → run_chain h w.

Lemma workflow_found h w :
  run_chain h w → ∃ fuel, workflow_for_transaction tx_store fuel s h = Some (Ok (Some w)).
Proof.
  unfold workflow_for_transaction.
  induction 1 as [h tx w Hf Hp|h tx p prover proof files w Hf Hp _ [n IH]|h tx p key w Hf Hp _ [n IH]].
  - exists 1. simpl. unfold workflow_turn. by rewrite Hf, Hp.
  - exists (Datatypes.S n). simpl. unfold workflow_turn at 1. by rewrite Hf, Hp.
  - exists (Datatypes.S n). simpl. unfold workflow_turn at 1. by rewrite Hf, Hp.
Qed.

Lemma workflow_found_inv fuel h w :
  workflow_for_transaction tx_store fuel s h = Some (Ok (Some w)) → run_chain h w.
Proof.
  unfold workflow_for_transaction.
  revert h. induction fuel as [|fuel IH]; intros h; simpl; [done|].
  unfold workflow_turn at 1. destruct (find_transaction tx_store s h) as [[tx|]|e|] eqn:Hf; try done.
  destruct (payload tx) eqn:Hp; intros Hl; simplify_eq.
  - by eapply chain_run.
  - eapply chain_proof; eauto.
  - eapply chain_key; eauto.
Qed.

(** C25: [workflow_for_transaction] finds exactly the workflow of the [Run]
    transaction at the top of the chain of proofs and proof keys: it returns a
    workflow if and only if such a chain leads to it. *)
Theorem workflow_for_transaction_iff (h : Hash) (w : Workflow) :
  (∃ fuel, workflow_for_transaction tx_store fuel s h = Some (Ok (Some w))) ↔ run_chain h w.
Proof. split; [intros [fuel Hf]; by eapply workflow_found_inv|apply workflow_found]. Qed.

(** ** The next task *)

Lemma position_program steps i st :
  NoDup (ws_program <$> steps) → steps !! i = Some st →
  position (has_program (ws_program st)) steps = Some i.
Proof.
  intros Hnd Hi. apply position_Some. exists st. split_and!; [done| |].
  - unfold has_program. by apply bool_decide_eq_true.
  - intros j y Hj Hy. unfold has_program. apply bool_decide_eq_false. intros Heq.
    assert (j = i); [|lia]. eapply NoDup_lookup; [exact Hnd|..]; rewrite list_lookup_fmap.
    + by rewrite Hy.
    + by rewrite Hi; simpl; rewrite Heq.
Qed.

Lemma next_task_chain fuel id tx w :
  workflow_for_transaction tx_store fuel s (hash tx) = Some (Ok (Some w)) →
  next_task tx_store fuel id tx s = Some (next_task_of tx_store id tx (Some w) s).
Proof. intros Hw. unfold next_task. by rewrite Hw. Qed.

(** C7: progress of a workflow of distinct programs. The [Run] transaction starts
    the proof task of its first step; a proof made by the program of step [i]
    leads to the verification task of step [i + 1], run on the proof's own hash
    and given the proof's output files, and to an error, not a task, when there
    is no further step. *)
Theorem next_task_progress (id : TaskId) (tx : Transaction Validated) (w : Workflow) :
  run_chain (hash tx) w → NoDup (ws_program <$> wf_steps w) →
  (∀ st rest, payload tx = Payload.Run w → wf_steps w = st :: rest →
     ∃ fuel, next_task tx_store fuel id tx s =
       Some (Some <$> workflow_step_to_task id (hash tx) st [] TaskKind.Proof, s)) ∧
  (∀ i st parent proof files,
     payload tx = Payload.Proof parent (ws_program st) proof files → wf_steps w !! i = Some st →
     ∃ fuel, next_task tx_store fuel id tx s =
       Some (match wf_steps w !! (i + 1) with
             | Some st' =>
                 Some <$> workflow_step_to_task id (hash tx) st' files TaskKind.Verification
             | None => Err (WorkflowError.WorkflowStepMissing
                              ("verifier for proof tx " +:+ Hash_to_string (hash tx)))
             end, s)).
Proof.
  intros [fuel Hw]%workflow_found Hnd. split.
  - intros st rest Hp Hst. exists fuel. rewrite (next_task_chain _ _ _ _ Hw).
    unfold next_task_of. by rewrite Hp, Hst.
  - intros i st parent proof files Hp Hi. exists fuel. rewrite (next_task_chain _ _ _ _ Hw).
    unfold next_task_of. rewrite Hp, (position_program _ _ _ Hnd Hi).
    case_decide as Hle.
    + by rewrite lookup_ge_None_2.
    + destruct (lookup_lt_is_Some_2 (wf_steps w) (i + 1)) as [st' Hst']; [lia|].
      unfold index. by rewrite Hst'.
Qed.

(** The same walk from a proof key has an off-by-one bound: when the proof was
    made by the last step of the workflow, the engine does not report the missing
    verifier, it panics on the index. *)
Theorem proof_key_last_step_panics (id : TaskId) (tx proof_tx : Transaction Validated)
    (w : Workflow) (st : WorkflowStep) (p q : Hash) (key proof : list u8)
    (files : list (TxFile Output)) :
  run_chain (hash tx) w → NoDup (ws_program <$> wf_steps w) →
  payload tx = Payload.ProofKey p key →
  find_transaction tx_store s p = Ok (Some proof_tx) →
  payload proof_tx = Payload.Proof q (ws_program st) proof files →
  last (wf_steps w) = Some st →
  ∃ fuel, next_task tx_store fuel id tx s = Some (Panic, s).
Proof.
  intros [fuel Hw]%workflow_found Hnd Hp Hf Hpp Hlast. exists fuel.
  rewrite (next_task_chain _ _ _ _ Hw). unfold next_task_of.
  rewrite last_lookup in Hlast. rewrite Hp, Hf, Hpp, (position_program _ _ _ Hnd Hlast).
  assert (length (wf_steps w) ≠ 0).
  { intros Hl. apply length_zero_iff_nil in Hl. by rewrite Hl in Hlast. }
  rewrite decide_False by lia. unfold index.
  rewrite lookup_ge_None_2; [done|]. lia.
Qed.

End walk.

(** ** Witnesses *)

Section workflow_witnesses.
Local Existing Instances hex_crate secp_toy.
Definition uuid_toy : Uuid := {| uuid_to_string _ := "id" |}.
Local Existing Instance uuid_toy.

(** The chain of the repository's own test: run, proof, proof key. *)
Definition demo_validated (h : u8) (p : Payload.t) : Transaction Validated :=
  into_validated (ev_tx (demo_event h p)).
Definition wf_demo : Workflow := MkWorkflow [demo_step "p"; demo_step "v"].
Definition wf_run : Transaction Validated := demo_validated "r" (Payload.Run wf_demo).
Definition wf_proof : Transaction Validated :=
  demo_validated "1" (Payload.Proof (fill "r") (fill "p") [] []).
Definition wf_last_proof : Transaction Validated :=
  demo_validated "2" (Payload.Proof (fill "r") (fill "v") [] []).
Definition wf_key : Transaction Validated := demo_validated "3" (Payload.ProofKey (fill "2") []).
Definition wf_loop : Transaction Validated :=
  demo_validated "4" (Payload.Proof (fill "4") (fill "p") [] []).

Definition list_tx_store : TransactionStore (list (Transaction Validated)) :=
  MkTransactionStore (λ l h, Ok (head (filter (λ t, hash t = h) l))) (λ _, mret ()).
Definition wf_store : list (Transaction Validated) := [wf_run; wf_proof; wf_last_proof; wf_key; wf_loop].

Lemma wf_chain_run : run_chain list_tx_store wf_store (fill "r") wf_demo.
Proof. eapply (chain_run _ _ _ wf_run); reflexivity. Qed.
Lemma wf_chain_proof : run_chain list_tx_store wf_store (fill "1") wf_demo.
Proof. eapply (chain_proof _ _ _ wf_proof); [reflexivity..|apply wf_chain_run]. Qed.
Lemma wf_chain_key : run_chain list_tx_store wf_store (fill "3") wf_demo.
Proof.
  eapply (chain_key _ _ _ wf_key); [reflexivity..|].
  eapply (chain_proof _ _ _ wf_last_proof); [reflexivity..|apply wf_chain_run].
Qed.
Lemma wf_demo_nodup : NoDup (ws_program <$> wf_steps wf_demo).
Proof. by_evaluation. Qed.

Definition demo_rank (h : Hash) : nat := if decide (h = fill "1") then 1 else 0.

Example walks_terminate_witness :
  let txs := [wf_run; wf_proof] in
  let fuel := demo_rank (fill "1") + 1 in
  (∃ r, workflow_for_transaction list_tx_store 5 txs (fill "1") = Some r ∧
        workflow_for_transaction list_tx_store fuel txs (fill "1") = Some r) ∧
  (∃ r, find_parent_tx_for_program list_tx_store 5 txs (fill "1") (fill "p") = Some r ∧
        find_parent_tx_for_program list_tx_store fuel txs (fill "1") (fill "p") = Some r).
Proof.
  apply (walks_terminate list_tx_store [wf_run; wf_proof] demo_rank (fill "1") (fill "p") 5);
    [|vm_compute; lia].
  intros h p (tx & Hf & Hp). injection Hf as Hf. apply head_filter_Some in Hf as [Htx <-].
  apply elem_of_cons in Htx as [->|Htx]; [discriminate Hp|].
  apply list_elem_of_singleton in Htx as ->. injection Hp as <-. vm_compute. lia.
Defined.

Example self_parent_diverges_witness : next_task list_tx_store 1000 7%Z wf_loop wf_store = None.
Proof.
  apply (self_parent_diverges list_tx_store wf_store 7%Z wf_loop (fill "p") [] []); reflexivity.
Defined.

Example next_task_progress_witness :
  ∃ fuel, next_task list_tx_store fuel 7%Z wf_proof wf_store =
    Some (Some <$> workflow_step_to_task 7%Z (fill "1") (demo_step "v") [] TaskKind.Verification,
          wf_store).
Proof.
  destruct (next_task_progress list_tx_store wf_store 7%Z wf_proof wf_demo wf_chain_proof
    wf_demo_nodup) as [_ Hnext].
  exact (Hnext 0 (demo_step "p") (fill "r") [] [] eq_refl eq_refl).
Defined.

Example proof_key_last_step_panics_witness :
  ∃ fuel, next_task list_tx_store fuel 7%Z wf_key wf_store = Some (Panic, wf_store).
Proof.
  apply (proof_key_last_step_panics list_tx_store wf_store 7%Z wf_key wf_last_proof wf_demo
    (demo_step "v") (fill "2") (fill "r") [] [] []);
    [exact wf_chain_key|exact wf_demo_nodup|reflexivity..].
Defined.

End workflow_witnesses.
