(* ===== verification/Watchdog.v ===== *)
(** * Watchdog ([crates/node/src/watchdog/mod.rs])

    The health check: a state machine fed by the scheduler's signals, by the
    timeout on those signals and by a periodic timer, and the HTTP status it is
    reported as. *)

From S2P Require Import Prelude.

Definition GRACEFULL_SIGNAL_COUNTER_LIMIT : nat := 20.

Inductive HealthCheckSignal := SchedulerLoopOk | SchedulerMempoolLen (len : nat).

Inductive WatchDogState := Alive | Graceful | Critical.
Global Instance WatchDogState_eq_dec : EqDecision WatchDogState.
Proof. solve_decision. Defined.

(** [impl From<WatchDogState> for StatusCode] *)
Definition StatusCode_of (state : WatchDogState) : Z :=
  match state with Alive => 200 | Graceful => 204 | Critical => 503 end.

Record HealthcheckState := MkHealthcheckState {
  scheduler_alive : bool;
  scheduler_mempool_empty : bool;
  scheduler_signal_valid : bool
}.
Global Instance HealthcheckState_eq_dec : EqDecision HealthcheckState.
Proof. solve_decision. Defined.
Definition HealthcheckState_default : HealthcheckState := MkHealthcheckState true true true.

(** The variables of [run_healthcheck] and the shared watchdog state. *)
Record Watchdog := MkWatchdog {
  scheduler_state : HealthcheckState;
  see_scheduler_loop_ok : bool;
  timeout_counter : nat;
  watchdog_state : WatchDogState
}.
Definition Watchdog_new : Watchdog := MkWatchdog HealthcheckState_default true 0 Alive.

(** What a turn of the [select!] loop can see: the timer, a signal, the closing of
    the channel, or the timeout of [recv]. *)
Inductive Event :=
  | Tick
  | Signal (msg : HealthCheckSignal)
  | Closed
  | Timeout.

Definition run_healthcheck_turn (graceful_signal_counter_limit : nat) (e : Event) (w : Watchdog)
    : Watchdog :=
  let s := scheduler_state w in
  let '(new_state, see_ok, counter) :=
    match e with
    | Tick =>
        ((if see_scheduler_loop_ok w then s
          else MkHealthcheckState false (scheduler_mempool_empty s) (scheduler_signal_valid s)),
         false, timeout_counter w)
    | Signal SchedulerLoopOk =>
        (MkHealthcheckState true (scheduler_mempool_empty s) true, true, 0)
    | Signal (SchedulerMempoolLen len) =>
        (MkHealthcheckState (scheduler_alive s) (len =? 0) true, see_scheduler_loop_ok w, 0)
    | Closed =>
        (MkHealthcheckState (scheduler_alive s) (scheduler_mempool_empty s) false,
         see_scheduler_loop_ok w, 0)
    | Timeout =>
        let counter := timeout_counter w + 1 in
        ((if graceful_signal_counter_limit <=? counter
          then MkHealthcheckState (scheduler_alive s) (scheduler_mempool_empty s) false else s),
         see_scheduler_loop_ok w, counter)
    end in
  let watchdog :=
    if decide (new_state = s) then watchdog_state w
    else if negb (scheduler_alive new_state) || negb (scheduler_mempool_empty new_state) then Critical
    else if negb (scheduler_signal_valid new_state) then Graceful
    else Alive in
  MkWatchdog new_state see_ok counter watchdog.

Definition run_healthcheck (limit : nat) (es : list Event) (w : Watchdog) : Watchdog :=
  fold_left (λ w e, run_healthcheck_turn limit e w) es w.

(** ** Correctness *)

(** The status a scheduler state stands for. *)
Definition classify (s : HealthcheckState) : WatchDogState :=
  if negb (scheduler_alive s) || negb (scheduler_mempool_empty s) then Critical
  else if negb (scheduler_signal_valid s) then Graceful
  else Alive.

Definition consistent (w : Watchdog) : Prop := watchdog_state w = classify (scheduler_state w).

Lemma turn_consistent limit e w : consistent w → consistent (run_healthcheck_turn limit e w).
Proof.
  unfold consistent, run_healthcheck_turn. intros Hw.
  destruct e as [|[|len]| |]; simpl; (case_decide as Hd; [by rewrite Hd|done]).
Qed.

Lemma run_consistent limit es w : consistent w → consistent (run_healthcheck limit es w).
Proof.
  revert w. induction es as [|e es IH]; intros w Hw; [done|].
  apply (IH (run_healthcheck_turn limit e w)), turn_consistent, Hw.
Qed.

(** The reported status is always up to date, although the loop recomputes it
    only when something changed: after any sequence of events the HTTP status is
    503 exactly when the scheduler loop is considered dead or the mempool is not
    drained, 204 when only the signals are missing, and 200 otherwise. *)
Theorem status_always_current (limit : nat) (es : list Event) :
  let w := run_healthcheck limit es Watchdog_new in
  let s := scheduler_state w in
  StatusCode_of (watchdog_state w) =
  (if negb (scheduler_alive s && scheduler_mempool_empty s) then 503
   else if scheduler_signal_valid s then 200 else 204)%Z.
Proof.
  simpl. rewrite (run_consistent limit es Watchdog_new) by done. unfold classify.
  by destruct (scheduler_state _) as [[] [] []].
Qed.

Definition is_loop_ok (e : Event) : bool :=
  match e with Signal SchedulerLoopOk => true | _ => false end.

Lemma silent_keeps_unseen limit es w :
  Forall (λ e, is_loop_ok e = false) es → see_scheduler_loop_ok w = false →
  see_scheduler_loop_ok (run_healthcheck limit es w) = false.
Proof.
  intros Hes. revert w. induction Hes as [|e es He _ IH]; intros w Hw; [done|].
  apply (IH (run_healthcheck_turn limit e w)). destruct e as [|[|len]| |]; done.
Qed.

Lemma run_app limit es es' w :
  run_healthcheck limit (es ++ es') w = run_healthcheck limit es' (run_healthcheck limit es w).
Proof. apply fold_left_app. Qed.

(** A stuck scheduler is detected: whatever happened before, if no
    [SchedulerLoopOk] arrives between two consecutive ticks of the timer, the
    watchdog reports 503 after the second one, even if other signals still come
    in. *)
Theorem stuck_scheduler_detected (limit : nat) (before between : list Event) :
  Forall (λ e, is_loop_ok e = false) between →
  StatusCode_of (watchdog_state
    (run_healthcheck limit (before ++ [Tick] ++ between ++ [Tick]) Watchdog_new)) = 503%Z.
Proof.
  intros Hb. rewrite app_assoc, app_assoc, run_app.
  set (w := run_healthcheck limit ((before ++ [Tick]) ++ between) Watchdog_new).
  assert (see_scheduler_loop_ok w = false) as Hsee.
  { subst w. rewrite run_app. apply silent_keeps_unseen; [done|]. by rewrite run_app. }
  assert (consistent (run_healthcheck limit [Tick] w)) as ->.
  { apply run_consistent. subst w. by apply run_consistent. }
  unfold run_healthcheck. simpl. by rewrite Hsee.
Qed.

(** Events that leave the channel silent. *)
Definition is_quiet (e : Event) : bool := match e with Tick | Timeout => true | _ => false end.
Definition is_timeout (e : Event) : bool := match e with Timeout => true | _ => false end.
Definition timeouts (es : list Event) : nat := length (filter (λ e, is_timeout e = true) es).

Lemma quiet_run limit es w :
  Forall (λ e, is_quiet e = true) es →
  let w' := run_healthcheck limit es w in
  timeout_counter w' = timeout_counter w + timeouts es ∧
  (scheduler_signal_valid (scheduler_state w) = false ∨
     0 < timeouts es ∧ limit ≤ timeout_counter w + timeouts es →
   scheduler_signal_valid (scheduler_state w') = false).
Proof.
  intros Hes. revert w. induction Hes as [|e es He _ IH]; intros w; simpl.
  { unfold timeouts. simpl. split; [lia|]. intros [?|[? _]]; [done|lia]. }
  destruct (IH (run_healthcheck_turn limit e w)) as [Hc Hv]. clear IH.
  unfold run_healthcheck in *. simpl in *. rewrite Hc.
  destruct e as [| | |]; try done; unfold timeouts in *; cbn [timeout_counter run_healthcheck_turn].
  - rewrite filter_cons_False by done. split; [done|]. intros Hpre. apply Hv.
    destruct Hpre as [Hf|Hn]; [|by right]. left. simpl. by destruct (see_scheduler_loop_ok w).
  - rewrite filter_cons_True by done. simpl length. split; [lia|]. intros Hpre. apply Hv. simpl.
    destruct (Nat.leb_spec limit (timeout_counter w + 1)); [by left|].
    destruct Hpre as [Hf|[Hn Hl]]; [by left|]. right. lia.
Qed.

(** Missing signals are noticed: whatever happened before, once the channel has
    been silent for [limit] timeouts in a row (20 in the node), the watchdog no
    longer reports 200. *)
Theorem missing_signals_detected (limit : nat) (before silent : list Event) :
  0 < limit → Forall (λ e, is_quiet e = true) silent → limit ≤ timeouts silent →
  StatusCode_of (watchdog_state (run_healthcheck limit (before ++ silent) Watchdog_new)) ≠ 200%Z.
Proof.
  intros Hl Hq Hn. rewrite (run_consistent limit (before ++ silent) Watchdog_new) by done.
  rewrite run_app.
  destruct (quiet_run limit silent (run_healthcheck limit before Watchdog_new) Hq) as [_ Hv].
  unfold classify. rewrite Hv by (right; lia). by case_match.
Qed.

(** The routes of [serve_healthcheck]. *)
Definition healthcheck_status (method path : string) (state : WatchDogState) : Z :=
  if bool_decide (method = "GET" ∨ method = "HEAD") then
    if bool_decide (path = "/healthz") then StatusCode_of state
    else if bool_decide (path = "/ready") then 204 else 200
  else 200.

(** ** Witnesses *)

Example stuck_scheduler_detected_witness :
  StatusCode_of (watchdog_state (run_healthcheck GRACEFULL_SIGNAL_COUNTER_LIMIT
    ([Signal SchedulerLoopOk] ++ [Tick] ++ [Signal (SchedulerMempoolLen 0)] ++ [Tick])
    Watchdog_new)) = 503%Z.
Proof.
  apply (stuck_scheduler_detected GRACEFULL_SIGNAL_COUNTER_LIMIT [Signal SchedulerLoopOk]
    [Signal (SchedulerMempoolLen 0)]). by repeat constructor.
Defined.

Example missing_signals_detected_witness :
  StatusCode_of (watchdog_state (run_healthcheck GRACEFULL_SIGNAL_COUNTER_LIMIT
    ([Signal SchedulerLoopOk] ++ replicate 20 Timeout) Watchdog_new)) ≠ 200%Z.
Proof.
  apply (missing_signals_detected GRACEFULL_SIGNAL_COUNTER_LIMIT [Signal SchedulerLoopOk]
    (replicate 20 Timeout)); [unfold GRACEFULL_SIGNAL_COUNTER_LIMIT; lia|by repeat constructor|].
  vm_compute. lia.
Defined.
