(* ===== verification/Resources.v ===== *)
(** * Resources and programs
    ([crates/node/src/scheduler/resource_manager.rs], [program_manager.rs],
    [vmm/mod.rs])

    The node's budget of memory, CPUs and GPUs, the allocations taken from it (a
    [ResourceAllocation] gives its share back when it is dropped), and the
    programs started under an allocation by a VM provider. *)

From S2P Require Import Prelude Types Models.

(** ** The resource manager *)

Record ResourceManager := MkResourceManager {
  available_mem : Z;
  available_cpus : Z;
  available_gpus : Z
}.

(** The pointer to the manager is implicit: there is one manager per node. *)
Record ResourceAllocation := MkResourceAllocation { ra_mem : Z; ra_cpus : Z; ra_gpus : Z }.

Inductive ResourceError := NotEnoughResources (msg : string).

Definition ResourceManager_new (total_mem total_cpus total_gpus : Z) : ResourceManager :=
  MkResourceManager total_mem total_cpus total_gpus.

Definition try_allocate (request : ResourceRequest)
    : M ResourceManager ResourceError ResourceAllocation := λ rm,
  if (available_mem rm <? rr_mem request)%Z then (Err (NotEnoughResources "memory"), rm)
  else if (available_cpus rm <? rr_cpus request)%Z then (Err (NotEnoughResources "cpus"), rm)
  else if (available_gpus rm <? rr_gpus request)%Z then (Err (NotEnoughResources "gpus"), rm)
  else (Ok (MkResourceAllocation (rr_mem request) (rr_cpus request) (rr_gpus request)),
        MkResourceManager (available_mem rm - rr_mem request) (available_cpus rm - rr_cpus request)
          (available_gpus rm - rr_gpus request)).

(** [free], run by [Drop]; [+=] on [u64] wraps around. *)
Definition free (allocation : ResourceAllocation) (rm : ResourceManager) : ResourceManager :=
  MkResourceManager (u64_wrap (available_mem rm + ra_mem allocation))
    (u64_wrap (available_cpus rm + ra_cpus allocation))
    (u64_wrap (available_gpus rm + ra_gpus allocation)).

(** [get_configured_resources]: the [Config] fields it reads, then what the
    [num_cpus] and [systemstat] crates report (memory in bytes). *)
Definition get_configured_resources (gpu_devices : option string) (num_cpus mem_gb : option Z)
    (sys_cpus sys_mem : Z) : Z * Z * Z :=
  let num_gpus := match gpu_devices with Some _ => 1%Z | None => 0%Z end in
  let num_cpus := default sys_cpus num_cpus in
  let available_mem :=
    match mem_gb with
    | Some mem_gb => u64_wrap (mem_gb * 1024 * 1024 * 1024)
    | None => sys_mem
    end in
  (num_cpus, available_mem, num_gpus).

(** ** VMs and their provider ([vmm/mod.rs]) *)

Record VMHandle := MkVMHandle { start_time : Z; vm_id : Z }.

Definition run_time (now : Z) (vm : VMHandle) : Z := now - start_time vm.

(** The trait [Provider], as operations on the provider's state [P]. *)
Record Provider (P : Type) := MkProvider {
  start_vm : Hash → Program → ResourceRequest → M P string VMHandle;
  stop_vm : VMHandle → M P string ()
}.
Global Arguments MkProvider {P} _ _.
Global Arguments start_vm {P} _ _ _ _.
Global Arguments stop_vm {P} _ _.

(** ** The program manager *)

Module ProgramError.
Inductive t `{Hex} :=
  | ProgramNotFound (msg : string)
  | Resource (e : ResourceError)
  (** a storage or provider error, passed on by [?] *)
  | Other (msg : string).
End ProgramError.

Record ProgramHandle := MkProgramHandle {
  resource_allocation : ResourceAllocation;
  vm_handle : VMHandle
}.

Record ProgramManager (P : Type) := MkProgramManager {
  resource_manager : ResourceManager;
  vm_provider : P
}.
Global Arguments MkProgramManager {P} _ _.
Global Arguments resource_manager {P} _.
Global Arguments vm_provider {P} _.

Section programs.
Context `{Hex} {P : Type} (provider : Provider P).

(** Dropping a handle gives its resources back. *)
Definition drop_handle (h : ProgramHandle) (pm : ProgramManager P) : ProgramManager P :=
  MkProgramManager (free (resource_allocation h) (resource_manager pm)) (vm_provider pm).

(** [find_program] is the database lookup; when [start_vm] fails or panics the
    allocation goes out of scope. *)
Definition start_program (find_program : Hash → result string (option Program))
    (tx_hash program_id : Hash) (limits : option ResourceRequest)
    : M (ProgramManager P) ProgramError.t ProgramHandle := λ pm,
  match find_program program_id with
  | Err e => (Err (ProgramError.Other e), pm)
  | Panic => (Panic, pm)
  | Ok None => (Err (ProgramError.ProgramNotFound (Hash_to_string program_id)), pm)
  | Ok (Some program) =>
      let req := default (default ResourceRequest_default (prg_limits program)) limits in
      match try_allocate req (resource_manager pm) with
      | (Err e, rm) => (Err (ProgramError.Resource e), MkProgramManager rm (vm_provider pm))
      | (Panic, rm) => (Panic, MkProgramManager rm (vm_provider pm))
      | (Ok allocation, rm) =>
          match start_vm provider tx_hash program req (vm_provider pm) with
          | (Ok vm, p) => (Ok (MkProgramHandle allocation vm), MkProgramManager rm p)
          | (Err e, p) => (Err (ProgramError.Other e), MkProgramManager (free allocation rm) p)
          | (Panic, p) => (Panic, MkProgramManager (free allocation rm) p)
          end
      end
  end.

(** The handle is consumed: its allocation is dropped whatever [stop_vm] does. *)
Definition stop_program (h : ProgramHandle) : M (ProgramManager P) string () := λ pm,
  let '(r, p) := stop_vm provider (vm_handle h) (vm_provider pm) in
  (r, drop_handle h (MkProgramManager (resource_manager pm) p)).

End programs.

(** ** Conservation of resources *)

(** The total of a list of allocations, as the manager's three counters. *)
Definition rm_plus (a : ResourceManager) (b : ResourceAllocation) : ResourceManager :=
  MkResourceManager (available_mem a + ra_mem b) (available_cpus a + ra_cpus b)
    (available_gpus a + ra_gpus b).
Definition rm_sum (rm : ResourceManager) (l : list ResourceAllocation) : ResourceManager :=
  foldr (λ a r, rm_plus r a) rm l.

Definition rm_u64 (rm : ResourceManager) : Prop :=
  in_u64 (available_mem rm) ∧ in_u64 (available_cpus rm) ∧ in_u64 (available_gpus rm).
Definition ra_nonneg (a : ResourceAllocation) : Prop :=
  (0 ≤ ra_mem a)%Z ∧ (0 ≤ ra_cpus a)%Z ∧ (0 ≤ ra_gpus a)%Z.
Definition rr_nonneg (r : ResourceRequest) : Prop :=
  (0 ≤ rr_mem r)%Z ∧ (0 ≤ rr_cpus r)%Z ∧ (0 ≤ rr_gpus r)%Z.

(** [balanced total live rm]: what is available and the live allocations make up
    the total. *)
Definition balanced (total : ResourceManager) (live : list ResourceAllocation)
    (rm : ResourceManager) : Prop :=
  rm_sum rm live = total ∧ rm_u64 total ∧ rm_u64 rm ∧ Forall ra_nonneg live.

Lemma rm_sum_perm rm l l' : l ≡ₚ l' → rm_sum rm l = rm_sum rm l'.
Proof.
  induction 1 as [|a l l' _ IH|a b l|l1 l2 l3 _ IH1 _ IH2]; simpl; [done|by rewrite IH| |congruence].
  unfold rm_plus. simpl. f_equal; lia.
Qed.

Lemma rm_sum_ge rm l :
  Forall ra_nonneg l →
  (available_mem rm ≤ available_mem (rm_sum rm l))%Z ∧
  (available_cpus rm ≤ available_cpus (rm_sum rm l))%Z ∧
  (available_gpus rm ≤ available_gpus (rm_sum rm l))%Z.
Proof.
  induction 1 as [|a l (? & ? & ?) Hl IH]; simpl; [lia|]. lia.
Qed.

Lemma rm_sum_plus rm a l : rm_sum (rm_plus rm a) l = rm_plus (rm_sum rm l) a.
Proof.
  induction l as [|b l IH]; [done|]. simpl. rewrite IH. unfold rm_plus. simpl. f_equal; lia.
Qed.

Lemma balanced_perm total l l' rm : l ≡ₚ l' → balanced total l rm → balanced total l' rm.
Proof.
  intros Hl (Hs & Ht & Hr & Hn). split; [|split_and!; [done|done|by rewrite <-Hl]].
  by rewrite <-(rm_sum_perm _ _ _ Hl).
Qed.


Lemma free_plus total a live rm :
  balanced total (a :: live) rm → free a rm = rm_plus rm a.
Proof.
  intros (Hs & Ht & Hr & Hn). inversion Hn as [|? ? (? & ? & ?) Hlive]; subst. simpl in Ht.
  pose proof (rm_sum_ge rm live Hlive) as (? & ? & ?).
  destruct Ht as (? & ? & ?), Hr as (? & ? & ?). unfold free, rm_plus, in_u64 in *. simpl in *.
  by rewrite !u64_wrap_id by (unfold in_u64; lia).
Qed.

Lemma balanced_free total a live rm :
  balanced total (a :: live) rm → balanced total live (free a rm).
Proof.
  intros Hb. rewrite (free_plus _ _ _ _ Hb). destruct Hb as (Hs & Ht & Hr & Hn).
  inversion Hn as [|? ? (? & ? & ?) Hlive]; subst.
  split_and!; [apply rm_sum_plus|done| |done].
  pose proof (rm_sum_ge rm live Hlive) as (? & ? & ?).
  destruct Ht as (? & ? & ?), Hr as (? & ? & ?). unfold rm_u64, rm_plus, in_u64 in *. simpl in *. lia.
Qed.

Lemma balanced_alloc total live rm req a rm' :
  rr_nonneg req → balanced total live rm → try_allocate req rm = (Ok a, rm') →
  balanced total (a :: live) rm' ∧ a = MkResourceAllocation (rr_mem req) (rr_cpus req) (rr_gpus req).
Proof.
  intros (? & ? & ?) (Hs & Ht & Hr & Hn). unfold try_allocate.
  destruct (Z.ltb_spec (available_mem rm) (rr_mem req)); [done|].
  destruct (Z.ltb_spec (available_cpus rm) (rr_cpus req)); [done|].
  destruct (Z.ltb_spec (available_gpus rm) (rr_gpus req)); [done|].
  intros [= <- <-]. split; [|done]. split_and!; [|done| |by constructor].
  - simpl. rewrite <-rm_sum_plus, <-Hs. f_equal. destruct rm. unfold rm_plus. simpl. f_equal; lia.
  - destruct Hr as (? & ? & ?). unfold rm_u64, in_u64 in *. simpl. lia.
Qed.

Lemma try_allocate_fail req rm e rm' : try_allocate req rm = (Err e, rm') → rm' = rm.
Proof. unfold try_allocate. by repeat case_match; intros; simplify_eq. Qed.

Lemma try_allocate_no_panic req rm rm' : try_allocate req rm ≠ (Panic, rm').
Proof. unfold try_allocate. by repeat case_match. Qed.

(** A request beyond the total never succeeds. *)
Lemma oversized_fails total live rm req :
  balanced total live rm →
  (available_mem total < rr_mem req ∨ available_cpus total < rr_cpus req
   ∨ available_gpus total < rr_gpus req)%Z →
  ∃ e, try_allocate req rm = (Err e, rm).
Proof.
  intros (Hs & _ & _ & Hn) Hreq. pose proof (rm_sum_ge rm live Hn) as (? & ? & ?). rewrite Hs in *.
  unfold try_allocate. repeat (case_match; [by eexists|]).
  rewrite !Z.ltb_ge in *. lia.
Qed.

(** The [u64] range of the requests a program database holds. *)
Definition limits_u64 (find_program : Hash → result string (option Program)) : Prop :=
  ∀ h p, find_program h = Ok (Some p) → rr_nonneg (default ResourceRequest_default (prg_limits p)).

Section program_lemmas.
Context `{Hex} {P : Type} (provider : Provider P).
Context (total : ResourceManager) (find_program : Hash → result string (option Program)).

Definition pm_balanced (live : list ResourceAllocation) (pm : ProgramManager P) : Prop :=
  balanced total live (resource_manager pm).

Lemma start_program_balanced live tx program :
  limits_u64 find_program →
  hoare (pm_balanced live) (start_program provider find_program tx program None)
    (λ h, pm_balanced (resource_allocation h :: live)) (pm_balanced live).
Proof.
  intros Hlim pm Hb. unfold start_program.
  destruct (find_program program) as [[p|]|e|] eqn:Hp; [|done..]. simpl.
  destruct (try_allocate _ (resource_manager pm)) as [[a|e|] rm] eqn:Ha.
  - destruct (balanced_alloc _ _ _ _ _ _ (Hlim _ _ Hp) Hb Ha) as [Hb' ->].
    destruct (start_vm provider tx p _ (vm_provider pm)) as [[vm|e|] q]; [done|..];
      by apply balanced_free in Hb'.
  - apply try_allocate_fail in Ha as ->. done.
  - by apply try_allocate_no_panic in Ha.
Qed.

Lemma stop_program_balanced live h :
  hoare (pm_balanced (resource_allocation h :: live)) (stop_program provider h)
    (λ _, pm_balanced live) (pm_balanced live).
Proof.
  intros pm Hb. unfold stop_program.
  destruct (stop_vm provider (vm_handle h) (vm_provider pm)) as [r p].
  apply balanced_free in Hb. by destruct r.
Qed.

(** A program that the node can never start: it is not in the database, or asks
    for more than the whole node has. *)
Definition unstartable (program : Hash) : Prop :=
  find_program program = Ok None ∨
  ∃ p, find_program program = Ok (Some p) ∧
    let req := default ResourceRequest_default (prg_limits p) in
    (available_mem total < rr_mem req ∨ available_cpus total < rr_cpus req
     ∨ available_gpus total < rr_gpus req)%Z.

Lemma unstartable_fails live tx program pm :
  pm_balanced live pm → unstartable program →
  ∃ e, start_program provider find_program tx program None pm = (Err e, pm).
Proof.
  intros Hb Hu. unfold start_program. destruct Hu as [->|(p & -> & Hreq)]; [by eexists|]. simpl.
  destruct (oversized_fails _ _ _ _ Hb Hreq) as [e ->]. exists (ProgramError.Resource e).
  by destruct pm.
Qed.

End program_lemmas.

(** Memory is accounted in two units. The node's budget is computed in bytes
    ([mem_gb * 1024^3]), the requests are in megabytes (they become QEMU's
    [-m <n>M]): for every configured amount of memory, a request for more than all
    of it (up to a million times as much) is granted. *)
Theorem memory_overcommitted (mem_gb mb cpus : Z) (sys_cpus sys_mem : Z) :
  (0 < mem_gb < 2 ^ 34)%Z → (mem_gb * 1024 < mb ≤ mem_gb * 1024 * 1024 * 1024)%Z → (1 ≤ cpus)%Z →
  let '(c, m, g) := get_configured_resources None (Some cpus) (Some mem_gb) sys_cpus sys_mem in
  (mem_gb * 1024 * 1024 * 1024 < mb * 1024 * 1024)%Z ∧
  ∃ a rm', try_allocate (MkResourceRequest mb 1 0) (ResourceManager_new m c g) = (Ok a, rm').
Proof.
  intros Hg Hmb Hc. simpl. split; [lia|].
  rewrite u64_wrap_id by (unfold in_u64, u64_MAX; lia). unfold try_allocate. simpl.
  destruct (Z.ltb_spec (mem_gb * 1024 * 1024 * 1024) mb); [lia|].
  destruct (Z.ltb_spec cpus 1); [lia|]. eauto.
Qed.

Example memory_overcommitted_witness :
  let '(c, m, g) := get_configured_resources None (Some 4%Z) (Some 1%Z) 4 0 in
  (1 * 1024 * 1024 * 1024 < 65536 * 1024 * 1024)%Z ∧
  ∃ a rm', try_allocate (MkResourceRequest 65536 1 0) (ResourceManager_new m c g) = (Ok a, rm').
Proof. apply (memory_overcommitted 1 65536 4 4 0); lia. Defined.
