(* ===== verification/Scheduler.v ===== *)
(** * Scheduler ([crates/node/src/scheduler/mod.rs])

    The scheduling loop (reap, retry pending programs, pick a task from the
    mempool, prepare its files, queue it and start its VM) and the [TaskManager]
    interface through which the VMs fetch tasks and submit results.  The
    database is the mempool's storage, [D]; the VM provider, the workflow engine
    and the transaction store are interfaces. *)

From S2P Require Import Prelude Types Models Files Transaction Event Mempool Workflow Resources Watchdog.

Definition MAX_VM_IDLE_RUN_TIME : Z := 60 * 1000.
Definition MAX_VM_RUN_TIME : Z := 1800 * 1000.

Record RunningTask := MkRunningTask {
  rt_task : Task;
  task_scheduled : Z;
  task_started : Z
}.

Global Instance RunningTask_eq_dec : EqDecision RunningTask.
Proof. solve_decision. Defined.

Record SchedulerState (P : Type) := MkSchedulerState {
  program_manager : ProgramManager P;
  pending_programs : list (Hash * Hash);
  running_tasks : gmap Hash RunningTask;
  running_vms : gmap Hash ProgramHandle;
  task_queue : gmap Hash (list (Task * Z))
}.
Global Arguments MkSchedulerState {P} _ _ _ _ _.
Global Arguments program_manager {P} _.
Global Arguments pending_programs {P} _.
Global Arguments running_tasks {P} _.
Global Arguments running_vms {P} _.
Global Arguments task_queue {P} _.

(** [grpc::task_result_request::Result]: data and files (path, checksum), or an error. *)
Inductive TaskResult :=
  | TaskOk (data : list u8) (files : list (string * list u8))
  | TaskErr (code : Z).

Section scheduler.
Context `{Hex, Secp, Sha3, NumBigint, Bincode}.
Context {P D : Type} (provider : Provider P) (tx_store : TransactionStore D).
Context (find_program : D → Hash → result string (option Program)).
(** [WorkflowEngine::next_task] ([Workflow.next_task] with enough fuel). *)
Context (engine_next_task : Transaction Validated → M D WorkflowError.t (option Task)).

(** Everything the scheduler touches. *)
Record World := MkWorld {
  w_state : SchedulerState P;
  w_mempool : Mempool D;
  w_fs : fs;
  w_signals : list HealthCheckSignal;
  w_channel : Channel
}.

Definition SchedulerState_new (pm : ProgramManager P) : SchedulerState P :=
  MkSchedulerState pm [] ∅ ∅ ∅.

(** ** Field updates *)

Definition set_pm (pm : ProgramManager P) (st : SchedulerState P) : SchedulerState P :=
  MkSchedulerState pm (pending_programs st) (running_tasks st) (running_vms st) (task_queue st).
Definition set_pending (l : list (Hash * Hash)) (st : SchedulerState P) : SchedulerState P :=
  MkSchedulerState (program_manager st) l (running_tasks st) (running_vms st) (task_queue st).
Definition set_tasks (m : gmap Hash RunningTask) (st : SchedulerState P) : SchedulerState P :=
  MkSchedulerState (program_manager st) (pending_programs st) m (running_vms st) (task_queue st).
Definition set_vms (m : gmap Hash ProgramHandle) (st : SchedulerState P) : SchedulerState P :=
  MkSchedulerState (program_manager st) (pending_programs st) (running_tasks st) m (task_queue st).
Definition set_queue (m : gmap Hash (list (Task * Z))) (st : SchedulerState P) : SchedulerState P :=
  MkSchedulerState (program_manager st) (pending_programs st) (running_tasks st) (running_vms st) m.

Definition on_pm {E A} (m : M (ProgramManager P) E A) : M (SchedulerState P) E A := λ st,
  let '(r, pm) := m (program_manager st) in (r, set_pm pm st).

(** The lenses of [World]. *)
Definition on_state {E A} (m : M (SchedulerState P) E A) : M World E A := λ w,
  let '(r, st) := m (w_state w) in
  (r, MkWorld st (w_mempool w) (w_fs w) (w_signals w) (w_channel w)).
Definition on_db {E A} (m : M D E A) : M World E A := λ w,
  let '(r, d) := m (storage (w_mempool w)) in
  (r, MkWorld (w_state w) (MkMempool d (deque (w_mempool w))) (w_fs w) (w_signals w) (w_channel w)).
Definition on_fs {E A} (m : M fs E A) : M World E A := λ w,
  let '(r, f) := m (w_fs w) in
  (r, MkWorld (w_state w) (w_mempool w) f (w_signals w) (w_channel w)).
Definition on_channel {E A} (m : M Channel E A) : M World E A := λ w,
  let '(r, c) := m (w_channel w) in
  (r, MkWorld (w_state w) (w_mempool w) (w_fs w) (w_signals w) c).
Definition signal {E} (s : HealthCheckSignal) : M World E () := modify (λ w,
  MkWorld (w_state w) (w_mempool w) (w_fs w) (w_signals w ++ [s]) (w_channel w)).

(** [running_vms.insert]: the handle that was there, if any, is dropped. *)
Definition insert_vm (tx : Hash) (h : ProgramHandle) (st : SchedulerState P) : SchedulerState P :=
  let pm := match running_vms st !! tx with
            | Some old => drop_handle old (program_manager st)
            | None => program_manager st
            end in
  set_vms (<[tx := h]> (running_vms st)) (set_pm pm st).

(** [if let Some(h) = running_vms.remove(&tx) { stop_program(h) }]. *)
Definition remove_and_stop (tx : Hash) : M (SchedulerState P) string () := λ st,
  match running_vms st !! tx with
  | Some h => on_pm (stop_program provider h) (set_vms (delete tx (running_vms st)) st)
  | None => (Ok (), st)
  end.

(** ** Pending programs *)

(** The [while let] loop over the copy of the queue; [false] is
    [continue 'SCHEDULING_LOOP]. *)
Fixpoint start_pending_loop (db : D) (current_pending_programs : list (Hash * Hash))
    : M (SchedulerState P) string bool :=
  match current_pending_programs with
  | [] => mret true
  | (tx_hash, program_id) :: rest =>
      _ ← modify (λ st, set_pending (tail (pending_programs st)) st);
      r ← attempt (on_pm (start_program provider (find_program db) tx_hash program_id None));
      match r with
      | Ok p => _ ← modify (insert_vm tx_hash p); start_pending_loop db rest
      | _ => _ ← modify (λ st, set_pending (pending_programs st ++ [(tx_hash, program_id)]) st);
             mret false
      end
  end.

Definition start_pending (db : D) : M (SchedulerState P) string bool := λ st,
  start_pending_loop db (pending_programs st) st.

(** ** Zombies *)

(** [alive] is the answer of each VM's [is_alive]. *)
Definition task_zombies (now : Z) (alive : Z → result string bool) (st : SchedulerState P)
    : list Hash :=
  omap (λ e : Hash * RunningTask,
    let task := snd e in
    match running_vms st !! task_tx (rt_task task) with
    | Some h =>
        match alive (vm_id (vm_handle h)) with
        | Ok true => if (MAX_VM_RUN_TIME <? now - task_started task)%Z
                     then Some (task_tx (rt_task task)) else None
        | _ => Some (task_tx (rt_task task))
        end
    | None => Some (task_tx (rt_task task))
    end) (map_to_list (running_tasks st)).

Definition reap_task (task_tx : Hash) : M (SchedulerState P) string () :=
  _ ← attempt (E:=string) (remove_and_stop task_tx);
  modify (λ st, set_tasks (delete task_tx (running_tasks st)) st).

Definition idle_zombies (now : Z) (st : SchedulerState P) : list Hash :=
  omap (λ e : Hash * ProgramHandle,
    if bool_decide (is_Some (running_tasks st !! fst e)) then None
    else if (MAX_VM_IDLE_RUN_TIME <? run_time now (vm_handle (snd e)))%Z
    then Some (fst e) else None) (map_to_list (running_vms st)).

Definition reap_vm (tx_hash : Hash) : M (SchedulerState P) string () :=
  _ ← attempt (E:=string) (remove_and_stop tx_hash); mret ().

(** [zombies.pop()] takes them from the end. *)
Definition reap_zombies (now : Z) (alive : Z → result string bool) : M (SchedulerState P) string () :=
  st ← get;
  _ ← for_eachM reap_task (reverse (task_zombies now alive st));
  st ← get;
  for_eachM reap_vm (reverse (idle_zombies now st)).

(** ** Picking and preparing a task *)

Definition pick_task : M World string (option Task * nat) := λ w,
  match next (w_mempool w) with
  | (Some tx, m) =>
      let '(r, d) := engine_next_task tx (storage m) in
      let w' := MkWorld (w_state w) (MkMempool d (deque m)) (w_fs w) (w_signals w) (w_channel w) in
      match r with
      | Ok res => (Ok (res, Mempool_size m), w')
      | Err _ => (Ok (None, Mempool_size m), w')
      | Panic => (Panic, w')
      end
  | (None, m) => (Ok (None, Mempool_size m), w)
  end.

(** One pass of [for file in task.files.iter()]: the [continue] only skips to the
    next file. *)
Definition copy_task_file (data_directory : string) (task : Task) (file : TaskVmFile VmInput)
    : M World string () :=
  r ← attempt (E:=string) (on_fs (copy_file_for_vm_exe file data_directory (task_tx task)));
  match r with
  | Ok _ => mret ()
  | _ => _ ← attempt (E:=string) (on_db (mark_tx_executed tx_store (task_tx task))); mret ()
  end.

Definition copy_files (data_directory : string) (task : Task) : M World string () :=
  for_eachM (copy_task_file data_directory task) (task_files task).

Definition push_task (now : Z) (task : Task) (st : SchedulerState P) : SchedulerState P :=
  let q := default [] (task_queue st !! task_tx task) in
  set_queue (<[task_tx task := q ++ [(task, now)]]> (task_queue st)) st.

(** Queue the task, start its program. *)
Definition schedule_task (now : Z) (db : D) (task : Task) : M (SchedulerState P) string () :=
  _ ← modify (push_task now task);
  r ← attempt (on_pm (start_program provider (find_program db) (task_tx task)
                        (task_program_id task) None));
  match r with
  | Ok p => modify (insert_vm (task_tx task) p)
  | Err err =>
      _ ← match err with
          | ProgramError.ProgramNotFound _ =>
              modify (λ st, set_queue (delete (task_tx task) (task_queue st)) st)
          | _ => mret ()
          end;
      modify (λ st, set_pending (pending_programs st ++ [(task_tx task, task_program_id task)]) st)
  | Panic => mret ()
  end.

(** One turn of ['SCHEDULING_LOOP] of [run]. *)
Definition run_turn (now : Z) (alive : Z → result string bool) (data_directory : string)
    : M World string () :=
  _ ← on_state (reap_zombies now alive);
  w ← get;
  started ← on_state (start_pending (storage (w_mempool w)));
  if negb started then mret ()
  else
    _ ← signal SchedulerLoopOk;
    '(task, mempool_size) ← pick_task;
    match task with
    | None => signal (SchedulerMempoolLen mempool_size)
    | Some task =>
        _ ← copy_files data_directory task;
        _ ← signal (SchedulerMempoolLen mempool_size);
        w ← get;
        on_state (schedule_task now (storage (w_mempool w)) task)
    end.

(** ** The [TaskManager] interface *)

Definition get_running_task (tx_hash : Hash) (st : SchedulerState P) : option Task :=
  rt_task <$> running_tasks st !! tx_hash.

Definition get_pending_task (now : Z) (tx_hash : Hash) : M (SchedulerState P) string (option Task) :=
  st ← get;
  match running_tasks st !! tx_hash with
  | Some _ => _ ← attempt (E:=string) (remove_and_stop tx_hash); mret None
  | None =>
      match task_queue st !! tx_hash with
      | Some ((task, scheduled) :: rest) =>
          _ ← modify (λ st, set_tasks (<[task_tx task := MkRunningTask task scheduled now]>
                                         (running_tasks st))
                              (set_queue (<[tx_hash := rest]> (task_queue st)) st));
          mret (Some task)
      | _ => mret None
      end
  end.

(** The result files: where the VM left each one, what the new transaction says of it. *)
Definition executed_file (http_download_host : string) (tx_hash : Hash) (file : string * list u8)
    : result string (TaskVmFile VmOutput * TxFile Output) :=
  checksum ← Hash_from_slice (snd file);
  Ok (TaskVmFile_output_new (fst file) tx_hash,
      TxFile_Output_new (fst file) http_download_host checksum).

(** The transaction a finished task produces; [todo!] and [panic!] for the other kinds. *)
Definition result_tx (node_key : SecretKey) (task : Task) (program : Hash) (data : list u8)
    (files : list (TxFile Output)) : result string (Transaction Created) :=
  match task_kind task with
  | TaskKind.Proof => Transaction_new (Payload.Proof (task_tx task) program data files) node_key
  | TaskKind.Verification =>
      Transaction_new (Payload.Verification (task_tx task) program data files) node_key
  | TaskKind.PoW | TaskKind.Nop => Panic
  end.

(** [answer] is what the event loop replies to the callback [id] of the sent
    transaction ([Mempool.callback_result]). *)
Definition submit_result (node_key : SecretKey) (data_directory http_download_host : string)
    (id : CallbackId) (answer : result MempoolError.t ())
    (tx_hash program : Hash) (res : TaskResult) : M World string () :=
  w ← get;
  match running_tasks (w_state w) !! tx_hash with
  | None => throw ("submit_result task:" +:+ Hash_to_string tx_hash +:+ " not found.")
  | Some running_task =>
      _ ← on_state (modify (λ st, set_tasks (delete tx_hash (running_tasks st)) st));
      _ ← attempt (E:=string) (on_db (mark_tx_executed tx_store (task_tx (rt_task running_task))));
      _ ← match res with
          | TaskOk data files =>
              executed_files ← lift (collect_results (executed_file http_download_host tx_hash) files);
              tx ← lift (result_tx node_key (rt_task running_task) program data executed_files.*2);
              _ ← for_eachM (λ sd : TaskVmFile VmOutput * TxFile Output,
                    on_fs (move_vmfile (fst sd) (snd sd) data_directory (hash tx))) executed_files;
              r ← attempt (on_channel (txresult_send_tx id tx));
              match r ≫= λ _, answer with
              | Ok () => mret ()
              | _ => throw "failed to send Tx result to validation process"
              end
          | TaskErr _ => mret ()
          end;
      on_state (remove_and_stop tx_hash)
  end.

End scheduler.
Global Arguments w_state {_ P D} _.
Global Arguments w_mempool {_ P D} _.
Global Arguments w_fs {_ P D} _.
Global Arguments w_signals {_ P D} _.
Global Arguments w_channel {_ P D} _.
Global Arguments MkWorld {_ P D} _ _ _ _ _.

(** ** Resources are conserved by every operation *)

Section stopping.
Context {P : Type} (provider : Provider P).

Lemma remove_and_stop_fields tx st r st' :
  remove_and_stop provider tx st = (r, st') →
  running_vms st' = delete tx (running_vms st) ∧ running_tasks st' = running_tasks st ∧
  pending_programs st' = pending_programs st ∧ task_queue st' = task_queue st.
Proof.
  unfold remove_and_stop, on_pm. destruct (running_vms st !! tx) as [h|] eqn:Hh.
  - destruct (stop_program provider h _) as [r' pm]. intros [= <- <-]. done.
  - intros [= <- <-]. by rewrite delete_id.
Qed.

End stopping.

Section conservation.
Context `{Hex, Secp, Sha3, NumBigint, Bincode}.
Context {P D : Type} (provider : Provider P) (tx_store : TransactionStore D).
Context (find_program : D → Hash → result string (option Program)).
Context (engine_next_task : Transaction Validated → M D WorkflowError.t (option Task)).
Context (total : ResourceManager) (Hlim : ∀ d, limits_u64 (find_program d)).

Definition allocs (vms : gmap Hash ProgramHandle) : list ResourceAllocation :=
  resource_allocation <$> (map_to_list vms).*2.

(** Queued and running tasks are filed under their own transaction. *)
Definition keyed (st : SchedulerState P) : Prop :=
  (∀ k q t ts, task_queue st !! k = Some q → (t, ts) ∈ q → task_tx t = k) ∧
  (∀ k rt, running_tasks st !! k = Some rt → task_tx (rt_task rt) = k).

(** What is available and [live] add up to the total. *)
Definition holds (live : list ResourceAllocation) (st : SchedulerState P) : Prop :=
  pm_balanced total live (program_manager st) ∧ keyed st.

(** The invariant: [live] is exactly what the running VMs hold. *)
Definition res_inv (st : SchedulerState P) : Prop := holds (allocs (running_vms st)) st.

Lemma keyed_push now task st : keyed st → keyed (push_task now task st).
Proof.
  intros [Hq Ht]. split; [|exact Ht]. intros k q t ts. simpl.
  intros [[<- <-]|[_ Hk]]%lookup_insert_Some; [|by apply Hq].
  intros [Hin|Hin]%elem_of_app.
  - destruct (task_queue st !! task_tx task) as [q|] eqn:Hl; [|by apply elem_of_nil in Hin].
    by eapply Hq.
  - apply list_elem_of_singleton in Hin. by simplify_eq.
Qed.

Lemma keyed_drop_queue tx st : keyed st → keyed (set_queue (delete tx (task_queue st)) st).
Proof.
  intros [Hq Ht]. split; [|exact Ht]. intros k q t ts. simpl.
  intros [_ Hk]%lookup_delete_Some. by apply Hq.
Qed.

Lemma keyed_drop_task tx st : keyed st → keyed (set_tasks (delete tx (running_tasks st)) st).
Proof.
  intros [Hq Ht]. split; [exact Hq|]. intros k rt. simpl. intros [_ Hk]%lookup_delete_Some. by apply Ht.
Qed.

Lemma keyed_start now tx task sch rest st :
  task_queue st !! tx = Some ((task, sch) :: rest) → keyed st →
  keyed (set_tasks (<[task_tx task := MkRunningTask task sch now]> (running_tasks st))
           (set_queue (<[tx := rest]> (task_queue st)) st)).
Proof.
  intros Hl [Hq Ht]. split; simpl.
  - intros k q t ts. intros [[<- <-]|[_ Hk]]%lookup_insert_Some Hin; [|by eapply Hq].
    eapply Hq; [exact Hl|by right].
  - intros k rt [[<- <-]|[_ Hk]]%lookup_insert_Some; [done|by apply Ht].
Qed.

Lemma allocs_insert vms tx h :
  vms !! tx = None → allocs (<[tx := h]> vms) ≡ₚ resource_allocation h :: allocs vms.
Proof. intros Hn. unfold allocs. by rewrite map_to_list_insert. Qed.

Lemma allocs_delete vms tx h :
  vms !! tx = Some h → allocs vms ≡ₚ resource_allocation h :: allocs (delete tx vms).
Proof.
  intros Hs. rewrite <-(insert_delete_id vms tx h Hs) at 1.
  apply allocs_insert, lookup_delete_eq.
Qed.

Lemma insert_vm_res tx p st :
  holds (resource_allocation p :: allocs (running_vms st)) st → res_inv (insert_vm tx p st).
Proof.
  intros [Hb Hk]. split; [|exact Hk]. unfold insert_vm, pm_balanced. simpl.
  rewrite <-(insert_delete_eq (running_vms st)).
  eapply balanced_perm; [symmetry; apply allocs_insert, lookup_delete_eq|].
  destruct (running_vms st !! tx) as [old|] eqn:Hold; simpl; [|by rewrite delete_id].
  apply balanced_free. eapply balanced_perm; [|exact Hb].
  rewrite (allocs_delete _ _ _ Hold). solve_Permutation.
Qed.

Lemma remove_and_stop_keeps tx : keeps res_inv (remove_and_stop provider tx).
Proof.
  intros st [Hst Hk]. unfold remove_and_stop. destruct (running_vms st !! tx) as [h|] eqn:Hh; [|by split].
  unfold on_pm. simpl.
  assert (pm_balanced total (resource_allocation h :: allocs (delete tx (running_vms st)))
    (program_manager st)) as Hb by (eapply balanced_perm; [by apply allocs_delete|exact Hst]).
  specialize (stop_program_balanced provider total _ h _ Hb).
  by destruct (stop_program provider h (program_manager st)) as [[] pm]; split.
Qed.

Lemma start_keeps db tx p :
  hoare res_inv (on_pm (start_program provider (find_program db) tx p None))
    (λ h st, holds (resource_allocation h :: allocs (running_vms st)) st) res_inv.
Proof.
  intros st [Hst Hk]. unfold on_pm.
  specialize (start_program_balanced provider total (find_program db) _ tx p (Hlim db) _ Hst).
  by destruct (start_program provider (find_program db) tx p None (program_manager st)) as [[] pm]; split.
Qed.

(** Starting a program and then handling both outcomes. *)
Lemma start_then_keeps {A} db tx p (f : result ProgramError.t ProgramHandle → M (SchedulerState P) string A) :
  (∀ h, hoare (λ st, holds (resource_allocation h :: allocs (running_vms st)) st)
          (f (Ok h)) (λ _, res_inv) res_inv) →
  (∀ e, keeps res_inv (f (Err e))) → keeps res_inv (f Panic) →
  keeps res_inv (attempt (on_pm (start_program provider (find_program db) tx p None)) ≫= f).
Proof.
  intros Hok Herr Hpanic. eapply hoare_bind; [apply hoare_attempt, start_keeps|].
  intros [h|e|]; [apply Hok|apply Herr|apply Hpanic].
Qed.

Lemma start_pending_loop_keeps db l : keeps res_inv (start_pending_loop provider find_program db l).
Proof.
  induction l as [|[tx p] l IH]; cbn [start_pending_loop]; [apply keeps_ret|].
  apply keeps_bind; [by apply keeps_modify|]. intros _.
  apply start_then_keeps.
  - intros h. eapply (hoare_bind _ _ _ (λ _, res_inv)); [|intros ?; exact IH].
    apply hoare_modify. intros st. apply insert_vm_res.
  - intros e. apply keeps_bind; [by apply keeps_modify|]. intros _. apply keeps_ret.
  - apply keeps_bind; [by apply keeps_modify|]. intros _. apply keeps_ret.
Qed.

Lemma schedule_task_keeps now db task :
  keeps res_inv (schedule_task provider find_program now db task).
Proof.
  unfold schedule_task.
  apply keeps_bind; [apply keeps_modify; intros st []; split; [done|by apply keyed_push]|].
  intros _.
  apply start_then_keeps.
  - intros h. apply hoare_modify. intros st. apply insert_vm_res.
  - intros e. apply keeps_bind; [|intros _; by apply keeps_modify].
    destruct e; [|apply keeps_ret..].
    apply keeps_modify. intros st []. split; [done|by apply keyed_drop_queue].
  - apply keeps_ret.
Qed.

Lemma reap_zombies_keeps now alive : keeps res_inv (reap_zombies provider now alive).
Proof.
  unfold reap_zombies. apply keeps_bind; [apply keeps_get|]. intros st.
  apply keeps_bind.
  - apply keeps_for_eachM. intros tx. unfold reap_task.
    apply keeps_bind; [apply keeps_attempt, remove_and_stop_keeps|].
    intros _. apply keeps_modify. intros st' []. split; [done|by apply keyed_drop_task].
  - intros _. apply keeps_bind; [apply keeps_get|]. intros st'.
    apply keeps_for_eachM. intros tx. unfold reap_vm.
    apply keeps_bind; [|intros _; apply keeps_ret].
    apply keeps_attempt, remove_and_stop_keeps.
Qed.

Lemma get_pending_task_keeps now tx : keeps res_inv (get_pending_task provider now tx).
Proof.
  intros st Hst. unfold get_pending_task, mbind, M_bind, get.
  destruct (running_tasks st !! tx).
  - revert st Hst. apply keeps_bind; [apply keeps_attempt, remove_and_stop_keeps|].
    intros _. apply keeps_ret.
  - destruct (task_queue st !! tx) as [[|[task sch] rest]|] eqn:Hl; [done| |done]. simpl.
    destruct Hst as [Hb Hk]. split; [done|]. by apply keyed_start.
Qed.

(** The world-level operations only touch the state through [on_state]. *)
Definition world_inv (w : World) : Prop := res_inv (w_state (P:=P) (D:=D) w).

Lemma on_state_keeps {E A} (m : M (SchedulerState P) E A) :
  keeps res_inv m → keeps world_inv (on_state m).
Proof.
  intros Hm w Hw. specialize (Hm _ Hw). unfold on_state, world_inv.
  by destruct (m (w_state w)) as [[] st].
Qed.
Lemma on_db_keeps {E A} (m : M D E A) : keeps world_inv (on_db m).
Proof. intros w Hw. unfold on_db. by destruct (m _) as [[] d]. Qed.
Lemma on_fs_keeps {E A} (m : M fs E A) : keeps world_inv (on_fs m).
Proof. intros w Hw. unfold on_fs. by destruct (m _) as [[] d]. Qed.
Lemma on_channel_keeps {E A} (m : M Channel E A) : keeps world_inv (on_channel m).
Proof. intros w Hw. unfold on_channel. by destruct (m _) as [[] d]. Qed.
Lemma signal_keeps {E} s : keeps (E:=E) world_inv (signal s).
Proof. by apply keeps_modify. Qed.

Lemma pick_task_keeps : keeps world_inv (pick_task (P:=P) engine_next_task).
Proof.
  intros w Hw. unfold pick_task. destruct (next (w_mempool w)) as [[tx|] m]; [|done].
  by destruct (engine_next_task tx (storage m)) as [[] d].
Qed.

Lemma copy_task_file_keeps dir task file :
  keeps world_inv (copy_task_file (P:=P) tx_store dir task file).
Proof.
  apply keeps_bind; [apply keeps_attempt, on_fs_keeps|].
  intros []; [apply keeps_ret|..];
    (apply keeps_bind; [apply keeps_attempt, on_db_keeps|intros _; apply keeps_ret]).
Qed.

Lemma run_turn_keeps now alive dir :
  keeps world_inv (run_turn provider tx_store find_program engine_next_task now alive dir).
Proof.
  unfold run_turn. apply keeps_bind; [apply on_state_keeps, reap_zombies_keeps|]. intros _.
  apply keeps_bind; [apply keeps_get|]. intros w.
  apply keeps_bind; [apply on_state_keeps; intros st Hst; by apply start_pending_loop_keeps|].
  intros []; [|apply keeps_ret]. cbn [negb].
  apply keeps_bind; [apply signal_keeps|]. intros _.
  apply keeps_bind; [apply pick_task_keeps|]. intros [[task|] size]; [|apply signal_keeps].
  apply keeps_bind; [apply keeps_for_eachM; intros file; apply copy_task_file_keeps|].
  intros _. apply keeps_bind; [apply signal_keeps|]. intros _.
  apply keeps_bind; [apply keeps_get|]. intros w'. apply on_state_keeps, schedule_task_keeps.
Qed.

Lemma submit_result_keeps key dir host id answer tx program res :
  keeps world_inv (submit_result provider tx_store key dir host id answer tx program res).
Proof.
  unfold submit_result. apply keeps_bind; [apply keeps_get|]. intros w.
  destruct (running_tasks (w_state w) !! tx) as [rt|]; [|apply keeps_throw].
  apply keeps_bind.
  { apply on_state_keeps, keeps_modify. intros st []. split; [done|by apply keyed_drop_task]. }
  intros _. apply keeps_bind; [apply keeps_attempt, on_db_keeps|]. intros _.
  apply keeps_bind; [|intros _; apply on_state_keeps, remove_and_stop_keeps].
  destruct res as [data files|code]; [|apply keeps_ret].
  apply keeps_bind; [apply keeps_lift|]. intros efs.
  apply keeps_bind; [apply keeps_lift|]. intros t.
  apply keeps_bind; [apply keeps_for_eachM; intros sd; apply on_fs_keeps|]. intros _.
  apply keeps_bind; [apply keeps_attempt, on_channel_keeps|]. intros r.
  destruct (r ≫= λ _, answer) as [[]|e|]; [apply keeps_ret|apply keeps_throw..].
Qed.

(** *** Runs of the scheduler *)

(** [sched_run w]: the scheduler and its VMs can bring a fresh node to [w]. The
    event loop may change the mempool and its database, and drain the channel,
    between any two steps. *)
Inductive sched_run : World (P:=P) (D:=D) → Prop :=
  | sched_start q m f ch :
      resource_manager q = total → sched_run (MkWorld (SchedulerState_new q) m f [] ch)
  | sched_turn w now alive dir :
      sched_run w →
      sched_run (snd (run_turn provider tx_store find_program engine_next_task now alive dir w))
  | sched_get_task w now tx :
      sched_run w → sched_run (snd (on_state (get_pending_task provider now tx) w))
  | sched_submit w key dir host id answer tx program res :
      sched_run w →
      sched_run (snd (submit_result provider tx_store key dir host id answer tx program res w))
  | sched_env w m f sigs ch :
      sched_run w → sched_run (MkWorld (w_state w) m f sigs ch).

Lemma sched_new_res (q : ProgramManager P) :
  rm_u64 total → resource_manager q = total → res_inv (SchedulerState_new q).
Proof.
  intros Htot Hq. split; [|split; intros ??; simpl; rewrite lookup_empty; done].
  unfold pm_balanced, balanced, allocs. simpl. rewrite map_to_list_empty, Hq. by split_and!.
Qed.

Lemma sched_run_inv w : rm_u64 total → sched_run w → res_inv (w_state w).
Proof.
  intros Htot. induction 1 as [q m f ch Hq|w now alive dir _ IH|w now tx _ IH
    |w key dir host id answer tx program res _ IH|w m f sigs ch _ IH].
  - by apply sched_new_res.
  - apply (keeps_snd world_inv); [apply run_turn_keeps|exact IH].
  - apply (keeps_snd world_inv); [apply on_state_keeps, get_pending_task_keeps|exact IH].
  - apply (keeps_snd world_inv); [apply submit_result_keeps|exact IH].
  - exact IH.
Qed.

(** C3: the scheduler neither leaks nor overcommits. In every reachable state,
    whatever VMs started, crashed, timed out, failed to start or failed to stop,
    the available resources and the allocations of the VMs it tracks add up to
    exactly the configured total, and nothing available is negative. *)
Theorem scheduler_resources_conserved (w : World) :
  rm_u64 total → sched_run w →
  let rm := resource_manager (program_manager (w_state w)) in
  rm_sum rm (allocs (running_vms (w_state w))) = total ∧
  (0 ≤ available_mem rm ≤ available_mem total)%Z ∧
  (0 ≤ available_cpus rm ≤ available_cpus total)%Z ∧
  (0 ≤ available_gpus rm ≤ available_gpus total)%Z.
Proof.
  intros Htot Hrun. apply (sched_run_inv _ Htot) in Hrun as [(Hsum & _ & Hrm & Hnn) _].
  simpl. pose proof (rm_sum_ge (resource_manager (program_manager (w_state w))) _ Hnn) as Hge. rewrite Hsum in Hge.
  destruct Hrm as (? & ? & ?). unfold in_u64 in *. split; [exact Hsum|lia].
Qed.

(** A VM only ever gets the task of its own transaction: in every reachable
    state the task that [get_pending_task] hands to the VM of [tx] was scheduled
    for [tx], is the oldest one in its queue, leaves the queue, and is recorded as
    running; a VM that already runs a task gets nothing. *)
Theorem get_pending_task_spec (w : World) (now : Z) (tx : Hash) (task : Task)
    (st' : SchedulerState P) :
  rm_u64 total → sched_run w →
  get_pending_task provider now tx (w_state w) = (Ok (Some task), st') →
  running_tasks (w_state w) !! tx = None ∧ task_tx task = tx ∧
  ∃ ts rest, task_queue (w_state w) !! tx = Some ((task, ts) :: rest) ∧
    task_queue st' !! tx = Some rest ∧ get_running_task tx st' = Some task.
Proof.
  intros Htot Hrun. apply (sched_run_inv _ Htot) in Hrun as [_ [Hq _]].
  unfold get_pending_task, mbind, M_bind, get.
  destruct (running_tasks (w_state w) !! tx) eqn:Hr.
  { destruct (attempt (remove_and_stop provider tx) (w_state w)) as [[] ?]; intros; simplify_eq. }
  destruct (task_queue (w_state w) !! tx) as [[|[t ts] rest]|] eqn:Hl;
    unfold mret, M_ret, modify; intros Heq; simplify_eq/=.
  assert (task_tx task = tx) as Htx by (eapply Hq; [exact Hl|by left]).
  split_and!; [done|done|]. exists ts, rest. unfold get_running_task. simpl.
  rewrite Htx, !lookup_insert_eq. done.
Qed.

(** *** A program that can never start blocks the scheduler *)

Lemma start_program_pending tx p db :
  ∀ st r st', on_pm (start_program provider (find_program db) tx p None) st = (r, st') →
  pending_programs st' = pending_programs st.
Proof. intros st r st'. unfold on_pm. destruct (start_program _ _ _ _ _ _). by intros [= <- <-]. Qed.

Lemma start_pending_loop_blocked db l rest tx p st :
  res_inv st → pending_programs st = l ++ rest → (tx, p) ∈ l →
  unstartable total (find_program db) p →
  let '(r, st') := start_pending_loop provider find_program db l st in
  r ≠ Ok true ∧ (tx, p) ∈ pending_programs st'.
Proof.
  intros Hinv Hpend Hin Hu. revert rest st Hinv Hpend.
  induction l as [|[tx1 p1] l IH]; intros rest st Hinv Hpend; [by apply elem_of_nil in Hin|].
  cbn [start_pending_loop]. unfold mbind, M_bind, modify at 1, attempt.
  set (st1 := set_pending (tail (pending_programs st)) st).
  assert (pending_programs st1 = l ++ rest) as Hp1 by (simpl; by rewrite Hpend).
  assert (res_inv st1) as Hi1 by exact Hinv.
  pose proof (start_keeps db tx1 p1 st1 Hi1) as Hk.
  destruct (on_pm (start_program provider (find_program db) tx1 p1 None) st1) as [r st2] eqn:Hs.
  pose proof (start_program_pending _ _ _ _ _ _ Hs) as Hp2.
  destruct (decide ((tx, p) = (tx1, p1))) as [Heq|Hne].
  - simplify_eq. destruct Hi1 as [Hb1 _].
    destruct (unstartable_fails provider total (find_program db) _ tx1 p1 _ Hb1 Hu) as [e He].
    unfold on_pm in Hs. rewrite He in Hs. injection Hs as <- <-. simpl.
    split; [done|]. apply elem_of_app. right. by left.
  - assert ((tx, p) ∈ l) as Hin' by set_solver.
    destruct r as [h|e|]; simpl.
    + apply (IH Hin' rest); [by apply insert_vm_res|]. unfold insert_vm. simpl. congruence.
    + split; [done|]. rewrite Hp2, Hp1. set_solver.
    + split; [done|]. rewrite Hp2, Hp1. set_solver.
Qed.

(** What a blocked scheduler keeps: the pending program, and the whole mempool. *)
Definition blocked (m : Mempool D) (sigs : list HealthCheckSignal) (tx p : Hash) (w : World)
    : Prop :=
  world_inv w ∧ w_mempool w = m ∧ (tx, p) ∈ pending_programs (w_state w) ∧ w_signals w = sigs.

Lemma reap_zombies_pending now alive l :
  keeps (λ st, pending_programs st = l) (reap_zombies provider now alive).
Proof.
  assert (∀ tx, keeps (λ st, pending_programs st = l) (remove_and_stop provider tx)) as Hstop.
  { intros tx st Hst. destruct (remove_and_stop provider tx st) as [r st'] eqn:Hr.
    apply remove_and_stop_fields in Hr as (_ & _ & Hp & _). destruct r; congruence. }
  unfold reap_zombies. apply keeps_bind; [apply keeps_get|]. intros st.
  apply keeps_bind.
  - apply keeps_for_eachM. intros tx. apply keeps_bind; [by apply keeps_attempt|].
    intros _. by apply keeps_modify.
  - intros _. apply keeps_bind; [apply keeps_get|]. intros st'.
    apply keeps_for_eachM. intros tx. apply keeps_bind; [by apply keeps_attempt|].
    intros _. apply keeps_ret.
Qed.

Lemma run_turn_blocked m sigs tx p now alive dir :
  unstartable total (find_program (storage m)) p →
  keeps (blocked m sigs tx p) (run_turn provider tx_store find_program engine_next_task now alive dir).
Proof.
  intros Hu w (Hinv & Hm & Hin & Hsig).
  pose proof (reap_zombies_keeps now alive (w_state w) Hinv) as Hr1.
  pose proof (reap_zombies_pending now alive _ (w_state w) eq_refl) as Hr2.
  unfold run_turn, mbind, M_bind, on_state at 1.
  destruct (reap_zombies provider now alive (w_state w)) as [[[]|e|] st1];
    [|by split_and!; [|done|simpl; by rewrite Hr2|done]..]. unfold get. simpl. rewrite Hm.
  unfold on_state, start_pending. simpl.
  pose proof (start_pending_loop_keeps (storage m) (pending_programs st1) st1 Hr1) as Hs1.
  pose proof (start_pending_loop_blocked (storage m) (pending_programs st1) [] tx p st1 Hr1) as Hs2.
  rewrite app_nil_r in Hs2. specialize (Hs2 eq_refl). rewrite Hr2 in Hs2 at 1.
  specialize (Hs2 Hin Hu).
  destruct (start_pending_loop provider find_program (storage m) (pending_programs st1) st1)
    as [[[]|e|] st2]; destruct Hs2 as [Hne Hin2]; [done|by split_and!..].
Qed.

(** Head-of-line blocking for ever. Once a program that this node can never
    start is pending (it asks for more CPUs, memory or GPUs than the node has, or
    is not in the database), no number of turns of the scheduling loop takes
    another transaction out of the mempool: the pending entry stays, the mempool
    is never served again, and the watchdog gets no further signal (so it reports
    503, by [Watchdog.stuck_scheduler_detected]). *)
Theorem unstartable_program_starves_mempool (m : Mempool D) (tx p : Hash) (w : World)
    (dir : string) (turns : list (Z * (Z → result string bool))) :
  rm_u64 total → sched_run w → w_mempool w = m →
  (tx, p) ∈ pending_programs (w_state w) →
  unstartable total (find_program (storage m)) p →
  let w' := snd (for_eachM (λ e, run_turn provider tx_store find_program engine_next_task
                              (fst e) (snd e) dir) turns w) in
  w_mempool w' = m ∧ (tx, p) ∈ pending_programs (w_state w') ∧ w_signals w' = w_signals w.
Proof.
  intros Htot Hrun Hm Hin Hu. apply (sched_run_inv _ Htot) in Hrun.
  assert (keeps (blocked m (w_signals w) tx p) (for_eachM (λ e, run_turn provider tx_store find_program
    engine_next_task (fst e) (snd e) dir) turns)) as Hk
    by (apply keeps_for_eachM; intros e; by apply run_turn_blocked).
  by destruct (keeps_snd _ _ w Hk (conj Hrun (conj Hm (conj Hin eq_refl)))) as (_ & ? & ? & ?).
Qed.

End conservation.

(** ** Reaping *)

Section reaping.
Context {P : Type} (provider : Provider P).

Lemma reap_task_run tx st u st' :
  reap_task provider tx st = (Ok u, st') →
  running_vms st' = delete tx (running_vms st) ∧ running_tasks st' = delete tx (running_tasks st).
Proof.
  unfold reap_task, mbind, M_bind, attempt.
  destruct (remove_and_stop provider tx st) as [r st1] eqn:Hr.
  apply remove_and_stop_fields in Hr as (Hv & Ht & _).
  destruct r; intros Heq; unfold modify in Heq; simplify_eq/=; by rewrite Ht.
Qed.

Lemma reap_vm_run tx st u st' :
  reap_vm provider tx st = (Ok u, st') →
  running_vms st' = delete tx (running_vms st) ∧ running_tasks st' = running_tasks st.
Proof.
  unfold reap_vm, mbind, M_bind, attempt.
  destruct (remove_and_stop provider tx st) as [r st1] eqn:Hr.
  apply remove_and_stop_fields in Hr as (Hv & Ht & _).
  by destruct r; unfold mret, M_ret; intros Heq; simplify_eq/=.
Qed.

Lemma reap_tasks_lookup l st u st' :
  for_eachM (reap_task provider) l st = (Ok u, st') →
  (∀ k, running_vms st' !! k = if decide (k ∈ l) then None else running_vms st !! k) ∧
  (∀ k, running_tasks st' !! k = if decide (k ∈ l) then None else running_tasks st !! k).
Proof.
  revert st. induction l as [|tx l IH]; intros st; cbn [for_eachM].
  { intros [= <- <-]. split; intros k; by rewrite decide_False by apply not_elem_of_nil. }
  intros ([] & st1 & Hr1 & Hr2)%M_bind_Ok. apply reap_task_run in Hr1 as [Hv Ht].
  destruct (IH st1 Hr2) as [Hv' Ht'].
  split; intros k; [rewrite Hv', Hv|rewrite Ht', Ht];
    (destruct (decide (k = tx)) as [->|Hne];
     [rewrite lookup_delete_eq, (decide_True (P:=tx ∈ tx :: l)) by (by left); by case_decide
     |rewrite lookup_delete_ne by done; repeat case_decide; set_solver]).
Qed.

Lemma reap_vms_lookup l st u st' :
  for_eachM (reap_vm provider) l st = (Ok u, st') →
  (∀ k, running_vms st' !! k = if decide (k ∈ l) then None else running_vms st !! k) ∧
  running_tasks st' = running_tasks st.
Proof.
  revert st. induction l as [|tx l IH]; intros st; cbn [for_eachM].
  { intros [= <- <-]. split; [|done]. intros k. by rewrite decide_False by apply not_elem_of_nil. }
  intros ([] & st1 & Hr1 & Hr2)%M_bind_Ok. apply reap_vm_run in Hr1 as [Hv Ht].
  destruct (IH st1 Hr2) as [Hv' Ht']. split; [|by rewrite Ht']. intros k. rewrite Hv', Hv.
  destruct (decide (k = tx)) as [->|Hne].
  - rewrite lookup_delete_eq, (decide_True (P:=tx ∈ tx :: l)) by (by left). by case_decide.
  - rewrite lookup_delete_ne by done. repeat case_decide; set_solver.
Qed.

(** A running task is healthy when its VM is there, answers, and is not overdue. *)
Definition healthy (now : Z) (alive : Z → result string bool) (st : SchedulerState P)
    (k : Hash) (rt : RunningTask) : bool :=
  match running_vms st !! k with
  | Some h => match alive (vm_id (vm_handle h)) with
              | Ok true => (now - task_started rt <=? MAX_VM_RUN_TIME)%Z
              | _ => false
              end
  | None => false
  end.

Lemma task_zombies_elem now alive st k :
  keyed st →
  k ∈ task_zombies now alive st ↔
  ∃ rt, running_tasks st !! k = Some rt ∧ healthy now alive st k rt = false.
Proof.
  intros [_ Hk]. unfold task_zombies. rewrite list_elem_of_omap.
  assert (∀ rt, running_tasks st !! k = Some rt →
    match running_vms st !! task_tx (rt_task rt) with
    | Some h => match alive (vm_id (vm_handle h)) with
                | Ok true => if (MAX_VM_RUN_TIME <? now - task_started rt)%Z
                             then Some (task_tx (rt_task rt)) else None
                | _ => Some (task_tx (rt_task rt))
                end
    | None => Some (task_tx (rt_task rt))
    end = if healthy now alive st k rt then None else Some k) as Heq.
  { intros rt Hrt. rewrite (Hk _ _ Hrt). unfold healthy.
    destruct (running_vms st !! k) as [h|]; [|done].
    destruct (alive (vm_id (vm_handle h))) as [[]|e|]; try done.
    by rewrite Z.leb_antisym; destruct (_ <? _)%Z. }
  split.
  - intros ([k' rt] & Hin & Hif). apply elem_of_map_to_list in Hin. simpl in Hif.
    assert (k' = k) as ->.
    { rewrite (Hk _ _ Hin) in Hif. by repeat case_match; simplify_eq. }
    rewrite (Heq rt Hin) in Hif. exists rt. by destruct (healthy _ _ _ _ _).
  - intros (rt & Hrt & Hnot). exists (k, rt). split; [by apply elem_of_map_to_list|]. simpl.
    by rewrite (Heq rt Hrt), Hnot.
Qed.

Lemma idle_zombies_elem now (st : SchedulerState P) k :
  k ∈ idle_zombies now st ↔
  running_tasks st !! k = None ∧
  ∃ h, running_vms st !! k = Some h ∧ (MAX_VM_IDLE_RUN_TIME < run_time now (vm_handle h))%Z.
Proof.
  unfold idle_zombies. rewrite list_elem_of_omap. split.
  - intros ([k' h] & Hin & Hif). apply elem_of_map_to_list in Hin. simpl in Hif.
    case_bool_decide as Hs; [done|]. rewrite <-eq_None_not_Some in Hs.
    destruct (Z.ltb_spec MAX_VM_IDLE_RUN_TIME (run_time now (vm_handle h))); simplify_eq. eauto.
  - intros (Hn & h & Hh & Hlt). exists (k, h). split; [by apply elem_of_map_to_list|]. simpl.
    rewrite bool_decide_eq_false_2 by (rewrite Hn; apply is_Some_None).
    by rewrite (proj2 (Z.ltb_lt _ _) Hlt).
Qed.

(** What reaping does, exactly. Afterwards the running tasks are those that ran
    on a live VM within the time limit; a VM is still tracked if and only if it
    runs such a task, or never had one and has been up for at most the idle limit;
    every other VM was handed to the provider to be stopped. *)
Theorem reap_zombies_spec (now : Z) (alive : Z → result string bool) (st st' : SchedulerState P)
    (u : ()) (k : Hash) :
  keyed st → reap_zombies provider now alive st = (Ok u, st') →
  (∀ rt, running_tasks st' !! k = Some rt ↔
     running_tasks st !! k = Some rt ∧ healthy now alive st k rt = true) ∧
  (∀ h, running_vms st' !! k = Some h ↔
     running_vms st !! k = Some h ∧
     (is_Some (running_tasks st' !! k) ∨
      running_tasks st !! k = None ∧ (run_time now (vm_handle h) ≤ MAX_VM_IDLE_RUN_TIME)%Z)).
Proof.
  intros Hk. unfold reap_zombies, mbind at 1, M_bind at 1, get at 1.
  intros (u1 & st1 & Hr1 & Hr2)%M_bind_Ok. unfold mbind, M_bind, get in Hr2.
  apply reap_tasks_lookup in Hr1 as [Hv1 Ht1]. apply reap_vms_lookup in Hr2 as [Hv2 Ht2].
  pose proof (task_zombies_elem now alive st k Hk) as Hz.
  pose proof (idle_zombies_elem now st1 k) as Hi.
  rewrite Ht2. rewrite <-elem_of_reverse in Hz, Hi.
  specialize (Hv1 k). specialize (Ht1 k). specialize (Hv2 k).
  destruct (decide (k ∈ reverse (task_zombies now alive st))) as [Hd1|Hd1].
  - apply Hz in Hd1 as (rt & Hrt & Hh).
    assert (running_vms st' !! k = None) as Hnone by (rewrite Hv2, Hv1; by case_decide).
    rewrite Hnone, Ht1. split.
    + intros rt'. split; [done|]. intros [? ?]. simplify_eq. congruence.
    + intros h. split; [done|]. intros [_ [[rt' ?]|[? _]]]; congruence.
  - rewrite Ht1. split.
    + intros rt. split; [|by intros [? _]]. intros Hrt. split; [done|].
      destruct (healthy now alive st k rt) eqn:Hh; [done|]. exfalso. apply Hd1, Hz. eauto.
    + intros h. rewrite Hv2, <-Hv1. rewrite Ht1 in Hi. case_decide as Hd2.
      * split; [done|]. apply Hi in Hd2 as (Hn & h' & Hh' & Hlt).
        intros [Hh [[rt Hrt]|[_ Hle]]]; [congruence|]. rewrite Hh in Hh'. injection Hh' as <-. lia.
      * split; [|by intros [? _]]. intros Hh. split; [done|].
        destruct (running_tasks st !! k) as [rt|] eqn:Hrt; [by left|]. right. split; [done|].
        apply Z.nlt_ge. intros Hlt. apply Hd2, Hi. eauto.
Qed.

End reaping.

(** ** The result of a task *)

Section results.
Context `{Hex, SL : SecpLaws, Sha3, NumBigint, Bincode}.
Context {P D : Type} (provider : Provider P) (tx_store : TransactionStore D).

Lemma for_each_fs_fields {A} (f : A → M fs string ()) l (w w' : World (P:=P) (D:=D)) u :
  for_eachM (λ x, on_fs (f x)) l w = (Ok u, w') →
  w_channel w' = w_channel w ∧ w_state w' = w_state w.
Proof.
  revert w. induction l as [|x l IH]; intros w; cbn [for_eachM]; [by intros [= <- <-]|].
  intros ([] & w1 & Hr1 & Hr2)%M_bind_Ok. apply IH in Hr2 as [-> ->]. unfold on_fs in Hr1.
  destruct (f x (w_fs w)). by simplify_eq/=.
Qed.

Lemma transaction_new_E {E E'} p sk tx :
  Transaction_new (E:=E) p sk = Ok tx → Transaction_new (E:=E') p sk = Ok tx.
Proof.
  unfold Transaction_new, sign, compute_hash.
  assert (∀ q buf b, Payload_serialize_into (E:=E) q buf = Ok b → Payload_serialize_into (E:=E') q buf = Ok b)
    as Hs.
  { intros q buf b. unfold Payload_serialize_into, vec_to_bytes.
    destruct q as [| | | | | |? ? ? fl| |? ? ? fl|]; try (by intros [= <-]);
      by destruct (bincode_txfiles fl); intros; simplify_eq/=. }
  intros (h & (b & Hb & [= <-])%result_bind_Ok & [= <-])%result_bind_Ok. simpl in *.
  by rewrite (Hs _ _ _ Hb).
Qed.

Lemma on_state_modify f (w w' : World (P:=P) (D:=D)) u :
  on_state (E:=string) (modify f) w = (Ok u, w') →
  w_state w' = f (w_state w) ∧ w_channel w' = w_channel w.
Proof. unfold on_state, modify. by intros [= <- <-]. Qed.

Lemma attempt_db {A} (m : M D string A) (w w' : World (P:=P) (D:=D)) r :
  attempt (F:=string) (on_db m) w = (Ok r, w') →
  w_state w' = w_state w ∧ w_channel w' = w_channel w.
Proof. unfold attempt, on_db. destruct (m _) as [[] d]; by intros [= <- <-]. Qed.

Lemma lift_Ok {S E A} (r : result E A) (s s' : S) a : lift r s = (Ok a, s') → r = Ok a ∧ s' = s.
Proof. unfold lift. by intros [= -> ->]. Qed.

Lemma send_result_Ok id tx answer (w w' : World (P:=P) (D:=D)) u :
  (r ← attempt (on_channel (txresult_send_tx id tx));
   match r ≫= λ _, answer with
   | Ok () => mret ()
   | _ => throw "failed to send Tx result to validation process"
   end) w = (Ok u, w') →
  ch_queue (w_channel w') = ch_queue (w_channel w) ++ [(into_received tx Received.TXRESULT, Some id)]
  ∧ w_state w' = w_state w.
Proof.
  unfold mbind at 1, M_bind, attempt, on_channel, txresult_send_tx, channel_send.
  destruct (ch_open (w_channel w)); simpl; [|done].
  destruct answer as [[]|e|]; [|done..]. by intros [= <- <-].
Qed.

Lemma on_state_stop tx (w w' : World (P:=P) (D:=D)) u :
  on_state (remove_and_stop provider tx) w = (Ok u, w') →
  w_channel w' = w_channel w ∧ running_vms (w_state w') = delete tx (running_vms (w_state w)) ∧
  running_tasks (w_state w') = running_tasks (w_state w).
Proof.
  unfold on_state. destruct (remove_and_stop provider tx (w_state w)) as [r st] eqn:Hr.
  apply remove_and_stop_fields in Hr as (Hv & Ht & _). by intros [= -> <-].
Qed.

Lemma executed_files_names host tx files efs :
  collect_results (executed_file host tx) files = Ok efs → tf_name <$> efs.*2 = files.*1.
Proof.
  intros Hf%collect_results_Ok. induction Hf as [|[path cs] e files efs He _ IH]; [done|].
  apply result_bind_Ok in He as (c & _ & [= <-]). cbn. f_equal. exact IH.
Qed.

Lemma result_tx_Ok key task program data out tx :
  result_tx key task program data out = Ok tx →
  (NoDup (ws_program <$> run_steps (payload tx)) ∧
   Transaction_new (E:=TransactionError) (payload tx) key = Ok tx) ∧
  (task_kind task = TaskKind.Proof ∧ payload tx = Payload.Proof (task_tx task) program data out ∨
   task_kind task = TaskKind.Verification ∧
   payload tx = Payload.Verification (task_tx task) program data out).
Proof.
  unfold result_tx.
  assert (∀ p, Transaction_new (E:=string) p key = Ok tx → payload tx = p) as Hpay.
  { intros p Hn. unfold Transaction_new, sign in Hn.
    by apply result_bind_Ok in Hn as (h & _ & [= <-]). }
  destruct (task_kind task); intros Hn; try done; pose proof (Hpay _ Hn) as Hp;
    (split; [split; [rewrite Hp; constructor|rewrite Hp; by eapply transaction_new_E]|tauto]).
Qed.

(** What a successful [submit_result] leaves behind. *)
Lemma submit_result_sent (key : SecretKey) (dir host : string) (id : CallbackId)
    (answer : result MempoolError.t ()) (tx_hash program : Hash) (data : list u8)
    (files : list (string * list u8)) (rt : RunningTask) (w w' : World (P:=P) (D:=D)) (u : ()) :
  running_tasks (w_state w) !! tx_hash = Some rt →
  submit_result provider tx_store key dir host id answer tx_hash program (TaskOk data files) w
    = (Ok u, w') →
  ∃ tx out,
    ch_queue (w_channel w') = ch_queue (w_channel w) ++ [(into_received tx Received.TXRESULT, Some id)] ∧
    (tf_name <$> out) = files.*1 ∧
    (task_kind (rt_task rt) = TaskKind.Proof ∧
       payload tx = Payload.Proof (task_tx (rt_task rt)) program data out ∨
     task_kind (rt_task rt) = TaskKind.Verification ∧
       payload tx = Payload.Verification (task_tx (rt_task rt)) program data out) ∧
    validate (into_received tx Received.TXRESULT) = Ok () ∧
    running_tasks (w_state w') !! tx_hash = None ∧ running_vms (w_state w') !! tx_hash = None.
Proof.
  intros Hrt. unfold submit_result, mbind at 1, M_bind at 1, get. rewrite Hrt.
  intros (u1 & w1 & Hw1 & (r & w2 & Hw2 & (u3 & w3 & Hw3 & Hw4)%M_bind_Ok)%M_bind_Ok)%M_bind_Ok.
  apply on_state_modify in Hw1 as [Hst1 Hch1]. apply attempt_db in Hw2 as [Hst2 Hch2].
  apply M_bind_Ok in Hw3 as (efs & w4 & Hefs & (tx & w5 & Htx & Hw5)%M_bind_Ok).
  apply lift_Ok in Hefs as [Hefs ->]. apply lift_Ok in Htx as [Htx ->].
  apply M_bind_Ok in Hw5 as (u5 & w6 & Hmove & Hsend).
  apply for_each_fs_fields in Hmove as [Hch6 Hst6]. apply send_result_Ok in Hsend as [Hch3 Hst3].
  apply on_state_stop in Hw4 as (Hch4 & Hv4 & Ht4).
  exists tx, efs.*2. split_and!.
  - by rewrite Hch4, Hch3, Hch6, Hch2, Hch1.
  - by apply executed_files_names in Hefs.
  - apply result_tx_Ok in Htx. tauto.
  - apply result_tx_Ok in Htx as [[Hnd Hnew] _]. by eapply new_tx_validates_aux.
  - rewrite Ht4, Hst3, Hst6, Hst2, Hst1. apply lookup_delete_eq.
  - rewrite Hv4. apply lookup_delete_eq.
Qed.

(** C9: a task result becomes a transaction that every node accepts. When
    [submit_result] succeeds on a task's output, exactly one transaction is sent
    to validation: a proof or verification (by the task's kind) whose parent is
    the executed transaction, with the program, the data and one file entry per
    result file; it passes validation, the task is no longer running and its VM
    is no longer tracked. *)
Theorem submit_result_spec (key : SecretKey) (dir host : string) (id : CallbackId)
    (answer : result MempoolError.t ()) (tx_hash program : Hash) (data : list u8)
    (files : list (string * list u8)) (rt : RunningTask) (w w' : World (P:=P) (D:=D)) (u : ()) :
  running_tasks (w_state w) !! tx_hash = Some rt →
  submit_result provider tx_store key dir host id answer tx_hash program (TaskOk data files) w
    = (Ok u, w') →
  ∃ tx out,
    ch_queue (w_channel w') = ch_queue (w_channel w) ++ [(into_received tx Received.TXRESULT, Some id)] ∧
    (tf_name <$> out) = files.*1 ∧
    (task_kind (rt_task rt) = TaskKind.Proof ∧
       payload tx = Payload.Proof (task_tx (rt_task rt)) program data out ∨
     task_kind (rt_task rt) = TaskKind.Verification ∧
       payload tx = Payload.Verification (task_tx (rt_task rt)) program data out) ∧
    validate (into_received tx Received.TXRESULT) = Ok () ∧
    running_tasks (w_state w') !! tx_hash = None ∧ running_vms (w_state w') !! tx_hash = None.
Proof. apply submit_result_sent. Qed.

End results.

(** ** Witnesses *)

Section scheduler_witnesses.
Local Existing Instances hex_crate secp_toy secp_toy_laws sha3_toy bigint_toy bincode_toy.

(** A provider that numbers its VMs, a database of executed hashes, and an engine
    that turns every transaction into one task with one input file. *)
Definition toy_provider : Provider Z :=
  MkProvider (λ _ _ _ n, (Ok (MkVMHandle 0 n), (n + 1)%Z)) (λ _, mret ()).
Definition toy_tx_store : TransactionStore (list Hash) :=
  MkTransactionStore (λ _ _, Ok None) (λ h, modify (λ l, l ++ [h])).
Definition toy_program (cpus : Z) (h : Hash) : Program :=
  MkProgram h "prg" "img" "url" "" (Some (MkResourceRequest 512 cpus 0)).
Definition toy_find (cpus : Z) (_ : list Hash) (h : Hash) : result string (option Program) :=
  Ok (Some (toy_program cpus h)).
Definition toy_task (tx : Transaction Validated) : Task :=
  MkTask 7%Z (hash tx) "task" TaskKind.Proof (fill "p") []
    [MkTaskVmFile "/workspace/in" (MkVmInput "txfiles/in")] 0 TaskState.New.
Definition toy_engine (tx : Transaction Validated) : M (list Hash) WorkflowError.t (option Task) :=
  mret (Some (toy_task tx)).

Definition toy_total : ResourceManager := ResourceManager_new 4096 4 0.
Definition toy_world : World (P:=Z) (D:=list Hash) :=
  MkWorld (SchedulerState_new (MkProgramManager toy_total 4%Z)) (MkMempool [] [wf_run]) ∅ []
    (MkChannel [] true).
Definition toy_turn (cpus : Z) (w : World) : World :=
  snd (run_turn toy_provider toy_tx_store (toy_find cpus) toy_engine 0 (λ _, Ok true) "/data" w).

(** A missing input file does not stop the task. The [continue] after a failed
    copy continues the loop over the files, not the scheduling loop: here the only
    input of the task is not on disk, its transaction is marked executed, and the
    task is queued and its VM started all the same. *)
Theorem copy_failure_still_starts :
  w_fs (toy_turn 1 toy_world) = ∅ ∧
  storage (w_mempool (toy_turn 1 toy_world)) = [fill "r"] ∧
  task_queue (w_state (toy_turn 1 toy_world)) = {[fill "r" := [(toy_task wf_run, 0%Z)]]} ∧
  is_Some (running_vms (w_state (toy_turn 1 toy_world)) !! fill "r").
Proof. by_evaluation. Qed.

Lemma toy_total_u64 : rm_u64 toy_total.
Proof. unfold rm_u64, in_u64, u64_MAX. simpl. lia. Qed.
Lemma toy_limits cpus d : (0 ≤ cpus)%Z → limits_u64 (toy_find cpus d).
Proof. intros Hc h p [= <-]. unfold rr_nonneg. simpl. lia. Qed.

Definition toy_run (cpus : Z) : World (P:=Z) (D:=list Hash) → Prop :=
  sched_run toy_provider toy_tx_store (toy_find cpus) toy_engine toy_total.
Lemma toy_run_turn cpus : toy_run cpus (toy_turn cpus toy_world).
Proof. apply sched_turn. by apply sched_start. Qed.

Example scheduler_resources_conserved_witness :
  let w := toy_turn 1 toy_world in
  let rm := resource_manager (program_manager (w_state w)) in
  rm_sum rm (allocs (running_vms (w_state w))) = toy_total ∧
  (0 ≤ available_mem rm ≤ available_mem toy_total)%Z ∧
  (0 ≤ available_cpus rm ≤ available_cpus toy_total)%Z ∧
  (0 ≤ available_gpus rm ≤ available_gpus toy_total)%Z.
Proof.
  exact (scheduler_resources_conserved toy_provider toy_tx_store (toy_find 1) toy_engine toy_total
    (λ d, toy_limits 1 d ltac:(lia)) (toy_turn 1 toy_world) toy_total_u64 (toy_run_turn 1)).
Defined.

Example get_pending_task_spec_witness :
  let st := w_state (toy_turn 1 toy_world) in
  let st' := snd (get_pending_task toy_provider 5 (fill "r") st) in
  running_tasks st !! fill "r" = None ∧ task_tx (toy_task wf_run) = fill "r" ∧
  ∃ ts rest, task_queue st !! fill "r" = Some ((toy_task wf_run, ts) :: rest) ∧
    task_queue st' !! fill "r" = Some rest ∧ get_running_task (fill "r") st' = Some (toy_task wf_run).
Proof.
  apply (get_pending_task_spec toy_provider toy_tx_store (toy_find 1) toy_engine toy_total
    (λ d, toy_limits 1 d ltac:(lia)) (toy_turn 1 toy_world) 5 (fill "r") (toy_task wf_run) _
    toy_total_u64 (toy_run_turn 1)).
  apply run_snd. by_evaluation.
Defined.

Example reap_zombies_spec_witness :
  let st := w_state (toy_turn 1 toy_world) in
  let st' := snd (reap_zombies toy_provider 70000 (λ _, Ok true) st) in
  (∀ rt, running_tasks st' !! fill "r" = Some rt ↔
     running_tasks st !! fill "r" = Some rt ∧ healthy 70000 (λ _, Ok true) st (fill "r") rt = true) ∧
  (∀ h, running_vms st' !! fill "r" = Some h ↔
     running_vms st !! fill "r" = Some h ∧
     (is_Some (running_tasks st' !! fill "r") ∨
      running_tasks st !! fill "r" = None ∧ (run_time 70000 (vm_handle h) ≤ MAX_VM_IDLE_RUN_TIME)%Z)).
Proof.
  apply (reap_zombies_spec toy_provider 70000 (λ _, Ok true) (w_state (toy_turn 1 toy_world)) _ ()).
  - apply (sched_run_inv _ _ _ _ _ (λ d, toy_limits 1 d ltac:(lia)) _ toy_total_u64 (toy_run_turn 1)).
  - apply run_snd. by_evaluation.
Defined.

(** A program that wants 100 of the node's 4 CPUs. *)
Example unstartable_program_starves_mempool_witness :
  let w := toy_turn 100 toy_world in
  let w' := snd (for_eachM (λ e, run_turn toy_provider toy_tx_store (toy_find 100) toy_engine
                              (fst e) (snd e) "/data") (replicate 10 (1%Z, λ _, Ok true)) w) in
  w_mempool w' = w_mempool w ∧ (fill "r", fill "p") ∈ pending_programs (w_state w') ∧
  w_signals w' = w_signals w.
Proof.
  apply (unstartable_program_starves_mempool toy_provider toy_tx_store (toy_find 100) toy_engine
    toy_total (λ d, toy_limits 100 d ltac:(lia)) _ _ _ _ _ _ toy_total_u64 (toy_run_turn 100)).
  - reflexivity.
  - by_evaluation.
  - right. exists (toy_program 100 (fill "p")). split; [reflexivity|]. simpl. lia.
Defined.

Definition toy_running : World (P:=Z) (D:=list Hash) :=
  snd (on_state (get_pending_task toy_provider 5 (fill "r")) (toy_turn 1 toy_world)).
Definition toy_submit : result string () * World (P:=Z) (D:=list Hash) :=
  submit_result toy_provider toy_tx_store (toy_key "k") "/data" "http://h" 3 (Ok ())
    (fill "r") (fill "p") (TaskOk [zero] []) toy_running.

Example submit_result_spec_witness :
  ∃ tx out,
    ch_queue (w_channel (snd toy_submit)) =
      ch_queue (w_channel toy_running) ++ [(into_received tx Received.TXRESULT, Some 3)] ∧
    (tf_name <$> out) = [] ∧
    (TaskKind.Proof = TaskKind.Proof ∧ payload tx = Payload.Proof (fill "r") (fill "p") [zero] out ∨
     TaskKind.Proof = TaskKind.Verification ∧
       payload tx = Payload.Verification (fill "r") (fill "p") [zero] out) ∧
    validate (into_received tx Received.TXRESULT) = Ok () ∧
    running_tasks (w_state (snd toy_submit)) !! fill "r" = None ∧
    running_vms (w_state (snd toy_submit)) !! fill "r" = None.
Proof.
  apply (submit_result_spec toy_provider toy_tx_store (toy_key "k") "/data" "http://h" 3 (Ok ())
    (fill "r") (fill "p") [zero] [] (MkRunningTask (toy_task wf_run) 0 5) toy_running _ ()).
  - by_evaluation.
  - apply run_snd. by_evaluation.
Defined.

End scheduler_witnesses.
