(* ===== verification/Turns.v ===== *)
(** * The scheduling loop, await by await ([crates/node/src/scheduler/mod.rs])

    [Scheduler.run_turn] is one turn of ['SCHEDULING_LOOP] as a whole.  The loop holds the
    lock of the state only inside [reap_zombies], the block over the pending programs,
    [pick_task] and the last block; between these, and while it copies files, VMs fetch
    tasks and hand in results.  Here the turn is cut where the lock is free: the position
    of the loop is a value, and one step takes it to the next. *)

From S2P Require Import Prelude Types Models Files Transaction Event Mempool Workflow Watchdog Resources Scheduler.

(** Where the loop is between two steps. *)
Inductive LoopPos :=
  | AtReap
  | AtPendingPrograms
  | AtLoopOk
  | AtPickTask
  | AtMempoolLen (size : nat)
  | AtCopy (task : Task) (files : list (TaskVmFile VmInput)) (size : nat)
  | AtStart (task : Task)
  (** a panic ended the task the loop runs in *)
  | LoopDead.

(** The task that is neither in the mempool nor in a queue: the loop has it. *)
Definition task_at (pos : LoopPos) : option Task :=
  match pos with AtCopy task _ _ | AtStart task => Some task | _ => None end.

Section turns.
Context `{Hex, Secp, Sha3, NumBigint, Bincode} {P D : Type} (provider : Provider P) (tx_store : TransactionStore D).
Context (find_program : D → Hash → result string (option Program)).
Context (engine_next_task : Transaction Validated → M D WorkflowError.t (option Task)).
#[local] Abbreviation World := (World (P:=P) (D:=D)).

Definition turn_step (now : Z) (alive : Z → result string bool) (data_directory : string)
    (pos : LoopPos) : M World string LoopPos :=
  match pos with
  | AtReap => _ ← on_state (reap_zombies provider now alive); mret AtPendingPrograms
  | AtPendingPrograms =>
      w ← get;
      started ← on_state (start_pending provider find_program (storage (w_mempool w)));
      mret (if started : bool then AtLoopOk else AtReap)
  | AtLoopOk => _ ← signal SchedulerLoopOk; mret AtPickTask
  | AtPickTask =>
      '(task, mempool_size) ← pick_task engine_next_task;
      mret (match task with
            | None => AtMempoolLen mempool_size
            | Some task => AtCopy task (task_files task) mempool_size
            end)
  | AtMempoolLen size => _ ← signal (SchedulerMempoolLen size); mret AtReap
  | AtCopy task [] size => _ ← signal (SchedulerMempoolLen size); mret (AtStart task)
  | AtCopy task (file :: rest) size =>
      _ ← copy_task_file tx_store data_directory task file; mret (AtCopy task rest size)
  | AtStart task =>
      w ← get;
      _ ← on_state (schedule_task provider find_program now (storage (w_mempool w)) task);
      mret AtReap
  | LoopDead => mret LoopDead
  end.

(** Where a step leaves the loop. *)
Definition next_pos (r : result string LoopPos) : LoopPos :=
  match r with Ok pos => pos | _ => LoopDead end.

(** Steps up to the end of the turn, when nothing comes in between. *)
Fixpoint turn_steps (fuel : nat) (now : Z) (alive : Z → result string bool)
    (data_directory : string) (pos : LoopPos) : M World string LoopPos :=
  match fuel with
  | O => mret pos
  | S fuel =>
      pos' ← turn_step now alive data_directory pos;
      match pos' with AtReap => mret AtReap | _ => turn_steps fuel now alive data_directory pos' end
  end.

(** ** A turn without interruption is [run_turn] *)

Section sequential.
Context (now : Z) (alive : Z → result string bool) (data_directory : string).
#[local] Abbreviation steps := (λ fuel pos, turn_steps fuel now alive data_directory pos).

(** What the loop does once the files are copied. *)
Definition start_task (size : nat) (task : Task) : M World string () :=
  _ ← signal (SchedulerMempoolLen size);
  w ← get;
  on_state (schedule_task provider find_program now (storage (w_mempool w)) task).

Definition then_reap {A} (m : M World string A) : M World string LoopPos := _ ← m; mret AtReap.

Lemma steps_start n size task w :
  steps (S (S n)) (AtCopy task [] size) w = then_reap (start_task size task) w.
Proof.
  cbn [turn_steps]. unfold then_reap, start_task, turn_step, mbind, M_bind, signal, modify, get. simpl.
  by destruct (on_state _ _) as [[] w'].
Qed.

Lemma steps_copy n size task files w :
  steps (length files + S (S n)) (AtCopy task files size) w =
  then_reap (_ ← for_eachM (copy_task_file tx_store data_directory task) files;
             start_task size task) w.
Proof.
  revert w. induction files as [|file files IH]; intros w; [apply steps_start|].
  cbn [length Nat.add turn_steps turn_step for_eachM]. unfold then_reap, mbind, M_bind.
  destruct (copy_task_file _ _ _ _ w) as [[[]|e|] w']; [|done..]. simpl.
  rewrite IH. unfold then_reap, mbind, M_bind. by destruct (for_eachM _ _ w') as [[[]|e|] w2].
Qed.

Lemma steps_S n pos w :
  steps (S n) pos w =
  match turn_step now alive data_directory pos w with
  | (Ok AtReap, w') => (Ok AtReap, w')
  | (Ok pos', w') => steps n pos' w'
  | (Err e, w') => (Err e, w')
  | (Panic, w') => (Panic, w')
  end.
Proof.
  cbn [turn_steps]. unfold mbind, M_bind.
  by destruct (turn_step now alive data_directory pos w) as [[[]|e|] w'].
Qed.

Lemma reap_step w :
  turn_step now alive data_directory AtReap w =
  match on_state (reap_zombies provider now alive) w with
  | (Ok _, w') => (Ok AtPendingPrograms, w')
  | (Err e, w') => (Err e, w')
  | (Panic, w') => (Panic, w')
  end.
Proof. done. Qed.

Lemma pending_step w :
  turn_step now alive data_directory AtPendingPrograms w =
  match on_state (start_pending provider find_program (storage (w_mempool w))) w with
  | (Ok started, w') => (Ok (if started : bool then AtLoopOk else AtReap), w')
  | (Err e, w') => (Err e, w')
  | (Panic, w') => (Panic, w')
  end.
Proof. done. Qed.

Lemma pick_step w :
  turn_step now alive data_directory AtPickTask w =
  match pick_task engine_next_task w with
  | (Ok (None, size), w') => (Ok (AtMempoolLen size), w')
  | (Ok (Some task, size), w') => (Ok (AtCopy task (task_files task) size), w')
  | (Err e, w') => (Err e, w')
  | (Panic, w') => (Panic, w')
  end.
Proof.
  cbn [turn_step]. unfold mbind, M_bind. by destruct (pick_task _ w) as [[[[] ?]|e|] w'].
Qed.

#[local] Abbreviation turn :=
  (run_turn provider tx_store find_program engine_next_task now alive data_directory).
Definition loop_ok (w : World) : World :=
  MkWorld (w_state w) (w_mempool w) (w_fs w) (w_signals w ++ [SchedulerLoopOk]) (w_channel w).

Lemma run_turn_cases w :
  turn w =
  match on_state (reap_zombies provider now alive) w with
  | (Ok _, w1) =>
      match on_state (start_pending provider find_program (storage (w_mempool w1))) w1 with
      | (Ok true, w2) =>
          match pick_task engine_next_task (loop_ok w2) with
          | (Ok (None, size), w3) => signal (SchedulerMempoolLen size) w3
          | (Ok (Some task, size), w3) =>
              (_ ← for_eachM (copy_task_file tx_store data_directory task) (task_files task);
               start_task size task) w3
          | (Err e, w3) => (Err e, w3)
          | (Panic, w3) => (Panic, w3)
          end
      | (Ok false, w2) => (Ok (), w2)
      | (Err e, w2) => (Err e, w2)
      | (Panic, w2) => (Panic, w2)
      end
  | (Err e, w1) => (Err e, w1)
  | (Panic, w1) => (Panic, w1)
  end.
Proof.
  unfold run_turn, mbind, M_bind.
  destruct (on_state (reap_zombies provider now alive) w) as [[[]|e|] w1]; [|done..].
  unfold get. destruct (on_state _ w1) as [[[]|e|] w2]; [|done..]. cbn [negb].
  change (signal SchedulerLoopOk w2) with (Ok (E:=string) (), loop_ok w2). cbv beta iota.
  by destruct (pick_task engine_next_task (loop_ok w2)) as [[[[task|] size]|e|] w3].
Qed.

(** The steps of an uninterrupted turn end, and do what [run_turn] does. *)
Lemma turn_steps_run_turn w :
  ∃ n, ∀ fuel, n ≤ fuel → steps fuel AtReap w = then_reap turn w.
Proof.
  unfold then_reap, mbind, M_bind. rewrite run_turn_cases.
  assert (∀ n, 4 ≤ n → ∃ m, n = S (S (S (S m))) ∧ m = n - 4) as H4
    by (intros n Hn; exists (n - 4); lia).
  destruct (on_state (reap_zombies provider now alive) w) as [r1 w1] eqn:E1.
  destruct (on_state (start_pending provider find_program (storage (w_mempool w1))) w1)
    as [r2 w2] eqn:E2.
  destruct (pick_task engine_next_task (loop_ok w2)) as [r3 w3] eqn:E3.
  exists (6 + match r3 with Ok (Some task, _) => length (task_files task) | _ => 0 end).
  intros fuel Hn. destruct (H4 fuel) as (m & -> & Hm); [lia|].
  rewrite steps_S, reap_step, E1. destruct r1 as [[]|e|]; [|done..].
  rewrite steps_S, pending_step, E2. destruct r2 as [[]|e|]; [|done..].
  rewrite steps_S. change (turn_step now alive data_directory AtLoopOk w2)
    with (Ok (E:=string) AtPickTask, loop_ok w2). cbv beta iota.
  rewrite steps_S, pick_step, E3. destruct r3 as [[[task|] size]|e|]; [| |done..].
  - replace m with (length (task_files task) + S (S (m - length (task_files task) - 2))) by lia.
    by rewrite steps_copy.
  - destruct m; [exfalso; lia|]. done.
Qed.
End sequential.
End turns.

(** ** Resources *)

Section resources.
Context `{Hex, Secp, Sha3, NumBigint, Bincode}.
Context {P D : Type} (provider : Provider P) (tx_store : TransactionStore D).
Context (find_program : D → Hash → result string (option Program)).
Context (engine_next_task : Transaction Validated → M D WorkflowError.t (option Task)).
Context (total : ResourceManager) (Hlim : ∀ d, limits_u64 (find_program d)).

Lemma turn_step_keeps now alive dir pos :
  keeps (world_inv (P:=P) total)
    (turn_step provider tx_store find_program engine_next_task now alive dir pos).
Proof.
  destruct pos as [| | | |size|task [|file rest] size|task|]; cbn [turn_step].
  - apply keeps_bind; [apply on_state_keeps, reap_zombies_keeps|intros _; apply keeps_ret].
  - apply keeps_bind; [apply keeps_get|]. intros w.
    apply keeps_bind; [|intros started; apply keeps_ret].
    apply on_state_keeps. intros st Hst. by apply start_pending_loop_keeps.
  - apply keeps_bind; [apply signal_keeps|intros _; apply keeps_ret].
  - apply keeps_bind; [apply pick_task_keeps|]. intros [[task|] size]; apply keeps_ret.
  - apply keeps_bind; [apply signal_keeps|intros _; apply keeps_ret].
  - apply keeps_bind; [apply signal_keeps|intros _; apply keeps_ret].
  - apply keeps_bind; [|intros _; apply keeps_ret]. apply copy_task_file_keeps.
  - apply keeps_bind; [apply keeps_get|]. intros w.
    apply keeps_bind; [|intros _; apply keeps_ret]. by apply on_state_keeps, schedule_task_keeps.
  - apply keeps_ret.
Qed.
End resources.
