(* ===== verification/Acl.v ===== *)
(** * Access list ([crates/node/src/networking/mod.rs],
    [storage/database/entity/public_key.rs])

    The whitelist of authors: parsing of keys, and the merge of a downloaded key
    list into the stored one.  The merge is proved against the trait it is
    written for ([MergeStoredAcl], here a record of operations with its laws), so
    that any store satisfying the laws is covered; [Database] provides one. *)

From S2P Require Import Prelude Types Models.

Section acl.
Context `{Hex, Secp}.

(** [entity::PublicKey]: [Display], [TryFrom<&str>]. *)
Inductive PublicKeyError := PublicKeyParseError (msg : string).

Definition PublicKey_to_string (k : PublicKey) : string := hex_encode (pk_serialize k).

Definition PublicKey_try_from (value : string) : result PublicKeyError PublicKey :=
  bs ← map_err PublicKeyParseError (hex_decode value);
  arr ← ok_or (array_of_list 65 bs) (PublicKeyParseError "byte array length");
  map_err PublicKeyParseError (pk_parse (vec_to_list arr)).

(** ** The trait [MergeStoredAcl] over a store [S] *)

Record MergeStoredAcl (S : Type) := MkMergeStoredAcl {
  get_acl_whitelist : M S string (list PublicKey);
  acl_whitelist : PublicKey → M S string ();
  acl_deny : PublicKey → M S string ()
}.
Global Arguments MkMergeStoredAcl {S} _ _ _.
Global Arguments get_acl_whitelist {S} _.
Global Arguments acl_whitelist {S} _ _.
Global Arguments acl_deny {S} _ _.

(** What the operations do to the set of keys [acl s] when they succeed. *)
Record AclLaws {S} (db : MergeStoredAcl S) (acl : S → gset PublicKey) : Prop := {
  get_acl_ok s l s' : get_acl_whitelist db s = (Ok l, s') →
    acl s' = acl s ∧ list_to_set l = acl s;
  acl_whitelist_ok k s u s' : acl_whitelist db k s = (Ok u, s') → acl s' = {[k]} ∪ acl s;
  acl_deny_ok k s u s' : acl_deny db k s = (Ok u, s') → acl s' = acl s ∖ {[k]};
  (** reading does not change the store, even when it fails *)
  get_acl_fail s r s' : get_acl_whitelist db s = (r, s') → acl s' = acl s
}.

(** The [while let Some(line)] loop: a read error of the stream returns early.
    The result is the new keys, the stored keys not seen, and whether a line came. *)
Fixpoint read_lines (lines : list (result string string)) (db_keys : gset PublicKey)
    (new_keys : list PublicKey) (non_empty_list : bool)
    : result string (list PublicKey * gset PublicKey * bool) :=
  match lines with
  | [] => Ok (new_keys, db_keys, non_empty_list)
  | line :: rest =>
      line ← line;
      match PublicKey_try_from line with
      | Ok public_key =>
          if decide (public_key ∈ db_keys)
          then read_lines rest (db_keys ∖ {[public_key]}) new_keys true
          else read_lines rest db_keys (new_keys ++ [public_key]) true
      | _ => read_lines rest db_keys new_keys true
      end
  end.

Definition merge_acl_white_list {S} (lines : list (result string string)) (database : MergeStoredAcl S)
    : M S string () :=
  db_keys ← get_acl_whitelist database;
  '(new_keys, db_keys, non_empty_list) ← lift (read_lines lines (list_to_set db_keys) [] false);
  _ ← for_eachM (acl_whitelist database) new_keys;
  if non_empty_list : bool then for_eachM (acl_deny database) (elements db_keys)
  else mret ().


(** [WhitelistSyncer::sync]: [url] is the outcome of parsing the configured URL, [resp]
    the status and the lines of the answer, or why the request failed; [status_text] is
    the [Display] of a status code. *)
Definition sync {S} (status_text : Z → string) (url : result string string)
    (resp : result string (Z * list (result string string))) (database : MergeStoredAcl S)
    : M S string () :=
  url ← lift url;
  '(status, lines) ← lift resp;
  if (status =? 200)%Z then merge_acl_white_list lines database
  else throw ("failed to download file from " +:+ url +:+ ": response status: " +:+ status_text status).
End acl.

Section list_lines.
Context `{Hex, Secp}.

(** The keys a list of lines stands for. *)
Definition parsed_keys (lines : list string) : gset PublicKey :=
  list_to_set (omap (λ l, match PublicKey_try_from l with Ok k => Some k | _ => None end) lines).

Lemma read_lines_ok lines keys new ne :
  ∃ new',
    read_lines (Ok <$> lines) keys new ne
      = Ok (new ++ new', keys ∖ parsed_keys lines, ne || negb (bool_decide (lines = []))) ∧
    (list_to_set new' ⊆ parsed_keys lines) ∧
    parsed_keys lines ⊆ list_to_set new' ∪ keys.
Proof.
  revert keys new ne. induction lines as [|l lines IH]; intros keys new ne.
  - exists []. unfold parsed_keys. simpl. rewrite app_nil_r, difference_empty_L, orb_false_r.
    set_solver.
  - assert (parsed_keys (l :: lines) =
      match PublicKey_try_from l with Ok k => {[k]} | _ => ∅ end ∪ parsed_keys lines) as ->.
    { unfold parsed_keys. simpl. destruct (PublicKey_try_from l); set_solver. }
    simpl. destruct (PublicKey_try_from l) as [k|e|].
    + case_decide as Hin.
      * destruct (IH (keys ∖ {[k]}) new true) as (new' & Hr & ? & ?). exists new'.
        rewrite orb_true_r. split_and!; [etransitivity; [exact Hr|]; do 3 f_equal; set_solver
          |set_solver|]. intros x [Hx|Hx]%elem_of_union; set_solver.
      * destruct (IH keys (new ++ [k]) true) as (new' & Hr & ? & ?). exists (k :: new').
        rewrite orb_true_r. split_and!; [etransitivity; [exact Hr|]|set_solver|set_solver].
        rewrite <-app_assoc. do 3 f_equal. set_solver.
    + destruct (IH keys new true) as (new' & Hr & ? & ?). exists new'.
      rewrite orb_true_r, !union_empty_l_L. by split_and!.
    + destruct (IH keys new true) as (new' & Hr & ? & ?). exists new'.
      rewrite orb_true_r, !union_empty_l_L. by split_and!.
Qed.

Lemma read_lines_err lines keys new ne :
  Exists (λ l, ∃ e, l = Err e) lines → Forall (λ l, l ≠ Panic) lines →
  ∃ e, read_lines lines keys new ne = Err e.
Proof.
  intros Hex Hnp. revert keys new ne. induction lines as [|l lines IH]; intros keys new ne.
  - by apply Exists_nil in Hex.
  - inversion Hnp as [|? ? Hl Hls]; subst. simpl.
    destruct l as [line|e|]; [|by eexists|done]. simpl.
    apply Exists_cons in Hex as [[e ?]|Hex]; [done|]. specialize (IH Hex Hls).
    destruct (PublicKey_try_from line); [case_decide|..]; apply IH.
Qed.

End list_lines.

Section merge.
Context `{Hex, Secp} {S : Type} (db : MergeStoredAcl S) (acl : S → gset PublicKey).
Context (Hlaws : AclLaws db acl).

Lemma whitelist_all ks s u s' :
  for_eachM (acl_whitelist db) ks s = (Ok u, s') → acl s' = list_to_set ks ∪ acl s.
Proof.
  revert s. induction ks as [|k ks IH]; intros s; cbn [for_eachM].
  - intros [= <- <-]. set_solver.
  - intros (u1 & s1 & Hs1 & Hs2)%M_bind_Ok. rewrite (IH _ Hs2).
    rewrite (acl_whitelist_ok _ _ Hlaws _ _ _ _ Hs1). set_solver.
Qed.

Lemma deny_all ks s u s' :
  for_eachM (acl_deny db) ks s = (Ok u, s') → acl s' = acl s ∖ list_to_set ks.
Proof.
  revert s. induction ks as [|k ks IH]; intros s; cbn [for_eachM].
  - intros [= <- <-]. set_solver.
  - intros (u1 & s1 & Hs1 & Hs2)%M_bind_Ok. rewrite (IH _ Hs2).
    rewrite (acl_deny_ok _ _ Hlaws _ _ _ _ Hs1). set_solver.
Qed.

Lemma merge_acl_aux lines s u s' :
  merge_acl_white_list (Ok <$> lines) db s = (Ok u, s') →
  acl s' = if bool_decide (lines = []) then acl s else parsed_keys lines.
Proof.
  unfold merge_acl_white_list. intros (keys & s1 & Hs1 & Hs2)%M_bind_Ok.
  apply (get_acl_ok _ _ Hlaws) in Hs1 as [Hacl Hkeys].
  destruct (read_lines_ok lines (list_to_set keys) [] false) as (new & Hread & Hsub & Hsup).
  rewrite Hread in Hs2. unfold mbind at 1, M_bind at 1, lift in Hs2. simpl in Hs2.
  apply M_bind_Ok in Hs2 as (u2 & s2 & Hs2 & Hs3). apply whitelist_all in Hs2.
  case_bool_decide as Hnil; simpl in Hs3.
  - injection Hs3 as <- <-. subst lines. unfold parsed_keys in Hsub. set_solver.
  - apply deny_all in Hs3. rewrite Hs3, Hs2, Hacl, list_to_set_elements_L, Hkeys.
    rewrite Hkeys in Hsup. apply set_eq. intros k. split.
    + intros [Hk Hnk]%elem_of_difference. destruct (decide (k ∈ parsed_keys lines)); [done|].
      set_solver.
    + intros Hk. set_solver.
Qed.

(** Synchronising the whitelist makes it the downloaded list: when the whole
    list could be read and the store accepts the updates, the stored keys are
    afterwards exactly the keys of the list (those lines that are well-formed
    keys, duplicates and order being irrelevant), except that a list without any
    line leaves the whitelist as it was. *)
Theorem merge_acl_white_list_spec (lines : list string) (s s' : S) (u : ()) :
  merge_acl_white_list (Ok <$> lines) db s = (Ok u, s') →
  acl s' = if bool_decide (lines = []) then acl s else parsed_keys lines.
Proof. apply merge_acl_aux. Qed.

(** A download that breaks off changes nothing: if reading the list fails
    anywhere, even after thousands of good lines, the merge reports an error and
    the stored whitelist is untouched. *)
Theorem merge_acl_read_error (lines : list (result string string)) (s : S) :
  Exists (λ l, ∃ e, l = Err e) lines → Forall (λ l, l ≠ Panic) lines →
  let '(r, s') := merge_acl_white_list lines db s in
  (∀ u, r ≠ Ok u) ∧ acl s' = acl s.
Proof.
  intros Hex Hnp. unfold merge_acl_white_list, mbind at 1, M_bind at 1.
  destruct (get_acl_whitelist db s) as [r1 s1] eqn:Hg.
  pose proof (get_acl_fail _ _ Hlaws _ _ _ Hg) as Hacl.
  destruct r1 as [keys|e|]; [|done..].
  destruct (read_lines_err lines (list_to_set keys) [] false Hex Hnp) as [e He].
  unfold mbind, M_bind, lift. rewrite He. done.
Qed.

(** The guard against an empty list does not cover an unreadable one: a
    non-empty answer without a single well-formed key (an HTML error page, say)
    removes every key from the whitelist. *)
Theorem garbage_list_empties_whitelist (lines : list string) (s s' : S) (u : ()) :
  lines ≠ [] → (∀ l k, l ∈ lines → PublicKey_try_from l ≠ Ok k) →
  merge_acl_white_list (Ok <$> lines) db s = (Ok u, s') → acl s' = ∅.
Proof.
  intros Hne Hbad Hm. rewrite (merge_acl_aux _ _ _ _ Hm), bool_decide_eq_false_2 by done.
  unfold parsed_keys. apply elem_of_equiv_empty_L. intros k.
  rewrite elem_of_list_to_set, list_elem_of_omap. intros (l & Hl & Hk).
  destruct (PublicKey_try_from l) as [k'|e|] eqn:Hp; [|done..]. by eapply Hbad.
Qed.

End merge.

(** ** Witnesses *)

Section acl_witnesses.
Local Existing Instances hex_crate secp_toy.

Definition set_acl : MergeStoredAcl (gset PublicKey) :=
  MkMergeStoredAcl (λ s, (Ok (elements s), s)) (λ k, modify (λ s, {[k]} ∪ s))
    (λ k, modify (λ s, s ∖ {[k]})).

Lemma set_acl_laws : AclLaws set_acl id.
Proof.
  split.
  - intros s l s' [= <- <-]. split; [done|]. apply list_to_set_elements_L.
  - by intros k s u s' [= <- <-].
  - by intros k s u s' [= <- <-].
  - by intros s r s' [= <- <-].
Qed.

Definition demo_line (b : u8) : string := PublicKey_to_string (toy_key b).

Definition demo_merge (lines : list string) : result string () * gset PublicKey :=
  merge_acl_white_list (Ok <$> lines) set_acl {[toy_key "a"]}.
Definition demo_lines : list string := [demo_line "b"; "junk"].

Lemma demo_merge_ok : demo_merge demo_lines = (Ok (), snd (demo_merge demo_lines)).
Proof. apply run_snd. by_evaluation. Qed.
Lemma demo_garbage_ok : demo_merge ["<html>"] = (Ok (), snd (demo_merge ["<html>"])).
Proof. apply run_snd. by_evaluation. Qed.

Example merge_acl_white_list_spec_witness :
  id (snd (demo_merge demo_lines)) =
  if bool_decide (demo_lines = []) then id {[toy_key "a"]} else parsed_keys demo_lines.
Proof.
  exact (merge_acl_white_list_spec set_acl id set_acl_laws demo_lines {[toy_key "a"]} _ ()
    demo_merge_ok).
Defined.

Example merge_acl_read_error_witness :
  let '(r, s') := merge_acl_white_list [Ok (demo_line "b"); Err "reset"] set_acl {[toy_key "a"]} in
  (∀ u, r ≠ Ok u) ∧ s' = {[toy_key "a"]}.
Proof.
  apply (merge_acl_read_error set_acl id set_acl_laws [Ok (demo_line "b"); Err "reset"]).
  - apply Exists_cons_tl, Exists_cons_hd. by eexists.
  - by repeat constructor.
Defined.

Example garbage_list_empties_whitelist_witness : id (snd (demo_merge ["<html>"])) = ∅.
Proof.
  refine (garbage_list_empties_whitelist set_acl id set_acl_laws ["<html>"] {[toy_key "a"]} _ ()
    _ _ demo_garbage_ok).
  - done.
  - intros l k ->%list_elem_of_singleton. by vm_compute.
Defined.

End acl_witnesses.
