(* ===== verification/Database.v ===== *)
(** * Database ([crates/node/src/storage/database])

    The tables of [migrations/] as finite maps (tables with a primary key) and
    lists of rows (tables without), and the SQL statements of [postgres.rs] as
    operations on them, with their [ON CONFLICT] clauses, foreign keys and
    transaction boundaries.  [scan] is the order in which Postgres returns the
    rows of a query without [ORDER BY]. *)

From S2P Require Import Prelude Types Models Files Transaction Event Mempool Workflow Resources Acl.

(** ** Rows ([entity/transaction.rs], [entity/payload.rs]) *)

Module Kind.
Inductive t :=
  | Empty | Transfer | Stake | Unstake | Deploy | Run | Proof | ProofKey | Verification | Cancel.
End Kind.
Global Instance Kind_eq_dec : EqDecision Kind.t.
Proof. solve_decision. Defined.

Record TransactionRow `{Secp} := MkTransactionRow {
  row_author : PublicKey;
  row_hash : Hash;
  row_kind : Kind.t;
  row_nonce : Z;
  row_signature : Signature;
  row_propagated : bool;
  row_executed : bool
}.

Global Arguments MkTransactionRow {_} _ _ _ _ _ _ _.
Global Arguments row_author {_} _.
Global Arguments row_hash {_} _.
Global Arguments row_kind {_} _.
Global Arguments row_nonce {_} _.
Global Arguments row_signature {_} _.
Global Arguments row_propagated {_} _.
Global Arguments row_executed {_} _.

Record DeployRow := MkDeployRow { dep_name : string; dep_prover : Hash; dep_verifier : Hash }.
Record StepRow := MkStepRow {
  step_id : Z; step_tx : Hash; step_sequence : Z; step_program : Hash; step_args : list string
}.
Record InputRow := MkInputRow {
  in_step : Z; in_file_name : string; in_file_url : string; in_checksum : string
}.
Record OutputRow := MkOutputRow { out_step : Z; out_file_name : string; out_source_program : Hash }.
(** [proof] and [verification]: parent, program, data; [proof_key]: parent, key. *)
Record ProofRow := MkProofRow { pr_parent : Hash; pr_program : Hash; pr_data : list u8 }.
Record KeyRow := MkKeyRow { kr_parent : Hash; kr_key : list u8 }.

Global Instance ProofRow_eq_dec : EqDecision ProofRow.
Proof. solve_decision. Defined.

Record Tables `{Secp} := MkTables {
  t_transaction : gmap Hash TransactionRow;
  t_program : gmap Hash Program;
  t_prr : gmap Hash (Z * Z * Z);
  t_deploy : gmap Hash DeployRow;
  t_step : list StepRow;
  t_next_step : Z;
  t_input : list InputRow;
  t_output : list OutputRow;
  t_proof : gmap Hash ProofRow;
  t_proof_key : gmap Hash KeyRow;
  t_verification : gmap Hash ProofRow;
  t_txfile : list (Hash * DbFile);
  t_acl : gset PublicKey
}.

Global Arguments MkTables {_} _ _ _ _ _ _ _ _ _ _ _ _ _.
Global Arguments t_transaction {_} _.
Global Arguments t_program {_} _.
Global Arguments t_prr {_} _.
Global Arguments t_deploy {_} _.
Global Arguments t_step {_} _.
Global Arguments t_next_step {_} _.
Global Arguments t_input {_} _.
Global Arguments t_output {_} _.
Global Arguments t_proof {_} _.
Global Arguments t_proof_key {_} _.
Global Arguments t_verification {_} _.
Global Arguments t_txfile {_} _.
Global Arguments t_acl {_} _.

Definition Tables_new `{Secp} : Tables :=
  MkTables ∅ ∅ ∅ ∅ [] 1 [] [] ∅ ∅ ∅ [] ∅.

Section database.
Context `{Secp}.
Context (scan : ∀ A : Type, list A → list A).

(** ** Conversions *)

Definition kind_of (p : Payload.t) : Kind.t :=
  match p with
  | Payload.Empty => Kind.Empty
  | Payload.Transfer _ _ => Kind.Transfer
  | Payload.Stake _ => Kind.Stake
  | Payload.Unstake _ => Kind.Unstake
  | Payload.Deploy _ _ _ => Kind.Deploy
  | Payload.Run _ => Kind.Run
  | Payload.Proof _ _ _ _ => Kind.Proof
  | Payload.ProofKey _ _ => Kind.ProofKey
  | Payload.Verification _ _ _ _ => Kind.Verification
  | Payload.Cancel _ => Kind.Cancel
  end.

Definition row_of_tx (tx : Transaction Validated) : TransactionRow :=
  MkTransactionRow (author tx) (hash tx) (kind_of (payload tx)) (nonce tx) (signature tx)
    (propagated tx) (executed tx).

Definition tx_of_row (r : TransactionRow) : Transaction Validated :=
  MkTransaction (row_author r) (row_hash r) Payload.Empty (row_nonce r) (row_signature r)
    (row_propagated r) (row_executed r) MkValidated.

(** [u64 as i64], and [try_from = "i64"] on the way back. *)
Definition as_i64 (z : Z) : Z := if (z <? 2 ^ 63)%Z then z else (z - 2 ^ 64)%Z.
Definition ResourceRequest_of_row (r : Z * Z * Z) : option ResourceRequest :=
  let '(mem, cpus, gpus) := r in
  if (0 <=? mem)%Z && (0 <=? cpus)%Z && (0 <=? gpus)%Z
  then Some (MkResourceRequest mem cpus gpus) else None.

(** ** Programs *)

Definition set_programs (p : gmap Hash Program) (r : gmap Hash (Z * Z * Z)) (t : Tables) : Tables :=
  MkTables (t_transaction t) p r (t_deploy t) (t_step t) (t_next_step t) (t_input t) (t_output t)
    (t_proof t) (t_proof_key t) (t_verification t) (t_txfile t) (t_acl t).

(** [ON CONFLICT (key) DO NOTHING] on a table with a primary key. *)
Definition insert_new {V} (k : Hash) (v : V) (m : gmap Hash V) : gmap Hash V :=
  match m !! k with Some _ => m | None => <[k := v]> m end.

Definition has_row {V} (k : Hash) (m : gmap Hash V) : bool := bool_decide (is_Some (m !! k)).

Definition no_limits (p : Program) : Program :=
  MkProgram (prg_hash p) (prg_name p) (prg_image_file_name p) (prg_image_file_url p)
    (prg_image_file_checksum p) None.

Definition add_program (p : Program) (t : Tables) : Tables :=
  set_programs (insert_new (prg_hash p) (no_limits p) (t_program t))
    (match prg_limits p with
     | Some r => insert_new (prg_hash p)
                   (as_i64 (rr_mem r), as_i64 (rr_cpus r), as_i64 (rr_gpus r)) (t_prr t)
     | None => t_prr t
     end) t.

(** [get_program]: the left join; [fetch_one] fails when there is no row. *)
Definition get_program (h : Hash) (t : Tables) : result string Program :=
  match t_program t !! h with
  | Some p =>
      Ok (MkProgram (prg_hash p) (prg_name p) (prg_image_file_name p) (prg_image_file_url p)
            (prg_image_file_checksum p) (t_prr t !! h ≫= ResourceRequest_of_row))
  | None => Err "no rows returned by a query that expected to return at least one row"
  end.

Definition db_find_program (t : Tables) (h : Hash) : result string (option Program) :=
  match get_program h t with Ok p => Ok (Some p) | Err _ => Ok None | Panic => Panic end.

Definition get_programs (t : Tables) : result string (list Program) :=
  collect_results (λ h, get_program h t) (scan _ (map_to_list (t_program t)).*1).

(** ** Adding a transaction *)

(** The body of [add_transaction] runs inside a database transaction: it works on
    the tables and [?] gives up. *)
Definition Sql := M Tables string.

Definition sql_error {A} : Sql A := throw "violates foreign key constraint".
Definition check (b : bool) : Sql () := if b then mret () else sql_error.
Definition has_tx (t : Tables) (h : Hash) : bool := has_row h (t_transaction t).
Definition has_program (t : Tables) (h : Hash) : bool := has_row h (t_program t).

(** [ON CONFLICT (hash) DO UPDATE SET propagated = $6, executed = $7] *)
Definition upsert_transaction (e : TransactionRow) (t : Tables) : Tables :=
  let e' := match t_transaction t !! row_hash e with
            | Some old => MkTransactionRow (row_author old) (row_hash old) (row_kind old)
                            (row_nonce old) (row_signature old) (row_propagated e) (row_executed e)
            | None => e
            end in
  MkTables (<[row_hash e := e']> (t_transaction t)) (t_program t) (t_prr t) (t_deploy t)
    (t_step t) (t_next_step t) (t_input t) (t_output t) (t_proof t) (t_proof_key t)
    (t_verification t) (t_txfile t) (t_acl t).

Definition set_deploy (m : gmap Hash DeployRow) (t : Tables) : Tables :=
  MkTables (t_transaction t) (t_program t) (t_prr t) m (t_step t) (t_next_step t) (t_input t)
    (t_output t) (t_proof t) (t_proof_key t) (t_verification t) (t_txfile t) (t_acl t).
Definition set_steps (l : list StepRow) (n : Z) (t : Tables) : Tables :=
  MkTables (t_transaction t) (t_program t) (t_prr t) (t_deploy t) l n (t_input t)
    (t_output t) (t_proof t) (t_proof_key t) (t_verification t) (t_txfile t) (t_acl t).
Definition set_inputs (l : list InputRow) (t : Tables) : Tables :=
  MkTables (t_transaction t) (t_program t) (t_prr t) (t_deploy t) (t_step t) (t_next_step t) l
    (t_output t) (t_proof t) (t_proof_key t) (t_verification t) (t_txfile t) (t_acl t).
Definition set_outputs (l : list OutputRow) (t : Tables) : Tables :=
  MkTables (t_transaction t) (t_program t) (t_prr t) (t_deploy t) (t_step t) (t_next_step t)
    (t_input t) l (t_proof t) (t_proof_key t) (t_verification t) (t_txfile t) (t_acl t).
Definition set_proofs (p : gmap Hash ProofRow) (k : gmap Hash KeyRow) (v : gmap Hash ProofRow)
    (f : list (Hash * DbFile)) (t : Tables) : Tables :=
  MkTables (t_transaction t) (t_program t) (t_prr t) (t_deploy t) (t_step t) (t_next_step t)
    (t_input t) (t_output t) p k v f (t_acl t).

(** The [WITH ws AS (INSERT ... ON CONFLICT (tx, sequence) DO NOTHING RETURNING id)
    SELECT ... UNION ...]: the id of the new or of the existing step.  The serial
    is drawn in both cases; only a row that is inserted has its foreign keys checked. *)
Definition insert_step (tx : Hash) (sequence : Z) (step : WorkflowStep) : Sql Z :=
  t ← get;
  match list_find (λ r, step_tx r = tx ∧ step_sequence r = sequence) (t_step t) with
  | Some (_, r) => _ ← modify (set_steps (t_step t) (t_next_step t + 1)); mret (step_id r)
  | None =>
      let id := t_next_step t in
      _ ← check (has_program t (ws_program step));
      _ ← modify (set_steps (t_step t ++ [MkStepRow id tx sequence (ws_program step) (ws_args step)])
                    (id + 1));
      mret id
  end.

Definition insert_input (step : Z) (input : ProgramData.t) : Sql () :=
  t ← get;
  match input with
  | ProgramData.Input file_name file_url checksum =>
      if bool_decide (Exists (λ r, in_step r = step ∧ in_file_name r = file_name) (t_input t))
      then mret ()
      else modify (set_inputs (t_input t ++ [MkInputRow step file_name file_url checksum]))
  | ProgramData.Output source_program file_name =>
      if bool_decide (Exists (λ r, out_step r = step ∧ out_file_name r = file_name) (t_output t))
      then mret ()
      else
        _ ← check (has_program t source_program);
        modify (set_outputs (t_output t ++ [MkOutputRow step file_name source_program]))
  end.

Fixpoint insert_steps (tx : Hash) (sequence : Z) (steps : list WorkflowStep) : Sql () :=
  match steps with
  | [] => mret ()
  | step :: rest =>
      id ← insert_step tx sequence step;
      _ ← for_eachM (insert_input id) (ws_inputs step);
      insert_steps tx (sequence + 1) rest
  end.

Definition txfile_rows (tx : Hash) (files : list (TxFile Output)) : list (Hash * DbFile) :=
  (λ f, (tx, MkDbFile (tf_name f) (tf_url f) (tf_checksum f))) <$> files.

(** The body between [begin] and [commit]. *)
Definition add_transaction_body (tx : Transaction Validated) : Sql () :=
  _ ← modify (upsert_transaction (row_of_tx tx));
  match payload tx with
  | Payload.Deploy name prover verifier =>
      _ ← modify (add_program (Program_of_metadata prover));
      _ ← modify (add_program (Program_of_metadata verifier));
      modify (λ t, set_deploy (insert_new (hash tx)
                (MkDeployRow name (pm_hash prover) (pm_hash verifier)) (t_deploy t)) t)
  | Payload.Run workflow => insert_steps (hash tx) 1 (wf_steps workflow)
  | Payload.Proof parent prover proof files =>
      t ← get;
      _ ← check (has_row (hash tx) (t_proof t) || has_tx t parent && has_program t prover);
      modify (λ t, set_proofs (insert_new (hash tx) (MkProofRow parent prover proof) (t_proof t))
                (t_proof_key t) (t_verification t) (t_txfile t ++ txfile_rows (hash tx) files) t)
  | Payload.ProofKey parent key =>
      modify (λ t, set_proofs (t_proof t) (insert_new (hash tx) (MkKeyRow parent key) (t_proof_key t))
                (t_verification t) (t_txfile t) t)
  | Payload.Verification parent verifier verification files =>
      t ← get;
      _ ← check (has_row (hash tx) (t_verification t) || has_tx t parent && has_program t verifier);
      modify (λ t, set_proofs (t_proof t) (t_proof_key t)
                (insert_new (hash tx) (MkProofRow parent verifier verification) (t_verification t))
                (t_txfile t ++ txfile_rows (hash tx) files) t)
  | _ => mret ()
  end.

(** A failed body is rolled back, except for what is not part of the transaction:
    [add_program] commits on its own connection, and serials are never returned. *)
Definition rollback (t0 t1 : Tables) : Tables :=
  set_steps (t_step t0) (t_next_step t1) (set_programs (t_program t1) (t_prr t1) t0).

Definition add_transaction (tx : Transaction Validated) : M Tables string () := λ t,
  match add_transaction_body tx t with
  | (Ok (), t') => (Ok (), t')
  | (r, t') => (r, rollback t t')
  end.

(** ** Finding transactions *)

Definition step_of_rows (program_inputs : list InputRow) (program_outputs : list OutputRow)
    (step : StepRow) : WorkflowStep :=
  let inputs := filter (λ e, in_step e = step_id step) program_inputs in
  let outputs := filter (λ e, out_step e = step_id step) program_outputs in
  MkWorkflowStep (step_program step) (step_args step)
    (((λ e, ProgramData.Input (in_file_name e) (in_file_url e) (in_checksum e)) <$> inputs) ++
     ((λ e, ProgramData.Output (out_source_program e) (out_file_name e)) <$> outputs)).

(** The ids of the steps of a transaction, for the two joins. *)
Definition steps_of (t : Tables) (tx : Hash) : list StepRow :=
  filter (λ r, step_tx r = tx) (t_step t).

Definition no_row {A} : result string A :=
  Err "no rows returned by a query that expected to return at least one row".

Definition find_payload (t : Tables) (tx_hash : Hash) (kind : Kind.t) : result string Payload.t :=
  match kind with
  | Kind.Deploy =>
      match t_deploy t !! tx_hash with
      | Some deploy =>
          prover ← get_program (dep_prover deploy) t;
          verifier ← get_program (dep_verifier deploy) t;
          Ok (Payload.Deploy (dep_name deploy) (ProgramMetadata_of_program prover)
                (ProgramMetadata_of_program verifier))
      | None => no_row
      end
  | Kind.Run =>
      let steps := scan _ (steps_of t tx_hash) in
      let ids := step_id <$> steps_of t tx_hash in
      let program_inputs := scan _ (filter (λ e, in_step e ∈ ids) (t_input t)) in
      let program_outputs := scan _ (filter (λ e, out_step e ∈ ids) (t_output t)) in
      Ok (Payload.Run (MkWorkflow (step_of_rows program_inputs program_outputs <$> steps)))
  | Kind.Proof =>
      let files := scan _ (filter (λ f, fst f = tx_hash) (t_txfile t)).*2 in
      match t_proof t !! tx_hash with
      | Some r => Ok (Payload.Proof (pr_parent r) (pr_program r) (pr_data r) (TxFile_of_DbFile <$> files))
      | None => no_row
      end
  | Kind.ProofKey =>
      match t_proof_key t !! tx_hash with
      | Some r => Ok (Payload.ProofKey (kr_parent r) (kr_key r))
      | None => no_row
      end
  | Kind.Verification =>
      let files := scan _ (filter (λ f, fst f = tx_hash) (t_txfile t)).*2 in
      match t_verification t !! tx_hash with
      | Some r => Ok (Payload.Verification (pr_parent r) (pr_program r) (pr_data r)
                        (TxFile_of_DbFile <$> files))
      | None => no_row
      end
  | _ => Ok Payload.Empty
  end.

Definition set_payload (tx : Transaction Validated) (p : Payload.t) : Transaction Validated :=
  MkTransaction (author tx) (hash tx) p (nonce tx) (signature tx) (propagated tx) (executed tx)
    (state tx).

Definition db_find_transaction (t : Tables) (tx_hash : Hash)
    : result string (option (Transaction Validated)) :=
  match t_transaction t !! tx_hash with
  | Some entity =>
      p ← find_payload t tx_hash (row_kind entity);
      Ok (Some (set_payload (tx_of_row entity) p))
  | None => Ok None
  end.

(** The loop of [get_transactions] and [get_unexecuted_transactions]. *)
Fixpoint find_all (t : Tables) (refs : list Hash) : result string (list (Transaction Validated)) :=
  match refs with
  | [] => Ok []
  | h :: rest => o ← db_find_transaction t h; l ← find_all t rest; Ok (option_list o ++ l)
  end.

Definition get_transactions (t : Tables) : result string (list (Transaction Validated)) :=
  find_all t (scan _ (map_to_list (t_transaction t)).*1).
Definition get_unexecuted_transactions (t : Tables) : result string (list (Transaction Validated)) :=
  find_all t (scan _ (filter (λ e, row_executed (snd e) = false) (map_to_list (t_transaction t))).*1).

(** The subquery of [get_transaction_tree]: transactions with a verified proof, when
    [tx_hash] is the transaction, the proof or the verification. *)
Definition tree_roots (t : Tables) (tx_hash : Hash) : list Hash :=
  p ← map_to_list (t_proof t); v ← map_to_list (t_verification t);
  if has_tx t (pr_parent (snd p)) && bool_decide (fst p = pr_parent (snd v)) &&
     (bool_decide (pr_parent (snd p) = tx_hash) || bool_decide (fst p = tx_hash) ||
      bool_decide (fst v = tx_hash))
  then [pr_parent (snd p)] else [].

(** The three branches of the [UNION], which drops duplicate rows. *)
Definition get_transaction_tree (t : Tables) (tx_hash : Hash) : result string (list (Hash * option Hash)) :=
  let roots := tree_roots t tx_hash in
  let proofs := filter (λ p, pr_parent (snd p) ∈ roots) (map_to_list (t_proof t)) in
  let verifications := filter (λ v, pr_parent (snd v) ∈ proofs.*1) (map_to_list (t_verification t)) in
  Ok (scan _ (remove_dups
    (((λ h, (h, None)) <$> roots) ++
     ((λ p, (fst p, Some (pr_parent (snd p)))) <$> filter (λ p, has_tx t (fst p) = true) proofs) ++
     ((λ v, (fst v, Some (pr_parent (snd v)))) <$> filter (λ v, has_tx t (fst v) = true) verifications)))).

(** ** Other updates *)

Definition db_mark_tx_executed (h : Hash) : M Tables string () := modify (λ t,
  match t_transaction t !! h with
  | Some r =>
      MkTables (<[h := MkTransactionRow (row_author r) (row_hash r) (row_kind r) (row_nonce r)
                         (row_signature r) (row_propagated r) true]> (t_transaction t))
        (t_program t) (t_prr t) (t_deploy t) (t_step t) (t_next_step t) (t_input t) (t_output t)
        (t_proof t) (t_proof_key t) (t_verification t) (t_txfile t) (t_acl t)
  | None => t
  end).

Definition set_acl_keys (k : gset PublicKey) (t : Tables) : Tables :=
  MkTables (t_transaction t) (t_program t) (t_prr t) (t_deploy t) (t_step t) (t_next_step t)
    (t_input t) (t_output t) (t_proof t) (t_proof_key t) (t_verification t) (t_txfile t) k.

Definition db_get_acl_whitelist : M Tables string (list PublicKey) := λ t,
  (Ok (scan _ (elements (t_acl t))), t).
Definition acl_whitelist_has (t : Tables) (k : PublicKey) : bool := bool_decide (k ∈ t_acl t).
Definition db_acl_whitelist (k : PublicKey) : M Tables string () :=
  modify (λ t, set_acl_keys ({[k]} ∪ t_acl t) t).
Definition db_acl_deny (k : PublicKey) : M Tables string () :=
  modify (λ t, set_acl_keys (t_acl t ∖ {[k]}) t).

(** ** The interfaces the database implements ([main.rs], [networking/mod.rs]) *)

Definition database_acl : MergeStoredAcl Tables :=
  MkMergeStoredAcl db_get_acl_whitelist db_acl_whitelist db_acl_deny.
Definition database_contains (t : Tables) : AclWhitelist :=
  MkAclWhitelist (λ k, Ok (acl_whitelist_has t k)).
Definition database_validate (t : Tables) : ValidateStorage :=
  MkValidateStorage (db_find_transaction t)
    (λ h, res ← db_find_program t h; Ok (bool_decide (is_Some res))).
Definition database_storage : MempoolStorage Tables :=
  MkMempoolStorage add_transaction database_validate.
Definition database_tx_store : TransactionStore Tables :=
  MkTransactionStore db_find_transaction db_mark_tx_executed.

End database.

(** ** Integrity of the tables *)

Section integrity.
Context `{Secp}.

(** The id of a workflow step, the target of the foreign keys of inputs and outputs. *)
Definition has_step (t : Tables) (id : Z) : Prop := id ∈ step_id <$> t_step t.

(** Foreign keys and row identity: what the schema promises, plus the fact that a
    serial id is never handed out twice: the ids of the steps are distinct, and all
    below the next one. *)
Record db_wf (t : Tables) : Prop := {
  wf_hash h r : t_transaction t !! h = Some r → row_hash r = h;
  wf_deploy h r : t_deploy t !! h = Some r →
    has_tx t h = true ∧ has_program t (dep_prover r) = true ∧ has_program t (dep_verifier r) = true;
  wf_proof h r : t_proof t !! h = Some r →
    has_tx t h = true ∧ has_tx t (pr_parent r) = true ∧ has_program t (pr_program r) = true;
  wf_key h r : t_proof_key t !! h = Some r → has_tx t h = true;
  wf_verification h r : t_verification t !! h = Some r →
    has_tx t h = true ∧ has_tx t (pr_parent r) = true ∧ has_program t (pr_program r) = true;
  wf_txfile e : e ∈ t_txfile t → has_tx t (fst e) = true;
  wf_step r : r ∈ t_step t →
    has_tx t (step_tx r) = true ∧ has_program t (step_program r) = true ∧
    (step_id r < t_next_step t)%Z;
  wf_input r : r ∈ t_input t → has_step t (in_step r);
  wf_output r : r ∈ t_output t →
    has_step t (out_step r) ∧ has_program t (out_source_program r) = true;
  wf_limits h : is_Some (t_prr t !! h) → has_program t h = true;
  wf_step_id : NoDup (step_id <$> t_step t);
  wf_step_key : NoDup ((λ r, (step_tx r, step_sequence r)) <$> t_step t)
}.

Lemma has_step_bound t id : db_wf t → has_step t id → (id < t_next_step t)%Z.
Proof. intros Ht (r & -> & Hr)%list_elem_of_fmap. by apply (wf_step t Ht). Qed.
Lemma wf_input_bound t r : db_wf t → r ∈ t_input t → (in_step r < t_next_step t)%Z.
Proof. intros Ht Hr. apply (has_step_bound t); [done|by apply (wf_input t)]. Qed.
Lemma wf_output_bound t r : db_wf t → r ∈ t_output t → (out_step r < t_next_step t)%Z.
Proof. intros Ht Hr. apply (has_step_bound t); [done|by apply (wf_output t)]. Qed.

Lemma Tables_new_wf : db_wf Tables_new.
Proof.
  split; simpl; try (intros; set_solver); [|constructor..].
  intros h Hh. rewrite lookup_empty in Hh. by apply is_Some_None in Hh.
Qed.

(** [t'] knows at least the transactions and programs of [t]. *)
Definition grows (t t' : Tables) : Prop :=
  (∀ h, has_tx t h = true → has_tx t' h = true) ∧
  (∀ h, has_program t h = true → has_program t' h = true).

Lemma grows_refl t : grows t t.
Proof. by split. Qed.

Lemma insert_new_lookup {V} k (v : V) m h w :
  insert_new k v m !! h = Some w → m !! h = Some w ∨ h = k ∧ v = w ∧ m !! h = None.
Proof.
  unfold insert_new. destruct (m !! k) eqn:Hk; [by left|].
  intros [[<- <-]|[? ?]]%lookup_insert_Some; auto.
Qed.

Lemma insert_new_is_Some {V} k (v : V) m h :
  is_Some (insert_new k v m !! h) ↔ is_Some (m !! h) ∨ h = k.
Proof.
  unfold insert_new. destruct (m !! k) eqn:Hk.
  - split; [by left|]. intros [?| ->]; [done|]. by rewrite Hk.
  - rewrite lookup_insert_is_Some. split; [naive_solver|].
    destruct (decide (k = h)); naive_solver.
Qed.

Lemma has_tx_upsert e t h : has_tx (upsert_transaction e t) h = true ↔ has_tx t h = true ∨ h = row_hash e.
Proof.
  unfold has_tx, has_row. rewrite !bool_decide_eq_true. simpl. rewrite lookup_insert_is_Some.
  destruct (decide (row_hash e = h)); naive_solver.
Qed.

(** Tables that only learned of more transactions and programs. *)
Lemma wf_grow t t' :
  db_wf t → grows t t' →
  (∀ h r, t_transaction t' !! h = Some r → row_hash r = h) →
  t_deploy t' = t_deploy t → t_proof t' = t_proof t → t_proof_key t' = t_proof_key t →
  t_verification t' = t_verification t → t_txfile t' = t_txfile t → t_step t' = t_step t →
  t_input t' = t_input t → t_output t' = t_output t → (t_next_step t ≤ t_next_step t')%Z →
  (∀ h, is_Some (t_prr t' !! h) → is_Some (t_prr t !! h) ∨ has_program t' h = true) →
  db_wf t'.
Proof.
  intros [W1 W2 W3 W4 W5 W6 W7 W8 W9 W10 W11 W12] [Gt Gp] Hh E1 E2 E3 E4 E5 E6 E7 E8 Hn Hl.
  split; unfold has_step; rewrite ?E1, ?E2, ?E3, ?E4, ?E5, ?E6, ?E7, ?E8.
  - exact Hh.
  - intros h r Hr. destruct (W2 h r Hr) as (? & ? & ?). auto.
  - intros h r Hr. destruct (W3 h r Hr) as (? & ? & ?). auto.
  - intros h r Hr. specialize (W4 h r Hr). auto.
  - intros h r Hr. destruct (W5 h r Hr) as (? & ? & ?). auto.
  - intros e He. specialize (W6 e He). auto.
  - intros r Hr. destruct (W7 r Hr) as (? & ? & ?). split_and!; auto. lia.
  - exact W8.
  - intros r Hr. destruct (W9 r Hr) as [? ?]. auto.
  - intros h [?|?]%Hl; auto.
  - exact W11.
  - exact W12.
Qed.

Lemma wf_upsert e t : db_wf t → db_wf (upsert_transaction e t).
Proof.
  intros Ht. apply (wf_grow t); try done; [| |by left].
  - split; [|done]. intros h ?. apply has_tx_upsert. by left.
  - simpl. intros h r [[<- <-]|[_ Hr]]%lookup_insert_Some; [|by apply (wf_hash t)].
    destruct (t_transaction t !! row_hash e) eqn:He; simpl; [by apply (wf_hash t)|done].
Qed.

Lemma has_program_add p t h :
  has_program (add_program p t) h = true ↔ has_program t h = true ∨ h = prg_hash p.
Proof. unfold has_program, has_row. rewrite !bool_decide_eq_true. simpl. apply insert_new_is_Some. Qed.

Lemma wf_add_program p t : db_wf t → db_wf (add_program p t).
Proof.
  intros Ht. apply (wf_grow t); try done; [|apply (wf_hash t Ht)|].
  - split; [done|]. intros h ?. apply has_program_add. by left.
  - intros h. rewrite has_program_add. simpl. destruct (prg_limits p); [|by left].
    rewrite insert_new_is_Some. naive_solver.
Qed.

Lemma check_keeps I b : keeps I (check b).
Proof. destruct b; [apply keeps_ret|apply keeps_throw]. Qed.

(** The invariant inside [add_transaction], once the row of [tx] is there. *)
Definition wf_with (tx : Hash) (t : Tables) : Prop := db_wf t ∧ has_tx t tx = true.

Lemma insert_step_wf tx seq step :
  hoare (wf_with tx) (insert_step tx seq step)
    (λ id t, wf_with tx t ∧ has_step t id) (wf_with tx).
Proof.
  intros t [Ht Htx]. unfold insert_step, mbind, M_bind, get, check.
  destruct (list_find _ (t_step t)) as [[i r]|] eqn:Hf.
  - apply list_find_Some in Hf as (Hi & _ & _). apply list_elem_of_lookup_2 in Hi.
    simpl. split; [split; [|done]|by apply list_elem_of_fmap_2].
    apply (wf_grow t); try done; [apply (wf_hash t Ht)|simpl; lia|by left].
  - destruct (has_program t (ws_program step)) eqn:Hp; [|by split].
    apply list_find_None in Hf. simpl.
    assert (∀ id, has_step t id →
      id ∈ step_id <$> t_step t ++ [MkStepRow (t_next_step t) tx seq (ws_program step) (ws_args step)]) as Hold.
    { intros id Hid. rewrite fmap_app. apply elem_of_app. by left. }
    split; [split; [|done]|unfold has_step; simpl; rewrite fmap_app; set_solver].
    destruct Ht as [W1 W2 W3 W4 W5 W6 W7 W8 W9 W10 W11 W12].
    split; [exact W1|exact W2|exact W3|exact W4|exact W5|exact W6|..]; simpl.
    + intros r [Hr|Hr]%elem_of_app.
      * destruct (W7 r Hr) as (? & ? & ?). split_and!; [done..|lia].
      * apply list_elem_of_singleton in Hr as ->. simpl. split_and!; [done|done|lia].
    + intros r Hr. apply Hold. auto.
    + intros r Hr. destruct (W9 r Hr). split; [by apply Hold|done].
    + exact W10.
    + rewrite fmap_app. apply NoDup_app. split_and!; [done| |apply NoDup_singleton].
      intros id (r & -> & Hr)%list_elem_of_fmap Hid%list_elem_of_singleton. simpl in Hid.
      destruct (W7 r Hr) as (_ & _ & ?). lia.
    + rewrite fmap_app. apply NoDup_app. split_and!; [done| |apply NoDup_singleton].
      intros k (r & -> & Hr)%list_elem_of_fmap Hk%list_elem_of_singleton. simpl in Hk.
      eapply Forall_forall in Hf; [|exact Hr]. naive_solver.
Qed.

Lemma insert_input_wf tx id input :
  keeps (λ t, wf_with tx t ∧ has_step t id) (insert_input id input).
Proof.
  intros t [[Ht Htx] Hid]. unfold insert_input, mbind, M_bind, get.
  destruct input as [fn fu cs|src fn].
  - case_bool_decide; [split; [by split|done]|]. simpl. split; [split; [|done]|done].
    destruct Ht as [W1 W2 W3 W4 W5 W6 W7 W8 W9 W10 W11 W12].
    split; try assumption; simpl.
    intros r [Hr|Hr]%elem_of_app; [by apply W8|]. apply list_elem_of_singleton in Hr as ->. done.
  - case_bool_decide; [split; [by split|done]|]. unfold check.
    destruct (has_program t src) eqn:Hp; [|split; [by split|done]].
    simpl. split; [split; [|done]|done].
    destruct Ht as [W1 W2 W3 W4 W5 W6 W7 W8 W9 W10 W11 W12].
    split; try assumption; simpl.
    intros r [Hr|Hr]%elem_of_app; [by apply W9|]. apply list_elem_of_singleton in Hr as ->. done.
Qed.

Lemma insert_steps_wf tx seq steps : keeps (wf_with tx) (insert_steps tx seq steps).
Proof.
  revert seq. induction steps as [|step steps IH]; intros seq; cbn [insert_steps]; [apply keeps_ret|].
  eapply hoare_bind; [apply insert_step_wf|]. intros id.
  eapply (hoare_bind _ _ _ (λ _, wf_with tx)); [|intros []; apply IH].
  eapply hoare_conseq; [|intros t Ht; exact Ht| |].
  - apply keeps_for_eachM. apply insert_input_wf.
  - by intros _ t [? _].
  - by intros t [? _].
Qed.

Lemma wf_set_proofs tx p k v f t :
  wf_with tx t →
  (∀ h r, p !! h = Some r → t_proof t !! h = Some r ∨
     h = tx ∧ has_tx t (pr_parent r) = true ∧ has_program t (pr_program r) = true) →
  (∀ h r, k !! h = Some r → t_proof_key t !! h = Some r ∨ h = tx) →
  (∀ h r, v !! h = Some r → t_verification t !! h = Some r ∨
     h = tx ∧ has_tx t (pr_parent r) = true ∧ has_program t (pr_program r) = true) →
  (∀ e, e ∈ f → e ∈ t_txfile t ∨ fst e = tx) →
  wf_with tx (set_proofs p k v f t).
Proof.
  intros [[W1 W2 W3 W4 W5 W6 W7 W8 W9 W10 W11 W12] Htx] Hp Hk Hv Hf. split; [|done].
  split; [exact W1|exact W2| | | | |assumption..]; simpl.
  - intros h r [Hr|(-> & ? & ?)]%Hp; [exact (W3 h r Hr)|by split_and!].
  - intros h r [Hr| ->]%Hk; [exact (W4 h r Hr)|done].
  - intros h r [Hr|(-> & ? & ?)]%Hv; [exact (W5 h r Hr)|by split_and!].
  - intros e [He|He]%Hf; [exact (W6 e He)|]. change (has_tx t (fst e) = true). by rewrite He.
Qed.

Lemma txfile_rows_fst tx files e : e ∈ txfile_rows tx files → fst e = tx.
Proof. by intros (f & -> & _)%list_elem_of_fmap. Qed.

Lemma add_transaction_body_wf tx :
  hoare db_wf (add_transaction_body tx) (λ _, wf_with (hash tx)) (λ _, True).
Proof.
  unfold add_transaction_body.
  apply (hoare_modify_seq _ _ _ (wf_with (hash tx))).
  { intros t Ht. split; [by apply wf_upsert|]. apply has_tx_upsert. by right. }
  destruct (payload tx) as [| | | |name pv vf|wf|parent pv proof files|parent key
    |parent vf verif files|]; try (by apply hoare_ret).
  - intros t [Ht Htx]. unfold mbind, M_bind, modify. simpl. split; [|done].
    pose proof (wf_add_program (Program_of_metadata vf) _
      (wf_add_program (Program_of_metadata pv) _ Ht)) as [W1 W2 W3 W4 W5 W6 W7 W8 W9 W10 W11 W12].
    split; [exact W1| |assumption..]; simpl.
    intros h r [Hr|(-> & <- & _)]%insert_new_lookup; [exact (W2 h r Hr)|]. simpl.
    split_and!; [done| |]; apply has_program_add; [left; apply has_program_add; by right|by right].
  - by eapply hoare_conseq; [apply insert_steps_wf| | |].
  - intros t Ht. unfold mbind, M_bind, get, check.
    destruct (has_row _ _ || has_tx t parent && has_program t pv) eqn:Hc; [|done].
    apply (wf_set_proofs (hash tx)); try (by auto).
    + intros h r [?|(-> & <- & Hn)]%insert_new_lookup; [by left|]. right.
      unfold has_row in Hc. rewrite Hn, bool_decide_eq_false_2 in Hc by (intros []%is_Some_None).
      by apply andb_true_iff in Hc as [? ?].
    + intros e [?|?%txfile_rows_fst]%elem_of_app; auto.
  - intros t Ht. apply (wf_set_proofs (hash tx)); try (by auto).
    intros h r [?|(-> & <- & _)]%insert_new_lookup; auto.
  - intros t Ht. unfold mbind, M_bind, get, check.
    destruct (has_row _ _ || has_tx t parent && has_program t vf) eqn:Hc; [|done].
    apply (wf_set_proofs (hash tx)); try (by auto).
    + intros h r [?|(-> & <- & Hn)]%insert_new_lookup; [by left|]. right.
      unfold has_row in Hc. rewrite Hn, bool_decide_eq_false_2 in Hc by (intros []%is_Some_None).
      by apply andb_true_iff in Hc as [? ?].
    + intros e [?|?%txfile_rows_fst]%elem_of_app; auto.
Qed.

(** What survives a rollback only grows. *)
Definition not_rolled_back (t0 t : Tables) : Prop :=
  (∀ h, has_program t0 h = true → has_program t h = true) ∧ (t_next_step t0 ≤ t_next_step t)%Z ∧
  (∀ h, is_Some (t_prr t !! h) → is_Some (t_prr t0 !! h) ∨ has_program t h = true).

(** A property that every statement of [add_transaction] keeps. *)
Record sql_closed (I : Tables → Prop) : Prop := {
  closed_program p t : I t → I (add_program p t);
  closed_deploy m t : I t → I (set_deploy m t);
  closed_steps l n t : (t_next_step t ≤ n)%Z → I t → I (set_steps l n t);
  closed_inputs l t : I t → I (set_inputs l t);
  closed_outputs l t : I t → I (set_outputs l t);
  closed_proofs p k v f t : I t → I (set_proofs p k v f t)
}.

Lemma insert_steps_closed I tx seq steps :
  (∀ l n t, (t_next_step t ≤ n)%Z → I t → I (set_steps l n t)) →
  (∀ l t, I t → I (set_inputs l t)) → (∀ l t, I t → I (set_outputs l t)) →
  keeps I (insert_steps tx seq steps).
Proof.
  intros Hsteps Hin Hout. revert seq. induction steps as [|step steps IH]; intros seq; cbn [insert_steps];
    [apply keeps_ret|].
  apply keeps_bind; [|intros id; apply keeps_bind; [|intros _; apply IH]].
  - intros t Ht. unfold insert_step, mbind, M_bind, get, check.
    destruct (list_find _ _) as [[i r]|]; [by apply Hsteps; [lia|]|].
    destruct (has_program t (ws_program step)); [|done]. apply Hsteps; [lia|done].
  - apply keeps_for_eachM. intros [] t Ht; unfold insert_input, mbind, M_bind, get, check;
      (destruct (bool_decide _); [done|]); [by apply Hin|].
    destruct (has_program t source_program); [by apply Hout|done].
Qed.

Lemma add_transaction_body_closed I0 I tx :
  sql_closed I → (∀ t, I0 t → I (upsert_transaction (row_of_tx tx) t)) →
  hoare I0 (add_transaction_body tx) (λ _, I) I.
Proof.
  intros HI Hup. unfold add_transaction_body.
  eapply (hoare_bind _ _ _ (λ _, I)); [by apply hoare_modify|]. intros _.
  pose proof (closed_program I HI). pose proof (closed_deploy I HI).
  pose proof (closed_proofs I HI).
  destruct (payload tx); try apply keeps_ret; [|by apply insert_steps_closed; apply HI|..];
    repeat (first [apply keeps_bind; [by auto using check_keeps, keeps_get, keeps_modify|intros ?]
                  |apply keeps_modify; by auto]).
Qed.

Lemma add_transaction_body_grows t0 tx : keeps (not_rolled_back t0) (add_transaction_body tx).
Proof.
  apply add_transaction_body_closed; [|done].
  split; try done; [intros p t (Hp & Hn & Hl)|intros l n t Hle (Hp & Hn & Hl)];
    (split_and!; [|simpl; lia|]); try done.
  - intros h Hh. apply has_program_add. left. by apply Hp.
  - intros h. rewrite has_program_add. simpl. specialize (Hl h). destruct (prg_limits p); [|tauto].
    rewrite insert_new_is_Some. tauto.
Qed.

Lemma rollback_wf t0 t : db_wf t0 → not_rolled_back t0 t → db_wf (rollback t0 t).
Proof.
  intros Ht (Hp & Hn & Hl). apply (wf_grow t0); try done. exact (wf_hash t0 Ht).
Qed.

Lemma not_rolled_back_refl t : not_rolled_back t t.
Proof. split; [done|]. split; [lia|]. by left. Qed.

Lemma rollback_tx t0 t : t_transaction (rollback t0 t) = t_transaction t0.
Proof. done. Qed.

(** Storing a transaction adds its row and touches no other. *)
Lemma add_transaction_body_rows tx t :
  t_transaction (snd (add_transaction_body tx t)) = t_transaction (upsert_transaction (row_of_tx tx) t).
Proof.
  pose proof (add_transaction_body_closed (λ s, s = t)
    (λ s, t_transaction s = t_transaction (upsert_transaction (row_of_tx tx) t)) tx) as Hb.
  specialize (Hb ltac:(by split) ltac:(by intros ? ->) t eq_refl).
  by destruct (add_transaction_body tx t) as [[] s].
Qed.

Lemma add_transaction_rows tx t r t' :
  add_transaction tx t = (r, t') →
  (∀ h, has_tx t h = true → has_tx t' h = true) ∧ (r = Ok () → has_tx t' (hash tx) = true).
Proof.
  unfold add_transaction. pose proof (add_transaction_body_rows tx t) as Hr.
  destruct (add_transaction_body tx t) as [[[]|e|] s]; intros [= <- <-]; [|done..].
  assert (∀ h, has_tx s h = has_tx (upsert_transaction (row_of_tx tx) t) h) as Hs
    by (intros h; unfold has_tx; by rewrite <-Hr).
  split; [intros h Hh|intros _]; rewrite Hs; apply has_tx_upsert; auto.
Qed.

Lemma add_transaction_keeps_wf tx : keeps db_wf (add_transaction tx).
Proof.
  intros t Ht. unfold add_transaction. pose proof (add_transaction_body_wf tx t Ht) as Hb.
  assert (not_rolled_back t (snd (add_transaction_body tx t))) as Hg
    by (apply (keeps_snd _ _ _ (add_transaction_body_grows t tx)); apply not_rolled_back_refl).
  destruct (add_transaction_body tx t) as [[[]|e|] s]; [by destruct Hb|by apply rollback_wf..].
Qed.

Lemma add_transaction_acl tx t : t_acl (snd (add_transaction tx t)) = t_acl t.
Proof.
  pose proof (add_transaction_body_closed (λ s, s = t) (λ s, t_acl s = t_acl t) tx) as Hb.
  specialize (Hb ltac:(by split) ltac:(by intros ? ->) t eq_refl).
  unfold add_transaction. by destruct (add_transaction_body tx t) as [[[]|e|] s].
Qed.

(** Tables that differ in the whitelist, or in the flags of the rows. *)
Lemma wf_acl k t : db_wf t → db_wf (set_acl_keys k t).
Proof. intros Ht. apply (wf_grow t); try done; [apply (wf_hash t Ht)|by left]. Qed.

Lemma has_tx_executed h t h' : has_tx (snd (db_mark_tx_executed h t)) h' = has_tx t h'.
Proof.
  unfold db_mark_tx_executed, modify. simpl. destruct (t_transaction t !! h) as [r|] eqn:Hr; [|done].
  apply bool_decide_ext. simpl. rewrite lookup_insert_is_Some.
  destruct (decide (h = h')) as [->|]; [rewrite Hr|]; naive_solver.
Qed.

Lemma acl_executed h t : t_acl (snd (db_mark_tx_executed h t)) = t_acl t.
Proof. unfold db_mark_tx_executed, modify. simpl. by destruct (t_transaction t !! h). Qed.

Lemma wf_executed h t : db_wf t → db_wf (snd (db_mark_tx_executed h t)).
Proof.
  intros Ht. pose proof (has_tx_executed h t) as Hx.
  unfold db_mark_tx_executed, modify in *. simpl in *.
  destruct (t_transaction t !! h) as [r|] eqn:Hr; [|done].
  apply (wf_grow t); try done; [| |by left].
  - split; [|done]. intros h' ?. by rewrite Hx.
  - simpl. intros h' r' [[<- <-]|[_ Hr']]%lookup_insert_Some; simpl; by apply (wf_hash t Ht).
Qed.

(** C5: [add_transaction] keeps the integrity of the tables (the foreign
    keys of every row resolve, those of a step's files and of a program's limits
    included; the ids of the steps are distinct and below the next serial, so none is
    handed out twice) on success and on failure.  On success the
    transaction is stored.  On failure every table is what it was before, except that
    programs may have been added and serials drawn: [add_program] commits on a
    connection of its own. *)
Theorem add_transaction_integrity tx t r t' :
  db_wf t → add_transaction tx t = (r, t') →
  db_wf t' ∧
  (r = Ok () ∧ has_tx t' (hash tx) = true ∨
   r ≠ Ok () ∧ t' = set_steps (t_step t) (t_next_step t') (set_programs (t_program t') (t_prr t') t)).
Proof.
  intros Ht. unfold add_transaction. pose proof (add_transaction_body_wf tx t Ht) as Hb.
  assert (not_rolled_back t (snd (add_transaction_body tx t))) as Hg
    by (apply (keeps_snd _ _ _ (add_transaction_body_grows t tx)); apply not_rolled_back_refl).
  destruct (add_transaction_body tx t) as [[[]|e|] s]; simpl in Hg; intros [= <- <-].
  - destruct Hb. eauto.
  - split; [by apply rollback_wf|]. by right.
  - split; [by apply rollback_wf|]. by right.
Qed.

End integrity.

(** ** Storing and finding again *)

Section roundtrip.
Context `{Secp}.
Context (scan : ∀ A : Type, list A → list A).
(** A query returns the rows of its table in some order. *)
Context (scan_perm : ∀ A (l : list A), scan A l ≡ₚ l).

Lemma insert_new_fresh {V} k (v : V) m : m !! k = None → insert_new k v m !! k = Some v.
Proof. intros Hk. unfold insert_new. rewrite Hk. apply lookup_insert_eq. Qed.

Lemma insert_new_idem {V} k (v : V) m : insert_new k v (insert_new k v m) = insert_new k v m.
Proof.
  unfold insert_new at 2 3. destruct (m !! k) eqn:Hk; unfold insert_new; [by rewrite Hk|].
  by rewrite lookup_insert_eq.
Qed.

(** Nothing hangs on a transaction that is not stored. *)
Lemma fresh_rows t h :
  db_wf t → t_transaction t !! h = None →
  t_proof t !! h = None ∧ t_proof_key t !! h = None ∧ t_verification t !! h = None ∧
  t_deploy t !! h = None ∧ filter (λ f, fst f = h) (t_txfile t) = [] ∧ steps_of t h = [].
Proof.
  intros Ht Hh. assert (has_tx t h = false) as Hno.
  { unfold has_tx, has_row. rewrite Hh. apply bool_decide_eq_false_2. by intros []%is_Some_None. }
  assert (∀ V (m : gmap Hash V), (∀ r, m !! h = Some r → has_tx t h = true) → m !! h = None) as Hm.
  { intros V m Hr. destruct (m !! h) eqn:E; [|done]. specialize (Hr _ eq_refl). congruence. }
  split_and!; [apply Hm..| |].
  - intros r Hr. by apply (wf_proof t Ht h r).
  - intros r Hr. by apply (wf_key t Ht h r).
  - intros r Hr. by apply (wf_verification t Ht h r).
  - intros r Hr. by apply (wf_deploy t Ht h r).
  - destruct (filter _ _) as [|e l] eqn:E; [done|].
    assert (e ∈ filter (λ f, fst f = h) (t_txfile t)) as He by (rewrite E; by left).
    apply list_elem_of_filter in He as [Hf He]. apply (wf_txfile t Ht) in He. congruence.
  - unfold steps_of. destruct (filter _ _) as [|e l] eqn:E; [done|].
    assert (e ∈ filter (λ r, step_tx r = h) (t_step t)) as He by (rewrite E; by left).
    apply list_elem_of_filter in He as [Hf He]. apply (wf_step t Ht) in He as [? _]. congruence.
Qed.

Lemma files_back h files :
  TxFile_of_DbFile <$> (filter (λ f, fst f = h) (txfile_rows h files)).*2 = files.
Proof.
  induction files as [|[n u c []] files IH]; [done|]. unfold txfile_rows in *. rewrite fmap_cons.
  rewrite filter_cons_True by done. rewrite !fmap_cons. by rewrite IH.
Qed.

(** The payload a stored transaction is found with: the files of a result come
    back in some order, and the payloads without a table come back empty. *)
Inductive recovered : Payload.t → Payload.t → Prop :=
  | rec_proof parent prover proof files files' : files' ≡ₚ files →
      recovered (Payload.Proof parent prover proof files) (Payload.Proof parent prover proof files')
  | rec_verification parent verifier verification files files' : files' ≡ₚ files →
      recovered (Payload.Verification parent verifier verification files)
        (Payload.Verification parent verifier verification files')
  | rec_key parent key : recovered (Payload.ProofKey parent key) (Payload.ProofKey parent key)
  | rec_empty : recovered Payload.Empty Payload.Empty
  | rec_transfer to value : recovered (Payload.Transfer to value) Payload.Empty
  | rec_stake value : recovered (Payload.Stake value) Payload.Empty
  | rec_unstake value : recovered (Payload.Unstake value) Payload.Empty
  | rec_cancel parent : recovered (Payload.Cancel parent) Payload.Empty.

(** What [add_transaction] of a fresh transaction leaves in the transaction table. *)
Lemma find_stored t tx p :
  t_transaction t !! hash tx = Some (row_of_tx tx) →
  find_payload scan t (hash tx) (kind_of (payload tx)) = Ok p →
  db_find_transaction scan t (hash tx) = Ok (Some (set_payload tx p)).
Proof.
  intros Hrow Hp. unfold db_find_transaction. rewrite Hrow. simpl. rewrite Hp. simpl.
  by destruct tx as [? ? ? ? ? ? ? []].
Qed.

Lemma upsert_fresh tx t :
  t_transaction t !! hash tx = None →
  t_transaction (upsert_transaction (row_of_tx tx) t) !! hash tx = Some (row_of_tx tx).
Proof. intros Hn. simpl. rewrite Hn. apply lookup_insert_eq. Qed.

Lemma files_recovered h files l :
  filter (λ f, fst f = h) l = [] →
  TxFile_of_DbFile <$> scan _ (filter (λ f, fst f = h) (l ++ txfile_rows h files)).*2 ≡ₚ files.
Proof.
  intros Hl. rewrite filter_app, Hl. simpl. rewrite scan_perm. by rewrite files_back.
Qed.

(** A new transaction that is neither a deployment nor a run is found again with
    all its fields and, for proofs, proof keys and verifications, its payload (the
    files of a result up to order).  The payload of a transfer, stake, unstake or
    cancel is not stored: it is found with the empty payload. *)
Theorem stored_transaction_found tx t t' :
  db_wf t → t_transaction t !! hash tx = None →
  kind_of (payload tx) ≠ Kind.Deploy → kind_of (payload tx) ≠ Kind.Run →
  add_transaction tx t = (Ok (), t') →
  ∃ p, recovered (payload tx) p ∧
    db_find_transaction scan t' (hash tx) = Ok (Some (set_payload tx p)).
Proof.
  intros Ht Hn Hd Hr. unfold add_transaction.
  destruct (fresh_rows t (hash tx) Ht Hn) as (F1 & F2 & F3 & F4 & F5 & F6).
  assert (Hrow := upsert_fresh tx t Hn).
  destruct (add_transaction_body tx t) as [[[]|e|] s] eqn:Hb; intros [= <-].
  revert Hb. unfold add_transaction_body, mbind, M_bind, modify, get, check.
  destruct (payload tx) as [| | | |name pv vf|wf|parent pv proof files|parent key
    |parent vf verif files|] eqn:Hp; try done;
    try (intros [= <-]; exists Payload.Empty; split; [constructor|];
         apply find_stored; [exact Hrow|by rewrite Hp]).
  - destruct (_ || _); intros Heq; [injection Heq as <-|done].
    eexists. split; [apply rec_proof, files_recovered, F5|]. apply find_stored; [exact Hrow|].
    rewrite Hp. simpl. by rewrite insert_new_fresh.
  - intros [= <-]. eexists. split; [apply rec_key|]. apply find_stored; [exact Hrow|].
    rewrite Hp. simpl. by rewrite insert_new_fresh.
  - destruct (_ || _); intros Heq; [injection Heq as <-|done].
    eexists. split; [apply rec_verification, files_recovered, F5|].
    apply find_stored; [exact Hrow|]. rewrite Hp. simpl. by rewrite insert_new_fresh.
Qed.

(** A new proof is stored exactly when its prover is deployed and its parent is
    stored before it (or is the proof itself, whose row is written first): a result
    that arrives before the transaction it answers is refused. *)
Theorem proof_stored_iff tx t parent prover proof files :
  db_wf t → t_transaction t !! hash tx = None →
  payload tx = Payload.Proof parent prover proof files →
  fst (add_transaction tx t) = Ok () ↔
    (has_tx t parent = true ∨ parent = hash tx) ∧ has_program t prover = true.
Proof.
  intros Ht Hn Hp. destruct (fresh_rows t (hash tx) Ht Hn) as (F1 & _).
  unfold add_transaction, add_transaction_body, mbind, M_bind, modify, get, check.
  rewrite Hp. simpl. unfold has_row at 1. rewrite F1, bool_decide_eq_false_2 by (intros []%is_Some_None).
  simpl. rewrite <-(has_tx_upsert (row_of_tx tx)).
  change (has_program (upsert_transaction (row_of_tx tx) t) prover) with (has_program t prover).
  destruct (has_tx _ parent), (has_program t prover); simpl; naive_solver.
Qed.

(** Nothing identifies the file rows of a transaction, so storing a proof a second
    time succeeds and doubles its files: the node then finds a payload that is not
    the one its author signed. *)
Theorem readded_proof_duplicates_files tx t t1 parent prover proof files :
  db_wf t → t_transaction t !! hash tx = None →
  payload tx = Payload.Proof parent prover proof files →
  add_transaction tx t = (Ok (), t1) →
  ∃ t2, add_transaction tx t1 = (Ok (), t2) ∧
    db_find_transaction (λ _ l, l) t2 (hash tx) =
      Ok (Some (set_payload tx (Payload.Proof parent prover proof (files ++ files)))).
Proof.
  intros Ht Hn Hp. destruct (fresh_rows t (hash tx) Ht Hn) as (F1 & _ & _ & _ & F5 & _).
  assert (Hrow := upsert_fresh tx t Hn).
  unfold add_transaction, add_transaction_body, mbind, M_bind, modify, get, check. rewrite Hp.
  destruct (_ || _); intros Heq; [injection Heq as <-|done]. simpl.
  unfold has_row at 1. rewrite (insert_new_fresh (hash tx)) by done.
  rewrite bool_decide_eq_true_2 by (by eexists). simpl. eexists. split; [reflexivity|].
  unfold db_find_transaction. simpl. rewrite Hn, !lookup_insert_eq. simpl.
  rewrite Hp. simpl. rewrite insert_new_idem, insert_new_fresh by done. simpl.
  rewrite !filter_app, F5. simpl. rewrite !fmap_app, !files_back.
  by destruct tx as [? ? ? ? ? ? ? []].
Qed.
End roundtrip.

(** ** Storing and finding a workflow *)

Section workflow_roundtrip.
Context `{Secp}.

Fixpoint step_rows (tx : Hash) (seq id : Z) (steps : list WorkflowStep) : list StepRow :=
  match steps with
  | [] => []
  | s :: rest => MkStepRow id tx seq (ws_program s) (ws_args s) :: step_rows tx (seq + 1) (id + 1) rest
  end.

Definition input_row (id : Z) (d : ProgramData.t) : option InputRow :=
  match d with ProgramData.Input n u c => Some (MkInputRow id n u c) | _ => None end.
Definition output_row (id : Z) (d : ProgramData.t) : option OutputRow :=
  match d with ProgramData.Output p n => Some (MkOutputRow id n p) | _ => None end.

Fixpoint all_rows {R} (row : Z → ProgramData.t → option R) (id : Z) (steps : list WorkflowStep) : list R :=
  match steps with
  | [] => []
  | s :: rest => omap (row id) (ws_inputs s) ++ all_rows row (id + 1) rest
  end.

(** Within one step, the files of each sort have different names (the primary keys
    of the two tables). *)
Definition distinct_names (s : WorkflowStep) : Prop :=
  NoDup (in_file_name <$> omap (input_row 0) (ws_inputs s)) ∧
  NoDup (out_file_name <$> omap (output_row 0) (ws_inputs s)).

(** The step a workflow step comes back as: inputs first, then outputs. *)
Definition inputs_first (s : WorkflowStep) : WorkflowStep :=
  MkWorkflowStep (ws_program s) (ws_args s)
    (filter (λ d, is_Some (input_row 0 d)) (ws_inputs s) ++
     filter (λ d, is_Some (output_row 0 d)) (ws_inputs s)).

(** Adding the inputs of one step whose id is new. *)
Lemma insert_inputs_eq id inputs t u t' :
  NoDup (in_file_name <$> omap (input_row 0) inputs) →
  NoDup (out_file_name <$> omap (output_row 0) inputs) →
  (∀ r, r ∈ t_input t → in_step r = id → in_file_name r ∉ in_file_name <$> omap (input_row 0) inputs) →
  (∀ r, r ∈ t_output t → out_step r = id → out_file_name r ∉ out_file_name <$> omap (output_row 0) inputs) →
  for_eachM (insert_input id) inputs t = (Ok u, t') →
  t' = set_outputs (t_output t ++ omap (output_row id) inputs)
         (set_inputs (t_input t ++ omap (input_row id) inputs) t).
Proof.
  revert t. induction inputs as [|d inputs IH]; intros t N1 N2 F1 F2.
  { intros [= _ <-]. simpl. rewrite !app_nil_r. by destruct t. }
  cbn [for_eachM]. intros (a & s & Hd & Hrest)%M_bind_Ok. revert Hd.
  unfold insert_input, mbind, M_bind, get, check. destruct d as [n fu c|p n]; simpl in *.
  - apply NoDup_cons in N1 as [N1 N1'].
    rewrite bool_decide_eq_false_2.
    2:{ rewrite Exists_exists. intros (r & Hr & Hid & Hname). apply (F1 r Hr Hid). rewrite Hname. by left. }
    intros [= _ <-]. apply IH in Hrest as ->; [|exact N1'|exact N2|..].
    + simpl. by rewrite <-app_assoc.
    + simpl. intros r [Hr| ->%list_elem_of_singleton]%elem_of_app Hid; [|done].
      intros Hin. apply (F1 r Hr Hid). by right.
    + exact F2.
  - apply NoDup_cons in N2 as [N2 N2'].
    rewrite bool_decide_eq_false_2.
    2:{ rewrite Exists_exists. intros (r & Hr & Hid & Hname). apply (F2 r Hr Hid). rewrite Hname. by left. }
    destruct (has_program t p); [|done]. intros [= _ <-].
    apply IH in Hrest as ->; [|exact N1|exact N2'|..].
    + simpl. by rewrite <-app_assoc.
    + exact F1.
    + simpl. intros r [Hr| ->%list_elem_of_singleton]%elem_of_app Hid; [|done].
      intros Hin. apply (F2 r Hr Hid). by right.
Qed.

(** The tables after the steps of a new workflow. *)
Definition with_steps (tx : Hash) (seq : Z) (steps : list WorkflowStep) (t : Tables) : Tables :=
  set_outputs (t_output t ++ all_rows output_row (t_next_step t) steps)
    (set_inputs (t_input t ++ all_rows input_row (t_next_step t) steps)
       (set_steps (t_step t ++ step_rows tx seq (t_next_step t) steps)
          (t_next_step t + Z.of_nat (length steps)) t)).

Lemma omap_row_step {R} (row : Z → ProgramData.t → option R) (step : R → Z) id (l : list ProgramData.t) :
  (∀ i d r, row i d = Some r → step r = i) → ∀ r, r ∈ omap (row id) l → step r = id.
Proof. intros Hrow r (d & _ & Hd)%list_elem_of_omap. by eapply Hrow. Qed.

Lemma input_row_step i d r : input_row i d = Some r → in_step r = i.
Proof. destruct d; intros [= <-]; done. Qed.
Lemma output_row_step i d r : output_row i d = Some r → out_step r = i.
Proof. destruct d; intros [= <-]; done. Qed.

Lemma insert_steps_eq tx seq steps t u t' :
  Forall distinct_names steps →
  (∀ r, r ∈ t_step t → step_tx r = tx → (step_sequence r < seq)%Z) →
  (∀ r, r ∈ t_input t → (in_step r < t_next_step t)%Z) →
  (∀ r, r ∈ t_output t → (out_step r < t_next_step t)%Z) →
  insert_steps tx seq steps t = (Ok u, t') → t' = with_steps tx seq steps t.
Proof.
  intros Hd. revert seq t. induction Hd as [|s steps [N1 N2] Hd IH]; intros seq t Fs Fi Fo.
  { intros [= _ <-]. unfold with_steps. simpl. rewrite !app_nil_r, Z.add_0_r. by destruct t. }
  cbn [insert_steps]. intros (id & t1 & H1 & (a & t2 & H2 & H3)%M_bind_Ok)%M_bind_Ok.
  assert (id = t_next_step t ∧
    t1 = set_steps (t_step t ++ [MkStepRow id tx seq (ws_program s) (ws_args s)]) (id + 1) t)
    as [-> ->].
  { revert H1. unfold insert_step, mbind, M_bind, get, check.
    destruct (list_find _ _) as [[i r]|] eqn:Hf.
    - apply list_find_Some in Hf as (Hi & [Htx Hs] & _). apply list_elem_of_lookup_2 in Hi.
      specialize (Fs r Hi Htx). lia.
    - destruct (has_program t _); [|done]. by intros [= <- <-]. }
  apply insert_inputs_eq in H2 as ->; [|done|done|..].
  2:{ simpl. intros r Hr Hid. specialize (Fi r Hr). lia. }
  2:{ simpl. intros r Hr Hid. specialize (Fo r Hr). lia. }
  apply IH in H3 as ->.
  - unfold with_steps. simpl. rewrite <-!app_assoc. simpl.
    replace (t_next_step t + 1 + Z.of_nat (length steps))%Z
      with (t_next_step t + Z.of_nat (S (length steps)))%Z by lia. done.
  - simpl. intros r [Hr| ->%list_elem_of_singleton]%elem_of_app Htx; [|simpl; lia].
    specialize (Fs r Hr Htx). lia.
  - simpl. intros r [Hr|Hr]%elem_of_app; [specialize (Fi r Hr); lia|].
    apply (omap_row_step input_row in_step _ _ input_row_step) in Hr. lia.
  - simpl. intros r [Hr|Hr]%elem_of_app; [specialize (Fo r Hr); lia|].
    apply (omap_row_step output_row out_step _ _ output_row_step) in Hr. lia.
Qed.

(** ** Reading the rows back *)

Lemma all_rows_bound {R} (row : Z → ProgramData.t → option R) (step : R → Z) id steps :
  (∀ i d r, row i d = Some r → step r = i) → ∀ r, r ∈ all_rows row id steps → (id ≤ step r)%Z.
Proof.
  intros Hrow. revert id. induction steps as [|s steps IH]; intros id r; simpl.
  - by intros ?%elem_of_nil.
  - intros [Hr|Hr]%elem_of_app.
    + apply (omap_row_step row step _ _ Hrow) in Hr. lia.
    + apply IH in Hr. lia.
Qed.

(** The rows of the first step, among older rows and the rows of later steps. *)
Lemma rows_of_step {R} (row : Z → ProgramData.t → option R) (step : R → Z) id pre s steps :
  (∀ i d r, row i d = Some r → step r = i) → (∀ r, r ∈ pre → (step r < id)%Z) →
  filter (λ r, step r = id) (pre ++ all_rows row id (s :: steps)) = omap (row id) (ws_inputs s).
Proof.
  intros Hrow Hpre. simpl. rewrite !filter_app, (filter_none _ pre), (filter_none _ (all_rows _ _ _)).
  - rewrite app_nil_r. simpl. apply filter_all. intros r. by apply omap_row_step.
  - intros r Hr. apply (all_rows_bound row step) in Hr; [lia|done].
  - intros r Hr. specialize (Hpre r Hr). lia.
Qed.

Lemma inputs_back id (l : list ProgramData.t) :
  ((λ e, ProgramData.Input (in_file_name e) (in_file_url e) (in_checksum e)) <$> omap (input_row id) l)
  = filter (λ d, is_Some (input_row 0 d)) l.
Proof.
  induction l as [|[] l IH]; [done|..]; simpl.
  - rewrite filter_cons_True by (by eexists). by f_equal.
  - by rewrite filter_cons_False by (by intros []%is_Some_None).
Qed.
Lemma outputs_back id (l : list ProgramData.t) :
  ((λ e, ProgramData.Output (out_source_program e) (out_file_name e)) <$> omap (output_row id) l)
  = filter (λ d, is_Some (output_row 0 d)) l.
Proof.
  induction l as [|[] l IH]; [done|..]; simpl.
  - by rewrite filter_cons_False by (by intros []%is_Some_None).
  - rewrite filter_cons_True by (by eexists). by f_equal.
Qed.

Lemma steps_back tx seq id pre_in pre_out steps :
  (∀ r, r ∈ pre_in → (in_step r < id)%Z) → (∀ r, r ∈ pre_out → (out_step r < id)%Z) →
  step_of_rows (pre_in ++ all_rows input_row id steps) (pre_out ++ all_rows output_row id steps)
    <$> step_rows tx seq id steps = inputs_first <$> steps.
Proof.
  revert seq id pre_in pre_out. induction steps as [|s steps IH]; intros seq id pi po Hi Ho; [done|].
  cbn [step_rows]. rewrite !fmap_cons. f_equal.
  - unfold step_of_rows, inputs_first. cbn [step_id step_program step_args].
    rewrite (rows_of_step input_row in_step), (rows_of_step output_row out_step)
      by eauto using input_row_step, output_row_step.
    by rewrite inputs_back, outputs_back.
  - cbn [all_rows]. rewrite !app_assoc. apply IH.
    + intros r [Hr|Hr]%elem_of_app; [specialize (Hi r Hr); lia|].
      apply (omap_row_step input_row in_step _ _ input_row_step) in Hr. lia.
    + intros r [Hr|Hr]%elem_of_app; [specialize (Ho r Hr); lia|].
      apply (omap_row_step output_row out_step _ _ output_row_step) in Hr. lia.
Qed.

Lemma step_rows_tx tx seq id steps : filter (λ r, step_tx r = tx) (step_rows tx seq id steps) = step_rows tx seq id steps.
Proof.
  revert seq id. induction steps as [|s steps IH]; intros seq id; [done|]. cbn [step_rows].
  rewrite filter_cons_True by done. by rewrite IH.
Qed.

(** A new transaction has no step, input or output rows yet. *)
Lemma fresh_steps t h :
  db_wf t → t_transaction t !! h = None →
  ∀ r, r ∈ t_step t → step_tx r = h → (step_sequence r < 1)%Z.
Proof.
  intros Ht Hn r Hr Htx. destruct (fresh_rows t h Ht Hn) as (_ & _ & _ & _ & _ & Fs).
  assert (r ∈ steps_of t h) as Hin by (by apply list_elem_of_filter).
  rewrite Fs in Hin. by apply elem_of_nil in Hin.
Qed.

Lemma insert_run_eq t tx steps u s :
  db_wf t → t_transaction t !! hash tx = None → Forall distinct_names steps →
  insert_steps (hash tx) 1 steps (upsert_transaction (row_of_tx tx) t) = (Ok u, s) →
  s = with_steps (hash tx) 1 steps (upsert_transaction (row_of_tx tx) t).
Proof.
  intros Ht Hn Hd Hb. apply insert_steps_eq in Hb as ->; [done|done|..|by intros r ?; apply (wf_input_bound t)|].
  - simpl. by apply fresh_steps.
  - simpl. by intros r ?; apply (wf_output_bound t).
Qed.

(** The payload read from the rows of a new workflow. *)
Lemma run_payload_found t tx steps :
  db_wf t → t_transaction t !! hash tx = None →
  find_payload (λ _ l, l) (with_steps (hash tx) 1 steps (upsert_transaction (row_of_tx tx) t))
    (hash tx) Kind.Run = Ok (Payload.Run (MkWorkflow (inputs_first <$> steps))).
Proof.
  intros Ht Hn. destruct (fresh_rows t (hash tx) Ht Hn) as (_ & _ & _ & _ & _ & Fs).
  cbn [find_payload]. do 3 f_equal. unfold steps_of in *. simpl. rewrite !filter_app, Fs, step_rows_tx. simpl.
  rewrite <-(steps_back (hash tx) 1 (t_next_step t) (t_input t) (t_output t));
    [|by intros r ?; apply (wf_input_bound t)|by intros r ?; apply (wf_output_bound t)].
  apply Forall_fmap_ext_1, Forall_forall. intros r Hr. unfold step_of_rows.
  rewrite <-!filter_app. f_equal. f_equal; f_equal; apply list_filter_filter_l;
    intros e ->; by apply list_elem_of_fmap_2.
Qed.

(** A new run is found again with its steps in order, each with its program and
    arguments, and its input files before its references to earlier outputs,
    provided the files of a step have different names and queries without
    [ORDER BY] return rows in insertion order. *)
Theorem stored_run_found tx t t' workflow :
  db_wf t → t_transaction t !! hash tx = None →
  payload tx = Payload.Run workflow → Forall distinct_names (wf_steps workflow) →
  add_transaction tx t = (Ok (), t') →
  db_find_transaction (λ _ l, l) t' (hash tx) =
    Ok (Some (set_payload tx (Payload.Run (MkWorkflow (inputs_first <$> wf_steps workflow))))).
Proof.
  intros Ht Hn Hp Hd. unfold add_transaction.
  destruct (add_transaction_body tx t) as [[[]|e|] s] eqn:Hb; intros [= <-].
  revert Hb. unfold add_transaction_body. rewrite Hp. intros Hb. apply insert_run_eq in Hb as ->; [|done..].
  apply find_stored; [exact (upsert_fresh tx t Hn)|]. rewrite Hp. by apply run_payload_found.
Qed.
End workflow_roundtrip.

(** ** Programs and the access list *)

Section programs.
Context `{Secp}.

(** The first deployment of a program decides its name and its image: adding a
    program whose hash is already stored changes neither.  Resource limits are kept
    in a table of their own, so a later deployment can still give limits to a
    program that was deployed without, and a limit past [i64::MAX] is lost. *)
Theorem add_program_spec p t :
  get_program (prg_hash p) (add_program p t) =
    Ok (let q := default p (t_program t !! prg_hash p) in
        MkProgram (prg_hash q) (prg_name q) (prg_image_file_name q) (prg_image_file_url q)
          (prg_image_file_checksum q)
          (match t_prr t !! prg_hash p with
           | Some r => ResourceRequest_of_row r
           | None => r ← prg_limits p;
                     ResourceRequest_of_row (as_i64 (rr_mem r), as_i64 (rr_cpus r), as_i64 (rr_gpus r))
           end)) ∧
  (∀ h, h ≠ prg_hash p → get_program h (add_program p t) = get_program h t).
Proof.
  unfold get_program, add_program. split.
  - simpl. unfold insert_new. destruct (t_program t !! prg_hash p) as [q|] eqn:Hq.
    + rewrite Hq. simpl. do 2 f_equal. destruct (prg_limits p), (t_prr t !! prg_hash p) eqn:Hr;
        rewrite ?Hr; simpl; rewrite ?lookup_insert_eq; done.
    + rewrite lookup_insert_eq. simpl. do 2 f_equal.
      destruct (prg_limits p), (t_prr t !! prg_hash p) eqn:Hr;
        rewrite ?Hr; simpl; rewrite ?lookup_insert_eq; done.
  - intros h Hh. simpl.
    assert (∀ V (v : V) m, insert_new (prg_hash p) v m !! h = m !! h) as Hm.
    { intros V v m. unfold insert_new. destruct (m !! prg_hash p); [done|]. by rewrite lookup_insert_ne. }
    rewrite Hm. destruct (prg_limits p); by rewrite ?Hm.
Qed.

Context (scan : ∀ A : Type, list A → list A).
Context (scan_perm : ∀ A (l : list A), scan A l ≡ₚ l).

(** The database discharges the interface the ACL refresh is proved against. *)
Lemma database_acl_laws : AclLaws (database_acl scan) t_acl.
Proof.
  split.
  - intros s l s' [= <- <-]. split; [done|]. rewrite scan_perm. apply list_to_set_elements_L.
  - by intros k s u s' [= <- <-].
  - by intros k s u s' [= <- <-].
  - by intros s r s' [= <- <-].
Qed.
End programs.

(** ** Witnesses *)

Section database_witnesses.
#[local] Existing Instance secp_toy.

Definition db_tx (h : u8) (p : Payload.t) : Transaction Validated :=
  MkTransaction (toy_key "k") (fill h) p 7 Signature_default false false MkValidated.
Definition db_metadata (h : u8) : ProgramMetadata := MkProgramMetadata "p" (fill h) "i" "u" "c" None.
Definition db_deploy : Transaction Validated :=
  db_tx "d" (Payload.Deploy "d" (db_metadata "a") (db_metadata "b")).
Definition db_run : Transaction Validated :=
  db_tx "r" (Payload.Run (MkWorkflow
    [MkWorkflowStep (fill "a") ["x"] [ProgramData.Input "f" "u" "c"];
     MkWorkflowStep (fill "b") [] [ProgramData.Output (fill "a") "o"; ProgramData.Input "f" "u" "c"]])).
Definition db_file : TxFile Output := MkTxFile "n" "u" (fill "c") MkOutput.
Definition db_proof : Transaction Validated :=
  db_tx "p" (Payload.Proof (fill "r") (fill "a") [] [db_file]).

Definition db_deployed : Tables := snd (add_transaction db_deploy Tables_new).
Definition db_with_run : Tables := snd (add_transaction db_run db_deployed).
Definition db_with_proof : Tables := snd (add_transaction db_proof db_with_run).

Lemma db_deployed_Ok : add_transaction db_deploy Tables_new = (Ok (), db_deployed).
Proof. unfold db_deployed. apply run_snd. by_evaluation. Qed.
Lemma db_with_run_Ok : add_transaction db_run db_deployed = (Ok (), db_with_run).
Proof. unfold db_with_run. apply run_snd. by_evaluation. Qed.
Lemma db_with_proof_Ok : add_transaction db_proof db_with_run = (Ok (), db_with_proof).
Proof. unfold db_with_proof. apply run_snd. by_evaluation. Qed.

Lemma add_transaction_wf tx t t' : db_wf t → add_transaction tx t = (Ok (), t') → db_wf t'.
Proof.
  intros Ht. unfold add_transaction. pose proof (add_transaction_body_wf tx t Ht) as Hb.
  destruct (add_transaction_body tx t) as [[[]|e|] s]; intros [= <-]. apply Hb.
Qed.
Lemma db_deployed_wf : db_wf db_deployed.
Proof. exact (add_transaction_wf _ _ _ Tables_new_wf db_deployed_Ok). Qed.
Lemma db_with_run_wf : db_wf db_with_run.
Proof. exact (add_transaction_wf _ _ _ db_deployed_wf db_with_run_Ok). Qed.

Example add_transaction_integrity_witness :
  db_wf db_with_run ∧
  (@Ok string () () = Ok () ∧ has_tx db_with_run (fill "r") = true ∨
   @Ok string () () ≠ Ok () ∧ db_with_run = set_steps (t_step db_deployed)
     (t_next_step db_with_run)
     (set_programs (t_program db_with_run) (t_prr db_with_run) db_deployed)).
Proof.
  exact (add_transaction_integrity db_run db_deployed (Ok ()) db_with_run
    db_deployed_wf db_with_run_Ok).
Defined.

Lemma run_hash_fresh : t_transaction db_deployed !! fill "r" = None.
Proof. by_evaluation. Qed.
Lemma proof_hash_fresh : t_transaction db_with_run !! fill "p" = None.
Proof. by_evaluation. Qed.

Example stored_transaction_found_witness :
  ∃ p, recovered (payload db_proof) p ∧
    db_find_transaction (λ _ l, rev l) db_with_proof (fill "p") = Ok (Some (set_payload db_proof p)).
Proof.
  refine (stored_transaction_found (λ _ l, rev l)
    (λ A l, Permutation_sym (Permutation_rev l)) db_proof db_with_run db_with_proof
    db_with_run_wf proof_hash_fresh _ _ db_with_proof_Ok); discriminate.
Defined.

Example proof_stored_iff_witness :
  fst (add_transaction db_proof db_with_run) = Ok () ↔
    (has_tx db_with_run (fill "r") = true ∨ fill "r" = fill "p") ∧
    has_program db_with_run (fill "a") = true.
Proof.
  exact (proof_stored_iff db_proof db_with_run (fill "r") (fill "a") [] [db_file]
    db_with_run_wf proof_hash_fresh eq_refl).
Defined.

Example readded_proof_duplicates_files_witness :
  ∃ t2, add_transaction db_proof db_with_proof = (Ok (), t2) ∧
    db_find_transaction (λ _ l, l) t2 (fill "p") =
      Ok (Some (set_payload db_proof
        (Payload.Proof (fill "r") (fill "a") [] ([db_file] ++ [db_file])))).
Proof.
  exact (readded_proof_duplicates_files db_proof db_with_run db_with_proof
    (fill "r") (fill "a") [] [db_file] db_with_run_wf proof_hash_fresh eq_refl db_with_proof_Ok).
Defined.

Example stored_run_found_witness :
  db_find_transaction (λ _ l, l) db_with_run (fill "r") =
    Ok (Some (set_payload db_run (Payload.Run (MkWorkflow
      [MkWorkflowStep (fill "a") ["x"] [ProgramData.Input "f" "u" "c"];
       MkWorkflowStep (fill "b") [] [ProgramData.Input "f" "u" "c"; ProgramData.Output (fill "a") "o"]])))).
Proof.
  refine (stored_run_found db_run db_deployed db_with_run _
    db_deployed_wf run_hash_fresh eq_refl _ db_with_run_Ok).
  repeat constructor; set_solver.
Defined.
End database_witnesses.
