(* ===== verification/Progress.v ===== *)
(** * The event loop gets its work done ([mempool/txvalidation/mod.rs])

    What [Mempool.v] says of every run, completed by progress: when nothing new is sent,
    the loop handles all it has in a bounded number of steps, in whatever order, and
    then every request is answered.  This needs a storage that does not panic, which is
    an interface the database implements, and verification tasks that do not panic: one
    that does stalls the loop until the next message. *)

From S2P Require Import Prelude Types Models Files Transaction Event Mempool Workflow Resources Acl Database.

(** ** Operations that return *)

Definition calm {S E A} (m : M S E A) : Prop := ∀ s, fst (m s) ≠ Panic.

Section calm.
Context {S E : Type}.
Lemma calm_ret {A} (a : A) : calm (S:=S) (E:=E) (mret a).
Proof. by intros s. Qed.
Lemma calm_bind {A B} (m : M S E A) (f : A → M S E B) : calm m → (∀ a, calm (f a)) → calm (m ≫= f).
Proof.
  intros Hm Hf s. specialize (Hm s). unfold mbind, M_bind.
  destruct (m s) as [[a|e|] s']; [apply Hf|done..].
Qed.
Lemma calm_modify f : calm (S:=S) (E:=E) (modify f).
Proof. by intros s. Qed.
Lemma calm_get : calm (S:=S) (E:=E) get.
Proof. by intros s. Qed.
Lemma calm_throw {A} e : calm (S:=S) (E:=E) (A:=A) (throw e).
Proof. by intros s. Qed.
Lemma calm_lift {A} (r : result E A) : r ≠ Panic → calm (S:=S) (lift r).
Proof. by intros Hr s. Qed.
Lemma calm_for_eachM {A} (f : A → M S E ()) l : (∀ x, calm (f x)) → calm (for_eachM f l).
Proof. intros Hf. induction l; cbn [for_eachM]; auto using calm_ret, calm_bind. Qed.
Lemma calm_flat_mapM {A B} (f : A → M S E (list B)) l : (∀ x, calm (f x)) → calm (flat_mapM f l).
Proof. intros Hf. induction l; cbn [flat_mapM]; auto 6 using calm_ret, calm_bind. Qed.
End calm.

#[export] Hint Resolve calm_ret calm_bind calm_modify calm_get calm_throw calm_for_eachM calm_flat_mapM : gevulot.

(** ** A storage that does not panic *)

Class CalmStorage `{Secp} {S} (st : MempoolStorage S) : Prop := {
  calm_set tx : calm (storage_set st tx);
  calm_tx s h : get_tx (storage_view st s) h ≠ Panic;
  calm_program s h : contains_program (storage_view st s) h ≠ Panic
}.

Section database.
Context `{Secp}.
Context (scan : ∀ A : Type, list A → list A).

Lemma calm_check b : calm (check b).
Proof. destruct b; [apply calm_ret|apply calm_throw]. Qed.
Hint Resolve calm_check : core.

Lemma calm_insert_steps tx seq steps : calm (insert_steps tx seq steps).
Proof.
  revert seq. induction steps as [|step steps IH]; intros seq; cbn [insert_steps]; auto with gevulot.
  apply calm_bind; [|intros id; apply calm_bind; [apply calm_for_eachM; intros input|intros _; apply IH]].
  - apply calm_bind; [apply calm_get|intros t]. destruct (list_find _ _) as [[i r]|]; auto 6 with gevulot.
  - apply calm_bind; [apply calm_get|intros t].
    destruct input; (destruct (bool_decide _); [apply calm_ret|auto with gevulot]).
Qed.

Lemma calm_add_transaction tx : calm (add_transaction tx).
Proof.
  intros t. unfold add_transaction.
  assert (calm (add_transaction_body tx)) as Hb.
  { apply calm_bind; [apply calm_modify|intros _].
    destruct (payload tx); auto 8 using calm_insert_steps with gevulot. }
  specialize (Hb t). by destruct (add_transaction_body tx t) as [[[]|e|] t'].
Qed.

Lemma get_program_calm h t : get_program h t ≠ Panic.
Proof. unfold get_program. by destruct (t_program t !! h). Qed.

Lemma find_transaction_calm t h : db_find_transaction scan t h ≠ Panic.
Proof.
  unfold db_find_transaction, find_payload. destruct (t_transaction t !! h) as [r|]; [|done].
  destruct (row_kind r); simpl; try done; [|by case_match..].
  destruct (t_deploy t !! h) as [d|]; [|done]. simpl.
  pose proof (get_program_calm (dep_prover d) t). pose proof (get_program_calm (dep_verifier d) t).
  by destruct (get_program (dep_prover d) t); simpl; try done; destruct (get_program (dep_verifier d) t).
Qed.

#[export] Instance database_calm : CalmStorage (database_storage scan).
Proof.
  split; simpl; [apply calm_add_transaction|apply find_transaction_calm|].
  intros t h. unfold db_find_program. pose proof (get_program_calm h t). by destruct (get_program h t).
Qed.
End database.

(** ** Every step is possible *)

Section progress.
Context `{Hex, Secp, Sha3, NumBigint, Bincode, Lru, UrlParse}.
Context {S : Type} (st : MempoolStorage S) `{!CalmStorage st} (acl : AclWhitelist) (s0 : S).

Lemma calm_wait_if_not_cached {Kind} now ev key (contains : Hash → result string bool) :
  (∀ h, contains h ≠ Panic) → calm (wait_if_not_cached (Kind:=Kind) now ev key contains).
Proof.
  intros Hc. unfold wait_if_not_cached. destruct key as [key|]; [|apply calm_ret].
  apply calm_bind; [apply calm_get|intros cache]. apply calm_bind.
  - destruct (is_tx_cached cache key); [apply calm_ret|]. apply calm_lift.
    specialize (Hc key). by destruct (contains key).
  - intros []; auto with gevulot.
Qed.

Lemma calm_wait_for_programs now ev ps s : calm (wait_for_programs now ev ps (storage_view st s)).
Proof.
  revert ev. induction ps as [|p ps IH]; intros ev; cbn [wait_for_programs]; [apply calm_ret|].
  apply calm_bind; [apply calm_wait_if_not_cached, calm_program|intros []; auto with gevulot].
Qed.

Lemma calm_remove_children {Kind} h : calm (remove_waiting_children_txs (Kind:=Kind) h).
Proof. intros c. unfold remove_waiting_children_txs. by destruct (waiting_tx c !! h) as [[txs ts]|]. Qed.

Lemma calm_manage_program_dep now ev s : calm (manage_program_dep now ev (storage_view st s)).
Proof.
  apply calm_bind; [apply calm_wait_for_programs|]. intros [tx|]; [|apply calm_ret].
  apply calm_bind; [|intros ?; apply calm_ret]. apply calm_flat_mapM. intros p.
  apply calm_bind; [apply calm_modify|intros _; apply calm_remove_children].
Qed.

Lemma calm_on_program {A} (m : M (TxCache Program) EventProcessError.t A) : calm m → calm (on_program m).
Proof. intros Hm s. specialize (Hm (programid_cache s)). unfold on_program. by destruct (m _) as [[] ?]. Qed.
Lemma calm_on_parent {A} (m : M (TxCache (Transaction Validated)) EventProcessError.t A) :
  calm m → calm (on_parent m).
Proof. intros Hm s. specialize (Hm (parent_cache s)). unfold on_parent. by destruct (m _) as [[] ?]. Qed.

Lemma calm_validate_tx_dep now ev s : calm (validate_tx_dep now ev (storage_view st s)).
Proof.
  apply calm_bind; [apply calm_on_program, calm_manage_program_dep|intros txs].
  apply calm_bind; [|intros ?; apply calm_ret]. apply calm_flat_mapM. intros tx.
  unfold manage_parent_dep. apply calm_bind.
  { apply calm_on_parent, calm_wait_if_not_cached. intros h. unfold query_db_for_tx.
    pose proof (calm_tx s h). by destruct (get_tx _ h). }
  intros new_tx. apply calm_bind.
  { destruct new_tx; [|apply calm_ret].
    apply calm_bind; [apply calm_on_parent, calm_remove_children|intros ?; apply calm_ret]. }
  intros tmp. apply calm_bind.
  { apply calm_flat_mapM. intros t. destruct (is_run_payload _); [|apply calm_ret].
    apply calm_on_program, calm_manage_program_dep. }
  intros new. apply calm_bind; [|intros _; apply calm_ret]. apply calm_for_eachM. intros t.
  apply calm_on_parent, calm_modify.
Qed.

Lemma save_txs_returns l r m : ∃ r' m', save_txs st l r m = (Ok r', m').
Proof.
  revert r m. induction l as [|tx l IH]; intros r m; cbn [save_txs]; [by eexists _, _|].
  unfold save_tx, send_new_tx, add. pose proof (calm_set (into_validated (ev_tx tx)) (storage m)) as Hs.
  destruct (storage_set _ _ _) as [[[]|e|] s]; [apply IH..|done].
Qed.

(** A finished future can always be handled, unless the branch is disabled. *)
Lemma finished_enabled now i el res cb :
  el_stalled el = false → el_futures el !! i = Some (Done res, cb) → is_Some (on_finished st now i el).
Proof.
  intros Hst Hi. unfold on_finished. rewrite Hst, Hi. destruct res as [w|e|]; [|by eexists..].
  pose proof (calm_validate_tx_dep now w (storage (el_mempool el)) (el_deps el)) as Hc.
  destruct (validate_tx_dep _ _ _ _) as [[outs|e|] deps]; [|by eexists|done].
  destruct (save_txs_returns outs (Ok ()) (el_mempool el)) as (r & m & ->). by eexists.
Qed.

(** ** Steps of the loop *)

(** One turn of the loop or the end of a task, with whatever downloads and clock. *)
Inductive loop_step (el el' : EventLoop S) : Prop :=
  | step_receive : on_receive el = Some el' → loop_step el el'
  | step_task download p2p_open i : on_task acl download p2p_open i el = Some el' → loop_step el el'
  | step_finished now i : on_finished st now i el = Some el' → loop_step el el'.

(** [n] steps of the loop, each from a state with [Q]; in between the scheduler may take
    from the mempool. *)
Inductive loop_steps (Q : EventLoop S → Prop) : nat → list (Transaction Validated) → EventLoop S →
    list (Transaction Validated) → EventLoop S → Prop :=
  | steps_refl taken el : loop_steps Q 0 taken el taken el
  | steps_loop n taken el el1 taken' el' :
      Q el → loop_step el el1 → loop_steps Q n taken el1 taken' el' →
      loop_steps Q (Datatypes.S n) taken el taken' el'
  | steps_next n taken el tx m taken' el' :
      next (el_mempool el) = (Some tx, m) →
      loop_steps Q n (taken ++ [tx])
        (MkEventLoop (el_channel el) (el_futures el) (el_deps el) (el_p2p el) m (el_replies el)
           (el_stalled el)) taken' el' →
      loop_steps Q n taken el taken' el'.

Definition anyhow (el : EventLoop S) : Prop := True.
(** No verification task in hand has panicked. *)
Definition no_panicked (el : EventLoop S) : Prop := ∀ cb, (Done Panic, cb) ∉ el_futures el.
(** Nothing can happen before the next message. *)
Definition quiet (el : EventLoop S) : Prop := ∀ el', ¬ loop_step el el'.

(** The work left: a message is received, verified and handled, a task verified and
    handled. *)
Definition fut_weight (f : Fut * option CallbackId) : nat :=
  match fst f with Running _ => 2 | Done _ => 1 end.
Definition weight (el : EventLoop S) : nat :=
  3 * length (el_channel el) + sum_list_with fut_weight (el_futures el).

Lemma sum_list_insert {A} (f : A → nat) (l : list A) i x y :
  l !! i = Some x → sum_list_with f (<[i := y]> l) + f x = sum_list_with f l + f y.
Proof.
  revert i. induction l as [|z l IH]; intros [|i] Hi; simplify_eq/=; [lia|]. specialize (IH i Hi). lia.
Qed.
Lemma sum_list_delete {A} (f : A → nat) (l : list A) i x :
  l !! i = Some x → sum_list_with f (delete i l) + f x = sum_list_with f l.
Proof.
  revert i. induction l as [|z l IH]; intros [|i] Hi; simplify_eq/=; [lia|]. specialize (IH i Hi). lia.
Qed.

Lemma step_weight el el' : loop_step el el' → weight el = Datatypes.S (weight el').
Proof.
  unfold weight. intros [Hr|download op i Hr|now i Hr].
  - unfold on_receive in Hr. destruct (el_channel el) as [|[tx cb] rest]; [done|]. injection Hr as <-.
    simpl. rewrite sum_list_with_app. simpl. lia.
  - unfold on_task in Hr. destruct (el_futures el !! i) as [[[tx|] cb]|] eqn:Hi; [|done..].
    destruct (process_received _ _ _ _ _) as [res p2p]. injection Hr as <-. simpl.
    pose proof (sum_list_insert fut_weight (el_futures el) i _ (Done res, cb) Hi) as Hs.
    unfold fut_weight in Hs at 2 4. simpl in Hs. lia.
  - assert (∃ res cb, el_futures el !! i = Some (Done res, cb) ∧ el_channel el' = el_channel el ∧
      el_futures el' = delete i (el_futures el)) as (res & cb & Hi & -> & ->).
    { revert Hr. unfold on_finished. destruct (el_stalled el); [done|].
      destruct (el_futures el !! i) as [[[tx|res] cb]|] eqn:Hi; [done| |done].
      intros Hr. exists res, cb. split; [done|]. revert Hr.
      destruct res as [w|e|]; [|by intros [= <-]..].
      destruct (validate_tx_dep _ _ _ _) as [[outs|e|] deps]; [|by intros [= <-]|done].
      destruct (save_txs _ _ _ _) as [[r|e|] m]; [by intros [= <-]|done..]. }
    pose proof (sum_list_delete fut_weight (el_futures el) i _ Hi) as Hs.
    unfold fut_weight in Hs at 2. simpl in Hs. lia.
Qed.

Lemma steps_weight Q n taken el taken' el' :
  loop_steps Q n taken el taken' el' → weight el = n + weight el'.
Proof.
  induction 1 as [|n taken el el1 taken' el' _ Hs _ IH|n taken el tx m taken' el' Hn _ IH]; [done| |done].
  apply step_weight in Hs. lia.
Qed.

Lemma steps_run Q inputs n taken el taken' el' :
  loop_steps Q n taken el taken' el' → run st acl s0 inputs taken el → run st acl s0 inputs taken' el'.
Proof.
  induction 1 as [|n taken el el1 taken' el' _ Hs _ IH|n taken el tx m taken' el' Hn _ IH]; [done| |].
  - intros Hr. apply IH. destruct Hs; [by eapply run_receive|by eapply run_task|by eapply run_finished].
  - intros Hr. apply IH. by eapply run_next.
Qed.

(** Only the handling of a panicked task stalls the loop. *)
Lemma step_not_stalled el el' :
  no_panicked el → el_stalled el = false → loop_step el el' → el_stalled el' = false.
Proof.
  intros Hp Hst [Hr|download op i Hr|now i Hr].
  - unfold on_receive in Hr. destruct (el_channel el) as [|[tx cb] rest]; [done|]. by injection Hr as <-.
  - unfold on_task in Hr. destruct (el_futures el !! i) as [[[tx|] cb]|]; [|done..].
    destruct (process_received _ _ _ _ _) as [res p2p]. by injection Hr as <-.
  - revert Hr. unfold on_finished. rewrite Hst.
    destruct (el_futures el !! i) as [[[tx|res] cb]|] eqn:Hi; [done| |done].
    destruct res as [w|e|]; [|by intros [= <-]|by apply list_elem_of_lookup_2, Hp in Hi].
    destruct (validate_tx_dep _ _ _ _) as [[outs|e|] deps]; [|by intros [= <-]|done].
    destruct (save_txs _ _ _ _) as [[r|e|] m]; [by intros [= <-]|done..].
Qed.

Lemma steps_not_stalled n taken el taken' el' :
  loop_steps no_panicked n taken el taken' el' → el_stalled el = false → el_stalled el' = false.
Proof.
  induction 1 as [|n taken el el1 taken' el' Hp Hs _ IH|n taken el tx m taken' el' Hn _ IH]; [done|..];
    eauto using step_not_stalled.
Qed.

Definition is_running (f : Fut * option CallbackId) : Prop := match fst f with Running _ => True | Done _ => False end.
#[export] Instance is_running_dec f : Decision (is_running f).
Proof. unfold is_running. destruct (fst f); apply _. Defined.

(** The loop can go on, unless its channel and its tasks are at rest and it is either done
    or stalled. *)
Lemma step_or_rest el :
  (∃ el', loop_step el el') ∨
  el_channel el = [] ∧ Forall (λ f, ¬ is_running f) (el_futures el) ∧
  (el_futures el = [] ∨ el_stalled el = true).
Proof.
  destruct (el_channel el) as [|[tx cb] rest] eqn:Hc.
  2:{ left. eexists. apply step_receive. unfold on_receive. by rewrite Hc. }
  destruct (decide (Exists is_running (el_futures el))) as [Hx|Hx].
  { left. apply Exists_exists in Hx as ([[tx|res] cb] & Hin & Hx); [|done].
    apply list_elem_of_lookup in Hin as [i Hi].
    destruct (process_received acl (λ _, Panic) true tx (el_p2p el)) as [res p2p] eqn:Hp.
    eexists. apply (step_task _ _ (λ _, Panic) true i). unfold on_task. rewrite Hi. by rewrite Hp. }
  apply Forall_Exists_neg in Hx. destruct (el_stalled el) eqn:Hst; [by auto 6|].
  destruct (el_futures el) as [|[[tx|res] cb] rest] eqn:Hf; [by auto 6| |].
  { apply Forall_cons in Hx as [Hx _]. by destruct Hx. }
  left. destruct (finished_enabled 0 0 el res cb) as [el' Hel']; [done|by rewrite Hf|].
  exists el'. by apply (step_finished _ _ 0 0).
Qed.

Lemma quiet_spec el :
  quiet el → el_channel el = [] ∧ Forall (λ f, ¬ is_running f) (el_futures el) ∧
  (el_futures el = [] ∨ el_stalled el = true).
Proof. intros Hq. destruct (step_or_rest el) as [[el' Hs]|Hr]; [by destruct (Hq el')|done]. Qed.

Lemma rest_quiet el :
  el_channel el = [] → Forall (λ f, ¬ is_running f) (el_futures el) →
  el_futures el = [] ∨ el_stalled el = true → quiet el.
Proof.
  intros Hc Hf Hs el' [Hr|download op i Hr|now i Hr].
  - unfold on_receive in Hr. by rewrite Hc in Hr.
  - unfold on_task in Hr. destruct (el_futures el !! i) as [[[tx|] cb]|] eqn:Hi; [|done..].
    eapply Forall_lookup_1 in Hf; [|exact Hi]. by destruct Hf.
  - unfold on_finished in Hr. destruct Hs as [Hs|Hs]; rewrite Hs in Hr; [by destruct (el_stalled el)|done].
Qed.

(** C22: the event loop gets its work done.  From every reachable state, once the senders
    are silent, each schedule of the loop (any order of receiving, verification tasks and
    handling, any outcome of downloads, the scheduler taking transactions in between) has
    at most [weight] steps, and some schedule runs until nothing can happen any more.  In
    every such quiet state the channel is empty, no task runs, and each request that was
    ever sent is either answered exactly once or still waits in a finished future; it
    waits only if a verification task has panicked, for that stalls the loop.  A loop that
    was not stalled and whose tasks do not panic always ends with every future handled and
    every request answered exactly once.  A stalled loop goes on with the next message. *)
Theorem loop_drains inputs taken el :
  run st acl s0 inputs taken el →
  (∀ n taken' el', loop_steps anyhow n taken el taken' el' → n ≤ weight el) ∧
  (∃ n taken' el', loop_steps anyhow n taken el taken' el' ∧ quiet el') ∧
  (∀ n taken' el', loop_steps anyhow n taken el taken' el' → quiet el' →
     el_channel el' = [] ∧ Forall (λ f, ¬ is_running f) (el_futures el') ∧
     (el_replies el').*1 ++ omap snd (el_futures el') ≡ₚ omap snd inputs ∧
     (el_stalled el' = false → el_futures el' = []) ∧
     ∀ m, ∃ el'', on_receive (MkEventLoop [m] (el_futures el') (el_deps el') (el_p2p el')
        (el_mempool el') (el_replies el') (el_stalled el')) = Some el'' ∧
       el_futures el'' = el_futures el' ++ [(Running (fst m), snd m)] ∧ el_stalled el'' = false) ∧
  (∀ n taken' el', el_stalled el = false → loop_steps no_panicked n taken el taken' el' → quiet el' →
     el_channel el' = [] ∧ el_futures el' = [] ∧ (el_replies el').*1 ≡ₚ omap snd inputs).
Proof.
  intros Hrun. split_and!.
  - intros n taken' el' Hs%steps_weight. lia.
  - clear Hrun. remember (weight el) as w eqn:Hw. revert el taken Hw.
    induction w as [w IH] using lt_wf_ind; intros el taken Hw.
    destruct (step_or_rest el) as [[el1 Hs]|(Hc & Hf & Hr)].
    + pose proof (step_weight _ _ Hs) as Hw1.
      destruct (IH (weight el1) ltac:(lia) el1 taken eq_refl) as (n & taken' & el' & Hn & Hq).
      exists (Datatypes.S n), taken', el'. split; [by eapply steps_loop|done].
    + exists 0, taken, el. split; [constructor|by apply rest_quiet].
  - intros n taken' el' Hs Hq. destruct (quiet_spec el' Hq) as (Hc & Hf & Hr). split_and!; [done..| | |].
    + pose proof (run_callbacks st acl s0 inputs taken' el' (steps_run _ _ _ _ _ _ _ Hs Hrun)) as Hp.
      unfold pending in Hp. rewrite Hc in Hp. rewrite <-Hp. simpl. by rewrite (comm (++)).
    + intros Hst. destruct Hr as [Hr|Hr]; [done|congruence].
    + intros [tx cb]. by eexists.
  - intros n taken' el' Hst Hs Hq. destruct (quiet_spec el' Hq) as (Hc & Hf & Hr).
    assert (el_futures el' = []) as He.
    { destruct Hr as [Hr|Hr]; [done|]. apply steps_not_stalled in Hs; [congruence|done]. }
    split_and!; [done..|].
    pose proof (run_callbacks st acl s0 inputs taken' el' (steps_run _ _ _ _ _ _ _ Hs Hrun)) as Hp.
    unfold pending in Hp. by rewrite Hc, He in Hp.
Qed.

(** The loop panics on no task, but a panicked task leaves the others unanswered: the
    handling of it disables the branch of finished futures, and when nobody sends, the
    requests whose tasks are finished wait for ever. *)
Theorem panicked_task_stalls_loop el now i cb el' :
  el_futures el !! i = Some (Done Panic, cb) → on_finished st now i el = Some el' →
  el_stalled el' = true ∧ el_futures el' = delete i (el_futures el) ∧
  el_channel el' = el_channel el ∧ ∀ now' j, on_finished st now' j el' = None.
Proof.
  unfold on_finished at 1. destruct (el_stalled el); [done|]. intros -> [= <-]. done.
Qed.
End progress.

(** ** Witnesses *)

Section progress_witnesses.
#[local] Existing Instances hex_crate secp_toy sha3_toy bigint_toy bincode_toy lru_list url_toy.

(** A node over its database that was sent one transaction. *)
Definition pg_send (m : Message) (el : EventLoop Tables) : EventLoop Tables :=
  MkEventLoop (el_channel el ++ [m]) (el_futures el) (el_deps el) (el_p2p el) (el_mempool el)
    (el_replies el) (el_stalled el).
Definition pg_loop : EventLoop Tables := pg_send demo_msg (EventLoop_new Tables_new).
Definition pg_storage : MempoolStorage Tables := database_storage (λ _ l, l).

Lemma pg_run : run pg_storage AlwaysGrantAclWhitelist Tables_new [demo_msg] [] pg_loop.
Proof. exact (run_send _ _ _ [] [] _ demo_msg (run_start _ _ _)). Qed.

(** It is received, verified and handled. *)
Definition pg_received : option (EventLoop Tables) := on_receive pg_loop.
Definition pg_verified : option (EventLoop Tables) :=
  pg_received ≫= on_task AlwaysGrantAclWhitelist (λ _, Ok ()) true 0.
Definition pg_handled : option (EventLoop Tables) := pg_verified ≫= on_finished pg_storage 0 0.

#[export] Instance fut_panicked_dec (f : Fut * option CallbackId) : Decision (fst f = Done Panic).
Proof. by destruct f as [[tx|[w|e|]] cb]; simpl; [right|right|right|left]. Defined.

Lemma no_panicked_all (el : EventLoop Tables) :
  Forall (λ f, fst f ≠ Done Panic) (el_futures el) → no_panicked el.
Proof. intros Hf cb Hin. eapply Forall_forall in Hf; [|exact Hin]. done. Qed.

Lemma pg_steps : ∃ el', loop_steps pg_storage AlwaysGrantAclWhitelist no_panicked 3 [] pg_loop [] el' ∧
  quiet pg_storage AlwaysGrantAclWhitelist el'.
Proof.
  assert (from_option (λ el, bool_decide (Forall (λ f, fst f ≠ Done Panic) (el_futures el))) false pg_received
    && from_option (λ el, bool_decide (Forall (λ f, fst f ≠ Done Panic) (el_futures el))) false pg_verified
    && from_option (λ el, bool_decide (length (el_channel el) + length (el_futures el) = 0)) false pg_handled
    = true) as Hb by by vm_compute.
  destruct pg_received as [el1|] eqn:E1; [|done].
  destruct pg_verified as [el2|] eqn:E2; [|by rewrite andb_comm in Hb].
  destruct pg_handled as [el3|] eqn:E3; [|by rewrite andb_comm in Hb].
  unfold pg_handled in E3. rewrite E2 in E3. unfold pg_verified in E2. rewrite E1 in E2.
  simpl in E2, E3, Hb. apply andb_prop in Hb as [[H1%bool_decide_eq_true H2%bool_decide_eq_true]%andb_prop H3%bool_decide_eq_true].
  exists el3. split.
  - eapply steps_loop; [by apply no_panicked_all, Forall_nil|by apply step_receive|].
    eapply steps_loop; [by apply no_panicked_all|by eapply step_task|].
    eapply steps_loop; [by apply no_panicked_all|by eapply step_finished|]. constructor.
  - destruct (el_channel el3) eqn:Hc, (el_futures el3) eqn:Hf; simpl in H3; try lia.
    apply rest_quiet; [done|by rewrite Hf|by left].
Qed.

Example loop_drains_witness :
  (∃ n taken' el', loop_steps pg_storage AlwaysGrantAclWhitelist anyhow n [] pg_loop taken' el' ∧
    quiet pg_storage AlwaysGrantAclWhitelist el' ∧ n ≤ weight pg_loop) ∧
  ∃ el', quiet pg_storage AlwaysGrantAclWhitelist el' ∧
    el_channel el' = [] ∧ el_futures el' = [] ∧ (el_replies el').*1 ≡ₚ [0].
Proof.
  destruct (loop_drains pg_storage AlwaysGrantAclWhitelist Tables_new [demo_msg] [] pg_loop pg_run)
    as (Hb & (n & taken' & el' & Hs & Hq) & _ & Hd).
  split; [exists n, taken', el'; split_and!; [exact Hs|exact Hq|exact (Hb _ _ _ Hs)]|].
  destruct pg_steps as (el3 & Hs3 & Hq3). exists el3. split; [exact Hq3|].
  exact (Hd _ _ _ eq_refl Hs3 Hq3).
Defined.

(** Two requests whose tasks are done, the first of them panicked: the second is not
    answered. *)
Definition pg_panicked : EventLoop Tables :=
  let el := pg_loop in
  MkEventLoop [] [(Done Panic, Some 0); (Done (Err (EventProcessError.ValidateError "")), Some 1)]
    (el_deps el) [] (el_mempool el) [] false.

Example panicked_task_stalls_loop_witness :
  ∃ el', on_finished pg_storage 0 0 pg_panicked = Some el' ∧ el_stalled el' = true ∧
    omap snd (el_futures el') = [1] ∧ el_replies el' = [(0, Dropped)] ∧
    ∀ now' j, on_finished pg_storage now' j el' = None.
Proof.
  eexists. split; [reflexivity|].
  destruct (panicked_task_stalls_loop pg_storage pg_panicked 0 0 (Some 0) _ eq_refl eq_refl)
    as (Hs & _ & _ & Hn).
  split_and!; [exact Hs|reflexivity|reflexivity|exact Hn].
Defined.
End progress_witnesses.
