(* ===== verification/Deletion.v ===== *)
(** * Deletion ([postgres.rs], [migrations/])

    [delete_transaction] and [delete_program] with the [ON DELETE CASCADE] clauses of
    the schema: a deleted program or transaction takes every row that refers to it
    along.  The node calls neither; the tests of [postgres.rs] use them to take back
    what they stored, and [delete_undoes_add] shows that they do. *)

From S2P Require Import Prelude Types Models Files Transaction Event Mempool Workflow Resources Acl Database Progress.

Section deletion.
Context `{Secp}.

(** The steps that go along, and the results that stay. *)
Definition gone_steps (txs programs : gset Hash) (l : list StepRow) : list Z :=
  step_id <$> filter (λ r, step_tx r ∈ txs ∨ step_program r ∈ programs) l.

Definition kept_result (txs programs : gset Hash) (e : Hash * ProofRow) : Prop :=
  (e.1 ∉ txs) ∧ (pr_parent e.2 ∉ txs) ∧ (pr_program e.2 ∉ programs).
#[local] Instance kept_result_dec txs programs e : Decision (kept_result txs programs e).
Proof. unfold kept_result. apply _. Defined.
#[local] Typeclasses Opaque kept_result.

(** [DELETE] of transactions and programs, with the cascades: no table refers to a
    row of [deploy], [proof], [proof_key], [verification] or [txfile], and only the
    data of a step refers to a step.  The parent of a [proof_key] has no foreign key. *)
Definition delete_rows (txs programs : gset Hash) (t : Tables) : Tables :=
  let gone := gone_steps txs programs (t_step t) in
  MkTables
    (filter (λ e, e.1 ∉ txs) (t_transaction t))
    (filter (λ e, e.1 ∉ programs) (t_program t))
    (filter (λ e, e.1 ∉ programs) (t_prr t))
    (filter (λ e, (e.1 ∉ txs) ∧ (dep_prover e.2 ∉ programs) ∧ (dep_verifier e.2 ∉ programs))
       (t_deploy t))
    (filter (λ r, ¬ (step_tx r ∈ txs ∨ step_program r ∈ programs)) (t_step t))
    (t_next_step t)
    (filter (λ r, in_step r ∉ gone) (t_input t))
    (filter (λ r, (out_step r ∉ gone) ∧ (out_source_program r ∉ programs)) (t_output t))
    (filter (kept_result txs programs) (t_proof t))
    (filter (λ e, e.1 ∉ txs) (t_proof_key t))
    (filter (kept_result txs programs) (t_verification t))
    (filter (λ e, e.1 ∉ txs) (t_txfile t))
    (t_acl t).

(** The programs of [DELETE FROM program USING deploy WHERE ... deploy.tx = $1]. *)
Definition deployed_by (t : Tables) (tx_hash : Hash) : gset Hash :=
  match t_deploy t !! tx_hash with
  | Some deploy => {[dep_prover deploy]} ∪ {[dep_verifier deploy]}
  | None => ∅
  end.

(** Two statements in one database transaction. *)
Definition delete_transaction (tx_hash : Hash) : M Tables string () :=
  t ← get;
  _ ← modify (delete_rows ∅ (deployed_by t tx_hash));
  modify (delete_rows {[tx_hash]} ∅).

Definition delete_program (program_hash : Hash) : M Tables string () :=
  modify (delete_rows ∅ {[program_hash]}).

(** ** Integrity *)

Lemma has_tx_delete txs ps t h :
  has_tx (delete_rows txs ps t) h = true ↔ has_tx t h = true ∧ (h ∉ txs).
Proof.
  unfold has_tx, has_row. rewrite !bool_decide_eq_true. simpl. split.
  - intros [r [Hr Hn]%map_lookup_filter_Some]. split; [by exists r|done].
  - intros [[r Hr] Hn]. exists r. by apply map_lookup_filter_Some.
Qed.

Lemma has_program_delete txs ps t h :
  has_program (delete_rows txs ps t) h = true ↔ has_program t h = true ∧ (h ∉ ps).
Proof.
  unfold has_program, has_row. rewrite !bool_decide_eq_true. simpl. split.
  - intros [r [Hr Hn]%map_lookup_filter_Some]. split; [by exists r|done].
  - intros [[r Hr] Hn]. exists r. by apply map_lookup_filter_Some.
Qed.

Lemma kept_step txs ps t id :
  has_step t id → (id ∉ gone_steps txs ps (t_step t)) → has_step (delete_rows txs ps t) id.
Proof.
  intros (r & -> & Hr)%list_elem_of_fmap Hn. apply list_elem_of_fmap. exists r. split; [done|].
  simpl. apply list_elem_of_filter. split; [|done]. intros Hg. apply Hn.
  apply list_elem_of_fmap. exists r. split; [done|]. by apply list_elem_of_filter.
Qed.

Lemma NoDup_fmap_filter {A B} (f : A → B) (P : A → Prop) `{∀ x, Decision (P x)} l :
  NoDup (f <$> l) → NoDup (f <$> filter P l).
Proof.
  intros Hl. eapply sublist_NoDup; [exact Hl|]. by apply fmap_sublist, sublist_filter.
Qed.

Lemma delete_rows_wf txs ps t : db_wf t → db_wf (delete_rows txs ps t).
Proof.
  intros [W1 W2 W3 W4 W5 W6 W7 W8 W9 W10 W11 W12].
  split; intros *; rewrite ?has_tx_delete, ?has_program_delete; simpl;
    rewrite ?map_lookup_filter_Some, ?list_elem_of_filter; simpl.
  - intros [Hr _]. by apply W1.
  - intros [Hr ?]. destruct (W2 _ _ Hr). naive_solver.
  - intros [Hr (? & ? & ?)]. destruct (W3 _ _ Hr). naive_solver.
  - intros [Hr ?]. split; [by apply (W4 _ _ Hr)|done].
  - intros [Hr (? & ? & ?)]. destruct (W5 _ _ Hr). naive_solver.
  - intros [? Hr]. split; [by apply W6|done].
  - intros [? Hr]. destruct (W7 _ Hr). naive_solver.
  - intros [? Hr]. apply kept_step; auto.
  - intros [[??] Hr]. destruct (W9 _ Hr). split; [by apply kept_step|done].
  - intros [r [Hr ?]%map_lookup_filter_Some]. split; [apply W10; by eexists|done].
  - by apply NoDup_fmap_filter.
  - by apply NoDup_fmap_filter.
Qed.

(** ** A deletion of nothing that is there *)

Definition unrelated (txs ps : gset Hash) (t : Tables) : Prop :=
  (∀ h, has_tx t h = true → (h ∉ txs)) ∧ (∀ h, has_program t h = true → (h ∉ ps)) ∧
  (∀ h, is_Some (t_prr t !! h) → (h ∉ ps)).

Lemma has_row_lookup {V} (k : Hash) (m : gmap Hash V) v : m !! k = Some v → has_row k m = true.
Proof. intros Hk. apply bool_decide_eq_true. by exists v. Qed.

Lemma map_filter_all {V} (P : Hash * V → Prop) `{∀ x, Decision (P x)} (m : gmap Hash V) :
  (∀ h v, m !! h = Some v → P (h, v)) → filter P m = m.
Proof. intros Hm. by apply map_filter_id. Qed.

Lemma delete_unrelated txs ps t : db_wf t → unrelated txs ps t → delete_rows txs ps t = t.
Proof.
  intros [W1 W2 W3 W4 W5 W6 W7 W8 W9 W10 W11 W12] (Htx & Hp & Hr).
  assert (gone_steps txs ps (t_step t) = []) as Hgone.
  { unfold gone_steps. rewrite filter_none; [done|]. intros r Hr'. destruct (W7 r Hr') as (? & ? & _).
    by intros [?%Htx|?%Hp]. }
  destruct t. unfold delete_rows. rewrite Hgone. simpl in *. f_equal.
  - apply map_filter_all. intros h v Hv. apply Htx. by apply (has_row_lookup _ _ v).
  - apply map_filter_all. intros h v Hv. apply Hp. by apply (has_row_lookup _ _ v).
  - apply map_filter_all. intros h v Hv. apply Hr. by exists v.
  - apply map_filter_all. intros h v Hv. destruct (W2 h v Hv) as (? & ? & ?). split_and!; auto.
  - apply filter_all. intros r Hr'. destruct (W7 r Hr') as (? & ? & _). by intros [?%Htx|?%Hp].
  - apply filter_all. intros r _. apply not_elem_of_nil.
  - apply filter_all. intros r Hr'. destruct (W9 r Hr'). split; [apply not_elem_of_nil|by apply Hp].
  - apply map_filter_all. intros h v Hv. destruct (W3 h v Hv) as (? & ? & ?). split_and!; auto.
  - apply map_filter_all. intros h v Hv. apply Htx. by apply (W4 h v).
  - apply map_filter_all. intros h v Hv. destruct (W5 h v Hv) as (? & ? & ?). split_and!; auto.
  - apply filter_all. intros e He. by apply Htx, W6.
Qed.

(** ** Two deletions are one *)

Lemma filter_filter {A} (P Q : A → Prop) `{∀ x, Decision (P x)} `{∀ x, Decision (Q x)}
    (R : A → Prop) `{∀ x, Decision (R x)} (l : list A) :
  (∀ x, x ∈ l → R x ↔ P x ∧ Q x) → filter P (filter Q l) = filter R l.
Proof.
  induction l as [|x l IH]; intros Hl; [done|].
  assert (R x ↔ P x ∧ Q x) as Hx by (apply Hl; left).
  assert (filter P (filter Q l) = filter R l) as IH' by (apply IH; intros y ?; apply Hl; by right).
  destruct (decide (Q x)) as [HQ|HQ]; [rewrite (filter_cons_True Q) by done|
    rewrite (filter_cons_False Q), (filter_cons_False R) by naive_solver; done].
  destruct (decide (P x)); [rewrite (filter_cons_True P), (filter_cons_True R) by naive_solver|
    rewrite (filter_cons_False P), (filter_cons_False R) by naive_solver]; by rewrite IH'.
Qed.

Lemma map_filter_twice {V} (P Q R : Hash * V → Prop) `{∀ x, Decision (P x)}
    `{∀ x, Decision (Q x)} `{∀ x, Decision (R x)} (m : gmap Hash V) :
  (∀ x, R x ↔ P x ∧ Q x) → filter P (filter Q m) = filter R m.
Proof.
  intros Hx. apply map_eq. intros h. apply option_eq. intros v.
  rewrite !map_lookup_filter_Some, Hx. naive_solver.
Qed.

Lemma gone_twice (txs1 ps1 txs2 ps2 : gset Hash) (l : list StepRow) id :
  (id ∉ gone_steps (txs1 ∪ txs2) (ps1 ∪ ps2) l) ↔
  (id ∉ gone_steps txs2 ps2 (filter (λ r, ¬ (step_tx r ∈ txs1 ∨ step_program r ∈ ps1)) l)) ∧
  (id ∉ gone_steps txs1 ps1 l).
Proof.
  unfold gone_steps.
  rewrite !list_elem_of_fmap. setoid_rewrite list_elem_of_filter.
  setoid_rewrite list_elem_of_filter. setoid_rewrite elem_of_union. split.
  - intros Hn. split; intros (r & ? & ?); apply Hn; exists r; naive_solver.
  - intros [H1 H2] (r & ? & Hr & ?).
    destruct (decide (step_tx r ∈ txs1 ∨ step_program r ∈ ps1)); [apply H2|apply H1]; exists r; naive_solver.
Qed.

Lemma delete_rows_twice txs1 ps1 txs2 ps2 t :
  delete_rows txs2 ps2 (delete_rows txs1 ps1 t) = delete_rows (txs1 ∪ txs2) (ps1 ∪ ps2) t.
Proof.
  unfold delete_rows. simpl. f_equal;
    first [apply map_filter_twice; intros x; unfold kept_result; set_solver
          |apply filter_filter; intros x _; rewrite ?gone_twice; set_solver].
Qed.

Lemma delete_transaction_rows tx_hash t :
  delete_transaction tx_hash t = (Ok (), delete_rows {[tx_hash]} (deployed_by t tx_hash) t).
Proof.
  unfold delete_transaction, mbind, M_bind, get, modify.
  by rewrite delete_rows_twice, (left_id_L ∅ (∪)), (right_id_L ∅ (∪)).
Qed.

(** ** Taking back what was added *)

(** [t] is [t0] and rows that hang on [tx]. *)
Definition hangs_on (tx : Hash) (t0 t : Tables) : Prop :=
  delete_rows {[tx]} ∅ t = set_steps (t_step t0) (t_next_step t) t0 ∧
  (t_next_step t0 ≤ t_next_step t)%Z.

Lemma filter_insert_gone {V} (P : Hash * V → Prop) `{∀ x, Decision (P x)} (m : gmap Hash V) k v :
  m !! k = None → ¬ P (k, v) → filter P (<[k := v]> m) = filter P m.
Proof.
  intros Hk Hv. apply map_eq. intros h. apply option_eq. intros w.
  rewrite !map_lookup_filter_Some, lookup_insert_Some. split; [|naive_solver congruence].
  intros [[[<- <-]|[_ ?]] ?]; [done|by split].
Qed.

Lemma filter_insert_new_gone {V} (P : Hash * V → Prop) `{∀ x, Decision (P x)} (m : gmap Hash V) k v :
  m !! k = None → ¬ P (k, v) → filter P (insert_new k v m) = filter P m.
Proof. intros Hk Hv. unfold insert_new. rewrite Hk. by apply filter_insert_gone. Qed.

Lemma filter_snoc_gone {A} (P : A → Prop) `{∀ x, Decision (P x)} (l l' : list A) :
  (∀ x, x ∈ l' → ¬ P x) → filter P (l ++ l') = filter P l.
Proof. intros Hl. by rewrite filter_app, (filter_none P l'), app_nil_r. Qed.

Lemma filter_ext_in {A} (P Q : A → Prop) `{∀ x, Decision (P x)} `{∀ x, Decision (Q x)} (l : list A) :
  (∀ x, x ∈ l → P x ↔ Q x) → filter P l = filter Q l.
Proof.
  intros Hl. rewrite <-(filter_all (λ _, True) l) at 1 by done.
  apply filter_filter. naive_solver.
Qed.

Lemma set_steps_id t : set_steps (t_step t) (t_next_step t) t = t.
Proof. by destruct t. Qed.

Lemma fresh_not_tx t h : t_transaction t !! h = None → ∀ h', has_tx t h' = true → (h' ∉ ({[h]} : gset Hash)).
Proof.
  intros Hh h' Hh' ->%elem_of_singleton. unfold has_tx, has_row in Hh'. rewrite Hh in Hh'.
  apply bool_decide_eq_true in Hh' as []%is_Some_None.
Qed.

Lemma delete_rows_upsert e ps t :
  t_transaction t !! row_hash e = None →
  delete_rows {[row_hash e]} ps (upsert_transaction e t) = delete_rows {[row_hash e]} ps t.
Proof.
  intros Hh. unfold delete_rows, upsert_transaction. simpl. rewrite Hh, filter_insert_gone; set_solver.
Qed.

Lemma hangs_on_upsert e t :
  db_wf t → t_transaction t !! row_hash e = None → hangs_on (row_hash e) t (upsert_transaction e t).
Proof.
  intros Ht Hh. split; [|simpl; lia]. simpl. rewrite set_steps_id, delete_rows_upsert by done.
  apply delete_unrelated; [done|]. split; [by apply fresh_not_tx|]. split; set_solver.
Qed.

Lemma insert_step_hangs t0 tx seq step :
  db_wf t0 →
  hoare (hangs_on tx t0) (insert_step tx seq step)
    (λ id t, hangs_on tx t0 t ∧ id ∈ step_id <$> steps_of t tx) (hangs_on tx t0).
Proof.
  intros Ht0 t [Hd Hn]. unfold insert_step, mbind, M_bind, get, check.
  destruct (list_find _ (t_step t)) as [[i r]|] eqn:Hf.
  - apply list_find_Some in Hf as (Hi & [Htx _] & _). apply list_elem_of_lookup_2 in Hi.
    simpl. split; [split; [|simpl; lia]|].
    + transitivity (set_steps (t_step t0) (t_next_step t + 1) (delete_rows {[tx]} ∅ t)); [|by rewrite Hd].
      unfold delete_rows, set_steps. simpl. f_equal. by apply (f_equal t_step) in Hd.
    + apply list_elem_of_fmap. exists r. split; [done|]. by apply list_elem_of_filter.
  - destruct (has_program t (ws_program step)); [|by split].
    simpl. split; [split; [|simpl; lia]|].
    + transitivity (set_steps (t_step t0) (t_next_step t + 1) (delete_rows {[tx]} ∅ t)); [|by rewrite Hd].
      pose proof (f_equal t_step Hd) as Hs. pose proof (f_equal t_input Hd) as Hi.
      pose proof (f_equal t_output Hd) as Ho. simpl in Hs, Hi, Ho.
      unfold delete_rows, set_steps. simpl. f_equal.
      * etransitivity; [apply filter_snoc_gone|exact Hs]. set_solver.
      * apply filter_ext_in. intros r Hr. unfold gone_steps. rewrite filter_app, fmap_app, not_elem_of_app. split; [by intros []|].
        intros Hk. split; [done|]. assert (r ∈ t_input t0) as ?%(wf_input_bound t0 _ Ht0)
          by (rewrite <-Hi; by apply list_elem_of_filter).
        intros (r' & Heq & [_ ->%list_elem_of_singleton]%list_elem_of_filter)%list_elem_of_fmap.
        simpl in Heq. lia.
      * apply filter_ext_in. intros r Hr. unfold gone_steps. rewrite filter_app, fmap_app, not_elem_of_app. split; [by intros [[] ?]|].
        intros Hk. split; [split; [apply Hk|]|apply Hk]. assert (r ∈ t_output t0) as ?%(wf_output_bound t0 _ Ht0)
          by (rewrite <-Ho; by apply list_elem_of_filter).
        intros (r' & Heq & [_ ->%list_elem_of_singleton]%list_elem_of_filter)%list_elem_of_fmap.
        simpl in Heq. lia.
    + unfold steps_of. simpl. rewrite filter_app, fmap_app, elem_of_app. right.
      rewrite filter_cons_True by done. left.
Qed.

Lemma insert_input_hangs t0 tx id input :
  keeps (λ t, hangs_on tx t0 t ∧ id ∈ step_id <$> steps_of t tx) (insert_input id input).
Proof.
  intros t [[Hd Hn] Hid]. unfold insert_input, mbind, M_bind, get, check.
  assert (id ∈ gone_steps {[tx]} ∅ (t_step t)) as Hgone.
  { apply list_elem_of_fmap in Hid as (r & -> & [? ?]%list_elem_of_filter).
    apply list_elem_of_fmap. exists r. split; [done|]. apply list_elem_of_filter. set_solver. }
  destruct input as [fn fu cs|src fn]; (case_bool_decide; [done|]).
  - simpl. split; [split; [|done]|done]. simpl. rewrite <-Hd.
    unfold delete_rows, set_inputs. simpl. f_equal. apply filter_snoc_gone.
    intros r ->%list_elem_of_singleton Hk. exact (Hk Hgone).
  - destruct (has_program t src); [|done].
    simpl. split; [split; [|done]|done]. simpl. rewrite <-Hd.
    unfold delete_rows, set_outputs. simpl. f_equal. apply filter_snoc_gone.
    intros r ->%list_elem_of_singleton [Hk _]. exact (Hk Hgone).
Qed.

Lemma insert_steps_hangs t0 tx seq steps :
  db_wf t0 → keeps (hangs_on tx t0) (insert_steps tx seq steps).
Proof.
  intros Ht0. revert seq. induction steps as [|step steps IH]; intros seq; cbn [insert_steps]; [apply keeps_ret|].
  eapply hoare_bind; [by apply insert_step_hangs|]. intros id.
  eapply (hoare_bind _ _ _ (λ _, hangs_on tx t0)); [|intros []; apply IH].
  eapply hoare_conseq; [apply keeps_for_eachM, insert_input_hangs|..]; naive_solver.
Qed.

(** The rows of a result. *)
Lemma set_proofs_hangs t0 tx p k v f t :
  hangs_on tx t0 t →
  filter (kept_result {[tx]} ∅) p =
  filter (kept_result {[tx]} ∅) (t_proof t) →
  filter (λ e, e.1 ∉ ({[tx]} : gset Hash)) k = filter (λ e, e.1 ∉ ({[tx]} : gset Hash)) (t_proof_key t) →
  filter (kept_result {[tx]} ∅) v =
  filter (kept_result {[tx]} ∅) (t_verification t) →
  filter (λ e, e.1 ∉ ({[tx]} : gset Hash)) f = filter (λ e, e.1 ∉ ({[tx]} : gset Hash)) (t_txfile t) →
  hangs_on tx t0 (set_proofs p k v f t).
Proof.
  intros [Hd Hn] Hp Hk Hv Hf. split; [|done]. simpl. rewrite <-Hd.
  unfold delete_rows, set_proofs. simpl. by f_equal.
Qed.

(** A program that was not known, with no requirements left of an earlier one. *)
Definition new_program (t : Tables) (h : Hash) : Prop := t_program t !! h = None ∧ t_prr t !! h = None.
Definition new_programs (t : Tables) (p : Payload.t) : Prop :=
  match p with
  | Payload.Deploy _ prover verifier => new_program t (pm_hash prover) ∧ new_program t (pm_hash verifier)
  | _ => True
  end.

Lemma delete_rows_program txs h p t :
  prg_hash p ∈ h → delete_rows txs h (add_program p t) = delete_rows txs h t.
Proof.
  intros Hp. unfold delete_rows, add_program, set_programs. simpl. f_equal.
  - unfold insert_new. destruct (t_program t !! prg_hash p) eqn:E; [done|]. apply filter_insert_gone; set_solver.
  - destruct (prg_limits p); [|done]. unfold insert_new.
    destruct (t_prr t !! prg_hash p) eqn:E; [done|]. apply filter_insert_gone; set_solver.
Qed.

Lemma delete_rows_deploy tx ps m t :
  filter (λ e, (e.1 ∉ ({[tx]} : gset Hash)) ∧ (dep_prover e.2 ∉ ps) ∧ (dep_verifier e.2 ∉ ps)) m =
  filter (λ e, (e.1 ∉ ({[tx]} : gset Hash)) ∧ (dep_prover e.2 ∉ ps) ∧ (dep_verifier e.2 ∉ ps)) (t_deploy t) →
  delete_rows {[tx]} ps (set_deploy m t) = delete_rows {[tx]} ps t.
Proof. intros Hm. unfold delete_rows, set_deploy. simpl. by f_equal. Qed.

(** What the body of [add_transaction] leaves, minus what hangs on the transaction. *)
Lemma body_hangs tx t :
  db_wf t → t_transaction t !! hash tx = None → kind_of (payload tx) ≠ Kind.Deploy →
  hoare (λ s, s = t) (add_transaction_body tx) (λ _, hangs_on (hash tx) t) (λ _, True).
Proof.
  intros Ht Hh Hk. unfold add_transaction_body.
  destruct (fresh_rows t (hash tx) Ht Hh) as (F1 & F2 & F3 & F4 & F5 & F6).
  assert (hangs_on (hash tx) t (upsert_transaction (row_of_tx tx) t)) as Hu
    by exact (hangs_on_upsert (row_of_tx tx) t Ht Hh).
  apply (hoare_modify_seq _ _ _ (λ s, hangs_on (hash tx) t s ∧ t_proof s !! hash tx = None ∧
    t_proof_key s !! hash tx = None ∧ t_verification s !! hash tx = None)).
  { intros s ->. done. }
  destruct (payload tx) as [| | | |name pv vf|wf|parent pv proof files|parent key
    |parent vf verif files|]; try (by intros s (? & ? & ? & ?)); try done.
  - eapply hoare_conseq; [by apply insert_steps_hangs|..]; naive_solver.
  - intros s (Hs & Hp & _). unfold mbind, M_bind, get, check.
    destruct (_ || _); [|done]. simpl. apply set_proofs_hangs; [done| |done..|].
    + apply filter_insert_new_gone; [done|]. intros [Hn _]. set_solver.
    + apply filter_snoc_gone. intros e He%txfile_rows_fst. set_solver.
  - intros s (Hs & _ & Hp & _). simpl. apply set_proofs_hangs; [done..| |done|done].
    apply filter_insert_new_gone; [done|set_solver].
  - intros s (Hs & _ & _ & Hp). unfold mbind, M_bind, get, check.
    destruct (_ || _); [|done]. simpl. apply set_proofs_hangs; [done..| |].
    + apply filter_insert_new_gone; [done|]. intros [Hn _]. set_solver.
    + apply filter_snoc_gone. intros e He%txfile_rows_fst. set_solver.
Qed.

Lemma delete_deploy name prover verifier tx t t' :
  db_wf t → t_transaction t !! hash tx = None → payload tx = Payload.Deploy name prover verifier →
  new_program t (pm_hash prover) → new_program t (pm_hash verifier) →
  add_transaction_body tx t = (Ok (), t') →
  delete_rows {[hash tx]} (deployed_by t' (hash tx)) t' = t ∧ t_next_step t' = t_next_step t ∧
  t_step t' = t_step t.
Proof.
  intros Ht Hh Hp [Hp1 Hp2] [Hv1 Hv2]. unfold add_transaction_body. rewrite Hp.
  unfold mbind, M_bind, modify. simpl. intros [= <-]. split; [|done].
  destruct (fresh_rows t (hash tx) Ht Hh) as (_ & _ & _ & F4 & _).
  unfold deployed_by. cbn [set_deploy t_deploy add_program set_programs upsert_transaction].
  rewrite insert_new_fresh by done. cbn [dep_prover dep_verifier].
  set (ps := {[pm_hash prover]} ∪ {[pm_hash verifier]}).
  assert (unrelated {[hash tx]} ps t) as Hun.
  { split; [by apply fresh_not_tx|]. unfold has_program, has_row.
    split; [intros h ?%bool_decide_eq_true|intros h ?]; unfold ps;
      intros [->%elem_of_singleton| ->%elem_of_singleton]%elem_of_union;
      match goal with Hs : is_Some (_ !! _) |- _ => destruct Hs; congruence end. }
  rewrite delete_rows_deploy.
  2: { apply filter_insert_new_gone; [done|]. simpl. intros [Hn _]. set_solver. }
  rewrite !delete_rows_program by (simpl; set_solver).
  transitivity (delete_rows {[hash tx]} ps t); [|by apply delete_unrelated].
  exact (delete_rows_upsert (row_of_tx tx) ps t Hh).
Qed.

Lemma body_deploy tx t :
  kind_of (payload tx) ≠ Kind.Deploy →
  t_deploy (snd (add_transaction_body tx t)) = t_deploy t.
Proof.
  intros Hk. unfold add_transaction_body, mbind, M_bind, modify, get, check.
  destruct (payload tx); try done; [|by destruct (_ || _)..].
  apply (keeps_snd (λ s, t_deploy s = t_deploy t)); [by apply insert_steps_closed|done].
Qed.

(** C31: [delete_transaction] takes back exactly what [add_transaction] stored: after
    adding a transaction that was not stored (and, for a deployment, whose programs
    were not known) and deleting it, the tables are what they were before.  Only the
    serial of the workflow steps has moved on. *)
Theorem delete_undoes_add tx t t' :
  db_wf t → t_transaction t !! hash tx = None → new_programs t (payload tx) →
  add_transaction tx t = (Ok (), t') →
  delete_transaction (hash tx) t' = (Ok (), set_steps (t_step t) (t_next_step t') t).
Proof.
  intros Ht Hh Hnew. unfold add_transaction.
  destruct (add_transaction_body tx t) as [[[]|e|] s] eqn:Hb; intros [= <-].
  rewrite delete_transaction_rows. f_equal.
  destruct (decide (kind_of (payload tx) = Kind.Deploy)) as [Hk|Hk].
  - destruct (payload tx) eqn:Hp; try done. destruct Hnew.
    edestruct (delete_deploy name prover verifier tx t s) as (-> & -> & _); [done..|].
    by rewrite set_steps_id.
  - pose proof (body_hangs tx t Ht Hh Hk t eq_refl) as Hs. rewrite Hb in Hs.
    destruct Hs as [Hs _]. rewrite <-Hs. f_equal. unfold deployed_by.
    pose proof (body_deploy tx t Hk) as Hd. rewrite Hb in Hd. simpl in Hd.
    by rewrite Hd, (proj1 (proj2 (proj2 (proj2 (fresh_rows t (hash tx) Ht Hh))))).
Qed.

(** Deleting keeps the integrity of the tables, and afterwards nothing is left that
    belongs to or answers the transaction.  The programs of a deployment go too. *)
Theorem delete_transaction_spec h t t' :
  db_wf t → delete_transaction h t = (Ok (), t') →
  db_wf t' ∧ has_tx t' h = false ∧
  (∀ h' r, t_proof t' !! h' = Some r → pr_parent r ≠ h) ∧
  (∀ h' r, t_verification t' !! h' = Some r → pr_parent r ≠ h) ∧
  (∀ p, has_program t' p = true ↔ has_program t p = true ∧ (p ∉ deployed_by t h)).
Proof.
  intros Ht. rewrite delete_transaction_rows. intros [= <-].
  split_and!; [by apply delete_rows_wf| | | |intros p; apply has_program_delete].
  - apply not_true_is_false. rewrite has_tx_delete. set_solver.
  - simpl. intros h' r [_ (_ & Hp & _)]%map_lookup_filter_Some. set_solver.
  - simpl. intros h' r [_ (_ & Hp & _)]%map_lookup_filter_Some. set_solver.
Qed.

(** ** Deployments that share a program *)

Context (scan : ∀ A : Type, list A → list A).
Context (scan_perm : ∀ A (l : list A), scan A l ≡ₚ l).

Lemma find_all_error t refs h :
  h ∈ refs → db_find_transaction scan t h = no_row →
  (∀ h', h' ∈ refs → db_find_transaction scan t h' ≠ Panic) →
  ∃ e, find_all scan t refs = Err e.
Proof.
  intros Hin Hh. induction refs as [|h' refs IH]; [by apply elem_of_nil in Hin|]. intros Hp.
  cbn [find_all]. destruct (decide (h' = h)) as [->|Hne].
  - rewrite Hh. by eexists.
  - apply elem_of_cons in Hin as [?|Hin]; [done|].
    destruct (IH Hin) as [e He]; [intros; apply Hp; by right|].
    destruct (db_find_transaction scan t h') as [o|e'|] eqn:Ho; [|by exists e'|].
    + simpl. rewrite He. by exists e.
    + exfalso. apply (Hp h'); [left|done].
Qed.

(** [DELETE FROM program] does not ask who else deployed the program: another
    deployment of it loses its row, while its transaction stays.  From then on that
    transaction is found as an error, and so are all transactions. *)
Theorem delete_strands_shared_deployment h h' r d t t' :
  db_wf t → h' ≠ h → t_transaction t !! h' = Some r → row_kind r = Kind.Deploy →
  t_deploy t !! h' = Some d → dep_prover d ∈ deployed_by t h →
  delete_transaction h t = (Ok (), t') →
  t_transaction t' !! h' = Some r ∧ db_find_transaction scan t' h' = no_row ∧
  (∃ e, get_transactions scan t' = Err e) ∧
  (row_executed r = false → ∃ e, get_unexecuted_transactions scan t' = Err e).
Proof.
  intros Ht Hne Hr Hk Hd Hp. rewrite delete_transaction_rows. intros [= <-].
  set (t' := delete_rows {[h]} (deployed_by t h) t).
  assert (t_transaction t' !! h' = Some r) as Hr'.
  { apply map_lookup_filter_Some. split; [done|]. set_solver. }
  assert (db_find_transaction scan t' h' = no_row) as Hf.
  { unfold db_find_transaction. rewrite Hr', Hk. simpl.
    rewrite (proj2 (map_lookup_filter_None _ _ _)); [done|]. right. intros d' Hd' (_ & ? & _).
    by simplify_eq. }
  assert (h' ∈ (map_to_list (t_transaction t')).*1) as Hin.
  { apply list_elem_of_fmap. exists (h', r). split; [done|]. by apply elem_of_map_to_list. }
  split_and!; [done..| |].
  - apply (find_all_error t' _ h'); [by rewrite scan_perm|done|intros; apply find_transaction_calm].
  - intros Hx. apply (find_all_error t' _ h'); [|done|intros; apply find_transaction_calm].
    rewrite scan_perm. apply list_elem_of_fmap. exists (h', r). split; [done|].
    apply list_elem_of_filter. split; [done|]. by apply elem_of_map_to_list.
Qed.

End deletion.

(** ** Witnesses *)

Section deletion_witnesses.
#[local] Existing Instance secp_toy.

#[local] Instance DeployRow_eq_dec : EqDecision DeployRow.
Proof. solve_decision. Defined.
#[local] Instance TransactionRow_eq_dec : EqDecision TransactionRow.
Proof. solve_decision. Defined.

Example delete_undoes_add_witness :
  delete_transaction (fill "r") db_with_run =
    (Ok (), set_steps (t_step db_deployed) (t_next_step db_with_run) db_deployed).
Proof.
  exact (delete_undoes_add db_run db_deployed db_with_run db_deployed_wf run_hash_fresh I db_with_run_Ok).
Defined.

(** Two deployments of one prover; the first is deleted. *)
Definition db_second_deploy : Transaction Validated :=
  db_tx "e" (Payload.Deploy "e" (db_metadata "a") (db_metadata "q")).
Definition db_shared : Tables := snd (add_transaction db_second_deploy db_deployed).

Lemma db_shared_Ok : add_transaction db_second_deploy db_deployed = (Ok (), db_shared).
Proof. unfold db_shared. apply run_snd. by_evaluation. Qed.
Lemma db_shared_wf : db_wf db_shared.
Proof. exact (add_transaction_wf _ _ _ db_deployed_wf db_shared_Ok). Qed.
Lemma db_shared_row : t_transaction db_shared !! fill "e" = Some (row_of_tx db_second_deploy).
Proof. by_evaluation. Qed.
Lemma db_shared_deploy : t_deploy db_shared !! fill "e" = Some (MkDeployRow "e" (fill "a") (fill "q")).
Proof. by_evaluation. Qed.
Lemma db_shared_prover : fill "a" ∈ deployed_by db_shared (fill "d").
Proof. by_evaluation. Qed.

Example delete_strands_shared_deployment_witness :
  let t' := delete_rows {[fill "d"]} (deployed_by db_shared (fill "d")) db_shared in
  t_transaction t' !! fill "e" = Some (row_of_tx db_second_deploy) ∧
  db_find_transaction (λ _ l, l) t' (fill "e") = no_row ∧
  (∃ e, get_transactions (λ _ l, l) t' = Err e) ∧
  (false = false → ∃ e, get_unexecuted_transactions (λ _ l, l) t' = Err e).
Proof.
  intros t'. refine (delete_strands_shared_deployment (λ _ l, l) (λ A l, reflexivity l)
    (fill "d") (fill "e") _ _ db_shared t' db_shared_wf _ db_shared_row eq_refl db_shared_deploy
    db_shared_prover (delete_transaction_rows _ _)).
  discriminate.
Defined.
End deletion_witnesses.
