(* ===== verification/Rpc.v ===== *)
(** * JSON-RPC interface ([crates/node/src/rpc_server/mod.rs], [types/rpc.rs])

    The three request handlers, the conversion of stored transactions to what RPC
    clients see, and the transaction tree.  The recursion of [build_tx_tree] has no
    bound in the code, so it takes fuel here, and [OutOfFuel] stands for a recursion
    that did not end within it.  Parsing the request parameters, base64 and the
    [reqwest::Url] calls that make a file's url are arguments. *)

From S2P Require Import Prelude Types Models Files Transaction Event Mempool Workflow Resources Acl Database.
From stdpp Require Import pretty.

(** ** Responses *)

Module RpcError.
Inductive t :=
  | NotFound (msg : string)
  | MissingTx (msg : string)
  | InvalidRequest (msg : string)
  | Unauthorized
  | InternalError (msg : string).
End RpcError.

Inductive RpcResponse (T : Type) := RpcOk (v : T) | RpcErr (e : RpcError.t).
Arguments RpcOk {T} _.
Arguments RpcErr {T} _.

Definition RpcError_to_string (e : RpcError.t) : string :=
  match e with
  | RpcError.NotFound s => "not found: " +:+ s
  | RpcError.MissingTx s => "A tx was missing: " +:+ s
  | RpcError.InvalidRequest s => "invalid request: " +:+ s
  | RpcError.Unauthorized => "unauthorized"
  | RpcError.InternalError s => "InternalError: " +:+ s
  end.

(** [impl From<RpcResponse<T>> for Result<T, Box<dyn Error>>] *)
Definition result_of_response {T} (r : RpcResponse T) : result string T :=
  match r with
  | RpcOk v => Ok v
  | RpcErr e => Err ("RPC response error:" +:+ RpcError_to_string e)
  end.

(** [base64] with the standard alphabet; a url from scheme, host and path. *)
Class RpcLib := {
  SocketAddr : Type;
  base64_encode : list u8 → string;
  make_url : string → SocketAddr → string → string
}.

Definition HTTP_SERVER_SCHEME : string := "http://".

(** ** Transactions as RPC clients see them *)

Record TxOutputFile := MkTxOutputFile { of_url : string; of_checksum : string; of_vm_path : string }.

Module TxRpcPayload.
Inductive t :=
  | Empty
  | Transfer (to value : string)
  | Stake (value : string)
  | Unstake (value : string)
  | Deploy (name : string) (prover verifier : ProgramMetadata)
  | Run (workflow : Workflow)
  | Proof (parent prover proof : string) (files : list TxOutputFile)
  | ProofKey (parent key : string)
  | Verification (parent verifier verification : string) (files : list TxOutputFile)
  | Cancel (parent : string).
End TxRpcPayload.

Record RpcTransaction := MkRpcTransaction {
  rt_author : string;
  rt_hash : string;
  rt_payload : TxRpcPayload.t;
  rt_nonce : Z;
  rt_signature : string
}.

Section conversions.
Context `{Hex, Secp, RpcLib}.

Definition from_txfile (file : TxFile Output) (tx_hash : Hash) (scheme : string) (host : SocketAddr)
    : TxOutputFile :=
  MkTxOutputFile (make_url scheme host (get_uri (into_download_file file tx_hash)))
    (Hash_to_string (tf_checksum file)) (tf_name file).

Definition convert_payload_ouput (proof : list u8) (files : list (TxFile Output)) (tx_hash : Hash)
    (host : SocketAddr) : string * list TxOutputFile :=
  (base64_encode proof, (λ f, from_txfile f tx_hash HTTP_SERVER_SCHEME host) <$> files).

Definition from_tx_payload (payload : Payload.t) (tx_hash : Hash) (host : SocketAddr) : TxRpcPayload.t :=
  match payload with
  | Payload.Empty => TxRpcPayload.Empty
  | Payload.Transfer to value => TxRpcPayload.Transfer (hex_encode (pk_serialize to)) (pretty value)
  | Payload.Stake value => TxRpcPayload.Stake (pretty value)
  | Payload.Unstake value => TxRpcPayload.Unstake (pretty value)
  | Payload.Deploy name prover verifier => TxRpcPayload.Deploy name prover verifier
  | Payload.Run workflow => TxRpcPayload.Run workflow
  | Payload.Proof parent prover proof files =>
      let '(proof, files) := convert_payload_ouput proof files tx_hash host in
      TxRpcPayload.Proof (Hash_to_string parent) (Hash_to_string prover) proof files
  | Payload.ProofKey parent key => TxRpcPayload.ProofKey (Hash_to_string parent) (hex_encode key)
  | Payload.Verification parent verifier verification files =>
      let '(verification, files) := convert_payload_ouput verification files tx_hash host in
      TxRpcPayload.Verification (Hash_to_string parent) (Hash_to_string verifier) verification files
  | Payload.Cancel parent => TxRpcPayload.Cancel (Hash_to_string parent)
  end.

Definition from_tx_validated (tx : Transaction Validated) (host : SocketAddr) : RpcTransaction :=
  MkRpcTransaction (hex_encode (pk_serialize (author tx))) (Hash_to_string (hash tx))
    (from_tx_payload (payload tx) (hash tx) host) (nonce tx) (Signature_to_string (signature tx)).
End conversions.

(** ** The transaction tree *)

#[local] Set Warnings "-register-all".
Inductive TransactionTree :=
  | Root (children : list TransactionTree) (hash : Hash)
  | Node (children : list TransactionTree) (hash : Hash)
  | Leaf (hash : Hash).

Definition TransactionTree_default : TransactionTree := Root [] Hash_default.

Inductive Unfinished := OutOfFuel.

Fixpoint build_tx_tree (fuel : nat) (hash : Hash) (txs : list (Hash * option Hash))
    : result Unfinished TransactionTree :=
  match fuel with
  | 0 => Err OutOfFuel
  | S fuel =>
      children ← collect_results (λ x, build_tx_tree fuel (fst x) txs)
                   (filter (λ x, snd x = Some hash) txs);
      elem ← unwrap (head (filter (λ x, fst x = hash) txs));
      Ok (match snd elem, children with
          | None, _ => Root children hash
          | Some _, [] => Leaf hash
          | Some _, _ => Node children hash
          end)
  end.

Section handlers.
Context `{Hex, Secp, Sha3, NumBigint, Bincode, Lru, UrlParse, RpcLib}.
Context (scan : ∀ A : Type, list A → list A).

(** [params] is what [params.one()] gives; [id] the callback of the request and
    [answer] what the event loop makes of it. *)
Definition send_transaction_logic (params : result string (Transaction Created)) (id : CallbackId)
    (answer : Reply) : M Channel () (RpcResponse ()) :=
  match params with
  | Ok tx =>
      sent ← attempt (rpc_send_tx id tx);
      mret (match (_ ← sent; callback_result answer) with
            | Ok _ => RpcOk ()
            | _ => RpcErr (RpcError.InvalidRequest "failed to persist transaction")
            end)
  | Err e => mret (RpcErr (RpcError.InvalidRequest e))
  | Panic => lift Panic
  end.

Definition get_transaction_logic (params : result string Hash) (host : SocketAddr) (t : Tables)
    : result () (RpcResponse RpcTransaction) :=
  match params with
  | Ok tx_hash =>
      match db_find_transaction scan t tx_hash with
      | Ok (Some tx) => Ok (RpcOk (from_tx_validated tx host))
      | Ok None => Ok (RpcErr (RpcError.NotFound (Hash_to_string tx_hash)))
      | Err e => Ok (RpcErr (RpcError.InternalError e))
      | Panic => Panic
      end
  | Err e => Ok (RpcErr (RpcError.InvalidRequest e))
  | Panic => Panic
  end.

Definition get_tx_tree_logic (fuel : nat) (params : result string Hash) (t : Tables)
    : result Unfinished (RpcResponse TransactionTree) :=
  match params with
  | Ok tx_hash =>
      txs ← match get_transaction_tree scan t tx_hash with Ok txs => Ok txs | _ => Panic end;
      match omap (λ x, match snd x with None => Some (fst x) | Some _ => None end) txs with
      | [] => Ok (RpcErr (RpcError.NotFound ("no root tx found for " +:+ Hash_to_string tx_hash)))
      | [root] => tree ← build_tx_tree fuel root txs; Ok (RpcOk tree)
      | _ => Ok (RpcErr (RpcError.InvalidRequest
                    ("more than one root elements found for " +:+ Hash_to_string tx_hash)))
      end
  | Err e => Ok (RpcErr (RpcError.InvalidRequest e))
  | Panic => Panic
  end.
End handlers.

(** ** Building a tree *)

Fixpoint tree_hashes (tree : TransactionTree) : list Hash :=
  match tree with
  | Root children h | Node children h => h :: flat_map tree_hashes children
  | Leaf h => [h]
  end.

Section trees.
Context (txs : list (Hash * option Hash)).

Definition child_of (parent child : Hash) : Prop := (child, Some parent) ∈ txs.

Lemma head_filter_exists h : h ∈ txs.*1 → ∃ e, head (filter (λ x, fst x = h) txs) = Some e.
Proof.
  intros (e & He & Hin)%list_elem_of_fmap.
  assert (e ∈ filter (λ x, fst x = h) txs) as Hf by (by apply list_elem_of_filter).
  destruct (filter _ _); [by apply elem_of_nil in Hf|]. by eexists.
Qed.

Lemma child_listed h x : x ∈ filter (λ x, snd x = Some h) txs → fst x ∈ txs.*1 ∧ child_of h (fst x).
Proof.
  intros [Hs Hx]%list_elem_of_filter. split; [by apply list_elem_of_fmap_2|].
  unfold child_of. by destruct x as [a b]; simpl in *; subst.
Qed.

(** Building never panics: the [unwrap] finds the element it looks for. *)
Lemma build_never_panics fuel h : h ∈ txs.*1 → build_tx_tree fuel h txs ≠ Panic.
Proof.
  revert h. induction fuel as [|fuel IH]; intros h Hh; [done|]. cbn [build_tx_tree].
  destruct (head_filter_exists h Hh) as [e He]. rewrite He.
  assert (collect_results (λ x, build_tx_tree fuel (fst x) txs)
            (filter (λ x, snd x = Some h) txs) ≠ Panic) as Hc.
  { apply collect_results_no_panic. intros x Hx. apply IH. by apply (child_listed h). }
  by destruct (collect_results _ _).
Qed.

Lemma tree_hashes_children (children : list TransactionTree) h (e : option Hash) :
  tree_hashes (match e, children with
               | None, _ => Root children h | Some _, [] => Leaf h | Some _, _ => Node children h
               end) = h :: flat_map tree_hashes children.
Proof. by destruct e, children. Qed.

(** If a rank decreases from parents to children, building ends, with fuel above the
    rank, and the tree holds exactly the descendants. *)
Lemma build_tx_tree_ok (rank : Hash → nat) fuel h :
  (∀ p c, child_of p c → rank c < rank p) → h ∈ txs.*1 → rank h < fuel →
  ∃ tree, build_tx_tree fuel h txs = Ok tree ∧ ∀ x, x ∈ tree_hashes tree ↔ rtc child_of h x.
Proof.
  intros Hrank. revert h. induction fuel as [|fuel IH]; intros h Hh Hf; [lia|].
  destruct (head_filter_exists h Hh) as [e He].
  destruct (collect_results_total (λ x, build_tx_tree fuel (fst x) txs)
              (filter (λ x, snd x = Some h) txs)) as [ts Hts].
  { intros x [Hx Hc]%child_listed. destruct (IH (fst x)) as (tr & Htr & _); eauto.
    specialize (Hrank _ _ Hc). lia. }
  eexists. split; [cbn [build_tx_tree]; rewrite Hts; simpl; by rewrite He|].
  intros x. rewrite tree_hashes_children, elem_of_cons. apply collect_results_Ok in Hts.
  split.
  - intros [->|Hx]; [by apply rtc_refl|]. apply list_elem_of_In, in_flat_map in Hx as (tr & Htr & Hx).
    apply list_elem_of_In, list_elem_of_lookup_1 in Htr as [i Hi].
    destruct (Forall2_lookup_r _ _ _ _ _ Hts Hi) as (y & Hy & Hb).
    apply list_elem_of_lookup_2, child_listed in Hy as [Hy Hc].
    apply list_elem_of_In in Hx. eapply rtc_l; [exact Hc|].
    destruct (IH (fst y) Hy) as (tr' & Htr' & Hin); [specialize (Hrank _ _ Hc); lia|].
    rewrite Hb in Htr'. injection Htr' as <-. by apply Hin.
  - intros Hx. inversion Hx as [|? y ? Hc Hrest]; subst; [by left|]. right.
    assert ((y, Some h) ∈ filter (λ x, snd x = Some h) txs) as Hy by (by apply list_elem_of_filter).
    assert (y ∈ txs.*1) as Hl by (by apply (child_listed h (y, Some h))).
    apply list_elem_of_lookup_1 in Hy as [i Hi].
    destruct (Forall2_lookup_l _ _ _ _ _ Hts Hi) as (tr & Htr & Hb). simpl in Hb.
    destruct (IH y Hl) as (tr' & Htr' & Hin); [specialize (Hrank _ _ Hc); lia|].
    rewrite Hb in Htr'. injection Htr' as <-.
    apply list_elem_of_In, in_flat_map. exists tr.
    split; apply list_elem_of_In; [by eapply list_elem_of_lookup_2|by apply Hin].
Qed.

(** A transaction that is its own parent has no tree. *)
Lemma build_self_parent fuel h : child_of h h → build_tx_tree fuel h txs = Err OutOfFuel.
Proof.
  intros Hc. assert (h ∈ txs.*1) as Hh by (apply list_elem_of_fmap; by exists (h, Some h)).
  assert (∀ tr, build_tx_tree fuel h txs ≠ Ok tr) as Hno.
  { induction fuel as [|fuel IH]; intros tr; [done|]. cbn [build_tx_tree].
    intros (ts & Hts & _)%result_bind_Ok. apply collect_results_Ok in Hts.
    assert ((h, Some h) ∈ filter (λ x, snd x = Some h) txs) as Hin by (by apply list_elem_of_filter).
    apply list_elem_of_lookup_1 in Hin as [i Hi].
    destruct (Forall2_lookup_l _ _ _ _ _ Hts Hi) as (tr' & _ & Hb). by apply IH in Hb. }
  assert (Hp := build_never_panics fuel h Hh).
  destruct (build_tx_tree fuel h txs) as [tr|[]|]; [by destruct (Hno tr)|done|done].
Qed.
End trees.

(** ** The tree of a stored transaction *)

Section stored_trees.
Context `{Hex, Secp}.
Context (scan : ∀ A : Type, list A → list A).
Context (scan_perm : ∀ A (l : list A), scan A l ≡ₚ l).
Context (t : Tables).
Context (Ht : db_wf t).

(** [p] is a proof of [r]; [v] is a verification of [p]. *)
Definition proves (r p : Hash) : Prop := ∃ row, t_proof t !! p = Some row ∧ pr_parent row = r.
Definition verifies (p v : Hash) : Prop := ∃ row, t_verification t !! v = Some row ∧ pr_parent row = p.

(** [r] is the run of a verified proof, and [h] is the run, the proof or the
    verification. *)
Definition tree_root (h r : Hash) : Prop :=
  ∃ p v, proves r p ∧ verifies p v ∧ (r = h ∨ p = h ∨ v = h).

Lemma elem_of_tree_roots h r : r ∈ tree_roots t h ↔ tree_root h r.
Proof.
  unfold tree_roots, tree_root, proves, verifies. rewrite list_elem_of_bind. split.
  - intros ([p pr] & Hr & Hp%elem_of_map_to_list). apply list_elem_of_bind in Hr
      as ([v vr] & Hr & Hv%elem_of_map_to_list). simpl in Hr.
    destruct (has_tx t (pr_parent pr)); [|by apply elem_of_nil in Hr]. simpl in Hr.
    case_bool_decide; [|by apply elem_of_nil in Hr]. simpl in Hr.
    destruct (_ || _) eqn:Ho; [|by apply elem_of_nil in Hr].
    apply list_elem_of_singleton in Hr as ->. subst. exists (pr_parent vr), v. split_and!; [by eauto..|].
    rewrite !orb_true_iff, !bool_decide_eq_true in Ho. tauto.
  - intros (p & v & (pr & Hp & Hr) & (vr & Hv & <-) & Ho). exists (pr_parent vr, pr).
    split; [|by apply elem_of_map_to_list]. apply list_elem_of_bind. exists (v, vr).
    split; [|by apply elem_of_map_to_list]. simpl.
    destruct (wf_proof t Ht _ _ Hp) as (_ & Hpar & _). rewrite Hpar, bool_decide_eq_true_2 by done.
    simpl. subst r.
    assert (bool_decide (pr_parent pr = h) || bool_decide (pr_parent vr = h) || bool_decide (v = h) = true)
      as -> by (rewrite !orb_true_iff, !bool_decide_eq_true; tauto). by left.
Qed.

Lemma elem_of_tree_proofs h p r :
  (p, Some r) ∈ ((λ p, (fst p, Some (pr_parent (snd p)))) <$>
    filter (λ p, has_tx t (fst p) = true)
      (filter (λ p, pr_parent (snd p) ∈ tree_roots t h) (map_to_list (t_proof t)))) ↔
  proves r p ∧ tree_root h r.
Proof.
  rewrite list_elem_of_fmap. split.
  - intros ([q row] & Heq & Hq). simpl in Heq. injection Heq as -> ->.
    apply list_elem_of_filter in Hq as [_ (Hr & Hq%elem_of_map_to_list)%list_elem_of_filter].
    split; [by exists row|]. by apply elem_of_tree_roots.
  - intros [(row & Hp & <-) Hr]. exists (p, row). split; [done|].
    apply list_elem_of_filter. split; [by apply (wf_proof t Ht p row)|].
    apply list_elem_of_filter. split; [by apply elem_of_tree_roots|]. by apply elem_of_map_to_list.
Qed.

Lemma elem_of_tree_verifications h v p :
  (v, Some p) ∈ ((λ v, (fst v, Some (pr_parent (snd v)))) <$>
    filter (λ v, has_tx t (fst v) = true)
      (filter (λ v, pr_parent (snd v) ∈
          (filter (λ p, pr_parent (snd p) ∈ tree_roots t h) (map_to_list (t_proof t))).*1)
         (map_to_list (t_verification t)))) ↔
  verifies p v ∧ ∃ r, proves r p ∧ tree_root h r.
Proof.
  rewrite list_elem_of_fmap. split.
  - intros ([q row] & Heq & Hq). simpl in Heq. injection Heq as -> ->.
    apply list_elem_of_filter in Hq as [_ (Hr & Hq%elem_of_map_to_list)%list_elem_of_filter].
    split; [by exists row|]. simpl in Hr.
    apply list_elem_of_fmap in Hr as ([p prow] & Hp1 & (Hr & Hp2%elem_of_map_to_list)%list_elem_of_filter).
    simpl in *. subst p. exists (pr_parent prow). split; [by exists prow|]. by apply elem_of_tree_roots.
  - intros [(row & Hv & <-) (r & (prow & Hp & <-) & Hr)]. exists (v, row). split; [done|].
    apply list_elem_of_filter. split; [by apply (wf_verification t Ht v row)|].
    apply list_elem_of_filter. split; [|by apply elem_of_map_to_list]. simpl.
    apply list_elem_of_fmap. exists (pr_parent row, prow). split; [done|].
    apply list_elem_of_filter. split; [by apply elem_of_tree_roots|]. by apply elem_of_map_to_list.
Qed.

(** The rows of the tree query. *)
Lemma tree_rows h txs :
  get_transaction_tree scan t h = Ok txs →
  NoDup txs ∧
  (∀ x, (x, None) ∈ txs ↔ tree_root h x) ∧
  (∀ x y, (x, Some y) ∈ txs ↔
     proves y x ∧ tree_root h y ∨ verifies y x ∧ ∃ r, proves r y ∧ tree_root h r).
Proof.
  unfold get_transaction_tree. intros [= <-]. split_and!.
  - rewrite scan_perm. apply NoDup_remove_dups.
  - intros x. rewrite scan_perm, elem_of_remove_dups, !elem_of_app, list_elem_of_fmap. split.
    + intros [(r & [= ->] & Hr)|[(? & ? & _)%list_elem_of_fmap|(? & ? & _)%list_elem_of_fmap]];
        [by apply elem_of_tree_roots|done..].
    + intros Hr. left. exists x. split; [done|]. by apply elem_of_tree_roots.
  - intros x y. rewrite scan_perm, elem_of_remove_dups, !elem_of_app.
    rewrite elem_of_tree_proofs, elem_of_tree_verifications.
    split; [intros [(? & ? & _)%list_elem_of_fmap|?]; [done|auto]|auto].
Qed.

(** Proofs, verifications and what they are results of are different transactions. *)
Definition layered : Prop :=
  (∀ r p, proves r p → t_proof t !! r = None ∧ t_verification t !! r = None) ∧
  (∀ p v, verifies p v → t_verification t !! p = None) ∧
  (∀ p, is_Some (t_proof t !! p) → t_verification t !! p = None).

Lemma proves_fun r r' p : proves r p → proves r' p → r = r'.
Proof. intros (row & H1 & <-) (row' & H2 & <-). congruence. Qed.
Lemma verifies_fun p p' v : verifies p v → verifies p' v → p = p'.
Proof. intros (row & H1 & <-) (row' & H2 & <-). congruence. Qed.

Lemma tree_root_unique h r r' : layered → tree_root h r → tree_root h r' → r = r'.
Proof.
  intros (L1 & L2 & L3) (p & v & Hp & Hv & Hh) (p' & v' & Hp' & Hv' & Hh').
  destruct (L1 _ _ Hp), (L1 _ _ Hp').
  assert (∃ row, t_proof t !! p = Some row) as [? E1] by (destruct Hp as (? & ? & ?); eauto).
  assert (∃ row, t_proof t !! p' = Some row) as [? E2] by (destruct Hp' as (? & ? & ?); eauto).
  assert (∃ row, t_verification t !! v = Some row) as [? E3] by (destruct Hv as (? & ? & ?); eauto).
  assert (∃ row, t_verification t !! v' = Some row) as [? E4] by (destruct Hv' as (? & ? & ?); eauto).
  assert (t_verification t !! p = None) by (apply L3; by rewrite E1).
  assert (t_verification t !! p' = None) by (apply L3; by rewrite E2).
  destruct Hh as [<-|[<-|<-]], Hh' as [<-|[-> | ->]]; try congruence.
  - by apply (proves_fun r r' p).
  - assert (p = p') as <- by by apply (verifies_fun p p' v). by apply (proves_fun r r' p).
Qed.

Definition rank (x : Hash) : nat :=
  match t_verification t !! x, t_proof t !! x with Some _, _ => 0 | None, Some _ => 1 | _, _ => 2 end.

Lemma rank_decreases h txs p c :
  layered → get_transaction_tree scan t h = Ok txs → child_of txs p c → rank c < rank p.
Proof.
  intros (L1 & L2 & L3) (_ & _ & Hrows)%tree_rows Hc. unfold rank. apply Hrows in Hc as [[Hc _]|[Hc _]].
  - destruct (L1 _ _ Hc) as [-> ->]. destruct Hc as (row & Hrow & _).
    rewrite L3, Hrow by (by rewrite Hrow). lia.
  - rewrite (L2 _ _ Hc). destruct Hc as (row & -> & _). destruct (t_proof t !! p); lia.
Qed.

Lemma roots_NoDup (txs : list (Hash * option Hash)) :
  NoDup txs → NoDup (omap (λ x, match snd x with None => Some (fst x) | Some _ => None end) txs).
Proof.
  induction 1 as [|[x [y|]] l Hx Hl IH]; simpl; [constructor|done|]. constructor; [|done].
  intros ([z [w|]] & Hz & [= ->])%list_elem_of_omap. done.
Qed.

Lemma elem_of_roots (txs : list (Hash * option Hash)) r :
  r ∈ omap (λ x, match snd x with None => Some (fst x) | Some _ => None end) txs ↔ (r, None) ∈ txs.
Proof.
  rewrite list_elem_of_omap. split; [by intros ([z [w|]] & Hz & [= ->])|].
  intros Hr. by exists (r, None).
Qed.

Lemma roots_singleton h r txs :
  (∀ r', tree_root h r' ↔ r' = r) → get_transaction_tree scan t h = Ok txs →
  omap (λ x, match snd x with None => Some (fst x) | Some _ => None end) txs = [r].
Proof.
  intros Hroot (Hnd & Hrows & _)%tree_rows.
  apply Permutation_singleton_r, NoDup_Permutation; [by apply roots_NoDup|apply NoDup_singleton|].
  intros x. by rewrite elem_of_roots, Hrows, Hroot, list_elem_of_singleton.
Qed.

Lemma tree_child h r txs p c :
  layered → tree_root h r → get_transaction_tree scan t h = Ok txs →
  child_of txs p c ↔ p = r ∧ proves r c ∨ proves r p ∧ verifies p c.
Proof.
  intros HL Hr (_ & _ & Hrows)%tree_rows. unfold child_of. rewrite Hrows. split.
  - intros [[Hp Hr']|[Hv (r' & Hp & Hr')]]; rewrite (tree_root_unique h r _ HL Hr Hr') in *; auto.
  - intros [[-> Hp]|[Hp Hv]]; eauto 6.
Qed.

Lemma proves_irrefl r : layered → ¬ proves r r.
Proof. intros (L1 & _) Hr. destruct (L1 r r Hr) as [Hn _]. destruct Hr as (? & ? & _). congruence. Qed.

Lemma descendants h r txs x :
  layered → tree_root h r → get_transaction_tree scan t h = Ok txs →
  rtc (child_of txs) r x ↔ x = r ∨ proves r x ∨ ∃ p, proves r p ∧ verifies p x.
Proof.
  intros HL Hr Htxs. assert (Hc := λ p c, tree_child h r txs p c HL Hr Htxs).
  assert (Hirr := proves_irrefl r HL). split.
  - intros Hx. inversion Hx as [|? y ? H1 Hy]; subst; [by left|]. right.
    apply Hc in H1 as [[_ H1]|[? _]]; [|done].
    inversion Hy as [|? z ? H2 Hz]; subst; [by left|]. right.
    apply Hc in H2 as [[-> _]|[_ H2]]; [done|].
    inversion Hz as [|? w ? H3 _]; subst; [by eauto|]. exfalso.
    destruct HL as (L1 & L2 & L3). destruct H2 as (row & H2 & _).
    apply Hc in H3 as [[-> _]|[H3 _]]; [destruct (L1 _ _ H1); congruence|].
    destruct H3 as (row' & H3 & _). rewrite L3 in H2; [done|by rewrite H3].
  - intros [->|[Hp|(p & Hp & Hv)]]; [by apply rtc_refl|apply rtc_once, Hc; auto|].
    apply (rtc_l _ _ p); [|apply rtc_once]; apply Hc; auto.
Qed.

(** C28: In a database in which nothing is a proof of a proof or of a verification, no
    verification verifies a verification, and no transaction is both ([layered]; the node
    does not enforce it, and [self_parent_tree_diverges] shows what happens without it),
    the tree of a transaction that belongs to a verified proof (as the run, the
    proof or the verification) is built within recursion depth three, and holds
    exactly the run, all of its proofs and all verifications of those proofs.  For
    any other transaction the answer is [NotFound]. *)
Theorem get_tx_tree_spec h fuel :
  layered → 3 ≤ fuel →
  (∀ r, tree_root h r →
     ∃ tree, get_tx_tree_logic scan fuel (Ok h) t = Ok (RpcOk tree) ∧
       ∀ x, x ∈ tree_hashes tree ↔ x = r ∨ proves r x ∨ ∃ p, proves r p ∧ verifies p x) ∧
  ((∀ r, ¬ tree_root h r) → ∃ msg,
     get_tx_tree_logic scan fuel (Ok h) t = Ok (RpcErr (RpcError.NotFound msg))).
Proof.
  intros HL Hf. unfold get_tx_tree_logic.
  destruct (get_transaction_tree scan t h) as [txs| |] eqn:Htxs; [|done..]. simpl.
  destruct (tree_rows h txs Htxs) as (Hnd & Hroots & Hrows). split.
  - intros r Hr. rewrite (roots_singleton h r txs);
      [|intros r'; split; [by eauto using tree_root_unique|by intros ->]|done].
    destruct (build_tx_tree_ok txs rank fuel r) as (tree & Htree & Hin).
    + intros p c. by apply (rank_decreases h).
    + apply list_elem_of_fmap. exists (r, None). split; [done|]. by apply Hroots.
    + unfold rank. destruct (t_verification t !! r), (t_proof t !! r); lia.
    + exists tree. rewrite Htree. split; [done|]. intros x. rewrite Hin.
      by apply (descendants h).
  - intros Hno. destruct (omap _ txs) as [|r l] eqn:Ho; [by eexists|].
    assert (r ∈ omap (λ x : Hash * option Hash, match snd x with None => Some (fst x) | Some _ => None end) txs)
      as Hr by (rewrite Ho; by left).
    apply elem_of_roots, Hroots in Hr. by destruct (Hno r).
Qed.

(** A stored proof that names itself as its parent makes the request handler
    recurse without end: whatever the depth, the tree is not finished. *)
Theorem self_parent_tree_diverges p v fuel :
  proves p p → verifies p v → t_verification t !! p = None →
  get_tx_tree_logic scan fuel (Ok p) t = Err OutOfFuel.
Proof.
  intros Hp Hv Hn. unfold get_tx_tree_logic.
  destruct (get_transaction_tree scan t p) as [txs| |] eqn:Htxs; [|done..]. simpl.
  assert (tree_root p p) as Hroot by (exists p, v; auto).
  rewrite (roots_singleton p p txs); [|intros r; split|done].
  - rewrite build_self_parent; [done|]. apply (tree_rows p txs Htxs). auto.
  - intros (q & w & Hq & Hw & [->|[-> | ->]]); [done|by apply (proves_fun r p p)|].
    destruct Hw as (? & ? & _). congruence.
  - by intros ->.
Qed.
End stored_trees.

(** ** Witnesses *)

Section rpc_witnesses.
#[local] Existing Instances hex_crate secp_toy.

Definition db_verification : Transaction Validated :=
  db_tx "v" (Payload.Verification (fill "p") (fill "b") [] []).
Definition db_verified : Tables := snd (add_transaction db_verification db_with_proof).
Lemma db_verified_Ok : add_transaction db_verification db_with_proof = (Ok (), db_verified).
Proof. unfold db_verified. apply run_snd. by_evaluation. Qed.
Lemma db_with_proof_wf : db_wf db_with_proof.
Proof. exact (add_transaction_wf _ _ _ db_with_run_wf db_with_proof_Ok). Qed.
Lemma db_verified_wf : db_wf db_verified.
Proof. exact (add_transaction_wf _ _ _ db_with_proof_wf db_verified_Ok). Qed.

Lemma db_verified_proofs : t_proof db_verified = {[fill "p" := MkProofRow (fill "r") (fill "a") []]}.
Proof. by_evaluation. Qed.
Lemma db_verified_verifications :
  t_verification db_verified = {[fill "v" := MkProofRow (fill "p") (fill "b") []]}.
Proof. by_evaluation. Qed.

Lemma db_verified_layered : layered db_verified.
Proof.
  unfold layered, proves, verifies. rewrite db_verified_proofs, db_verified_verifications.
  split_and!.
  - intros r p (row & [<- <-]%lookup_singleton_Some & <-). split; by_evaluation.
  - intros p v (row & [<- <-]%lookup_singleton_Some & <-). by_evaluation.
  - intros p [row [<- _]%lookup_singleton_Some]. by_evaluation.
Qed.

Lemma db_verified_root : tree_root db_verified (fill "v") (fill "r").
Proof.
  exists (fill "p"), (fill "v"). unfold proves, verifies.
  rewrite db_verified_proofs, db_verified_verifications.
  split_and!; [eexists; split; [apply lookup_singleton_eq|done]..|auto].
Qed.

Example get_tx_tree_spec_witness :
  ∃ tree, get_tx_tree_logic (λ _ l, l) 3 (Ok (fill "v")) db_verified = Ok (RpcOk tree) ∧
    ∀ x, x ∈ tree_hashes tree ↔ x = fill "r" ∨ proves db_verified (fill "r") x ∨
      ∃ p, proves db_verified (fill "r") p ∧ verifies db_verified p x.
Proof.
  exact (proj1 (get_tx_tree_spec (λ _ l, l) (λ A l, Permutation_refl l) db_verified db_verified_wf
    (fill "v") 3 db_verified_layered (le_n 3)) (fill "r") db_verified_root).
Defined.

Definition db_own_parent : Transaction Validated :=
  db_tx "p" (Payload.Proof (fill "p") (fill "a") [] []).
Definition db_looped : Tables := snd (add_transaction db_own_parent db_deployed).
Lemma db_looped_Ok : add_transaction db_own_parent db_deployed = (Ok (), db_looped).
Proof. unfold db_looped. apply run_snd. by_evaluation. Qed.
Definition db_loop_verified : Tables := snd (add_transaction db_verification db_looped).
Lemma db_loop_verified_Ok : add_transaction db_verification db_looped = (Ok (), db_loop_verified).
Proof. unfold db_loop_verified. apply run_snd. by_evaluation. Qed.
Lemma db_loop_verified_wf : db_wf db_loop_verified.
Proof.
  exact (add_transaction_wf _ _ _ (add_transaction_wf _ _ _ db_deployed_wf db_looped_Ok)
           db_loop_verified_Ok).
Qed.

Lemma db_loop_proof : t_proof db_loop_verified !! fill "p" = Some (MkProofRow (fill "p") (fill "a") []).
Proof. by_evaluation. Qed.
Lemma db_loop_verification :
  t_verification db_loop_verified !! fill "v" = Some (MkProofRow (fill "p") (fill "b") []).
Proof. by_evaluation. Qed.
Lemma db_loop_no_verification : t_verification db_loop_verified !! fill "p" = None.
Proof. by_evaluation. Qed.

Example self_parent_tree_diverges_witness :
  get_tx_tree_logic (λ _ l, l) 1000 (Ok (fill "p")) db_loop_verified = Err OutOfFuel.
Proof.
  exact (self_parent_tree_diverges (λ _ l, l) (λ A l, Permutation_refl l) db_loop_verified
    db_loop_verified_wf (fill "p") (fill "v") 1000
    (ex_intro _ _ (conj db_loop_proof eq_refl)) (ex_intro _ _ (conj db_loop_verification eq_refl))
    db_loop_no_verification).
Defined.
End rpc_witnesses.
