(* ===== verification/Vmm.v ===== *)
(** * The QEMU provider ([crates/node/src/vmm/qemu.rs])

    VSOCK context ids, the registry that tells which VM a request comes from, and
    starting and stopping QEMU processes.  The processes of the node are a table
    from process id to command line; what the operating system answers (spawning,
    killing, the QMP connection, the log files) is an argument.  [allocate_cid]
    loops until it finds an id: it takes fuel, and a bound on the fuel it needs is
    proved. *)

From S2P Require Import Prelude Types Models Files Resources.
From stdpp Require Import pretty.

Record QEMUVMHandle := MkQEMUVMHandle {
  child : option Z;
  cid : Z;
  qh_tx_hash : Hash;
  qh_program_id : Hash;
  workspace_volume_label : string
}.

Record Qemu := MkQemu {
  next_cid : Z;
  cid_allocations : gset Z;
  vm_registry : gmap Z QEMUVMHandle
}.

(** The fields of [Config] the provider reads. *)
Record Config := MkConfig {
  data_directory : string;
  log_directory : string;
  gpu_devices : option string;
  qemu_path : string
}.

Definition Qemu_new : Qemu := MkQemu 4 ∅ ∅.

(** One round of the loop of [allocate_cid]; [fetch_add] wraps around. *)
Fixpoint allocate_cid (fuel : nat) (q : Qemu) : option (Z * Qemu) :=
  match fuel with
  | 0 => None
  | S fuel =>
      let cid := next_cid q in
      let next := u32_wrap (cid + 1) in
      if (cid <? 3)%Z then allocate_cid fuel (MkQemu next (cid_allocations q) (vm_registry q))
      else if bool_decide (cid ∈ cid_allocations q)
      then allocate_cid fuel (MkQemu next (cid_allocations q) (vm_registry q))
      else Some (cid, MkQemu next ({[cid]} ∪ cid_allocations q) (vm_registry q))
  end.

Definition release_cid (cid : Z) (q : Qemu) : Qemu :=
  if bool_decide (cid ∈ cid_allocations q)
  then MkQemu (next_cid q) (cid_allocations q ∖ {[cid]}) (delete cid (vm_registry q))
  else q.

(** [conn] is the connection info of the request; it is there for every VSOCK
    connection, and its peer address may be unknown. *)
Definition find_by_req (conn : option (option Z)) (q : Qemu) : result string (option (Hash * Hash * Z)) :=
  peer_addr ← unwrap conn;
  Ok (addr ← peer_addr; handle ← vm_registry q !! addr;
      Some (qh_tx_hash handle, qh_program_id handle, addr)).

(** ** Command line *)

(** [str::split(',')] *)
Fixpoint split_on (sep : u8) (s : string) : list string :=
  match s with
  | EmptyString => [""]
  | String c s' =>
      if decide (c = sep) then "" :: split_on sep s'
      else match split_on sep s' with
           | [] => [String c ""]
           | p :: ps => String c p :: ps
           end
  end.

Definition parse_gpu_devices_into_qemu_params (arg : string) : list string :=
  d ← split_on "," arg; ["-device"; "vfio-pci,rombar=0,host=" +:+ d].

Definition qmp_port (cid : Z) : Z := u32_wrap (cid `mod` 64512 + 1024).

Section command.
Context `{Hex}.

Definition image_file (config : Config) (program : Program) : string :=
  path_push (path_push (path_push (data_directory config) IMAGES_DIR)
    (Hash_to_string (prg_hash program))) (prg_image_file_name program).

Definition qemu_args (config : Config) (cid : Z) (tx_hash : Hash) (program : Program)
    (req : ResourceRequest) : list string :=
  ["-machine"; "q35";
   "-device"; "pcie-root-port,port=0x10,chassis=1,id=pci.1,bus=pcie.0,multifunction=on,addr=0x3";
   "-device"; "pcie-root-port,port=0x11,chassis=2,id=pci.2,bus=pcie.0,addr=0x3.0x1";
   "-device"; "pcie-root-port,port=0x12,chassis=3,id=pci.3,bus=pcie.0,addr=0x3.0x2";
   "-device"; "virtio-scsi-pci,bus=pci.2,addr=0x0,id=scsi0";
   "-device"; "scsi-hd,bus=scsi0.0,drive=hd0";
   "-vga"; "none";
   "-smp"; pretty (rr_cpus req);
   "-device"; "isa-debug-exit";
   "-m"; pretty (rr_mem req) +:+ "M";
   "-device"; "virtio-rng-pci";
   "-machine"; "accel=kvm:tcg";
   "-cpu"; "max";
   "-drive"; "file=" +:+ image_file config program +:+ ",format=raw,if=none,id=hd0,readonly=on";
   "-display"; "none";
   "-serial"; "stdio";
   "-virtfs"; "local,path=" +:+ get_workspace_path (data_directory config) tx_hash
                +:+ ",mount_tag=0,security_model=none,multidevs=remap,id=hd0";
   "-device"; "vhost-vsock-pci,guest-cid=" +:+ pretty cid;
   "-qmp"; "tcp:localhost:" +:+ pretty (qmp_port cid) +:+ ",server"]
  ++ match gpu_devices config with
     | Some devices => if (0 <? rr_gpus req)%Z then parse_gpu_devices_into_qemu_params devices else []
     | None => []
     end.
End command.

(** ** Starting and stopping VMs *)

(** The provider and the processes of the node: id to command line. *)
Record Host := MkHost { host_qemu : Qemu; host_procs : gmap Z (list string) }.

(** One attempt to connect to the QMP port of a starting VM. *)
Inductive Attempt := Connected | Refused | TimedOut.

Inductive Connection := Client | GaveUp | ConnectTimeout.

(** The [while client.is_none()] loop; each refused attempt is counted. *)
Fixpoint connect (fuel retry_count : nat) (attempts : nat → Attempt) : option Connection :=
  match fuel with
  | 0 => None
  | S fuel =>
      if 100 <? retry_count then Some GaveUp
      else match attempts retry_count with
           | Connected => Some Client
           | Refused => connect fuel (S retry_count) attempts
           | TimedOut => Some ConnectTimeout
           end
  end.

(** What the environment does to one [start_vm]. *)
Record StartEnv := MkStartEnv {
  env_label : string;
  env_logs : result string ();
  env_spawn : option Z;
  env_attempts : nat → Attempt;
  env_now : Z
}.

Section provider.
Context `{Hex} (config : Config).
(** Whether [kill] and [wait] succeed on a process. *)
Context (kill_ok wait_ok : Z → bool).

Definition set_registry (r : gmap Z QEMUVMHandle) (q : Qemu) : Qemu :=
  MkQemu (next_cid q) (cid_allocations q) r.
Definition on_qemu (f : Qemu → Qemu) (h : Host) : Host := MkHost (f (host_qemu h)) (host_procs h).

Definition kill_and_wait (child : option Z) : M Host string () :=
  match child with
  | None => throw "No child process defined for this handle"
  | Some p =>
      if kill_ok p then
        _ ← modify (λ h, MkHost (host_qemu h) (delete p (host_procs h)));
        if wait_ok p then mret () else throw "wait failed"
      else throw "kill failed"
  end.

(** [vm_registry.remove(&cid); cid_allocations.remove(&cid);] *)
Definition forget (cid : Z) (q : Qemu) : Qemu :=
  MkQemu (next_cid q) (cid_allocations q ∖ {[cid]}) (delete cid (vm_registry q)).

Definition enough_cid_fuel (q : Qemu) : nat := size (cid_allocations q) + 4.
Definition CONNECT_FUEL : nat := 102.

(** A run whose fuel is not enough does not return; [allocate_cid_total] and
    [connect_total] show that it is enough. *)
Definition Qemu_start_vm (env : StartEnv) (tx_hash : Hash) (program : Program) (req : ResourceRequest)
    : M Host string VMHandle :=
  h ← get;
  match allocate_cid (enough_cid_fuel (host_qemu h)) (host_qemu h) with
  | None => lift Panic
  | Some (cid, q) =>
      let handle c := MkQEMUVMHandle c cid tx_hash (prg_hash program) (env_label env) in
      _ ← modify (on_qemu (λ _, set_registry (<[cid := handle None]> (vm_registry q)) q));
      _ ← lift (env_logs env);
      pid ← lift (unwrap (env_spawn env));
      _ ← modify (λ h, MkHost
            (set_registry (<[cid := handle (Some pid)]> (vm_registry (host_qemu h))) (host_qemu h))
            (<[pid := qemu_path config :: qemu_args config cid tx_hash program req]> (host_procs h)));
      match connect CONNECT_FUEL 0 (env_attempts env) with
      | Some Client => mret (MkVMHandle (env_now env) cid)
      | Some GaveUp =>
          _ ← kill_and_wait (Some pid); _ ← modify (on_qemu (forget cid)); throw "Failed to start QEMU"
      | Some ConnectTimeout =>
          _ ← kill_and_wait (Some pid); _ ← modify (on_qemu (forget cid));
          throw "Failed to connect to QEMU QMP"
      | None => lift Panic
      end
  end.

Definition Qemu_stop_vm (vm : VMHandle) : M Host string () :=
  h ← get;
  match vm_registry (host_qemu h) !! vm_id vm with
  | Some handle =>
      _ ← kill_and_wait (child handle);
      _ ← modify (on_qemu (release_cid (cid handle)));
      modify (on_qemu (λ q, set_registry (delete (cid handle) (vm_registry q)) q))
  | None => lift Panic
  end.

Definition qemu_provider (env : Host → StartEnv) : Provider Host :=
  MkProvider (λ tx p r h, Qemu_start_vm (env h) tx p r h) Qemu_stop_vm.
End provider.

(** ** Context ids *)

Definition cid_bad (q : Qemu) (c : Z) : Prop := (0 ≤ c < 3)%Z ∨ c ∈ cid_allocations q.

(** The k-th id tried, with [next_cid] at [n]. *)
Definition tried (n : Z) (k : nat) : Z := u32_wrap (n + Z.of_nat k).

Lemma tried_0 n : (0 ≤ n < 2 ^ 32)%Z → tried n 0 = n.
Proof. intros Hn. unfold tried, u32_wrap. rewrite Z.add_0_r. by apply Z.mod_small. Qed.

Lemma tried_S n k : tried (u32_wrap (n + 1)) k = tried n (S k).
Proof.
  unfold tried, u32_wrap. rewrite Zplus_mod_idemp_l. f_equal. lia.
Qed.

Lemma u32_wrap_range z : (0 ≤ u32_wrap z < 2 ^ 32)%Z.
Proof. unfold u32_wrap. apply Z.mod_pos_bound. lia. Qed.

Lemma allocate_cid_None fuel q :
  (0 ≤ next_cid q < 2 ^ 32)%Z → allocate_cid fuel q = None →
  ∀ k, k < fuel → cid_bad q (tried (next_cid q) k).
Proof.
  revert q. induction fuel as [|fuel IH]; intros q Hq; [lia|]. cbn [allocate_cid].
  assert (∀ q', q' = MkQemu (u32_wrap (next_cid q + 1)) (cid_allocations q) (vm_registry q) →
    cid_bad q (next_cid q) → allocate_cid fuel q' = None →
    ∀ k, k < S fuel → cid_bad q (tried (next_cid q) k)) as Hrec.
  { intros q' -> Hbad Hnone [|k] Hk; [by rewrite tried_0|]. rewrite <-tried_S.
    apply (IH (MkQemu (u32_wrap (next_cid q + 1)) (cid_allocations q) (vm_registry q)));
      [apply u32_wrap_range|done|lia]. }
  destruct (Z.ltb_spec (next_cid q) 3); [apply Hrec; [done|left; lia]|].
  case_bool_decide; [apply Hrec; [done|by right]|done].
Qed.

Lemma tried_inj n k1 k2 :
  (Z.of_nat k1 < 2 ^ 32)%Z → (Z.of_nat k2 < 2 ^ 32)%Z → tried n k1 = tried n k2 → k1 = k2.
Proof.
  unfold tried, u32_wrap. intros H1 H2 Heq.
  assert ((Z.of_nat k1 - Z.of_nat k2) `mod` 2 ^ 32 = 0)%Z as Hm.
  { replace (Z.of_nat k1 - Z.of_nat k2)%Z with ((n + Z.of_nat k1) - (n + Z.of_nat k2))%Z by lia.
    rewrite Zminus_mod, Heq, Z.sub_diag. by apply Z.mod_0_l. }
  apply Z.mod_divide in Hm as [c Hc]; [|lia]. assert (c = 0)%Z by nia. lia.
Qed.

Lemma allocate_cid_Some fuel q c q' :
  (0 ≤ next_cid q < 2 ^ 32)%Z → allocate_cid fuel q = Some (c, q') →
  (3 ≤ c < 2 ^ 32)%Z ∧ (c ∉ cid_allocations q) ∧ cid_allocations q' = {[c]} ∪ cid_allocations q ∧
  vm_registry q' = vm_registry q ∧ (0 ≤ next_cid q' < 2 ^ 32)%Z.
Proof.
  revert q. induction fuel as [|fuel IH]; intros q Hq; [done|]. cbn [allocate_cid].
  assert (Hw := u32_wrap_range (next_cid q + 1)).
  destruct (Z.ltb_spec (next_cid q) 3); [intros Hs; by apply IH in Hs|].
  case_bool_decide; [intros Hs; by apply IH in Hs|]. intros [= <- <-]. simpl. split_and!; try done; lia.
Qed.

(** Trying one id more than are taken or reserved is enough. *)
Lemma allocate_cid_total q :
  (0 ≤ next_cid q < 2 ^ 32)%Z → (Z.of_nat (size (cid_allocations q)) + 3 < 2 ^ 32)%Z →
  is_Some (allocate_cid (enough_cid_fuel q) q).
Proof.
  intros Hq Hs. destruct (allocate_cid _ q) as [p|] eqn:Ha; [by eexists|]. exfalso.
  assert (Hbad := allocate_cid_None _ q Hq Ha). unfold enough_cid_fuel in *.
  set (fuel := size (cid_allocations q) + 4) in *.
  assert (tried (next_cid q) <$> seq 0 fuel ⊆+ elements ({[0%Z; 1%Z; 2%Z]} ∪ cid_allocations q)) as Hsub.
  { apply NoDup_submseteq.
    - apply NoDup_fmap_2_strong; [|apply NoDup_seq]. intros k1 k2 H1%elem_of_seq H2%elem_of_seq.
      apply tried_inj; lia.
    - intros x (k & -> & Hk%elem_of_seq)%list_elem_of_fmap. apply elem_of_elements.
      destruct (Hbad k) as [?|?]; [lia| |set_solver].
      assert (tried (next_cid q) k = 0 ∨ tried (next_cid q) k = 1 ∨ tried (next_cid q) k = 2)%Z by lia.
      set_solver. }
  apply submseteq_length in Hsub. rewrite length_fmap, length_seq in Hsub.
  change (length (elements ?X)) with (size X) in Hsub.
  assert (size (({[0%Z; 1%Z; 2%Z]} : gset Z) ∪ cid_allocations q) ≤ 3 + size (cid_allocations q)) as Hu.
  { rewrite size_union_alt. assert (size ({[0%Z; 1%Z; 2%Z]} : gset Z) = 3) as -> by reflexivity.
    apply Nat.add_le_mono_l. apply subseteq_size. set_solver. }
  lia.
Qed.

(** C40: [allocate_cid] returns: as long as ids are left, one round more than the ids
    in use and the three reserved ones suffices, whatever the counter stands at and
    also across its wrap-around.  The id is not reserved and not in use. *)
Theorem allocate_cid_spec q :
  (0 ≤ next_cid q < 2 ^ 32)%Z → (Z.of_nat (size (cid_allocations q)) + 3 < 2 ^ 32)%Z →
  ∃ c q', allocate_cid (size (cid_allocations q) + 4) q = Some (c, q') ∧
    (3 ≤ c < 2 ^ 32)%Z ∧ (c ∉ cid_allocations q) ∧
    cid_allocations q' = {[c]} ∪ cid_allocations q ∧ vm_registry q' = vm_registry q ∧
    (0 ≤ next_cid q' < 2 ^ 32)%Z.
Proof.
  intros Hq Hs. destruct (allocate_cid_total q Hq Hs) as [[c q'] Ha].
  exists c, q'. split; [exact Ha|]. by eapply allocate_cid_Some.
Qed.

(** The QMP port is a valid unprivileged port, and VMs share one only when their ids
    are a multiple of 64512 apart. *)
Lemma qmp_port_spec c c' :
  (0 ≤ c)%Z → (0 ≤ c')%Z →
  (1024 ≤ qmp_port c ≤ 65535)%Z ∧ (qmp_port c = qmp_port c' ↔ (64512 | c - c')%Z).
Proof.
  intros Hc Hc'. assert (Hm := λ z, Z.mod_pos_bound z 64512 ltac:(lia)).
  assert (∀ z, qmp_port z = (z `mod` 64512 + 1024)%Z) as Hp.
  { intros z. unfold qmp_port, u32_wrap. apply Z.mod_small. specialize (Hm z). lia. }
  rewrite !Hp. split; [specialize (Hm c); lia|]. rewrite <-Z.mod_divide by lia. split.
  - intros Heq. rewrite Zminus_mod. replace (c `mod` 64512)%Z with (c' `mod` 64512)%Z by lia.
    by rewrite Z.sub_diag.
  - intros Heq. f_equal. apply Z.mod_divide in Heq as [k Hk]; [|lia].
    replace c with (c' + k * 64512)%Z by lia. by apply Z_mod_plus_full.
Qed.

Lemma connect_total fuel retry attempts : 101 ≤ fuel + retry → is_Some (connect (S fuel) retry attempts).
Proof.
  revert retry. induction fuel as [|fuel IH]; intros retry Hf.
  - cbn [connect]. destruct (Nat.ltb_spec 100 retry); [by eexists|lia].
  - cbn [connect]. destruct (Nat.ltb_spec 100 retry); [by eexists|].
    destruct (attempts retry); [by eexists| |by eexists]. apply IH. lia.
Qed.

(** ** The registry and the processes *)

Section registry.
Context `{Hex} (config : Config) (kill_ok wait_ok : Z → bool).

(** Registered VMs are those with an allocated id, under their own id, and every
    QEMU process belongs to a registered VM. *)
Record host_wf (h : Host) : Prop := {
  wf_next : (0 ≤ next_cid (host_qemu h) < 2 ^ 32)%Z;
  wf_dom : dom (vm_registry (host_qemu h)) = cid_allocations (host_qemu h);
  wf_cid c hd : vm_registry (host_qemu h) !! c = Some hd → cid hd = c ∧ (3 ≤ c < 2 ^ 32)%Z;
  wf_procs pid : is_Some (host_procs h !! pid) →
    ∃ c hd, vm_registry (host_qemu h) !! c = Some hd ∧ child hd = Some pid
}.

Lemma Host_new_wf : host_wf (MkHost Qemu_new ∅).
Proof. split; simpl; [lia|set_solver|done|]. intros pid [x Hx]. done. Qed.

(** Registering a VM under a fresh id. *)
Lemma wf_register h c q hd :
  host_wf h → allocate_cid (enough_cid_fuel (host_qemu h)) (host_qemu h) = Some (c, q) → cid hd = c →
  host_wf (MkHost (set_registry (<[c := hd]> (vm_registry q)) q) (host_procs h)).
Proof.
  intros [W1 W2 W3 W4] Ha Hc. apply allocate_cid_Some in Ha as (A1 & A2 & A3 & A4 & A5); [|done].
  split; simpl.
  - done.
  - by rewrite dom_insert_L, A3, A4, W2.
  - intros c' hd'. rewrite A4. intros [[<- <-]|[_ Hl]]%lookup_insert_Some; [auto|by apply W3].
  - intros pid Hp. destruct (W4 pid Hp) as (c' & hd' & Hl & Hch). exists c', hd'. split; [|done].
    rewrite A4, lookup_insert_ne; [done|]. intros <-. apply A2. rewrite <-W2. by apply elem_of_dom_2 in Hl.
Qed.

(** Adding the process of a registered VM that had none. *)
Lemma wf_spawn h c hd pid args :
  host_wf h → vm_registry (host_qemu h) !! c = Some hd → child hd = None →
  host_wf (MkHost (set_registry (<[c := MkQEMUVMHandle (Some pid) (cid hd) (qh_tx_hash hd)
              (qh_program_id hd) (workspace_volume_label hd)]> (vm_registry (host_qemu h))) (host_qemu h))
            (<[pid := args]> (host_procs h))).
Proof.
  intros [W1 W2 W3 W4] Hl Hn. split; simpl.
  - done.
  - rewrite dom_insert_L, W2. apply elem_of_dom_2 in Hl. rewrite W2 in Hl. set_solver.
  - intros c' hd' [[<- <-]|[_ Hl']]%lookup_insert_Some; [apply (W3 _ _ Hl)|by apply W3].
  - intros p [a [[<- _]|[Hne Hp]]%lookup_insert_Some]; [eexists c, _; by rewrite lookup_insert_eq|].
    destruct (W4 p (ex_intro _ a Hp)) as (c' & hd' & Hl' & Hch). exists c', hd'.
    rewrite lookup_insert_ne; [done|]. intros <-. congruence.
Qed.

(** Forgetting a VM whose process is gone. *)
Lemma wf_forget h c hd :
  host_wf h → vm_registry (host_qemu h) !! c = Some hd →
  (∀ pid, child hd = Some pid → host_procs h !! pid = None) →
  host_wf (MkHost (forget c (host_qemu h)) (host_procs h)).
Proof.
  intros [W1 W2 W3 W4] Hl Hdead. split; simpl.
  - done.
  - by rewrite dom_delete_L, W2.
  - intros c' hd' [_ Hl']%lookup_delete_Some. by apply W3.
  - intros pid Hp. destruct (W4 pid Hp) as (c' & hd' & Hl' & Hch). exists c', hd'.
    rewrite lookup_delete_ne; [done|]. intros <-. rewrite Hl in Hl'. injection Hl' as <-.
    rewrite (Hdead pid Hch) in Hp. by apply is_Some_None in Hp.
Qed.

Lemma wf_kill h pid : host_wf h → host_wf (MkHost (host_qemu h) (delete pid (host_procs h))).
Proof.
  intros [W1 W2 W3 W4]. split; simpl; try done. intros p Hp. apply W4.
  destruct Hp as [a [_ Ha]%lookup_delete_Some]. by eexists.
Qed.

(** Killing the process of [c] and forgetting [c], as both error paths and
    [stop_vm] do. *)
Lemma kill_forget_keeps {A} c (m : M Host string A) pid hd h :
  host_wf h → vm_registry (host_qemu h) !! c = Some hd → child hd = Some pid →
  (∀ h', host_wf (on_qemu (forget c) h') → host_wf (snd (m h'))) →
  host_wf (snd ((kill_and_wait kill_ok wait_ok (Some pid) ≫= λ _, m) h)).
Proof.
  intros Hh Hl Hc Hm. unfold kill_and_wait, mbind, M_bind, modify, throw.
  destruct (kill_ok pid); [|done]. destruct (wait_ok pid); [|by apply wf_kill].
  simpl. apply Hm. apply (wf_forget _ c hd); [by apply wf_kill|done|]. simpl.
  intros p Hp. rewrite Hc in Hp. injection Hp as <-. apply lookup_delete_eq.
Qed.

Lemma release_forget c q : dom (vm_registry q) = cid_allocations q →
  set_registry (delete c (vm_registry (release_cid c q))) (release_cid c q) = forget c q.
Proof.
  intros Hd. unfold release_cid, forget, set_registry. case_bool_decide as Hc; simpl.
  - by rewrite delete_delete_eq.
  - f_equal. set_solver.
Qed.

Lemma start_vm_wf env tx program req h :
  host_wf h → host_wf (snd (Qemu_start_vm config kill_ok wait_ok env tx program req h)).
Proof.
  intros Hh. unfold Qemu_start_vm. unfold mbind at 1, M_bind at 1, get.
  destruct (allocate_cid _ _) as [[c q]|] eqn:Ha; [|done].
  unfold mbind at 1, M_bind at 1, modify at 1. set (hd := MkQEMUVMHandle None c _ _ _).
  assert (Hreg := wf_register h c q hd Hh Ha eq_refl).
  unfold mbind at 1, M_bind at 1, lift at 1. destruct (env_logs env); [|exact Hreg..].
  unfold mbind at 1, M_bind at 1, lift at 1. destruct (env_spawn env) as [pid|]; [|exact Hreg].
  cbn [unwrap]. unfold mbind at 1, M_bind at 1, modify at 1.
  set (args := qemu_path config :: _).
  assert (Hsp := wf_spawn _ c hd pid args Hreg (lookup_insert_eq _ _ _) eq_refl).
  destruct (connect _ _ _) as [[]|]; [exact Hsp| | |exact Hsp].
  - eapply kill_forget_keeps; [exact Hsp|simpl; apply lookup_insert_eq|done|]. by intros h' Hh'.
  - eapply kill_forget_keeps; [exact Hsp|simpl; apply lookup_insert_eq|done|]. by intros h' Hh'.
Qed.

Lemma stop_vm_wf vm h : host_wf h → host_wf (snd (Qemu_stop_vm kill_ok wait_ok vm h)).
Proof.
  intros Hh. unfold Qemu_stop_vm. unfold mbind at 1, M_bind at 1, get.
  destruct (vm_registry (host_qemu h) !! vm_id vm) as [hd|] eqn:Hl; [|done].
  destruct (child hd) as [pid|] eqn:Hc; [|done].
  destruct (wf_cid h Hh _ _ Hl) as [Hid _].
  unfold kill_and_wait, mbind, M_bind, modify, throw. destruct (kill_ok pid); [|done].
  destruct (wait_ok pid); [|by apply wf_kill]. simpl. unfold on_qemu. simpl.
  rewrite release_forget by apply (wf_dom h Hh).
  pose proof (wf_forget (MkHost (host_qemu h) (delete pid (host_procs h))) (cid hd) hd) as Hf.
  cbn [host_qemu host_procs] in Hf. apply Hf; [by apply wf_kill|by rewrite Hid|].
  intros p [= <-]%(eq_trans (eq_sym Hc)). apply lookup_delete_eq.
Qed.

(** Any sequence of starts and stops, each in any environment. *)
Inductive host_run : Host → Prop :=
  | host_start : host_run (MkHost Qemu_new ∅)
  | host_start_vm env tx program req h :
      host_run h → host_run (snd (Qemu_start_vm config kill_ok wait_ok env tx program req h))
  | host_stop_vm vm h : host_run h → host_run (snd (Qemu_stop_vm kill_ok wait_ok vm h)).

Lemma host_run_wf h : host_run h → host_wf h.
Proof. induction 1; [apply Host_new_wf|by apply start_vm_wf|by apply stop_vm_wf]. Qed.

(** C19: Whatever the operating system answers, in every reachable state of the
    provider the VMs in the registry are those whose id is allocated, each under its
    own unreserved id, and every QEMU process that still runs belongs to a
    registered VM: no process is lost track of. *)
Theorem qemu_registry_invariant h :
  host_run h →
  dom (vm_registry (host_qemu h)) = cid_allocations (host_qemu h) ∧
  (∀ c hd, vm_registry (host_qemu h) !! c = Some hd → cid hd = c ∧ (3 ≤ c < 2 ^ 32)%Z) ∧
  (∀ pid, is_Some (host_procs h !! pid) →
     ∃ c hd, vm_registry (host_qemu h) !! c = Some hd ∧ child hd = Some pid).
Proof. intros [W1 W2 W3 W4]%host_run_wf. auto. Qed.

(** A VM that started is identified by its connection: requests from its id are
    attributed to the transaction and the program it was started for, its process
    runs with the command line of that request, and no other VM's identity changes. *)
Theorem start_vm_identifies env tx program req h vm h' :
  host_run h →
  Qemu_start_vm config kill_ok wait_ok env tx program req h = (Ok vm, h') →
  vm_registry (host_qemu h) !! vm_id vm = None ∧
  find_by_req (Some (Some (vm_id vm))) (host_qemu h') =
    Ok (Some (tx, prg_hash program, vm_id vm)) ∧
  (∀ c, c ≠ vm_id vm → find_by_req (Some (Some c)) (host_qemu h') =
                        find_by_req (Some (Some c)) (host_qemu h)) ∧
  ∃ pid, host_procs h' !! pid =
    Some (qemu_path config :: qemu_args config (vm_id vm) tx program req).
Proof.
  intros Hh%host_run_wf. unfold Qemu_start_vm. unfold mbind at 1, M_bind at 1, get.
  destruct (allocate_cid _ _) as [[c q]|] eqn:Ha; [|done].
  apply allocate_cid_Some in Ha as (_ & A2 & _ & A4 & _); [|apply (wf_next h Hh)].
  intros ([] & h1 & [= <-] & ([] & h2 & Hlogs & (pid & h3 & Hpid & Hrest)%M_bind_Ok)%M_bind_Ok)%M_bind_Ok.
  unfold lift in Hlogs, Hpid. injection Hlogs as _ <-. injection Hpid as _ <-.
  apply M_bind_Ok in Hrest as ([] & h4 & [= <-] & Hc).
  destruct (connect _ _ _) as [[]|]; [|by inv_ok..]. injection Hc as <- <-.
  unfold find_by_req. simpl. rewrite A4, <-(wf_dom h Hh) in *. split_and!.
  - by apply not_elem_of_dom.
  - by rewrite lookup_insert_eq.
  - intros c' Hc'. by rewrite !lookup_insert_ne by done.
  - exists pid. by rewrite lookup_insert_eq.
Qed.

(** When the log files of a VM cannot be opened, [start_vm] fails after it took an
    id and registered the VM: both stay taken, with no process, and the caller has no
    handle to release them with. *)
Theorem failed_start_leaks_cid env tx program req h e :
  host_run h → (Z.of_nat (size (cid_allocations (host_qemu h))) + 3 < 2 ^ 32)%Z →
  env_logs env = Err e →
  ∃ c h', Qemu_start_vm config kill_ok wait_ok env tx program req h = (Err e, h') ∧
    (c ∉ cid_allocations (host_qemu h)) ∧
    cid_allocations (host_qemu h') = {[c]} ∪ cid_allocations (host_qemu h) ∧
    (∃ hd, vm_registry (host_qemu h') !! c = Some hd ∧ child hd = None).
Proof.
  intros Hh%host_run_wf Hs He. assert (Hn := wf_next h Hh).
  destruct (allocate_cid_total (host_qemu h) Hn Hs) as [[c q] Ha].
  unfold Qemu_start_vm. unfold mbind at 1, M_bind at 1, get. rewrite Ha.
  apply allocate_cid_Some in Ha as (_ & A2 & A3 & _); [|done].
  unfold mbind, M_bind, modify, lift. rewrite He. exists c. eexists. split_and!; [done..|].
  eexists. simpl. by rewrite lookup_insert_eq.
Qed.
End registry.

(** ** Witnesses *)

Section vmm_witnesses.
#[local] Existing Instance hex_crate.

Definition toy_config : Config := MkConfig "/data" "/log" None "qemu".
Definition toy_env (logs : result string ()) : StartEnv :=
  MkStartEnv "label" logs (Some 77%Z) (λ n, if n <? 5 then Refused else Connected) 0.
Definition toy_prg : Program := MkProgram (fill "p") "p" "i" "u" "c" None.
Definition toy_start (logs : result string ()) : M Host string VMHandle :=
  Qemu_start_vm toy_config (λ _, true) (λ _, true) (toy_env logs) (fill "t") toy_prg
    (MkResourceRequest 512 1 0).

(** The counter about to wrap around, with the last id and id 3 in use. *)
Definition toy_wrap : Qemu := MkQemu (2 ^ 32 - 1) {[(2 ^ 32 - 1)%Z; 3%Z]} ∅.
Example allocate_cid_spec_witness :
  ∃ c q', allocate_cid (size (cid_allocations toy_wrap) + 4) toy_wrap = Some (c, q') ∧
    (3 ≤ c < 2 ^ 32)%Z ∧ (c ∉ cid_allocations toy_wrap) ∧
    cid_allocations q' = {[c]} ∪ cid_allocations toy_wrap ∧ vm_registry q' = vm_registry toy_wrap ∧
    (0 ≤ next_cid q' < 2 ^ 32)%Z.
Proof. apply (allocate_cid_spec toy_wrap); by_evaluation. Defined.
(** ids 0, 1, 2 and 3 are skipped *)
Example allocate_after_wrap : fst <$> allocate_cid 6 toy_wrap = Some 4%Z.
Proof. by_evaluation. Qed.

Definition toy_host_run : Host → Prop := host_run toy_config (λ _, true) (λ _, true).
Lemma toy_host_started : toy_host_run (snd (toy_start (Ok ()) (MkHost Qemu_new ∅))).
Proof. apply host_start_vm, host_start. Qed.

Example qemu_registry_invariant_witness :
  let h := snd (toy_start (Ok ()) (MkHost Qemu_new ∅)) in
  dom (vm_registry (host_qemu h)) = cid_allocations (host_qemu h) ∧
  (∀ c hd, vm_registry (host_qemu h) !! c = Some hd → cid hd = c ∧ (3 ≤ c < 2 ^ 32)%Z) ∧
  (∀ pid, is_Some (host_procs h !! pid) →
     ∃ c hd, vm_registry (host_qemu h) !! c = Some hd ∧ child hd = Some pid).
Proof. exact (qemu_registry_invariant _ _ _ _ toy_host_started). Defined.

Lemma toy_start_Ok : toy_start (Ok ()) (MkHost Qemu_new ∅)
  = (Ok (MkVMHandle 0 4), snd (toy_start (Ok ()) (MkHost Qemu_new ∅))).
Proof. apply run_snd. reflexivity. Qed.

Example start_vm_identifies_witness :
  find_by_req (Some (Some 4%Z)) (host_qemu (snd (toy_start (Ok ()) (MkHost Qemu_new ∅)))) =
    Ok (Some (fill "t", fill "p", 4%Z)).
Proof.
  exact (proj1 (proj2 (start_vm_identifies toy_config (λ _, true) (λ _, true) (toy_env (Ok ()))
    (fill "t") toy_prg (MkResourceRequest 512 1 0) _ _ _ (host_start _ _ _) toy_start_Ok))).
Defined.

Example failed_start_leaks_cid_witness :
  ∃ c h', toy_start (Err "no space left") (MkHost Qemu_new ∅) = (Err "no space left", h') ∧
    (c ∉ (∅ : gset Z)) ∧ cid_allocations (host_qemu h') = {[c]} ∪ ∅ ∧
    (∃ hd, vm_registry (host_qemu h') !! c = Some hd ∧ child hd = None).
Proof.
  apply (failed_start_leaks_cid toy_config (λ _, true) (λ _, true) (toy_env (Err "no space left"))
    (fill "t") toy_prg (MkResourceRequest 512 1 0) (MkHost Qemu_new ∅) "no space left"
    (host_start _ _ _)); by_evaluation.
Defined.
End vmm_witnesses.
