(* ===== verification/VmServer.v ===== *)
(** * The gRPC service for VMs ([crates/node/src/vmm/vm_server.rs])

    How a running VM asks for its task and hands in the result: the request's VSOCK
    address is looked up in the provider's registry ([Vmm.find_by_req]) and the
    scheduler is asked on behalf of the transaction registered there. *)

From S2P Require Import Prelude Types Models Files Transaction Event Mempool Workflow Watchdog Resources Scheduler Vmm.

Definition DATA_STREAM_CHUNK_SIZE : Z := 4096.

(** [grpc::Task], [grpc::TaskResponse]; the only error is [Unavailable]. *)
Record GrpcTask := MkGrpcTask {
  gt_tx_hash : string; gt_name : string; gt_args : list string; gt_files : list string
}.
Inductive TaskResponse := ResponseTask (t : GrpcTask) | ResponseUnavailable.

(** [grpc::TaskResultRequest], [grpc::TaskResultResponse]. *)
Record TaskResultRequest := MkTaskResultRequest {
  req_tx_hash : string; req_result : option TaskResult
}.
Record TaskResultResponse := MkTaskResultResponse { continue : bool }.

(** [tonic::Status] with [Code::Unknown]. *)
Inductive Status := UnknownVm.

Section server.
Context `{Hex, Secp, Sha3, NumBigint, Bincode}.
Context {P D : Type} (provider : Provider P) (tx_store : TransactionStore D).

Definition grpc_of_task (task : Task) : GrpcTask :=
  MkGrpcTask (Hash_to_string (task_tx task)) (task_name task) (task_args task)
    (vm_file_path <$> task_files task).

(** The registry lookup both handlers start with. *)
Definition identify (conn : option (option Z)) (q : Qemu) : result Status (Hash * Hash * Z) :=
  match find_by_req conn q with
  | Ok (Some e) => Ok e
  | Ok None => Err UnknownVm
  | _ => Panic
  end.

Definition get_task (now : Z) (conn : option (option Z)) (q : Qemu)
    : M (World (P:=P) (D:=D)) Status TaskResponse :=
  '(tx_hash, _, _) ← lift (identify conn q);
  r ← attempt (on_state (get_pending_task provider now tx_hash));
  mret (match r with
        | Ok (Some task) => ResponseTask (grpc_of_task task)
        | _ => ResponseUnavailable
        end).

(** [std::fs::remove_dir_all] of the parent of the workspace path. *)
Definition workspace_dir (file_data_dir : string) (tx_hash : Hash) : list string :=
  let p := path_resolve (get_workspace_path file_data_dir tx_hash) in take (length p - 1) p.
Definition remove_dir_all (dir : list string) (root : fs) : fs :=
  filter (λ e, ¬ dir `prefix_of` fst e) root.

Definition server_submit_result (node_key : SecretKey)
    (data_directory file_data_dir http_download_host : string)
    (id : CallbackId) (answer : result MempoolError.t ())
    (conn : option (option Z)) (q : Qemu) (request : TaskResultRequest)
    : M (World (P:=P) (D:=D)) Status TaskResultResponse :=
  '(tx_hash, program_id, _) ← lift (identify conn q);
  request_tx_hash ← lift (Hash_from_str (req_tx_hash request));
  _ ← (if bool_decide (tx_hash = request_tx_hash) then
         match req_result request with
         | Some result =>
             _ ← attempt (submit_result provider tx_store node_key data_directory http_download_host
                            id answer request_tx_hash program_id result);
             mret ()
         | None => mret ()
         end
       else mret ());
  _ ← modify (λ w, MkWorld (w_state w) (w_mempool w)
        (remove_dir_all (workspace_dir file_data_dir request_tx_hash) (w_fs w)) (w_signals w)
        (w_channel w));
  mret (MkTaskResultResponse false).
End server.

(** ** What a VM can reach *)

Section isolation.
Context `{HexLaws, Secp, Sha3, NumBigint, Bincode}.
Context {P D : Type} (provider : Provider P) (tx_store : TransactionStore D).

(** The scheduler's entries of every transaction but [tx] are those of [st0]. *)
Definition others_as (st0 : SchedulerState P) (tx : Hash) (st : SchedulerState P) : Prop :=
  task_queue st = task_queue st0 ∧ pending_programs st = pending_programs st0 ∧
  ∀ tx', tx' ≠ tx → running_tasks st !! tx' = running_tasks st0 !! tx' ∧
                    running_vms st !! tx' = running_vms st0 !! tx'.
Definition world_others (st0 : SchedulerState P) (tx : Hash) (w : World (P:=P) (D:=D)) : Prop :=
  others_as st0 tx (w_state w).

Lemma on_state_others {E A} st0 tx (m : M (SchedulerState P) E A) :
  keeps (others_as st0 tx) m → keeps (world_others st0 tx) (on_state m).
Proof.
  intros Hm w Hw. specialize (Hm (w_state w) Hw). unfold on_state. by destruct (m (w_state w)) as [[] st].
Qed.
Lemma on_db_others {E A} (st0 : SchedulerState P) (tx : Hash) (m : M D E A) : keeps (world_others st0 tx) (on_db m).
Proof. intros w Hw. unfold on_db. by destruct (m _) as [[] d]. Qed.
Lemma on_fs_others {E A} (st0 : SchedulerState P) (tx : Hash) (m : M fs E A) : keeps (world_others st0 tx) (on_fs m).
Proof. intros w Hw. unfold on_fs. by destruct (m _) as [[] d]. Qed.
Lemma on_channel_others {E A} (st0 : SchedulerState P) (tx : Hash) (m : M Channel E A) : keeps (world_others st0 tx) (on_channel m).
Proof. intros w Hw. unfold on_channel. by destruct (m _) as [[] d]. Qed.

Lemma remove_and_stop_others st0 tx : keeps (others_as st0 tx) (remove_and_stop provider tx).
Proof.
  intros st (Hq & Hp & Ho). unfold remove_and_stop, on_pm.
  destruct (running_vms st !! tx) as [h|]; [|done].
  assert (∀ pm, others_as st0 tx (set_pm pm (set_vms (delete tx (running_vms st)) st))) as Hgoal.
  { intros pm. split_and!; [done|done|]. intros tx' Hne. destruct (Ho tx' Hne). simpl.
    by rewrite lookup_delete_ne. }
  destruct (stop_program _ _ _) as [[] pm]; apply Hgoal.
Qed.

#[local] Hint Resolve on_db_others on_fs_others on_channel_others on_state_others
  remove_and_stop_others : gevulot.

Lemma submit_result_others st0 key dir host id answer tx program res :
  keeps (world_others st0 tx)
    (submit_result provider tx_store key dir host id answer tx program res).
Proof.
  unfold submit_result. apply keeps_bind; [apply keeps_get|]. intros w.
  destruct (running_tasks (w_state w) !! tx) as [rt|]; [|apply keeps_throw].
  apply keeps_bind.
  { apply on_state_others, keeps_modify. intros st (Hq & Hp & Ho). split_and!; [done|done|].
    intros tx' Hne. simpl. rewrite lookup_delete_ne by done. by apply Ho. }
  intros _. apply keeps_bind; [auto with gevulot|]. intros _.
  apply keeps_bind; [|auto with gevulot].
  destruct res as [data files|code]; [|apply keeps_ret].
  do 3 (apply keeps_bind; [auto with gevulot|intros ?]).
  apply keeps_bind; [auto with gevulot|]. intros r.
  destruct (r ≫= λ _, answer) as [[]|e|]; [apply keeps_ret|apply keeps_throw..].
Qed.

Lemma server_submit_others st0 key dir data_dir host id answer conn q request tx :
  (∃ program c, identify conn q = Ok (tx, program, c)) →
  keeps (world_others st0 tx)
    (server_submit_result provider tx_store key dir data_dir host id answer conn q request).
Proof.
  intros (program & c & Hid). unfold server_submit_result. rewrite Hid.
  intros w Hw. unfold mbind at 1, M_bind at 1, lift at 1. revert w Hw.
  apply keeps_bind; [apply keeps_lift|]. intros h. apply keeps_bind.
  { case_bool_decide as Heq; [subst h|apply keeps_ret]. destruct (req_result request); [|apply keeps_ret].
    apply keeps_bind; [|intros; apply keeps_ret]. apply keeps_attempt, submit_result_others. }
  intros []. apply keeps_bind; [by apply keeps_modify|]. intros []. apply keeps_ret.
Qed.

(** C36: A VM can only hand in results for the transaction it was started for: a
    request that comes from the VM of [tx] leaves the tasks and VMs of every other
    transaction as they were, whatever transaction the request names and however it
    ends.  A request from an unregistered address changes nothing. *)
Theorem vm_result_isolation key dir data_dir host id answer conn q request
    (w : World (P:=P) (D:=D)) :
  (∀ tx program c, identify conn q = Ok (tx, program, c) →
     others_as (w_state w) tx (w_state (snd (server_submit_result provider tx_store key dir data_dir
       host id answer conn q request w)))) ∧
  ((∀ e, identify conn q ≠ Ok e) →
     snd (server_submit_result provider tx_store key dir data_dir host id answer conn q request w) = w).
Proof.
  split; [|intros Hno; unfold server_submit_result, mbind, M_bind, lift;
           destruct (identify conn q) as [e| |]; [by destruct (Hno e)|done..]].
  intros tx program c Hid. apply (keeps_snd (world_others (w_state w) tx)); [|by split_and!].
  apply server_submit_others. by eauto.
Qed.

(** A result that names another transaction is not handed to the scheduler, but
    the workspace that is cleaned up afterwards is the one of the transaction the
    request names: a VM can delete the files of a task that runs in another VM. *)
Theorem foreign_result_removes_workspace key dir data_dir host id answer conn q tx program c tx' res
    (w : World (P:=P) (D:=D)) :
  identify conn q = Ok (tx, program, c) → tx ≠ tx' →
  ∃ w', server_submit_result provider tx_store key dir data_dir host id answer conn q
          (MkTaskResultRequest (Hash_to_string tx') res) w = (Ok (MkTaskResultResponse false), w') ∧
    w_state w' = w_state w ∧ w_channel w' = w_channel w ∧
    (∀ path, workspace_dir data_dir tx' `prefix_of` path → w_fs w' !! path = None) ∧
    (∀ path, ¬ workspace_dir data_dir tx' `prefix_of` path → w_fs w' !! path = w_fs w !! path).
Proof.
  intros Hid Hne. unfold server_submit_result. rewrite Hid.
  unfold mbind, M_bind, lift, modify. cbn [req_tx_hash req_result]. rewrite hash_string_back.
  rewrite bool_decide_eq_false_2 by done. simpl. eexists. split; [reflexivity|]. simpl.
  split_and!; [done|done|..]; intros path Hp; unfold remove_dir_all.
  - apply map_lookup_filter_None. right. intros x _. simpl. tauto.
  - destruct (w_fs w !! path) eqn:E.
    + apply map_lookup_filter_Some. auto.
    + apply map_lookup_filter_None. by left.
Qed.
End isolation.

(** ** Witnesses *)

Section server_witnesses.
#[local] Existing Instances hex_crate secp_toy secp_toy_laws sha3_toy bigint_toy bincode_toy.

(** VM 4 runs for transaction [r]; the files of transaction [s] are there too. *)
Definition srv_qemu : Qemu :=
  MkQemu 5 {[4%Z]} {[4%Z := MkQEMUVMHandle (Some 77%Z) 4 (fill "r") (fill "p") "l"]}.
Definition srv_conn : option (option Z) := Some (Some 4%Z).

Lemma srv_identify : identify srv_conn srv_qemu = Ok (fill "r", fill "p", 4%Z).
Proof. by vm_compute. Qed.
Lemma srv_other : fill "r" ≠ fill "s".
Proof. by_evaluation. Qed.

Example foreign_result_removes_workspace_witness :
  ∃ w', server_submit_result toy_provider toy_tx_store (toy_key "k") "/data" "/data" "http://h" 3
          (Ok ()) srv_conn srv_qemu (MkTaskResultRequest (Hash_to_string (fill "s")) None) toy_world
        = (Ok (MkTaskResultResponse false), w') ∧
    w_state w' = w_state toy_world ∧ w_channel w' = w_channel toy_world ∧
    (∀ path, workspace_dir "/data" (fill "s") `prefix_of` path → w_fs w' !! path = None) ∧
    (∀ path, ¬ workspace_dir "/data" (fill "s") `prefix_of` path → w_fs w' !! path = w_fs toy_world !! path).
Proof.
  exact (foreign_result_removes_workspace (H0:=hex_crate_laws) toy_provider toy_tx_store (toy_key "k")
    "/data" "/data" "http://h" 3 (Ok ()) srv_conn srv_qemu (fill "r") (fill "p") 4 (fill "s") None
    toy_world srv_identify srv_other).
Defined.

Example vm_result_isolation_witness :
  others_as (w_state toy_running) (fill "r")
    (w_state (snd (server_submit_result toy_provider toy_tx_store (toy_key "k") "/data" "/data"
       "http://h" 3 (Ok ()) srv_conn srv_qemu
       (MkTaskResultRequest (Hash_to_string (fill "r")) (Some (TaskErr 1))) toy_running))).
Proof.
  exact (proj1 (vm_result_isolation toy_provider toy_tx_store (toy_key "k") "/data" "/data" "http://h" 3
    (Ok ()) srv_conn srv_qemu (MkTaskResultRequest (Hash_to_string (fill "r")) (Some (TaskErr 1)))
    toy_running) (fill "r") (fill "p") 4%Z srv_identify).
Defined.
End server_witnesses.
