(* ===== verification/Protocol.v ===== *)
(** * P2P wire protocol ([crates/node/src/networking/p2p/protocol])

    The internal messages, their two wire versions and the conversions between
    them, and the four functions that choose a version on the wire.  [bincode] is an
    interface: serialisation and deserialisation of the wire types. *)

From S2P Require Import Prelude Types Models.

(** ** Addresses ([std::net]) *)

(** [inl] is IPv4, [inr] IPv6, each as its number. *)
Definition IpAddr : Type := (Z + Z)%type.
Definition SocketAddr : Type := (IpAddr * Z)%type.
Definition ip (a : SocketAddr) : IpAddr := fst a.
Definition port (a : SocketAddr) : Z := snd a.

(** ** Internal messages ([internal.rs]) *)

Record Handshake := MkHandshake {
  my_p2p_listen_addr : SocketAddr;
  peers : gset SocketAddr;
  http_port : option Z
}.

Module RequestKind.
Inductive t := Version | Resources | Metrics.
End RequestKind.

Module Response.
Inductive t :=
  | Version (major minor patch : Z) (build : string)
  | Resources (cpus mem gpus : Z)
  | Metrics (data : list u8).
End Response.

Module Msg.
Inductive t `{Secp} :=
  | Transaction (tx : Transaction Validated)
  | DiagnosticsRequest (kind : RequestKind.t)
  | DiagnosticsResponse (pubkey : PublicKey) (response : Response.t).
End Msg.

(** ** Version 0 ([v0.rs]) *)

Module V0.
Record HandshakeV1 := MkHandshakeV1 {
  my_p2p_listen_addr : SocketAddr; peers : gset SocketAddr; http_port : option Z
}.
Inductive Handshake := V1 (h : HandshakeV1).
Inductive DiagnosticsRequestKind := ReqVersion.
Inductive DiagnosticsResponseV0 := RespVersion (major minor patch : Z) (build : string).
Inductive MessageV0 `{Secp} :=
  | Transaction (tx : Transaction Validated)
  | DiagnosticsRequest (kind : DiagnosticsRequestKind)
  | DiagnosticsResponse (pubkey : PublicKey) (response : DiagnosticsResponseV0).
Inductive Message `{Secp} := V0 (m : MessageV0).
End V0.

(** ** Version 1 ([v1.rs]) *)

Module V1.
Record HandshakeV1 := MkHandshakeV1 {
  my_p2p_listen_addr : SocketAddr; peers : gset SocketAddr; http_port : option Z
}.
Inductive Handshake := V1 (h : HandshakeV1).
Inductive DiagnosticsRequestKind := ReqVersion | ReqResources | ReqMetrics.
Inductive DiagnosticsResponseV1 :=
  | RespVersion (major minor patch : Z) (build : string)
  | RespResources (cpus mem gpus : Z)
  | RespMetrics (data : list u8).
Inductive MessageV1 `{Secp} :=
  | Transaction (tx : Transaction Validated)
  | DiagnosticsRequest (kind : DiagnosticsRequestKind)
  | DiagnosticsResponse (pubkey : PublicKey) (response : DiagnosticsResponseV1).
Inductive Message `{Secp} := V1m (m : MessageV1).
End V1.

(** [bincode::serialize] and [bincode::deserialize] at the wire types. *)
Class Wire `{Secp} := {
  ser_hs0 : V0.Handshake → result string (list u8);
  de_hs0 : list u8 → result string V0.Handshake;
  ser_hs1 : V1.Handshake → result string (list u8);
  de_hs1 : list u8 → result string V1.Handshake;
  ser_msg0 : V0.Message → result string (list u8);
  de_msg0 : list u8 → result string V0.Message;
  ser_msg1 : V1.Message → result string (list u8);
  de_msg1 : list u8 → result string V1.Message
}.

Section protocol.
Context `{Wire}.

(** *** Conversions *)

Definition hs0_of (h : Handshake) : V0.Handshake :=
  V0.V1 (V0.MkHandshakeV1 (my_p2p_listen_addr h) (peers h) (http_port h)).
Definition hs0_parse (bs : list u8) : result string Handshake :=
  '(V0.V1 h) ← de_hs0 bs;
  Ok (MkHandshake (V0.my_p2p_listen_addr h) (V0.peers h) (V0.http_port h)).

Definition hs1_of (h : Handshake) : V1.Handshake :=
  V1.V1 (V1.MkHandshakeV1 (my_p2p_listen_addr h) (peers h) (http_port h)).
Definition hs1_parse (bs : list u8) : result string Handshake :=
  '(V1.V1 h) ← de_hs1 bs;
  Ok (MkHandshake (V1.my_p2p_listen_addr h) (V1.peers h) (V1.http_port h)).

(** What version 0 cannot say becomes a version request, or version 0.0.0. *)
Definition msg0_of (m : Msg.t) : V0.Message :=
  match m with
  | Msg.Transaction tx => V0.V0 (V0.Transaction tx)
  | Msg.DiagnosticsRequest kind => V0.V0 (V0.DiagnosticsRequest V0.ReqVersion)
  | Msg.DiagnosticsResponse pubkey response =>
      match response with
      | Response.Version major minor patch build =>
          V0.V0 (V0.DiagnosticsResponse pubkey (V0.RespVersion major minor patch build))
      | Response.Resources _ _ _ =>
          V0.V0 (V0.DiagnosticsResponse pubkey (V0.RespVersion 0 0 0 ""))
      | Response.Metrics _ =>
          V0.V0 (V0.DiagnosticsResponse pubkey (V0.RespVersion 0 0 0 ""))
      end
  end.
Definition msg0_parse (bs : list u8) : result string Msg.t :=
  '(V0.V0 msg) ← de_msg0 bs;
  match msg with
  | V0.Transaction tx => Ok (Msg.Transaction tx)
  | V0.DiagnosticsRequest _ => Ok (Msg.DiagnosticsRequest RequestKind.Version)
  | V0.DiagnosticsResponse pubkey (V0.RespVersion major minor patch build) =>
      Ok (Msg.DiagnosticsResponse pubkey (Response.Version major minor patch build))
  end.

Definition msg1_of (m : Msg.t) : V1.Message :=
  match m with
  | Msg.Transaction tx => V1.V1m (V1.Transaction tx)
  | Msg.DiagnosticsRequest kind =>
      match kind with
      | RequestKind.Version => V1.V1m (V1.DiagnosticsRequest V1.ReqVersion)
      | RequestKind.Resources => V1.V1m (V1.DiagnosticsRequest V1.ReqResources)
      | RequestKind.Metrics => V1.V1m (V1.DiagnosticsRequest V1.ReqMetrics)
      end
  | Msg.DiagnosticsResponse pubkey response =>
      match response with
      | Response.Version major minor patch build =>
          V1.V1m (V1.DiagnosticsResponse pubkey (V1.RespVersion major minor patch build))
      | Response.Resources cpus mem gpus =>
          V1.V1m (V1.DiagnosticsResponse pubkey (V1.RespResources cpus mem gpus))
      | Response.Metrics data => V1.V1m (V1.DiagnosticsResponse pubkey (V1.RespMetrics data))
      end
  end.
Definition msg1_parse (bs : list u8) : result string Msg.t :=
  '(V1.V1m msg) ← de_msg1 bs;
  match msg with
  | V1.Transaction tx => Ok (Msg.Transaction tx)
  | V1.DiagnosticsRequest kind =>
      match kind with
      | V1.ReqVersion => Ok (Msg.DiagnosticsRequest RequestKind.Version)
      | V1.ReqResources => Ok (Msg.DiagnosticsRequest RequestKind.Resources)
      | V1.ReqMetrics => Ok (Msg.DiagnosticsRequest RequestKind.Metrics)
      end
  | V1.DiagnosticsResponse pubkey kind =>
      match kind with
      | V1.RespVersion major minor patch build =>
          Ok (Msg.DiagnosticsResponse pubkey (Response.Version major minor patch build))
      | V1.RespResources cpus mem gpus =>
          Ok (Msg.DiagnosticsResponse pubkey (Response.Resources cpus mem gpus))
      | V1.RespMetrics data => Ok (Msg.DiagnosticsResponse pubkey (Response.Metrics data))
      end
  end.

(** *** Choosing a version ([mod.rs]) *)

Definition serialize_handshake (msg : Handshake) : result string (list u8) := ser_hs0 (hs0_of msg).

Definition new_serialize_handshake (protocol_version : Z) (msg : Handshake) : result string (list u8) :=
  bs ← match protocol_version with
       | 0%Z => ser_hs0 (hs0_of msg)
       | 1%Z => ser_hs1 (hs1_of msg)
       | _ => Err "unknown protocol version"
       end;
  Ok (be_bytes 8 protocol_version ++ bs).

Definition deserialize_handshake (bs : list u8) : result string Handshake :=
  match hs0_parse bs with
  | Ok h => Ok h
  | _ =>
      if length bs <? 9 then Err "invalid handshake message: too short"
      else match from_be_bytes (take 8 bs) with
           | 0%Z => hs0_parse (drop 8 bs)
           | 1%Z => hs1_parse (drop 8 bs)
           | _ => Err "unknown protocol version"
           end
  end.

Definition serialize_msg (msg : Msg.t) : result string (list u8) := ser_msg0 (msg0_of msg).

Definition new_serialize_msg (protocol_version : Z) (msg : Msg.t) : result string (list u8) :=
  bs ← match protocol_version with
       | 0%Z => ser_msg0 (msg0_of msg)
       | 1%Z => ser_msg1 (msg1_of msg)
       | _ => Err "unknown protocol version"
       end;
  Ok (be_bytes 8 protocol_version ++ bs).

Definition deserialize_msg (bs : list u8) : result string Msg.t :=
  match msg0_parse bs with
  | Ok m => Ok m
  | _ =>
      if length bs <? 9 then Err "invalid protocol message: too short"
      else match from_be_bytes (take 8 bs) with
           | 0%Z => msg0_parse (drop 8 bs)
           | 1%Z => msg1_parse (drop 8 bs)
           | _ => Err "unknown protocol version"
           end
  end.

(** ** What arrives is what was sent *)

(** What version 0 keeps of a message. *)
Definition downgrade (m : Msg.t) : Msg.t :=
  match m with
  | Msg.Transaction tx => Msg.Transaction tx
  | Msg.DiagnosticsRequest _ => Msg.DiagnosticsRequest RequestKind.Version
  | Msg.DiagnosticsResponse k (Response.Version a b c d) =>
      Msg.DiagnosticsResponse k (Response.Version a b c d)
  | Msg.DiagnosticsResponse k _ => Msg.DiagnosticsResponse k (Response.Version 0 0 0 "")
  end.

Lemma msg0_parse_of m bs : de_msg0 bs = Ok (msg0_of m) → msg0_parse bs = Ok (downgrade m).
Proof. unfold msg0_parse. intros ->. by destruct m as [|[]|? []]. Qed.
Lemma msg1_parse_of m bs : de_msg1 bs = Ok (msg1_of m) → msg1_parse bs = Ok m.
Proof. unfold msg1_parse. intros ->. by destruct m as [|[]|? []]. Qed.
Lemma hs0_parse_of h bs : de_hs0 bs = Ok (hs0_of h) → hs0_parse bs = Ok h.
Proof. unfold hs0_parse. intros ->. by destruct h. Qed.

(** The first eight bytes of a versioned message. *)
Lemma version_prefix v rest :
  v = 0%Z ∨ v = 1%Z →
  from_be_bytes (take 8 (be_bytes 8 v ++ rest)) = v ∧ drop 8 (be_bytes 8 v ++ rest) = rest ∧
  length (be_bytes 8 v ++ rest) = 8 + length rest.
Proof. intros [->| ->]; by vm_compute. Qed.

(** A message under a version number that version 0 refuses to read as its own. *)
Lemma deserialize_versioned v rest m :
  v = 0%Z ∨ v = 1%Z → rest ≠ [] → is_ok (de_msg0 (be_bytes 8 v ++ rest)) = false →
  (if (v =? 0)%Z then msg0_parse rest else msg1_parse rest) = Ok m →
  deserialize_msg (be_bytes 8 v ++ rest) = Ok m.
Proof.
  intros Hv Hne Htag Hm. unfold deserialize_msg.
  destruct (version_prefix v rest Hv) as (-> & -> & ->).
  assert (¬ 8 + length rest < 9) as Hlen%Nat.ltb_nlt by (destruct rest; simpl; [done|lia]).
  rewrite Hlen. unfold msg0_parse at 1. destruct (de_msg0 (be_bytes 8 v ++ rest)); [done|..];
    by destruct Hv as [->| ->].
Qed.

(** C20: Whatever the version it is sent with, a message that [bincode] carries arrives
    as the sender meant it: an unversioned message and one sent as version 0 as what
    version 0 can say of it, in particular every transaction unchanged; one sent as
    version 1 exactly; any other version is refused by the sender.  Versioned messages
    rely on [bincode] refusing to read them, with the eight bytes of their version number
    in front, as version 0 messages: no version 0 message starts with the bytes of
    version 1, while those of version 0 also start a transaction, so that for version 0
    it is the message at hand that has to be refused. *)
Theorem deserialize_sent_msg m bs0 bs1 :
  ser_msg0 (msg0_of m) = Ok bs0 → de_msg0 bs0 = Ok (msg0_of m) →
  ser_msg1 (msg1_of m) = Ok bs1 → de_msg1 bs1 = Ok (msg1_of m) → bs1 ≠ [] →
  (∀ rest, is_ok (de_msg0 (be_bytes 8 1 ++ rest)) = false) →
  serialize_msg m = Ok bs0 ∧ deserialize_msg bs0 = Ok (downgrade m) ∧
  (∃ bs, new_serialize_msg 1 m = Ok bs ∧ deserialize_msg bs = Ok m) ∧
  (bs0 ≠ [] → is_ok (de_msg0 (be_bytes 8 0 ++ bs0)) = false →
   ∃ bs, new_serialize_msg 0 m = Ok bs ∧ deserialize_msg bs = Ok (downgrade m)) ∧
  ∀ v, v ≠ 0%Z → v ≠ 1%Z → new_serialize_msg v m = Err "unknown protocol version".
Proof.
  intros S0 D0 S1 D1 Hne Htag. split_and!; [done|by unfold deserialize_msg; rewrite (msg0_parse_of m)|..].
  - exists (be_bytes 8 1 ++ bs1). split; [unfold new_serialize_msg; by rewrite S1|].
    apply deserialize_versioned; auto. by apply msg1_parse_of.
  - intros Hne0 Htag0. exists (be_bytes 8 0 ++ bs0). split; [unfold new_serialize_msg; by rewrite S0|].
    apply deserialize_versioned; auto. by apply msg0_parse_of.
  - intros v Hv0 Hv1. unfold new_serialize_msg. by destruct v as [|[]|].
Qed.

(** Handshakes are sent without a version. *)
Lemma deserialize_sent_handshake h bs :
  ser_hs0 (hs0_of h) = Ok bs → de_hs0 bs = Ok (hs0_of h) →
  serialize_handshake h = Ok bs ∧ deserialize_handshake bs = Ok h.
Proof.
  intros Hs Hd. split; [done|]. unfold deserialize_handshake. by rewrite (hs0_parse_of h).
Qed.
End protocol.

(** ** Witness *)

Section protocol_witnesses.
#[local] Existing Instance secp_toy.

(** A serialiser of one message: a tag byte. *)
Definition wire_msg : @Msg.t secp_toy := Msg.DiagnosticsRequest RequestKind.Metrics.
Definition wire_toy : @Wire secp_toy := {|
  ser_hs0 _ := Err "unused"; de_hs0 _ := Err "unused";
  ser_hs1 _ := Err "unused"; de_hs1 _ := Err "unused";
  ser_msg0 _ := Ok ["a"%char];
  de_msg0 bs := if bool_decide (bs = ["a"%char]) then Ok (msg0_of wire_msg) else Err "tag";
  ser_msg1 _ := Ok ["b"%char];
  de_msg1 bs := if bool_decide (bs = ["b"%char]) then Ok (msg1_of wire_msg) else Err "tag"
|}.

Example deserialize_sent_msg_witness :
  @serialize_msg _ wire_toy wire_msg = Ok ["a"%char] ∧
  @deserialize_msg _ wire_toy ["a"%char] = Ok (Msg.DiagnosticsRequest RequestKind.Version) ∧
  (∃ bs, @new_serialize_msg _ wire_toy 1 wire_msg = Ok bs ∧ @deserialize_msg _ wire_toy bs = Ok wire_msg) ∧
  ∃ bs, @new_serialize_msg _ wire_toy 0 wire_msg = Ok bs ∧
    @deserialize_msg _ wire_toy bs = Ok (Msg.DiagnosticsRequest RequestKind.Version).
Proof.
  destruct (@deserialize_sent_msg _ wire_toy wire_msg ["a"%char] ["b"%char] eq_refl eq_refl eq_refl eq_refl)
    as (H1 & H2 & H3 & H4 & _); [discriminate|reflexivity|].
  split; [exact H1|]. split; [exact H2|]. split; [exact H3|]. apply H4; [discriminate|reflexivity].
Defined.
End protocol_witnesses.
