(* ===== verification/P2P.v ===== *)
(** * Peer-to-peer node ([crates/node/src/networking/p2p/pea2pea.rs])

    The peer list and how it grows with handshakes and shrinks with disconnections,
    the loop that connects to newly discovered peers, and what the node does with
    the messages of its peers.  The [pea2pea] node is an argument: whether dialling
    an address succeeds, and the handshake the peer answers with.  Connections are
    sequential ([connect_lock]), so a handshake runs to its end on its own. *)

From S2P Require Import Prelude Types Models Files Transaction Event Mempool Protocol.

(** The node's lists, and the addresses of its open connections. *)
Record P2P := MkP2P {
  noise_states : gset SocketAddr;
  peer_addr_mapping : gmap SocketAddr SocketAddr;
  peer_list : gset SocketAddr;
  current_connecting_peer_list : gset SocketAddr;
  peer_http_port_list : gmap SocketAddr (option Z)
}.

(** What [P2P::new] is given. *)
Record P2PConfig := MkP2PConfig {
  cfg_listening_addr : SocketAddr;
  cfg_http_port : option Z;
  cfg_nat_listen_addr : option SocketAddr
}.

Definition P2P_new (ports : gmap SocketAddr (option Z)) : P2P := MkP2P ∅ ∅ ∅ ∅ ports.

(** [Ipv4Addr::new(0, 0, 0, 0)] *)
Definition unspecified : IpAddr := inl 0%Z.

Section p2p.
Context (cfg : P2PConfig).

(** The address put into handshakes; [0.0.0.0] is replaced by the peer. *)
Definition advertised_addr : SocketAddr :=
  default (unspecified, port (cfg_listening_addr cfg)) (cfg_nat_listen_addr cfg).
(** The address the node knows itself by. *)
Definition local_p2p_addr : SocketAddr := default (cfg_listening_addr cfg) (cfg_nat_listen_addr cfg).

Definition build_handshake_msg (p : P2P) : Handshake * P2P :=
  let list := {[advertised_addr]} ∪ peer_list p in
  (MkHandshake advertised_addr list (cfg_http_port cfg),
   MkP2P (noise_states p) (peer_addr_mapping p) list (current_connecting_peer_list p)
     (peer_http_port_list p)).

(** The peer's message with its listen address filled in from the connection. *)
Definition resolve_listen_addr (remote_peer : SocketAddr) (msg : Handshake) : Handshake :=
  if bool_decide (ip (my_p2p_listen_addr msg) = unspecified) then
    let addr := (ip remote_peer, port (my_p2p_listen_addr msg)) in
    MkHandshake addr ({[addr]} ∪ (peers msg ∖ {[my_p2p_listen_addr msg]})) (http_port msg)
  else msg.

(** The noise state of a connection is kept under the address of the peer. *)
Definition save_noise (remote_peer : SocketAddr) (p : P2P) : P2P :=
  MkP2P ({[remote_peer]} ∪ noise_states p) (peer_addr_mapping p) (peer_list p)
    (current_connecting_peer_list p) (peer_http_port_list p).

(** The end of [perform_handshake]: the lists are merged. *)
Definition merge_peer (remote_peer : SocketAddr) (msg : Handshake) (p : P2P) : P2P :=
  let msg := resolve_listen_addr remote_peer msg in
  let remote_peer_p2p_addr := my_p2p_listen_addr msg in
  let local_diff := (peers msg ∖ peer_list p) ∖ {[local_p2p_addr; remote_peer_p2p_addr]} in
  MkP2P (noise_states p)
    (<[remote_peer := remote_peer_p2p_addr]> (peer_addr_mapping p))
    ({[remote_peer_p2p_addr]} ∪ peer_list p)
    (local_diff ∪ current_connecting_peer_list p)
    (<[remote_peer_p2p_addr := http_port msg]> (peer_http_port_list p)).

(** [perform_handshake] when nothing fails: the noise handshake, our own message, and
    the message of the peer. *)
Definition perform_handshake (remote_peer : SocketAddr) (msg : Handshake) (p : P2P) : P2P :=
  merge_peer remote_peer msg (snd (build_handshake_msg (save_noise remote_peer p))).

Definition on_disconnect (addr : SocketAddr) (p : P2P) : P2P :=
  match peer_addr_mapping p !! addr with
  | Some peer_conn_addr =>
      MkP2P (noise_states p) (delete addr (peer_addr_mapping p)) (peer_list p ∖ {[peer_conn_addr]})
        (current_connecting_peer_list p) (delete peer_conn_addr (peer_http_port_list p))
  | None => p
  end.

(** ** Connecting *)

(** [self.node.connect(addr)]: [dial addr] is [None] when the connection fails, or
    the remote address and the handshake of the peer; an address the node is
    connected to is refused. *)
Context (dial : SocketAddr → option (SocketAddr * Handshake)).
(** [BTreeSet::iter] *)
Context (iter : gset SocketAddr → list SocketAddr).

(** Our side of the state of [do_connect]: the lists, the open connections, and the
    two sets it returns. *)
Record Connecting := MkConnecting {
  c_p2p : P2P;
  c_open : gset SocketAddr;
  connected_peers : gset SocketAddr;
  failed_peers : gset SocketAddr
}.

Definition clear_connecting (p : P2P) : P2P :=
  MkP2P (noise_states p) (peer_addr_mapping p) (peer_list p) ∅ (peer_http_port_list p).
Definition add_peer (addr : SocketAddr) (p : P2P) : P2P :=
  MkP2P (noise_states p) (peer_addr_mapping p) ({[addr]} ∪ peer_list p)
    (current_connecting_peer_list p) (peer_http_port_list p).

(** One turn: [addr] was popped; the new peers to connect to, in set order.  A dial that
    fails is one that fails before node information is exchanged: the lists are as
    before.  In the code a handshake that breaks off later may have stored the noise
    state and added the node's own advertised address to its list (what
    [build_handshake_msg] does); these leftovers of failed dials are not modelled. *)
Definition connect_one (addr : SocketAddr) (c : Connecting) : list SocketAddr * Connecting :=
  let p := clear_connecting (c_p2p c) in
  match (if bool_decide (addr ∈ c_open c) then None else dial addr) with
  | Some (remote, msg) =>
      let p := perform_handshake remote msg p in
      (iter (current_connecting_peer_list p),
       MkConnecting (add_peer addr p) ({[addr]} ∪ c_open c) ({[addr]} ∪ connected_peers c)
         (failed_peers c))
  | None =>
      ([], MkConnecting p (c_open c) (connected_peers c) ({[addr]} ∪ failed_peers c))
  end.

(** The [while] loop; the list is a stack whose top is its head here. *)
Fixpoint connect_loop (fuel : nat) (todo : list SocketAddr) (c : Connecting) : option Connecting :=
  match todo, fuel with
  | [], _ => Some c
  | _, 0 => None
  | addr :: rest, S fuel =>
      let '(new, c) := connect_one addr c in connect_loop fuel (reverse new ++ rest) c
  end.

Definition do_connect (fuel : nat) (addr : SocketAddr) (open : gset SocketAddr) (p : P2P)
    : option (gset SocketAddr * gset SocketAddr * P2P) :=
  c ← connect_loop fuel [addr] (MkConnecting p open ∅ ∅);
  Some (connected_peers c, failed_peers c, c_p2p c).
End p2p.

(** ** Messages of peers *)

Section messages.
Context `{Wire}.

(** The node's answer to a diagnostics request; [version] and [metrics] come from the
    build and the metrics registry. *)
Definition diagnostics_response (public_node_key : PublicKey) (version : Z * Z * Z * string)
    (metrics : list u8) (node_resources : Z * Z * Z) (req : RequestKind.t) : Msg.t :=
  match req with
  | RequestKind.Version =>
      let '(major, minor, patch, build) := version in
      Msg.DiagnosticsResponse public_node_key (Response.Version major minor patch build)
  | RequestKind.Resources =>
      let '(cpus, mem, gpus) := node_resources in
      Msg.DiagnosticsResponse public_node_key (Response.Resources cpus mem gpus)
  | RequestKind.Metrics => Msg.DiagnosticsResponse public_node_key (Response.Metrics metrics)
  end.

Definition PROTOCOL_VERSION : Z := 1.

(** [process_diagnostics_request]: the bytes sent back. *)
Definition process_diagnostics_request (public_node_key : PublicKey) (version : Z * Z * Z * string)
    (metrics : list u8) (node_resources : Z * Z * Z) (req : RequestKind.t) : result string (list u8) :=
  match new_serialize_msg PROTOCOL_VERSION
          (diagnostics_response public_node_key version metrics node_resources req) with
  | Ok bs => Ok bs
  | _ => Panic
  end.

Definition created_of_validated (tx : Transaction Validated) : Transaction Created :=
  MkTransaction (author tx) (hash tx) (payload tx) (nonce tx) (signature tx) (propagated tx)
    (executed tx) MkCreated.

(** [process_message]: a transaction goes to the event loop, a request is answered
    (the reply is the output), a response and an undecodable message are dropped. *)
Definition process_message (reply : RequestKind.t → result string (list u8)) (message : list u8)
    : M Channel string (option (list u8)) :=
  match deserialize_msg message with
  | Ok (Msg.Transaction tx) =>
      _ ← attempt (p2p_send_tx (created_of_validated tx)); mret None
  | Ok (Msg.DiagnosticsRequest kind) => bs ← lift (reply kind); mret (Some bs)
  | Ok (Msg.DiagnosticsResponse _ _) => mret None
  | Err _ => mret None
  | Panic => lift Panic
  end.

(** The broadcast of a validated transaction: a version 0 message. *)
Definition broadcast_bytes (tx : Transaction Validated) : result string (list u8) :=
  ser_msg0 (V0.V0 (V0.Transaction tx)).

(** A transaction a node broadcasts is what its peers put into their event loops:
    the same transaction, marked as received by P2P and with no callback. *)
Theorem broadcast_received tx bs reply ch :
  broadcast_bytes tx = Ok bs → de_msg0 bs = Ok (V0.V0 (V0.Transaction tx)) → ch_open ch = true →
  process_message reply bs ch =
    (Ok None, MkChannel (ch_queue ch ++ [(into_received (created_of_validated tx) Received.P2P, None)])
                true).
Proof.
  intros Hs Hd Ho. unfold process_message, deserialize_msg, msg0_parse. rewrite Hd. simpl.
  unfold mbind, M_bind, attempt, p2p_send_tx, channel_send. by rewrite Ho.
Qed.
End messages.

(** ** Connecting ends, and finds every peer *)

Section connecting.
Context (cfg : P2PConfig) (dial : SocketAddr → option (SocketAddr * Handshake)).
Context (iter : gset SocketAddr → list SocketAddr).
Context (iter_perm : ∀ s, iter s ≡ₚ elements s).
(** Every address in play: what peers tell of is in a finite set. *)
Context (U : gset SocketAddr).
Context (U_closed : ∀ a remote msg, a ∈ U → dial a = Some (remote, msg) →
  peers (resolve_listen_addr remote msg) ⊆ U).

Definition work (todo : list SocketAddr) (c : Connecting) : nat :=
  size (U ∖ c_open c) * size U + length todo.

Lemma connect_one_new addr c :
  addr ∈ U → (∀ q, q ∈ fst (connect_one cfg dial iter addr c) → q ∈ U) ∧
  length (fst (connect_one cfg dial iter addr c)) ≤ size U.
Proof.
  intros HU. unfold connect_one. destruct (if bool_decide _ then None else dial addr) as [[remote msg]|] eqn:Hd;
    [|simpl; split; [intros q Hq; by apply elem_of_nil in Hq|lia]].
  destruct (bool_decide _); [done|]. specialize (U_closed addr remote msg HU Hd).
  assert (current_connecting_peer_list (perform_handshake cfg remote msg (clear_connecting (c_p2p c))) ⊆ U)
    as Hsub by (unfold perform_handshake; simpl; set_solver).
  cbn [fst]. split.
  - intros q. rewrite iter_perm, elem_of_elements. apply Hsub.
  - rewrite iter_perm. apply subseteq_size in Hsub. exact Hsub.
Qed.

Lemma connect_one_work addr rest c new c' :
  addr ∈ U → connect_one cfg dial iter addr c = (new, c') →
  work (reverse new ++ rest) c' < work (addr :: rest) c.
Proof.
  intros HU Hc. destruct (connect_one_new addr c HU) as [_ Hlen]. rewrite Hc in Hlen. simpl in Hlen.
  revert Hc. unfold connect_one, work. rewrite length_app, length_reverse. cbn [length].
  destruct (bool_decide (addr ∈ c_open c)) eqn:Hopen; [|destruct (dial addr) as [[remote msg]|]];
    intros Hc; injection Hc as <- <-; cbn [c_open length]; try lia.
  apply bool_decide_eq_false in Hopen.
  assert (size (U ∖ ({[addr]} ∪ c_open c)) < size (U ∖ c_open c)) by (apply subset_size; set_solver).
  nia.
Qed.

Lemma connect_loop_total fuel todo c :
  (∀ q, q ∈ todo → q ∈ U) → work todo c < fuel → ∃ c', connect_loop cfg dial iter fuel todo c = Some c'.
Proof.
  revert todo c. induction fuel as [|fuel IH]; intros todo c Htodo Hw; [lia|].
  destruct todo as [|addr rest]; [by eexists|]. cbn [connect_loop].
  destruct (connect_one cfg dial iter addr c) as [new c'] eqn:Hc.
  assert (addr ∈ U) as HU by (apply Htodo; by left). destruct (connect_one_new addr c HU) as [Hnew _].
  rewrite Hc in Hnew. simpl in Hnew. apply IH.
  - intros q Hq. apply elem_of_app in Hq as [Hq|Hq]; [rewrite reverse_Permutation in Hq; exact (Hnew q Hq)|apply Htodo; by right].
  - pose proof (connect_one_work addr rest c new c' HU Hc). lia.
Qed.

(** Loop invariant of discovery: what a connected peer told of is a peer, has
    failed, is the node itself, or is still to be tried. *)
Definition told (a q : SocketAddr) : Prop :=
  ∃ remote msg, dial a = Some (remote, msg) ∧ q ∈ peers (resolve_listen_addr remote msg).
Definition discovery (addr : SocketAddr) (todo : list SocketAddr) (c : Connecting) : Prop :=
  (addr ∈ connected_peers c ∪ failed_peers c ∨ addr ∈ todo) ∧
  connected_peers c ⊆ peer_list (c_p2p c) ∧
  (∀ a q, a ∈ connected_peers c → told a q →
     q ∈ peer_list (c_p2p c) ∪ failed_peers c ∨ q = local_p2p_addr cfg ∨ q ∈ todo).

Lemma connect_one_discovery a0 addr rest c new c' :
  discovery a0 (addr :: rest) c → connect_one cfg dial iter addr c = (new, c') →
  discovery a0 (reverse new ++ rest) c'.
Proof.
  intros (D1 & D2 & D3). unfold connect_one.
  destruct (bool_decide _); [|destruct (dial addr) as [[remote msg]|] eqn:Hd];
    intros Hc; injection Hc as <- <-.
  - split_and!; simpl; [set_solver..|]. intros a q Ha Hq. specialize (D3 a q Ha Hq). set_solver.
  - assert (Hiter := iter_perm (current_connecting_peer_list
      (perform_handshake cfg remote msg (clear_connecting (c_p2p c))))).
    assert (∀ q, q ∈ reverse (iter (current_connecting_peer_list
        (perform_handshake cfg remote msg (clear_connecting (c_p2p c))))) ↔
      q ∈ current_connecting_peer_list
        (perform_handshake cfg remote msg (clear_connecting (c_p2p c)))) as Hin.
    { intros q. rewrite reverse_Permutation, Hiter. apply elem_of_elements. }
    split_and!; simpl.
    + set_solver.
    + set_solver.
    + intros a q Ha Hq. rewrite elem_of_app, Hin. simpl.
      assert (a = addr ∨ a ∈ connected_peers c) as [->|Hold] by set_solver.
      * destruct Hq as (remote' & msg' & Hd' & Hq). rewrite Hd in Hd'. injection Hd' as <- <-.
        destruct (decide (q = local_p2p_addr cfg)); [by auto|].
        destruct (decide (q ∈ {[my_p2p_listen_addr (resolve_listen_addr remote msg)]} ∪
          ({[advertised_addr cfg]} ∪ peer_list (c_p2p c)))); [left; set_solver|].
        right; right; left. set_solver.
      * specialize (D3 a q Hold Hq). set_solver.
  - split_and!; simpl; [set_solver..|]. intros a q Ha Hq. specialize (D3 a q Ha Hq). set_solver.
Qed.

Lemma connect_loop_discovery a0 fuel todo c c' :
  discovery a0 todo c → connect_loop cfg dial iter fuel todo c = Some c' → discovery a0 [] c'.
Proof.
  revert todo c. induction fuel as [|fuel IH]; intros todo c Hc.
  - destruct todo; [by intros [= <-]|done].
  - destruct todo as [|addr rest]; [by intros [= <-]|]. cbn [connect_loop].
    destruct (connect_one cfg dial iter addr c) as [new c1] eqn:H1.
    apply IH. by eapply connect_one_discovery.
Qed.

Lemma do_connect_total addr open p :
  addr ∈ U →
  ∃ c', connect_loop cfg dial iter (size U * size U + 2) [addr] (MkConnecting p open ∅ ∅) = Some c'.
Proof.
  intros HU. apply connect_loop_total.
  - by intros q ->%list_elem_of_singleton.
  - unfold work. simpl. assert (size (U ∖ open) ≤ size U) by (apply subseteq_size; set_solver). nia.
Qed.

Lemma discovery_start addr open p : discovery addr [addr] (MkConnecting p open ∅ ∅).
Proof. split_and!; simpl; [right; by left|set_solver..]. Qed.

(** Connections and peers are only added. *)
Lemma connect_one_grows addr c :
  let c' := snd (connect_one cfg dial iter addr c) in
  connected_peers c ⊆ connected_peers c' ∧ peer_list (c_p2p c) ⊆ peer_list (c_p2p c').
Proof.
  unfold connect_one. destruct (if bool_decide _ then None else dial addr) as [[remote msg]|];
    simpl; set_solver.
Qed.

Lemma connect_loop_grows fuel todo c c' :
  connect_loop cfg dial iter fuel todo c = Some c' →
  connected_peers c ⊆ connected_peers c' ∧ peer_list (c_p2p c) ⊆ peer_list (c_p2p c').
Proof.
  revert todo c. induction fuel as [|fuel IH]; intros [|addr rest] c; simpl; try done; try by intros [= <-].
  pose proof (connect_one_grows addr c) as Hone. destruct (connect_one cfg dial iter addr c) as [new c1].
  intros Hl%IH. simpl in Hone. set_solver.
Qed.

(** What was connected before is not connected again. *)
Lemma connect_loop_fresh O fuel todo c c' :
  O ⊆ c_open c → connected_peers c ## O →
  connect_loop cfg dial iter fuel todo c = Some c' → connected_peers c' ## O.
Proof.
  revert todo c. induction fuel as [|fuel IH]; intros [|addr rest] c HO Hc; simpl; try done;
    try by intros [= <-].
  assert (O ⊆ c_open (snd (connect_one cfg dial iter addr c)) ∧
    connected_peers (snd (connect_one cfg dial iter addr c)) ## O) as [H1 H2].
  { unfold connect_one. case_bool_decide; [|destruct (dial addr) as [[remote msg]|]]; simpl; set_solver. }
  destruct (connect_one cfg dial iter addr c) as [new c1]. by apply IH.
Qed.

Lemma connect_loop_one fuel addr c c' :
  addr ∈ c_open c ∨ dial addr = None →
  connect_loop cfg dial iter fuel [addr] c = Some c' → connected_peers c' = connected_peers c.
Proof.
  intros Hd. destruct fuel; [done|]. simpl. unfold connect_one.
  assert ((if bool_decide (addr ∈ c_open c) then None else dial addr) = None) as ->
    by (case_bool_decide; [done|]; by destruct Hd).
  simpl. destruct fuel; by intros [= <-].
Qed.

(** Connecting, for its callers: it ends, no peer is lost, and it connects to somebody
    exactly when the address is not connected yet and answers. *)
Lemma do_connect_reaches addr open p :
  addr ∈ U →
  ∃ connected failed p',
    do_connect cfg dial iter (size U * size U + 2) addr open p = Some (connected, failed, p') ∧
    peer_list p ∪ connected ⊆ peer_list p' ∧ connected ## open ∧
    (connected = ∅ ↔ addr ∈ open ∨ dial addr = None).
Proof.
  intros HU. unfold do_connect. destruct (do_connect_total addr open p HU) as [c' Hc'].
  rewrite Hc'. eexists _, _, _. split; [done|].
  pose proof (connect_loop_grows _ _ _ _ Hc') as [_ Hp].
  pose proof (connect_loop_discovery addr _ _ _ _ (discovery_start addr open p) Hc') as (_ & Hc & _).
  split; [simpl in *; set_solver|]. split; [by eapply connect_loop_fresh; [..|exact Hc']|]. split.
  - intros Hempty. destruct (decide (addr ∈ open)); [by left|]. right.
    destruct (dial addr) as [[remote msg]|] eqn:Hd; [exfalso|done].
    replace (size U * size U + 2) with (S (size U * size U + 1)) in Hc' by lia. cbn [connect_loop] in Hc'.
    destruct (connect_one cfg dial iter addr (MkConnecting p open ∅ ∅)) as [new c1] eqn:H1.
    apply connect_loop_grows in Hc' as [Hg _]. unfold connect_one in H1. cbn [c_open] in H1.
    rewrite bool_decide_eq_false_2, Hd in H1 by done. injection H1 as <- <-. simpl in Hg. set_solver.
  - intros Hd. by apply connect_loop_one in Hc'.
Qed.

(** C29: Connecting to a peer ends: with finitely many addresses in the network, the
    loop needs at most [|U|^2 + 1] turns, although failed peers are tried again each
    time a new peer tells of them.  Afterwards the address is connected or failed,
    and everything the newly connected peers told of is a peer, has failed, or is
    the node itself: no discovered peer is forgotten. *)
Theorem do_connect_spec addr open p :
  addr ∈ U →
  ∃ connected failed p',
    do_connect cfg dial iter (size U * size U + 2) addr open p = Some (connected, failed, p') ∧
    addr ∈ connected ∪ failed ∧ connected ⊆ peer_list p' ∧
    (∀ a q, a ∈ connected → told a q → q ∈ peer_list p' ∪ failed ∨ q = local_p2p_addr cfg).
Proof.
  intros HU. unfold do_connect. destruct (do_connect_total addr open p HU) as [c' Hc'].
  rewrite Hc'. simpl. eexists _, _, _. split; [done|].
  apply (connect_loop_discovery addr) in Hc' as (D1 & D2 & D3); [|apply discovery_start].
  split_and!; [|done|].
  - destruct D1 as [D1|D1]; [done|by apply elem_of_nil in D1].
  - intros a q Ha Hq. destruct (D3 a q Ha Hq) as [?|[?|Hnil]]; [auto..|by apply elem_of_nil in Hnil].
Qed.
End connecting.

(** ** The lists across handshakes and disconnections *)

Section lists.
Context (cfg : P2PConfig).

Inductive p2p_run : P2P → Prop :=
  | p2p_start : p2p_run (P2P_new ∅)
  | p2p_handshake remote msg p : p2p_run p → p2p_run (perform_handshake cfg remote msg p)
  | p2p_disconnect addr p : p2p_run p → p2p_run (on_disconnect addr p)
  | p2p_clear p : p2p_run p → p2p_run (clear_connecting p)
  | p2p_add addr p : p2p_run p → p2p_run (add_peer addr p).

(** In every reachable state the peers whose HTTP port is known, which is where
    assets are downloaded from, are peers of the node; and a disconnection forgets
    the advertised address of the connection in both lists. *)
Theorem http_peers_are_peers p addr :
  p2p_run p →
  dom (peer_http_port_list p) ⊆ peer_list p ∧
  (∀ a, peer_addr_mapping p !! addr = Some a →
     (a ∉ peer_list (on_disconnect addr p)) ∧ peer_http_port_list (on_disconnect addr p) !! a = None ∧
     peer_addr_mapping (on_disconnect addr p) !! addr = None).
Proof.
  intros Hp. split.
  - induction Hp as [|remote msg p _ IH|addr' p _ IH|p _ IH|addr' p _ IH]; simpl; [set_solver| |..].
    + rewrite dom_insert_L. set_solver.
    + unfold on_disconnect. destruct (peer_addr_mapping p !! addr'); [|done]. simpl.
      rewrite dom_delete_L. set_solver.
    + done.
    + set_solver.
  - intros a Ha. unfold on_disconnect. rewrite Ha. simpl.
    split_and!; [set_solver|apply lookup_delete_eq|apply lookup_delete_eq].
Qed.

(** Two connections to one peer are possible, and the end of either makes the node
    forget the peer: the other connection is still open and still mapped to an
    address that is no longer in the peer list, and assets are no longer downloaded
    from that peer. *)
Theorem second_connection_forgets_peer remote1 remote2 msg1 msg2 p a :
  remote1 ≠ remote2 →
  my_p2p_listen_addr (resolve_listen_addr remote1 msg1) = a →
  my_p2p_listen_addr (resolve_listen_addr remote2 msg2) = a →
  let p' := on_disconnect remote2
              (perform_handshake cfg remote2 msg2 (perform_handshake cfg remote1 msg1 p)) in
  peer_addr_mapping p' !! remote1 = Some a ∧ (a ∉ peer_list p') ∧ peer_http_port_list p' !! a = None.
Proof.
  intros Hne H1 H2. simpl. unfold on_disconnect, perform_handshake. simpl.
  rewrite lookup_insert_eq, H1, H2. simpl. split_and!.
  - rewrite lookup_delete_ne, lookup_insert_ne, lookup_insert_eq by done. done.
  - set_solver.
  - apply lookup_delete_eq.
Qed.
End lists.

(** ** Witnesses *)

Section p2p_witnesses.
#[local] Existing Instances secp_toy.

Definition node_addr (n : Z) : SocketAddr := (inl n, 9999%Z).
Definition toy_cfg : P2PConfig := MkP2PConfig (node_addr 1) None (Some (node_addr 1)).
(** Peer 2 tells of peers 3 and 4; peer 3 tells of peer 4, which never answers. *)
Definition toy_dial (a : SocketAddr) : option (SocketAddr * Handshake) :=
  if bool_decide (a = node_addr 2) then
    Some (a, MkHandshake a {[node_addr 2; node_addr 3; node_addr 4]} None)
  else if bool_decide (a = node_addr 3) then
    Some (a, MkHandshake a {[node_addr 3; node_addr 4]} (Some 80%Z))
  else None.
Definition toy_universe : gset SocketAddr := {[node_addr 2; node_addr 3; node_addr 4]}.

Lemma toy_universe_closed a remote msg :
  a ∈ toy_universe → toy_dial a = Some (remote, msg) →
  peers (resolve_listen_addr remote msg) ⊆ toy_universe.
Proof.
  intros _. unfold toy_dial. case_bool_decide as H2; [|case_bool_decide as H3; [|done]];
    intros [= <- <-]; subst a; by_evaluation.
Qed.

Example do_connect_spec_witness :
  ∃ connected failed p',
    do_connect toy_cfg toy_dial elements (size toy_universe * size toy_universe + 2) (node_addr 2) ∅
      (P2P_new ∅) = Some (connected, failed, p') ∧
    node_addr 2 ∈ connected ∪ failed ∧ connected ⊆ peer_list p' ∧
    (∀ a q, a ∈ connected → told toy_dial a q →
       q ∈ peer_list p' ∪ failed ∨ q = local_p2p_addr toy_cfg).
Proof.
  apply (do_connect_spec toy_cfg toy_dial elements (λ s, Permutation_refl _) toy_universe
    toy_universe_closed (node_addr 2) ∅ (P2P_new ∅)).
  by_evaluation.
Defined.

Example http_peers_are_peers_witness :
  dom (peer_http_port_list (perform_handshake toy_cfg (node_addr 3)
         (MkHandshake (node_addr 3) ∅ (Some 80%Z)) (P2P_new ∅)))
  ⊆ peer_list (perform_handshake toy_cfg (node_addr 3)
         (MkHandshake (node_addr 3) ∅ (Some 80%Z)) (P2P_new ∅)).
Proof.
  apply (http_peers_are_peers toy_cfg _ (node_addr 3)). apply p2p_handshake, p2p_start.
Defined.

Example second_connection_forgets_peer_witness :
  let msg := MkHandshake (node_addr 3) ∅ (Some 80%Z) in
  let p' := on_disconnect (inl 3%Z, 50000%Z) (perform_handshake toy_cfg (inl 3%Z, 50000%Z) msg
              (perform_handshake toy_cfg (node_addr 3) msg (P2P_new ∅))) in
  peer_addr_mapping p' !! node_addr 3 = Some (node_addr 3) ∧ (node_addr 3 ∉ peer_list p') ∧
  peer_http_port_list p' !! node_addr 3 = None.
Proof.
  apply (second_connection_forgets_peer toy_cfg (node_addr 3) (inl 3%Z, 50000%Z)); [by_evaluation|reflexivity..].
Defined.

Definition toy_p2p_tx : Transaction Validated :=
  MkTransaction (toy_key "k") (fill "h") (Payload.Stake 5) 1 Signature_default false false MkValidated.
Definition wire_tx : @Wire secp_toy := {|
  ser_hs0 _ := Err "unused"; de_hs0 _ := Err "unused";
  ser_hs1 _ := Err "unused"; de_hs1 _ := Err "unused";
  ser_msg0 _ := Ok ["a"%char];
  de_msg0 bs := if bool_decide (bs = ["a"%char]) then Ok (V0.V0 (V0.Transaction toy_p2p_tx)) else Err "tag";
  ser_msg1 _ := Err "unused"; de_msg1 _ := Err "unused"
|}.
Example broadcast_received_witness :
  @process_message _ wire_tx (λ _, Err "none") ["a"%char] (MkChannel [] true) =
    (Ok None, MkChannel [(into_received (created_of_validated toy_p2p_tx) Received.P2P, None)] true).
Proof.
  exact (@broadcast_received _ wire_tx toy_p2p_tx ["a"%char] (λ _, Err "none") (MkChannel [] true)
    eq_refl eq_refl eq_refl).
Defined.
End p2p_witnesses.
