(* ===== verification/Noise.v ===== *)
(** * Noise codec ([crates/node/src/networking/p2p/noise.rs])

    The codec that encrypts and frames the messages of a connection.  The [snow]
    crate (handshake and transport encryption) and [tokio_util]'s
    [LengthDelimitedCodec] (two-byte length prefix, frames of at most 65535 bytes)
    are interfaces with their documented behaviour as laws. *)

From S2P Require Import Prelude Types.

Definition MAX_MESSAGE_LEN : nat := Z.to_nat 65535.
(** The authentication tag of a noise message. *)
Definition TAG_LEN : nat := 16.

Class Snow := {
  SnowHandshake : Type;
  SnowTransport : Type;
  hs_write : SnowHandshake → list u8 → result string (list u8 * SnowHandshake);
  hs_read : SnowHandshake → list u8 → result string (list u8 * SnowHandshake);
  hs_transport : SnowHandshake → result string SnowTransport;
  write_message : SnowTransport → Z → list u8 → result string (list u8);
  read_message : SnowTransport → Z → list u8 → result string (list u8)
}.

Class Framing := {
  frame_encode : list u8 → result string (list u8);
  frame_decode : list u8 → result string (option (list u8 * list u8))
}.

(** [slice.chunks(n)] *)
Fixpoint chunks_fuel {A} (fuel n : nat) (l : list A) : list (list A) :=
  match fuel, l with
  | _, [] => []
  | 0, _ => []
  | S fuel, _ => take n l :: chunks_fuel fuel n (drop n l)
  end.
Definition chunks {A} (n : nat) (l : list A) : list (list A) := chunks_fuel (length l) n l.

Section codec.
Context `{Snow, Framing}.

Record PostHandshakeState := MkPostHandshakeState {
  transport : SnowTransport;
  rx_carryover : option (list u8);
  rx_nonce : Z;
  tx_nonce : Z
}.

Inductive State := StHandshake (hs : SnowHandshake) | StPostHandshake (ph : PostHandshakeState).

Definition into_post_handshake (s : State) : result string State :=
  match s with
  | StHandshake hs =>
      match hs_transport hs with
      | Ok t => Ok (StPostHandshake (MkPostHandshakeState t None 0 0))
      | _ => Panic
      end
  | StPostHandshake _ => Panic
  end.

Definition save_buffer (buf : list u8) (s : State) : result string State :=
  match s with
  | StPostHandshake ph =>
      Ok (StPostHandshake (MkPostHandshakeState (transport ph) (Some buf) (rx_nonce ph) (tx_nonce ph)))
  | StHandshake _ => Panic
  end.

(** The loop over the chunks of a message; the nonce, a [u64], advances with every chunk
    (and wraps, as in a release build). *)
Fixpoint crypt_chunks (crypt : Z → list u8 → result string (list u8)) (nonce : Z)
    (l : list (list u8)) : result string (list u8) * Z :=
  match l with
  | [] => (Ok [], nonce)
  | chunk :: rest =>
      match crypt nonce chunk with
      | Ok out => let '(r, nonce') := crypt_chunks crypt (u64_wrap (nonce + 1)) rest in
                  (out' ← r; Ok (out ++ out'), nonce')
      | Err e => (Err e, nonce)
      | Panic => (Panic, nonce)
      end
  end.

(** [Encoder::encode]: the bytes appended to [dst]. *)
Definition encode (msg : list u8) : M State string (list u8) := λ s,
  match s with
  | StHandshake hs =>
      match hs_write hs msg with
      | Ok (out, hs') => (frame_encode out, StHandshake hs')
      | Err e => (Err e, s)
      | Panic => (Panic, s)
      end
  | StPostHandshake ph =>
      let '(r, nonce) := crypt_chunks (write_message (transport ph)) (tx_nonce ph)
                           (chunks (MAX_MESSAGE_LEN - 16) msg) in
      (encrypted_msg ← r; frame_encode encrypted_msg,
       StPostHandshake (MkPostHandshakeState (transport ph) (rx_carryover ph) (rx_nonce ph) nonce))
  end.

(** The carried-over bytes are taken and put before [src]. *)
Definition take_carryover (s : State) (src : list u8) : list u8 * State :=
  match s with
  | StPostHandshake ph =>
      (default [] (rx_carryover ph) ++ src,
       StPostHandshake (MkPostHandshakeState (transport ph) None (rx_nonce ph) (tx_nonce ph)))
  | StHandshake _ => (src, s)
  end.

(** [Decoder::decode] on the buffer [src]: a message, or [None] when no whole frame is
    there, and the rest of the buffer. *)
Definition decode : M (State * list u8) string (option (list u8)) := λ '(s, src),
  let '(src, s) := take_carryover s src in
  match frame_decode src with
  | Err e => (Err e, (s, src))
  | Panic => (Panic, (s, src))
  | Ok None => (Ok None, (s, src))
  | Ok (Some (bytes, src)) =>
      match s with
      | StHandshake hs =>
          match hs_read hs bytes with
          | Ok (msg, hs') => (Ok (Some msg), (StHandshake hs', src))
          | Err e => (Err "InvalidData", (s, src))
          | Panic => (Panic, (s, src))
          end
      | StPostHandshake ph =>
          let '(r, nonce) := crypt_chunks (read_message (transport ph)) (rx_nonce ph)
                               (chunks MAX_MESSAGE_LEN bytes) in
          (match r with Ok m => Ok (Some m) | Err _ => Err "InvalidData" | Panic => Panic end,
           (StPostHandshake (MkPostHandshakeState (transport ph) (rx_carryover ph) nonce (tx_nonce ph)),
            src))
      end
  end.

(** Sending a list of messages, and receiving [n] of them from what has arrived. *)
Fixpoint encode_all (msgs : list (list u8)) : M State string (list u8) :=
  match msgs with
  | [] => mret []
  | m :: rest => f ← encode m; fs ← encode_all rest; mret (f ++ fs)
  end.
Fixpoint decode_all (n : nat) : M (State * list u8) string (list (list u8)) :=
  match n with
  | 0 => mret []
  | S n =>
      o ← decode;
      match o with
      | Some m => ms ← decode_all n; mret (m :: ms)
      | None => mret []
      end
  end.
End codec.

(** ** Laws of the interfaces *)

(** Two transports of one connection: what one writes the other reads, under the same
    nonce only. *)
Class SnowLaws `{Snow} (tx rx : SnowTransport) : Prop := {
  write_read n m : (0 ≤ n < 2 ^ 64)%Z → length m ≤ MAX_MESSAGE_LEN - TAG_LEN →
    ∃ c, write_message tx n m = Ok c ∧ length c = length m + TAG_LEN ∧ read_message rx n c = Ok m;
  wrong_nonce n n' m c : (0 ≤ n < 2 ^ 64)%Z → (0 ≤ n' < 2 ^ 64)%Z → n ≠ n' →
    write_message tx n m = Ok c → ∃ e, read_message rx n' c = Err e
}.

Class FramingLaws `{Framing} : Prop := {
  frame_roundtrip bs : length bs ≤ MAX_MESSAGE_LEN →
    ∃ f, frame_encode bs = Ok f ∧ ∀ rest, frame_decode (f ++ rest) = Ok (Some (bs, rest));
  frame_too_long bs : MAX_MESSAGE_LEN < length bs → ∃ e, frame_encode bs = Err e
}.

(** ** Chunks *)

Lemma chunks_fuel_concat {A} fuel n (l : list A) :
  0 < n → length l ≤ fuel → concat (chunks_fuel fuel n l) = l.
Proof.
  intros Hn. revert l. induction fuel as [|fuel IH]; intros l Hl.
  - destruct l; [done|simpl in Hl; lia].
  - destruct l as [|x l]; [done|]. cbn [chunks_fuel concat].
    rewrite IH by (rewrite length_drop; cbn [length] in *; lia). apply take_drop.
Qed.
Lemma chunks_concat {A} n (l : list A) : 0 < n → concat (chunks n l) = l.
Proof. intros Hn. by apply chunks_fuel_concat. Qed.

Lemma chunks_fuel_length {A} fuel n (l : list A) :
  Forall (λ c, length c ≤ n) (chunks_fuel fuel n l).
Proof.
  revert l. induction fuel as [|fuel IH]; intros [|x l]; cbn [chunks_fuel]; try done.
  constructor; [|apply IH]. rewrite length_take. lia.
Qed.
Lemma chunks_length {A} n (l : list A) : Forall (λ c, length c ≤ n) (chunks n l).
Proof. apply chunks_fuel_length. Qed.

Lemma chunks_fuel_count {A} fuel n (l : list A) : length (chunks_fuel fuel n l) ≤ fuel.
Proof.
  revert l. induction fuel as [|fuel IH]; intros [|x l]; cbn [chunks_fuel length]; [lia..|].
  specialize (IH (drop n (x :: l))). lia.
Qed.
Lemma chunks_count {A} n (l : list A) : length (chunks n l) ≤ length l.
Proof. apply chunks_fuel_count. Qed.

(** A message that fits is one chunk. *)
Lemma chunks_small {A} n (l : list A) : length l ≤ n → l ≠ [] → chunks n l = [l].
Proof.
  intros Hl Hne. unfold chunks. destruct l as [|x l]; [done|]. cbn [length chunks_fuel].
  rewrite take_ge, drop_ge by done. by destruct (length l).
Qed.
Lemma chunks_large {A} n (l : list A) : 0 < n → n < length l → 2 ≤ length (chunks n l).
Proof.
  intros Hn Hl. destruct (chunks n l) as [|c1 [|c2 cs]] eqn:Hc; [| |simpl; lia];
    pose proof (chunks_concat n l Hn) as Hcat; pose proof (chunks_length n l) as Hlen;
    rewrite Hc in Hcat, Hlen; simpl in Hcat.
  - subst l. simpl in Hl. lia.
  - rewrite app_nil_r in Hcat. subst c1. apply Forall_cons in Hlen as [Hlen _]. lia.
Qed.

(** ** The codec on a connection *)

Section connection.
Context `{SnowLaws, !Framing, !FramingLaws}.

Lemma max_chunk : MAX_MESSAGE_LEN - 16 = MAX_MESSAGE_LEN - TAG_LEN.
Proof. done. Qed.

(** Encrypting chunks: as many nonces as chunks, and the tags add up. *)
Lemma write_chunks l n :
  (0 ≤ n < 2 ^ 64)%Z →
  Forall (λ c, length c ≤ MAX_MESSAGE_LEN - TAG_LEN) l →
  ∃ out, crypt_chunks (write_message tx) n l = (Ok out, u64_wrap (n + Z.of_nat (length l))) ∧
    length out = length (concat l) + TAG_LEN * length l.
Proof.
  intros Hn Hl. revert n Hn. induction Hl as [|c l Hc Hl IH]; intros n Hn.
  - exists []. simpl. split; [|lia]. f_equal. unfold u64_wrap. rewrite Z.add_0_r. symmetry. by apply Z.mod_small.
  - destruct (write_read n c) as (e & Hw & Hlen & _); [lia|done|].
    destruct (IH (u64_wrap (n + 1))) as (out & Hout & Hlo); [apply u64_wrap_range|].
    exists (e ++ out). cbn [crypt_chunks]. rewrite Hw, Hout. split.
    + cbn [length]. simpl. f_equal. unfold u64_wrap. rewrite Zplus_mod_idemp_l. f_equal. lia.
    + cbn [concat length]. rewrite !length_app, Hlen, Hlo. unfold TAG_LEN. lia.
Qed.

(** One message of at most [MAX_MESSAGE_LEN - 16] bytes through the codec. *)
Definition fits (msg : list u8) : Prop := length msg ≤ MAX_MESSAGE_LEN - TAG_LEN.
Definition after_msg (n : Z) (msg : list u8) : Z := if bool_decide (msg = []) then n else u64_wrap (n + 1).

Definition tx_state (c : option (list u8)) (r n : Z) : State :=
  StPostHandshake (MkPostHandshakeState tx c r n).
Definition rx_state (c : option (list u8)) (n t : Z) : State :=
  StPostHandshake (MkPostHandshakeState rx c n t).

Lemma encode_decode msg n c r t :
  fits msg → (0 ≤ n < 2 ^ 64)%Z →
  ∃ f, encode msg (tx_state c r n) = (Ok f, tx_state c r (after_msg n msg)) ∧
    ∀ rest, decode (rx_state None n t, f ++ rest) =
      (Ok (Some msg), (rx_state None (after_msg n msg) t, rest)).
Proof.
  intros Hfit Hn. unfold fits in Hfit. unfold after_msg. case_bool_decide as Hmsg.
  - subst msg. destruct (frame_roundtrip []) as (f & Hf & Hd); [simpl; unfold MAX_MESSAGE_LEN; lia|].
    exists f. split.
    + unfold encode, tx_state. cbn -[MAX_MESSAGE_LEN]. by rewrite Hf.
    + intros rest. unfold decode, rx_state. cbn -[MAX_MESSAGE_LEN]. by rewrite Hd.
  - destruct (write_read n msg Hn Hfit) as (e & Hw & Hlen & Hr).
    assert (length e ≤ MAX_MESSAGE_LEN) as He by (unfold TAG_LEN, MAX_MESSAGE_LEN in *; lia).
    assert (e ≠ []) as Hene by (intros ->; unfold TAG_LEN in Hlen; simpl in Hlen; lia).
    destruct (frame_roundtrip e He) as (f & Hf & Hd). exists f. split.
    + unfold encode, tx_state. cbn [transport tx_nonce rx_carryover rx_nonce].
      rewrite max_chunk, chunks_small by done. cbn [crypt_chunks]. rewrite Hw. simpl.
      rewrite app_nil_r. by rewrite Hf.
    + intros rest. unfold decode, rx_state, take_carryover. cbn [rx_carryover default from_option id app].
      rewrite Hd. cbn [transport tx_nonce rx_carryover rx_nonce].
      rewrite chunks_small by done. cbn [crypt_chunks]. rewrite Hr. simpl. by rewrite app_nil_r.
Qed.

(** A message that does not fit is encrypted and then not framed; its nonces are spent. *)
Lemma oversized_not_encoded msg n c r :
  ¬ fits msg → (0 ≤ n < 2 ^ 64)%Z → ∃ e, encode msg (tx_state c r n) =
    (Err e, tx_state c r (u64_wrap (n + Z.of_nat (length (chunks (MAX_MESSAGE_LEN - 16) msg))))).
Proof.
  unfold fits. intros Hbig Hn. set (l := chunks (MAX_MESSAGE_LEN - 16) msg).
  assert (concat l = msg) as Hcat by (apply chunks_concat; unfold MAX_MESSAGE_LEN; lia).
  assert (2 ≤ length l) as Hlen by (apply chunks_large; unfold MAX_MESSAGE_LEN, TAG_LEN in *; lia).
  destruct (write_chunks l n) as (out & Hout & Hlo); [lia|apply chunks_length|].
  destruct (frame_too_long out) as [e He]; [rewrite Hlo, Hcat; unfold MAX_MESSAGE_LEN, TAG_LEN in *; lia|].
  exists e. unfold encode, tx_state. cbn [transport tx_nonce rx_carryover rx_nonce].
  fold l. rewrite Hout. simpl. by rewrite He.
Qed.

(** A frame encrypted under another nonce is refused. *)
Lemma late_nonce_refused msg n n' c r t f s' rest :
  fits msg → msg ≠ [] → (0 ≤ n < 2 ^ 64)%Z → (0 ≤ n' < 2 ^ 64)%Z → n' ≠ n →
  encode msg (tx_state c r n') = (Ok f, s') →
  fst (decode (rx_state None n t, f ++ rest)) = Err "InvalidData".
Proof.
  intros Hfit Hne Hn Hn' Hdiff. unfold fits in Hfit.
  destruct (write_read n' msg Hn' Hfit) as (e & Hw & Hlen & _).
  assert (length e ≤ MAX_MESSAGE_LEN) as He by (unfold TAG_LEN, MAX_MESSAGE_LEN in *; lia).
  assert (e ≠ []) as Hene by (intros ->; unfold TAG_LEN in Hlen; simpl in Hlen; lia).
  destruct (frame_roundtrip e He) as (f' & Hf & Hd). destruct (wrong_nonce n' n msg e) as [err Herr]; [done..|].
  unfold encode, tx_state. cbn [transport tx_nonce rx_carryover rx_nonce].
  rewrite max_chunk, chunks_small by done. cbn [crypt_chunks]. rewrite Hw. simpl.
  rewrite app_nil_r, Hf. intros Heq. injection Heq as -> _.
  unfold decode, rx_state, take_carryover. cbn [rx_carryover default from_option id app].
  rewrite Hd. cbn [transport tx_nonce rx_carryover rx_nonce].
  rewrite chunks_small by done. cbn [crypt_chunks]. by rewrite Herr.
Qed.

(** C8: What is sent over an encrypted connection arrives, in order and unchanged:
    any sequence of messages of at most 65519 bytes that one side encodes is decoded
    by the other side from the bytes on the wire, with the nonces of the two sides in
    step at the end. *)
Theorem noise_stream_roundtrip msgs n c r t :
  Forall fits msgs → (0 ≤ n)%Z → (n + Z.of_nat (length msgs) ≤ 2 ^ 64)%Z →
  ∃ bytes n', encode_all msgs (tx_state c r n) = (Ok bytes, tx_state c r n') ∧
    decode_all (length msgs) (rx_state None n t, bytes) = (Ok msgs, (rx_state None n' t, [])).
Proof.
  intros Hfit Hn Hm.
  enough (∃ bytes n', encode_all msgs (tx_state c r n) = (Ok bytes, tx_state c r n') ∧ ∀ rest,
    decode_all (length msgs) (rx_state None n t, bytes ++ rest) = (Ok msgs, (rx_state None n' t, rest)))
    as (bytes & n' & He & Hd).
  { exists bytes, n'. split; [done|]. specialize (Hd []). by rewrite app_nil_r in Hd. }
  revert n Hn Hm. induction Hfit as [|m msgs Hfit _ IH]; intros n Hn Hm; [by exists [], n|].
  cbn [length] in Hm. destruct (encode_decode m n c r t Hfit) as (f & He & Hd); [lia|].
  assert (0 ≤ after_msg n m ∧ after_msg n m + Z.of_nat (length msgs) ≤ 2 ^ 64)%Z as [Hn1 Hm1].
  { unfold after_msg. case_bool_decide; [lia|]. destruct (decide (n + 1 = 2 ^ 64)%Z) as [->|Hne].
    - unfold u64_wrap. rewrite Z_mod_same_full. lia.
    - rewrite u64_wrap_id by (unfold in_u64, u64_MAX; lia). lia. }
  destruct (IH (after_msg n m) Hn1 Hm1) as (bytes & n' & Hes & Hds).
  exists (f ++ bytes), n'. split.
  - cbn [encode_all]. erewrite M_bind_run by exact He. by erewrite M_bind_run by exact Hes.
  - intros rest. cbn [length decode_all]. rewrite <-app_assoc.
    erewrite M_bind_run by apply Hd. cbn beta iota. by erewrite M_bind_run by apply Hds.
Qed.

(** A message of more than 65519 bytes is never sent, although the codec splits
    messages into chunks: its chunks together exceed the frame that carries them.
    The nonces spent on it are not given back, so every later non-empty message on
    the connection is refused by the receiver. *)
Theorem oversized_message_breaks_connection msg msg' n c r t :
  ¬ fits msg → fits msg' → msg' ≠ [] →
  (0 ≤ n)%Z → (n + Z.of_nat (length msg) + 1 < 2 ^ 64)%Z →
  ∃ e s f s', encode msg (tx_state c r n) = (Err e, s) ∧ encode msg' s = (Ok f, s') ∧
    ∀ rest, fst (decode (rx_state None n t, f ++ rest)) = Err "InvalidData".
Proof.
  intros Hbig Hfit Hne Hn Hm. set (l := chunks (MAX_MESSAGE_LEN - 16) msg).
  assert (2 ≤ length l) as Hlen
    by (apply chunks_large; unfold fits, MAX_MESSAGE_LEN, TAG_LEN in *; lia).
  assert (length l ≤ length msg) as Hcount by apply chunks_count.
  destruct (oversized_not_encoded msg n c r Hbig) as [e He]; [lia|]. fold l in He.
  rewrite u64_wrap_id in He by (unfold in_u64, u64_MAX; lia).
  destruct (encode_decode msg' (n + Z.of_nat (length l)) c r t Hfit) as (f & Hf & _); [lia|].
  exists e, (tx_state c r (n + Z.of_nat (length l))), f. eexists. split_and!; [exact He|exact Hf|].
  intros rest. eapply late_nonce_refused; [exact Hfit|exact Hne| | | |exact Hf]; lia.
Qed.
End connection.

(** ** Witnesses *)

Section noise_witnesses.

(** A cipher that puts the nonce before the message, and the two-byte frame. *)
Definition snow_toy : Snow := {|
  SnowHandshake := (); SnowTransport := ();
  hs_write _ m := Ok (m, ()); hs_read _ m := Ok (m, ()); hs_transport _ := Ok ();
  write_message _ n m := Ok (be_bytes 16 n ++ m);
  read_message _ n c := if bool_decide (take 16 c = be_bytes 16 n) then Ok (drop 16 c) else Err "nonce"
|}.
Definition framing_toy : Framing := {|
  frame_encode bs := if bool_decide (length bs ≤ MAX_MESSAGE_LEN)
                     then Ok (be_bytes 2 (Z.of_nat (length bs)) ++ bs) else Err "frame too long";
  frame_decode src :=
    let n := Z.to_nat (from_be_bytes (take 2 src)) in
    if bool_decide (2 + n ≤ length src) then Ok (Some (take n (drop 2 src), drop n (drop 2 src)))
    else Ok None
|}.

Lemma snow_toy_laws : @SnowLaws snow_toy () ().
Proof.
  split.
  - intros n m Hn Hm. exists (be_bytes 16 n ++ m). cbn [write_message read_message snow_toy]. split_and!.
    + done.
    + rewrite length_app, length_be_bytes. unfold TAG_LEN. lia.
    + rewrite take_app_length', drop_app_length' by (by rewrite length_be_bytes).
      by rewrite bool_decide_eq_true_2.
  - intros n n' m c Hn Hn' Hne Hw. cbn [write_message snow_toy] in Hw. assert (c = be_bytes 16 n ++ m) as -> by (by injection Hw).
    exists "nonce". cbn [read_message snow_toy].
    rewrite take_app_length' by (by rewrite length_be_bytes).
    rewrite bool_decide_eq_false_2; [done|]. intros Heq. apply Hne.
    rewrite <-(from_be_bytes_be_bytes 16 n), <-(from_be_bytes_be_bytes 16 n') by (simpl; lia).
    by rewrite Heq.
Qed.

Lemma framing_toy_laws : @FramingLaws framing_toy.
Proof.
  split; cbn [frame_encode frame_decode framing_toy].
  - intros bs Hbs. rewrite bool_decide_eq_true_2 by done. eexists. split; [done|]. intros rest.
    rewrite <-app_assoc. rewrite take_app_length', drop_app_length' by (by rewrite length_be_bytes).
    rewrite from_be_bytes_be_bytes by (unfold MAX_MESSAGE_LEN in Hbs; simpl; lia).
    rewrite Nat2Z.id, take_app_length, drop_app_length.
    rewrite bool_decide_eq_true_2; [done|]. rewrite !length_app, length_be_bytes. lia.
  - intros bs Hbs. rewrite bool_decide_eq_false_2 by lia. by eexists.
Qed.

#[local] Existing Instances snow_toy snow_toy_laws framing_toy framing_toy_laws.

Definition toy_side : @SnowTransport snow_toy := ().
#[local] Instance toy_side_laws : SnowLaws toy_side toy_side := snow_toy_laws.

Definition toy_msgs : list (list u8) := [["a"%char]; []; ["b"%char; "c"%char]].
Lemma toy_msgs_fit : Forall fits toy_msgs.
Proof.
  do 3 (apply Forall_cons_2; [unfold fits, MAX_MESSAGE_LEN, TAG_LEN; cbn [length]; lia|]).
  apply Forall_nil_2.
Qed.

Example noise_stream_roundtrip_witness :
  ∃ bytes n', encode_all toy_msgs (tx_state (tx:=toy_side) None 0 5)
                = (Ok bytes, tx_state (tx:=toy_side) None 0 n') ∧
    decode_all (length toy_msgs) (rx_state (rx:=toy_side) None 5 0, bytes)
      = (Ok toy_msgs, (rx_state (rx:=toy_side) None n' 0, [])).
Proof.
  refine (noise_stream_roundtrip (tx:=toy_side) (rx:=toy_side) toy_msgs 5 None 0 0 toy_msgs_fit _ _);
    [lia|cbn [length toy_msgs]; lia].
Defined.

Definition big_msg : list u8 := replicate (Z.to_nat 65520) "x"%char.
Lemma length_big_msg : length big_msg = Z.to_nat 65520.
Proof. apply length_replicate. Qed.

Example oversized_message_breaks_connection_witness :
  ∃ e s f s', encode big_msg (tx_state (tx:=toy_side) None 0 5) = (Err e, s) ∧
    encode ["a"%char] s = (Ok f, s') ∧
    ∀ rest, fst (decode (rx_state (rx:=toy_side) None 5 0, f ++ rest)) = Err "InvalidData".
Proof.
  refine (oversized_message_breaks_connection (tx:=toy_side) (rx:=toy_side) big_msg ["a"%char] 5 None 0 0
    _ _ _ _ _).
  - unfold fits, MAX_MESSAGE_LEN, TAG_LEN. rewrite length_big_msg. lia.
  - unfold fits, MAX_MESSAGE_LEN, TAG_LEN. cbn [length]. lia.
  - discriminate.
  - lia.
  - rewrite length_big_msg. lia.
Defined.
End noise_witnesses.
