(* ===== verification/Mesh.v ===== *)
(** * Networks of nodes ([crates/node/src/networking/p2p/pea2pea.rs])

    [P2P] models one node; here several of them are connected.  A node that connects
    runs its [do_connect], and every peer it reaches answers with its own side of the
    handshake.  The theorems are about nodes that know and are connected to each other
    (a mesh): connecting to one member makes a node a member, a disconnected node is
    forgotten by all, and what a member broadcasts, if it fits in a noise frame, every
    other one receives.  The scenarios are those of the file's tests.

    Dialling is idealised: whoever listens at an address answers the handshake.  A node
    with another passphrase, [pea2pea]'s limit on connections (its default
    configuration), time-outs, and two nodes that connect to each other at the same time
    are not modelled. *)

From S2P Require Import Prelude Types Models Files Transaction Event Mempool Protocol P2P Noise.

Record Peer := MkPeer { peer_cfg : P2PConfig; peer_p2p : P2P }.

(** Nodes under the address they can be reached at, and the open connections: under
    the two addresses, first of the node that connected, the source address of the
    connection, which is the one the other node sees. *)
Record Net := MkNet {
  peers_at : gmap SocketAddr Peer;
  links : gmap (SocketAddr * SocketAddr) SocketAddr
}.

(** ** Connecting *)

(** Whoever listens at [a] answers with its handshake message. *)
Definition dial_at (net : Net) (a : SocketAddr) : option (SocketAddr * Handshake) :=
  r ← peers_at net !! a; Some (a, fst (build_handshake_msg (peer_cfg r) (peer_p2p r))).

(** The responder's [perform_handshake]: it is sent the message of the initiator, who
    is in state [p]. *)
Definition respond (cfg : P2PConfig) (p : P2P) (source : SocketAddr) (r : Peer) : Peer :=
  MkPeer (peer_cfg r)
    (perform_handshake (peer_cfg r) source (fst (build_handshake_msg cfg p)) (peer_p2p r)).

Definition has_peer (net : Net) (a : SocketAddr) : bool := bool_decide (is_Some (peers_at net !! a)).

(** What one turn of the initiator's [do_connect] does to the others. *)
Definition answer (cfg : P2PConfig) (source : SocketAddr → SocketAddr) (x addr : SocketAddr)
    (c : Connecting) (net : Net) : Net :=
  if negb (bool_decide (addr ∈ c_open c)) && has_peer net addr
  then MkNet (alter (respond cfg (c_p2p c) (source addr)) addr (peers_at net))
         (<[(x, addr) := source addr]> (links net))
  else net.

(** The connections of [x]: the address of the connection and the node at its end. *)
Definition conns (net : Net) (x : SocketAddr) : list (SocketAddr * SocketAddr) :=
  '((i, r), s) ← map_to_list (links net);
  (if decide (i = x) then [(r, r)] else []) ++ (if decide (r = x) then [(s, i)] else []).
Definition conn_addrs (net : Net) (x : SocketAddr) : gset SocketAddr := list_to_set (conns net x).*1.

Section mesh.
Context (iter : gset SocketAddr → list SocketAddr).

(** [do_connect] of [x] with the answers of the others. *)
Fixpoint connect_net (fuel : nat) (cfg : P2PConfig) (source : SocketAddr → SocketAddr)
    (x : SocketAddr) (todo : list SocketAddr) (c : Connecting) (net : Net) : option (Connecting * Net) :=
  match todo, fuel with
  | [], _ => Some (c, net)
  | _, 0 => None
  | addr :: rest, S fuel =>
      let '(new, c') := connect_one cfg (dial_at net) iter addr c in
      connect_net fuel cfg source x (reverse new ++ rest) c' (answer cfg source x addr c net)
  end.

(** [connect]: the peers it connected to, those it failed with, and the network. *)
Definition connect (fuel : nat) (source : SocketAddr → SocketAddr) (x addr : SocketAddr) (net : Net)
    : option (gset SocketAddr * gset SocketAddr * Net) :=
  r ← peers_at net !! x;
  '(c, net') ← connect_net fuel (peer_cfg r) source x [addr]
                 (MkConnecting (peer_p2p r) (conn_addrs net x) ∅ ∅)
                 (MkNet (delete x (peers_at net)) (links net));
  Some (connected_peers c, failed_peers c,
        MkNet (<[x := MkPeer (peer_cfg r) (c_p2p c)]> (peers_at net')) (links net')).

(** ** Disconnecting *)

(** All connections of [x] are closed; both ends run [on_disconnect]. *)
Definition lost_conns (net : Net) (x a : SocketAddr) : list SocketAddr :=
  (filter (λ e, a = x ∨ e.2 = x) (conns net a)).*1.
Definition drop_conns (addrs : list SocketAddr) (p : P2P) : P2P := foldr on_disconnect p addrs.
Definition disconnect_all (x : SocketAddr) (net : Net) : Net :=
  MkNet (map_imap (λ a r, Some (MkPeer (peer_cfg r) (drop_conns (lost_conns net x a) (peer_p2p r))))
           (peers_at net))
        (filter (λ l, (l.1.1 ≠ x) ∧ (l.1.2 ≠ x)) (links net)).

End mesh.

(** ** Broadcasting *)

Section wires.
Context `{Snow, Framing}.

(** One direction of a connection: the codec of the sender, and the codec of the other
    end with the bytes it has not decoded yet. *)
Record NoiseWire := MkNoiseWire { w_tx : State; w_rx : State; w_rest : list u8 }.

(** A message goes through both codecs; what the sender's codec refuses is dropped. *)
Definition transmit (bs : list u8) (w : NoiseWire) : option (list u8) * NoiseWire :=
  match Noise.encode bs (w_tx w) with
  | (Ok f, tx) =>
      match Noise.decode (w_rx w, w_rest w ++ f) with
      | (Ok o, (rx, rest)) => (o, MkNoiseWire tx rx rest)
      | (_, (rx, rest)) => (None, MkNoiseWire tx rx rest)
      end
  | (_, tx) => (None, MkNoiseWire tx (w_rx w) (w_rest w))
  end.

(** Connected ends that agree on the nonce, nothing on the way. *)
Definition in_step `{!FramingLaws} (w : NoiseWire) : Prop :=
  ∃ tx rx (L : SnowLaws tx rx) n c r t, (0 ≤ n < 2 ^ 64)%Z ∧
    w = MkNoiseWire (tx_state (tx:=tx) c r n) (rx_state (rx:=rx) None n t) [].

Lemma transmit_fits `{!FramingLaws} bs w :
  fits bs → in_step w → ∃ w', transmit bs w = (Some bs, w') ∧ in_step w'.
Proof.
  intros Hfit (tx & rx & L & n & c & r & t & Hn & ->).
  destruct (encode_decode bs n c r t Hfit Hn) as (f & He & Hd). specialize (Hd []). rewrite app_nil_r in Hd.
  eexists. unfold transmit. cbn [w_tx w_rx w_rest app]. rewrite He, Hd. split; [done|].
  exists tx, rx, L, (after_msg n bs), c, r, t. split; [|done].
  unfold after_msg. case_bool_decide; [done|apply u64_wrap_range].
Qed.

Lemma transmit_oversized `{!FramingLaws} bs w :
  ¬ fits bs → in_step w → fst (transmit bs w) = None.
Proof.
  intros Hbig (tx & rx & L & n & c & r & t & Hn & ->).
  destruct (oversized_not_encoded bs n c r Hbig Hn) as [e He].
  unfold transmit. cbn [w_tx]. by rewrite He.
Qed.
End wires.

Section broadcast.
Context `{Wire, Snow, Framing}.
(** The order in which [Writing::broadcast] goes through the connections, and which of
    them take the message: [pea2pea] has a bounded queue for each, and drops a message
    for a full one. *)
Context (scan : ∀ A : Type, list A → list A) (takes : SocketAddr → bool).
Context (reply : SocketAddr → RequestKind.t → result string (list u8)).

(** The directions of the connections, under sender and receiver, and the nodes'
    channels to their event loops. *)
Record Traffic := MkTraffic {
  wires : gmap (SocketAddr * SocketAddr) NoiseWire;
  channels : gmap SocketAddr Channel
}.

(** The message on its way from [x] to [b], whose [process_message] gets what arrives. *)
Definition deliver (x : SocketAddr) (bs : list u8) (b : SocketAddr) (s : Traffic) : Traffic :=
  if takes b then
    match wires s !! (x, b) with
    | Some w =>
        let '(o, w') := transmit bs w in
        MkTraffic (<[(x, b) := w']> (wires s))
          (match o with
           | Some m => alter (λ ch, snd (process_message (reply b) m ch)) b (channels s)
           | None => channels s
           end)
    | None => s
    end
  else s.

(** The body of the loop over [propagate_tx_stream], and the other ends'
    [process_message]. *)
Definition broadcast (net : Net) (x : SocketAddr) (tx : Transaction Validated) (s : Traffic) : Traffic :=
  match broadcast_bytes tx with
  | Ok bs => foldr (deliver x bs) s (scan _ (conns net x)).*2
  | _ => s
  end.

(** *** Deliveries to different nodes do not meet *)

Lemma deliver_other x bs b c s : c ≠ b →
  channels (deliver x bs b s) !! c = channels s !! c ∧
  wires (deliver x bs b s) !! (x, c) = wires s !! (x, c).
Proof.
  intros Hne. unfold deliver. destruct (takes b); [|done]. destruct (wires s !! (x, b)) as [w|]; [|done].
  destruct (transmit bs w) as [o w']. simpl. rewrite lookup_insert_ne by congruence. split; [|done].
  destruct o; [|done]. by rewrite lookup_alter_ne.
Qed.

Lemma deliver_local x bs b s s' :
  channels s !! b = channels s' !! b → wires s !! (x, b) = wires s' !! (x, b) →
  channels (deliver x bs b s) !! b = channels (deliver x bs b s') !! b ∧
  wires (deliver x bs b s) !! (x, b) = wires (deliver x bs b s') !! (x, b).
Proof.
  intros Hc Hw. unfold deliver. destruct (takes b); [|done]. rewrite Hw.
  destruct (wires s' !! (x, b)) as [w|] eqn:Hw'; [|by rewrite Hc, Hw, Hw']. destruct (transmit bs w) as [o w']. simpl.
  rewrite !lookup_insert_eq. split; [|done]. destruct o; [|done]. by rewrite !lookup_alter_eq, Hc.
Qed.

Lemma deliver_all x bs l s b : NoDup l →
  channels (foldr (deliver x bs) s l) !! b = channels (if decide (b ∈ l) then deliver x bs b s else s) !! b ∧
  wires (foldr (deliver x bs) s l) !! (x, b) = wires (if decide (b ∈ l) then deliver x bs b s else s) !! (x, b).
Proof.
  induction 1 as [|c l Hc _ IH]; [done|]. cbn [foldr]. destruct (decide (b = c)) as [->|Hne].
  - rewrite decide_False in IH by done. rewrite decide_True by (apply elem_of_cons; by left). destruct IH. by apply deliver_local.
  - destruct (deliver_other x bs c b (foldr (deliver x bs) s l) Hne) as [-> ->].
    rewrite (decide_ext (b ∈ c :: l) (b ∈ l)); [done|]. rewrite elem_of_cons. naive_solver.
Qed.
End broadcast.

(** ** Connections and meshes *)

(** [e] is the address under which [a] sees its connection with [b]. *)
Definition linked (net : Net) (a e b : SocketAddr) : Prop :=
  (is_Some (links net !! (a, b)) ∧ e = b) ∨ links net !! (b, a) = Some e.

Lemma elem_of_conns net a e b : (e, b) ∈ conns net a ↔ linked net a e b.
Proof.
  unfold conns, linked. rewrite list_elem_of_bind. split.
  - intros ([[i r] s] & Hin & Hl%elem_of_map_to_list). apply elem_of_app in Hin as [Hin|Hin];
      case_decide; try (by apply elem_of_nil in Hin); apply list_elem_of_singleton in Hin; simplify_eq; eauto.
  - intros [[[s Hs] ->]|Hs].
    + exists (a, b, s). rewrite elem_of_app, decide_True, list_elem_of_singleton, elem_of_map_to_list by done.
      auto.
    + exists (b, a, e). rewrite elem_of_app, (decide_True (P := a = a)) by done.
      rewrite list_elem_of_singleton, elem_of_map_to_list. auto.
Qed.

Lemma elem_of_conn_addrs net a e : e ∈ conn_addrs net a ↔ ∃ b, linked net a e b.
Proof.
  unfold conn_addrs. rewrite elem_of_list_to_set, list_elem_of_fmap. split.
  - intros ([e' b] & -> & Hin%elem_of_conns). by exists b.
  - intros [b Hb%elem_of_conns]. by exists (e, b).
Qed.

(** The node is reached at the address it tells of (resolved by the peers when it
    tells none), and knows itself by it. *)
Definition public (cfg : P2PConfig) (a : SocketAddr) : Prop :=
  local_p2p_addr cfg = a ∧ ip a ≠ unspecified.

Definition port_of (net : Net) (b : SocketAddr) : option (option Z) :=
  cfg_http_port ∘ peer_cfg <$> peers_at net !! b.

(** [a] is a member of the mesh [V]: it lists the others and nobody else (and perhaps
    the placeholder for itself), knows where to download from them, and has one
    connection with each. *)
Record member (V : gset SocketAddr) (net : Net) (a : SocketAddr) (r : Peer) : Prop := {
  mem_at : peers_at net !! a = Some r;
  mem_public : public (peer_cfg r) a;
  mem_known b : b ∈ V → b ≠ a → b ∈ peer_list (peer_p2p r);
  mem_only b : b ∈ peer_list (peer_p2p r) → b = advertised_addr (peer_cfg r) ∨ (b ∈ V ∧ b ≠ a);
  mem_ports b : peer_http_port_list (peer_p2p r) !! b =
    if decide (b ∈ V ∧ b ≠ a) then port_of net b else None;
  mem_mapping e b : peer_addr_mapping (peer_p2p r) !! e = Some b ↔ linked net a e b;
  mem_linked b : (∃ e, linked net a e b) ↔ b ∈ V ∧ b ≠ a;
  mem_once b : is_Some (links net !! (a, b)) → links net !! (b, a) = None
}.

Definition mesh (V : gset SocketAddr) (net : Net) : Prop := ∀ a, a ∈ V → ∃ r, member V net a r.

(** ** Handshake messages *)

Lemma advertised_public cfg a : public cfg a →
  advertised_addr cfg = a ∨ (ip (advertised_addr cfg) = unspecified ∧ port (advertised_addr cfg) = port a).
Proof.
  intros [Hl _]. revert Hl. unfold local_p2p_addr, advertised_addr.
  destruct (cfg_nat_listen_addr cfg); simpl; intros ->; auto.
Qed.

Lemma advertised_not_member cfg a b : public cfg a → ip b ≠ unspecified → b ≠ a → advertised_addr cfg ≠ b.
Proof. intros [->|[Hu _]]%advertised_public Hb Hne; [done|]. by intros <-. Qed.

(** What a peer makes of the message of a node it is connected with. *)
Lemma resolved_message cfg a remote p : public cfg a → ip remote = ip a →
  resolve_listen_addr remote (fst (build_handshake_msg cfg p)) =
    MkHandshake a ({[a]} ∪ (peer_list p ∖ {[advertised_addr cfg]})) (cfg_http_port cfg).
Proof.
  intros Hpub Hip. unfold resolve_listen_addr, build_handshake_msg. cbn [fst my_p2p_listen_addr peers http_port].
  destruct (advertised_public cfg a Hpub) as [Hadv|[Hu Hport]].
  - rewrite Hadv, bool_decide_eq_false_2 by apply Hpub. f_equal. apply set_eq. intros b.
    destruct (decide (b = a)); set_solver.
  - rewrite bool_decide_eq_true_2, Hport, Hip by done. rewrite <-surjective_pairing. f_equal. set_solver.
Qed.

(** The state after a handshake with the node at [a], whose state is [q]. *)
Lemma handshake_state cfg remote cfg' a q p : public cfg' a → ip remote = ip a →
  perform_handshake cfg remote (fst (build_handshake_msg cfg' q)) p =
    MkP2P ({[remote]} ∪ noise_states p) (<[remote := a]> (peer_addr_mapping p))
      ({[a]} ∪ ({[advertised_addr cfg]} ∪ peer_list p))
      ((({[a]} ∪ (peer_list q ∖ {[advertised_addr cfg']})) ∖ ({[advertised_addr cfg]} ∪ peer_list p)
        ∖ {[local_p2p_addr cfg; a]}) ∪ current_connecting_peer_list p)
      (<[a := cfg_http_port cfg']> (peer_http_port_list p)).
Proof.
  intros Hpub Hip. unfold perform_handshake, merge_peer. by rewrite (resolved_message cfg' a) by done.
Qed.

Lemma mesh_public V net a r : mesh V net → a ∈ V → peers_at net !! a = Some r → public (peer_cfg r) a.
Proof. intros Hm Ha Hr. destruct (Hm a Ha) as [r' Hr']. rewrite (mem_at _ _ _ _ Hr') in Hr. simplify_eq. apply Hr'. Qed.

Lemma mesh_address V net a : mesh V net → a ∈ V → ip a ≠ unspecified.
Proof. intros Hm Ha. destruct (Hm a Ha) as [r Hr]. by apply (mem_public _ _ _ _ Hr). Qed.

(** A member tells of exactly the mesh. *)
Lemma member_message V net a r : mesh V net → a ∈ V → member V net a r →
  {[a]} ∪ (peer_list (peer_p2p r) ∖ {[advertised_addr (peer_cfg r)]}) = V.
Proof.
  intros Hm Ha Hr. apply set_eq. intros b. rewrite elem_of_union, elem_of_difference, !elem_of_singleton.
  split.
  - intros [->|[Hb Hne]]; [done|]. destruct (mem_only _ _ _ _ Hr b Hb) as [?|[? _]]; done.
  - intros Hb. destruct (decide (b = a)) as [->|Hne]; [by left|]. right. split; [by apply (mem_known _ _ _ _ Hr)|].
    intros ->. destruct (advertised_not_member (peer_cfg r) a (advertised_addr (peer_cfg r))) as []; try done.
    + apply Hr.
    + by apply (mesh_address V net).
Qed.

Lemma mesh_ext V net net' : mesh V net → links net' = links net →
  (∀ b, b ∈ V → peers_at net' !! b = peers_at net !! b) → mesh V net'.
Proof.
  intros Hm Hl Hp a Ha. destruct (Hm a Ha) as [r Hr]. exists r. destruct Hr as [M1 M2 M3 M4 M5 M6 M7 M8].
  assert (∀ e b, linked net' a e b ↔ linked net a e b) as Hli by (intros; unfold linked; by rewrite Hl).
  split; [by rewrite Hp|done..| | | |].
  - intros b. rewrite M5. case_decide as Hb; [|done]. unfold port_of. by rewrite Hp by apply Hb.
  - intros e b. by rewrite Hli, M6.
  - intros b. setoid_rewrite Hli. apply M7.
  - intros b. rewrite Hl. apply M8.
Qed.

(** ** Connecting to a mesh *)

Section joining.
Context (iter : gset SocketAddr → list SocketAddr) (iter_perm : ∀ s, iter s ≡ₚ elements s).
Context (V : gset SocketAddr) (net0 : Net) (Hmesh : mesh V net0).
Context (x : SocketAddr) (cfg : P2PConfig) (Hx : x ∉ V) (Hpub : public cfg x).
Context (source : SocketAddr → SocketAddr) (Hsource : ∀ b, b ∈ V → ip (source b) = ip x).

(** The invariant of [connect_net]. *)
Record joining (todo : list SocketAddr) (c : Connecting) (net : Net) : Prop := {
  j_open : c_open c = connected_peers c;
  j_in : connected_peers c ⊆ V;
  j_failed : failed_peers c ⊆ connected_peers c;
  j_known : connected_peers c ⊆ peer_list (c_p2p c);
  j_only b : b ∈ peer_list (c_p2p c) → b = advertised_addr cfg ∨ b ∈ connected_peers c;
  j_ports b : peer_http_port_list (c_p2p c) !! b =
    if decide (b ∈ connected_peers c) then port_of net0 b else None;
  j_mapping e b : peer_addr_mapping (c_p2p c) !! e = Some b ↔ e = b ∧ b ∈ connected_peers c;
  j_answered b : b ∈ connected_peers c → ∃ r q, peers_at net0 !! b = Some r ∧
    peers_at net !! b = Some (respond cfg q (source b) r);
  j_others b : (b ∉ connected_peers c) → peers_at net !! b = peers_at net0 !! b;
  j_links k : links net !! k =
    if decide (k.1 = x ∧ k.2 ∈ connected_peers c) then Some (source k.2) else links net0 !! k;
  j_todo b : b ∈ todo → b ∈ V;
  j_rest : (todo ≠ [] ∧ connected_peers c = ∅) ∨
    ∀ b, b ∈ V → (b ∉ connected_peers c) → b ∈ todo
}.

Lemma advertised_outside b : b ∈ V → b ≠ advertised_addr cfg.
Proof.
  intros Hb Heq. apply (advertised_not_member cfg x b); [done|by apply (mesh_address V net0)| |done].
  by intros ->.
Qed.

Lemma joining_again addr rest c net new c' :
  joining (addr :: rest) c net → addr ∈ c_open c →
  connect_one cfg (dial_at net) iter addr c = (new, c') →
  new = [] ∧ connected_peers c' = connected_peers c ∧ joining rest c' (answer cfg source x addr c net).
Proof.
  intros [J1 J2 J3 J4 J5 J6 J7 J8 J9 J10 J11 J12] Hin. unfold connect_one, answer.
  rewrite bool_decide_eq_true_2 by done. simpl. intros [= <- <-]. split; [done|]. split; [done|].
  split; simpl; try done; [set_solver|..].
  - intros b Hb. apply J11. by right.
  - right. destruct J12 as [[_ Hnil]|J12]; [set_solver|]. intros b Hb Hnin.
    specialize (J12 b Hb Hnin). apply elem_of_cons in J12 as [->|?]; [set_solver|done].
Qed.

Lemma joining_new addr rest c net new c' :
  joining (addr :: rest) c net → (addr ∉ c_open c) →
  connect_one cfg (dial_at net) iter addr c = (new, c') →
  (∀ b, b ∈ new → b ∈ V) ∧ length new ≤ size V ∧ connected_peers c' = {[addr]} ∪ connected_peers c ∧
  joining (reverse new ++ rest) c' (answer cfg source x addr c net).
Proof.
  intros [J1 J2 J3 J4 J5 J6 J7 J8 J9 J10 J11 J12] Hnin. unfold connect_one, answer, has_peer.
  assert (addr ∈ V) as Ha by (apply J11; by left).
  destruct (Hmesh addr Ha) as [r Hr]. assert (peers_at net !! addr = Some r) as Hat.
  { rewrite J9 by (by rewrite <-J1). apply Hr. }
  rewrite bool_decide_eq_false_2 by done. unfold dial_at. rewrite Hat. cbn [mbind option_bind].
  rewrite (handshake_state cfg addr (peer_cfg r) addr) by (done || apply Hr).
  rewrite (member_message V net0 addr r) by done.
  cbn [current_connecting_peer_list clear_connecting peer_list]. rewrite bool_decide_eq_true_2 by done.
  set (told := (V ∖ _) ∖ _ ∪ ∅). intros [= <- <-].
  assert (∀ b, b ∈ iter told ↔ b ∈ V ∧ (b ∉ {[addr]} ∪ connected_peers c)) as Hnew.
  { intros b. rewrite iter_perm, elem_of_elements. subst told. split.
    - set_solver.
    - intros [Hb Hbn]. assert (b ∉ peer_list (c_p2p c)) as Hl.
      { intros Hbl. destruct (J5 b Hbl) as [Heq|?]; [|set_solver]. by apply (advertised_outside b). }
      assert (b ≠ advertised_addr cfg) by by apply advertised_outside.
      assert (b ≠ local_p2p_addr cfg) by (destruct Hpub as [-> _]; set_solver).
      set_solver. }
  split_and!; [by intros b [? _]%Hnew| |done|].
  { rewrite iter_perm. assert (told ⊆ V) as Ht%subseteq_size by (subst told; set_solver). exact Ht. }
  split; cbn [c_open connected_peers failed_peers c_p2p add_peer peer_list peer_http_port_list
    peer_addr_mapping clear_connecting peers_at links negb andb].
  - by rewrite J1.
  - set_solver.
  - set_solver.
  - set_solver.
  - intros b Hb. assert (b = addr ∨ b = advertised_addr cfg ∨ b ∈ peer_list (c_p2p c)) as [->|[->|Hl]]
      by set_solver; [set_solver|by left|]. destruct (J5 b Hl); set_solver.
  - intros b. destruct (decide (b = addr)) as [->|Hne].
    + rewrite lookup_insert_eq, decide_True by set_solver. unfold port_of. by rewrite (mem_at _ _ _ _ Hr).
    + rewrite lookup_insert_ne, J6 by done. do 2 case_decide; done || set_solver.
  - intros e b. rewrite lookup_insert_Some, J7. set_solver.
  - intros b Hb. destruct (decide (b = addr)) as [->|Hne].
    + exists r. eexists. rewrite lookup_alter_eq, Hat. split; [apply Hr|done].
    + rewrite lookup_alter_ne by done. apply J8. set_solver.
  - intros b Hb. rewrite lookup_alter_ne by set_solver. apply J9. set_solver.
  - intros [i b]. simpl. destruct (decide ((i, b) = (x, addr))) as [Heq|Hne].
    + simplify_eq. rewrite lookup_insert_eq, decide_True by set_solver. done.
    + rewrite lookup_insert_ne, J10 by done. simpl.
      do 2 case_decide; try done; exfalso; naive_solver set_solver.
  - intros b [Hb|Hb]%elem_of_app; [rewrite reverse_Permutation in Hb; by apply Hnew|apply J11; by right].
  - right. intros b Hb Hbn. apply elem_of_app. left. rewrite reverse_Permutation. by apply Hnew.
Qed.

Definition join_work (todo : list SocketAddr) (c : Connecting) : nat :=
  size (V ∖ connected_peers c) * size V + length todo.

Lemma connect_net_joining fuel todo c net :
  joining todo c net → join_work todo c < fuel →
  ∃ c' net', connect_net iter fuel cfg source x todo c net = Some (c', net') ∧ joining [] c' net'.
Proof.
  revert todo c net. induction fuel as [|fuel IH]; intros todo c net Hj Hf; [lia|].
  destruct todo as [|addr rest]; [by eexists _, _|]. cbn [connect_net].
  destruct (connect_one cfg (dial_at net) iter addr c) as [new c'] eqn:Hone.
  destruct (decide (addr ∈ c_open c)) as [Hin|Hnin].
  - destruct (joining_again addr rest c net new c' Hj Hin Hone) as (-> & Hc & Hj').
    apply IH; [done|]. revert Hf. unfold join_work. rewrite Hc. simpl. lia.
  - destruct (joining_new addr rest c net new c' Hj Hnin Hone) as (Hnew & Hlen & Hc & Hj').
    apply IH; [done|]. revert Hf. unfold join_work. rewrite Hc, length_app, length_reverse. simpl.
    assert (addr ∈ V) by (apply (j_todo _ _ _ Hj); by left).
    rewrite (j_open _ _ _ Hj) in Hnin.
    assert (size (V ∖ ({[addr]} ∪ connected_peers c)) < size (V ∖ connected_peers c))
      by (apply subset_size; set_solver). nia.
Qed.

Lemma joining_end c net : joining [] c net → connected_peers c = V.
Proof.
  intros Hj. apply (anti_symm (⊆)); [apply Hj|]. intros b Hb. destruct (decide (b ∈ connected_peers c)); [done|].
  destruct (j_rest _ _ _ Hj) as [[? _]|Hr]; [done|]. exfalso. by eapply elem_of_nil, Hr.
Qed.

Lemma joining_start v p : v ∈ V → peer_list p ⊆ {[advertised_addr cfg]} → peer_http_port_list p = ∅ →
  peer_addr_mapping p = ∅ → joining [v] (MkConnecting p ∅ ∅ ∅) net0.
Proof.
  intros Hv Hp Hq Hm. split; simpl; try set_solver.
  - intros b. by rewrite Hq, decide_False by set_solver.
  - intros e b. rewrite Hm. set_solver.
  - intros k. by rewrite decide_False by set_solver.
Qed.

(** *** The mesh afterwards *)

Context (Hpeer : peers_at net0 !! x = None).
Context (Hlinks : ∀ e b, ¬ linked net0 x e b).
Context (Hfresh : ∀ b e, b ∈ V → ¬ linked net0 b (source b) e).

Lemma joined_links c net k : joining [] c net →
  links net !! k = if decide (k.1 = x ∧ k.2 ∈ V) then Some (source k.2) else links net0 !! k.
Proof. intros Hj. by rewrite (j_links _ _ _ Hj), (joining_end c net Hj). Qed.

Lemma joined_linked c net a e b : joining [] c net → a ∈ V →
  linked (MkNet (<[x := MkPeer cfg (c_p2p c)]> (peers_at net)) (links net)) a e b ↔
  linked net0 a e b ∨ (b = x ∧ e = source a).
Proof.
  intros Hj Ha. unfold linked. simpl. rewrite !(j_links _ _ _ Hj), (joining_end c net Hj). simpl.
  assert (a ≠ x) by set_solver. rewrite (decide_False (P := a = x ∧ _)) by naive_solver.
  destruct (decide (b = x ∧ a ∈ V)) as [[-> _]|Hn]; [|naive_solver].
  assert (∀ e, links net0 !! (x, a) ≠ Some e) as Hno by (intros e' He'; apply (Hlinks a a); left; eauto).
  assert (links net0 !! (x, a) = None) as -> by (destruct (links net0 !! (x, a)) eqn:E; [by destruct (Hno s)|done]).
  naive_solver.
Qed.

Lemma joined_port_of c net b : joining [] c net → b ∈ {[x]} ∪ V →
  port_of (MkNet (<[x := MkPeer cfg (c_p2p c)]> (peers_at net)) (links net)) b =
  if decide (b = x) then Some (cfg_http_port cfg) else port_of net0 b.
Proof.
  intros Hj Hb. unfold port_of. simpl. case_decide as Hbx; [by rewrite Hbx, lookup_insert_eq|].
  rewrite lookup_insert_ne by done.
  destruct (j_answered _ _ _ Hj b) as (r & q & -> & ->); [rewrite (joining_end c net Hj); set_solver|done].
Qed.

Lemma joined_mesh c net : joining [] c net →
  mesh ({[x]} ∪ V) (MkNet (<[x := MkPeer cfg (c_p2p c)]> (peers_at net)) (links net)).
Proof.
  intros Hj a Ha. pose proof (joining_end c net Hj) as Hend.
  destruct (decide (a = x)) as [->|Hax].
  - exists (MkPeer cfg (c_p2p c)). split; simpl.
    + by rewrite lookup_insert_eq.
    + done.
    + intros b Hb Hne. apply (j_known _ _ _ Hj). set_solver.
    + intros b Hb. destruct (j_only _ _ _ Hj b Hb); [by left|right; set_solver].
    + intros b. rewrite (j_ports _ _ _ Hj), Hend. destruct (decide (b ∈ V)) as [Hb|Hb].
      * rewrite decide_True, joined_port_of, decide_False by (done || set_solver). done.
      * by rewrite decide_False by set_solver.
    + intros e b. rewrite (j_mapping _ _ _ Hj), Hend. unfold linked. simpl. rewrite !(joined_links c net) by done. simpl.
      split.
      * intros [-> Hb]. left. split; [|done]. rewrite decide_True by done. by eexists.
      * intros [[[s Hs] ->]|Hs].
        -- case_decide as Hd; [naive_solver|]. exfalso. apply (Hlinks b b). left. split; [by eexists|done].
        -- case_decide as Hd; [set_solver|]. exfalso. apply (Hlinks e b). by right.
    + intros b. unfold linked. simpl. setoid_rewrite (λ k, joined_links c net k Hj). simpl. split.
      * intros [e [[[s Hs] ->]|Hs]]; case_decide as Hd.
        -- set_solver.
        -- exfalso. apply (Hlinks b b). left. split; [by eexists|done].
        -- set_solver.
        -- exfalso. apply (Hlinks e b). by right.
      * intros [Hb Hne]. exists b. left. split; [|done]. rewrite decide_True by set_solver. by eexists.
    + intros b _. rewrite (joined_links c net) by done. rewrite decide_False by (simpl; set_solver).
      destruct (links net0 !! (b, x)) as [s|] eqn:E; [|done]. exfalso. apply (Hlinks s b). by right.
  - assert (a ∈ V) as HaV by set_solver.
    destruct (j_answered _ _ _ Hj a) as (r & q & Hr0 & Hr); [by rewrite Hend|].
    destruct (Hmesh a HaV) as [r' [M1 M2 M3 M4 M5 M6 M7 M8]].
    rewrite M1 in Hr0. injection Hr0 as <-. exists (respond cfg q (source a) r').
    unfold respond. rewrite (handshake_state _ _ cfg x) by auto.
    split; cbn [peer_cfg peer_p2p peers_at links peer_list peer_http_port_list peer_addr_mapping].
    + rewrite lookup_insert_ne, Hr by done. unfold respond. by rewrite (handshake_state _ _ cfg x) by auto.
    + done.
    + intros b Hb Hne. destruct (decide (b = x)); [set_solver|]. assert (b ∈ peer_list (peer_p2p r')); [|set_solver].
      apply M3; set_solver.
    + intros b Hb. assert (b = x ∨ b = advertised_addr (peer_cfg r') ∨ b ∈ peer_list (peer_p2p r'))
        as [->|[->|Hl]] by set_solver; [right; set_solver|by left|]. destruct (M4 b Hl); [by left|right; set_solver].
    + intros b. destruct (decide (b = x)) as [->|Hne].
      * rewrite lookup_insert_eq, decide_True, joined_port_of, decide_True by (done || set_solver). done.
      * rewrite lookup_insert_ne, M5 by done. destruct (decide (b ∈ V ∧ b ≠ a)).
        -- rewrite decide_True, joined_port_of, decide_False by (done || set_solver). done.
        -- by rewrite decide_False by set_solver.
    + intros e b. rewrite joined_linked, lookup_insert_Some, M6 by done. split; [naive_solver|].
      intros [Hl|[-> ->]]; [|by left]. right. split; [|done]. intros <-. by eapply Hfresh.
    + intros b. setoid_rewrite (joined_linked c net a _ b Hj HaV). split.
      * intros [e [Hl|[-> ->]]]; [|set_solver]. assert (b ∈ V ∧ b ≠ a) by (apply M7; eauto). set_solver.
      * intros [Hb Hne]. destruct (decide (b = x)) as [->|Hbx]; [by exists (source a); right|].
        destruct (M7 b) as [_ M7']. destruct M7' as [e He]; [set_solver|]. exists e. by left.
    + intros b. rewrite !(joined_links c net) by done. simpl.
      rewrite (decide_False (P := a = x ∧ _)) by naive_solver. intros Hl. case_decide as Hd.
      * exfalso. destruct Hd as [-> _]. destruct Hl as [s Hs]. apply (Hlinks s a). by right.
      * by apply M8.
Qed.
End joining.

(** A node that is a mesh of its own. *)
Lemma alone_member net x r : member {[x]} net x r →
  peer_list (peer_p2p r) ⊆ {[advertised_addr (peer_cfg r)]} ∧ peer_http_port_list (peer_p2p r) = ∅ ∧
  peer_addr_mapping (peer_p2p r) = ∅ ∧ (∀ e b, ¬ linked net x e b).
Proof.
  intros [M1 M2 M3 M4 M5 M6 M7 M8].
  assert (∀ e b, ¬ linked net x e b) as Hno.
  { intros e b Hl. destruct (M7 b) as [H _]. destruct H; [by exists e|]. set_solver. }
  split_and!; [..|done].
  - intros b Hb. destruct (M4 b Hb); set_solver.
  - apply map_eq. intros b. rewrite M5, decide_False by set_solver. done.
  - apply map_eq. intros e. rewrite lookup_empty.
    destruct (peer_addr_mapping (peer_p2p r) !! e) as [b|] eqn:E; [|done]. apply M6 in E. by apply Hno in E.
Qed.

(** ** Leaving a mesh *)

Lemma drop_conns_spec l p :
  (∀ e, peer_addr_mapping (drop_conns l p) !! e =
     if decide (e ∈ l) then None else peer_addr_mapping p !! e) ∧
  (∀ b, b ∈ peer_list (drop_conns l p) ↔
     b ∈ peer_list p ∧ Forall (λ e, peer_addr_mapping p !! e ≠ Some b) l) ∧
  (∀ b, peer_http_port_list (drop_conns l p) !! b =
     if decide (Forall (λ e, peer_addr_mapping p !! e ≠ Some b) l) then peer_http_port_list p !! b else None).
Proof.
  induction l as [|e l (IH1 & IH2 & IH3)].
  - split_and!; intros *; cbn [drop_conns foldr]; [by rewrite decide_False by apply not_elem_of_nil|..].
    + rewrite Forall_nil. naive_solver.
    + by rewrite decide_True.
  - set (q := drop_conns l p) in *.
    change (drop_conns (e :: l) p) with (on_disconnect e q). unfold on_disconnect.
    pose proof (IH1 e) as He. destruct (peer_addr_mapping q !! e) as [c|] eqn:Hq; simpl.
    + case_decide as Hel; [done|]. symmetry in He. split_and!; intros *.
      * destruct (decide (e0 = e)) as [->|Hne].
        -- by rewrite lookup_delete_eq, decide_True by by left.
        -- rewrite lookup_delete_ne, IH1 by done. do 2 case_decide; done || (exfalso; set_solver).
      * rewrite elem_of_difference, elem_of_singleton, IH2, Forall_cons, He. naive_solver.
      * destruct (decide (b = c)) as [->|Hne].
        -- rewrite lookup_delete_eq, decide_False; [done|]. rewrite Forall_cons, He. naive_solver.
        -- rewrite lookup_delete_ne, IH3 by done.
           apply decide_ext. rewrite Forall_cons, He. naive_solver.
    + split_and!; intros *.
      * rewrite IH1. destruct (decide (e0 = e)) as [->|Hne]; [|apply decide_ext; rewrite elem_of_cons; naive_solver].
        rewrite (decide_True (P := e ∈ e :: l)) by by left. case_decide; [done|by rewrite <-He].
      * rewrite IH2, Forall_cons. split; [|naive_solver]. intros [Hb Hl]. split; [done|]. split; [|done].
        case_decide as Hel; [|by rewrite <-He]. by rewrite Forall_forall in Hl; apply Hl.
      * rewrite IH3. apply decide_ext. rewrite Forall_cons. split; [|naive_solver]. intros Hl. split; [|done].
        case_decide as Hel; [|by rewrite <-He]. by rewrite Forall_forall in Hl; apply Hl.
Qed.

Lemma linked_after x net a e b :
  linked (disconnect_all x net) a e b ↔ linked net a e b ∧ a ≠ x ∧ b ≠ x.
Proof.
  unfold linked, disconnect_all. simpl. rewrite !map_lookup_filter_Some. simpl.
  assert (∀ k, is_Some (filter (λ l : SocketAddr * SocketAddr * SocketAddr, (l.1.1 ≠ x) ∧ (l.1.2 ≠ x)) (links net) !! k) ↔
    is_Some (links net !! k) ∧ k.1 ≠ x ∧ k.2 ≠ x) as Hsome.
  { intros k. unfold is_Some. setoid_rewrite map_lookup_filter_Some. naive_solver. }
  rewrite Hsome. naive_solver.
Qed.

Lemma lost_conns_elem net x a e :
  e ∈ lost_conns net x a ↔ ∃ b, linked net a e b ∧ (a = x ∨ b = x).
Proof.
  unfold lost_conns. rewrite list_elem_of_fmap. split.
  - intros ([e' b] & -> & [Hl Hin]%list_elem_of_filter). exists b. by apply elem_of_conns in Hin.
  - intros (b & Hl%elem_of_conns & Hx). exists (e, b). split; [done|]. by apply list_elem_of_filter.
Qed.

Section leaving.
Context (V : gset SocketAddr) (net : Net) (Hmesh : mesh V net) (x : SocketAddr) (Hx : x ∈ V).

Lemma left_at a : peers_at (disconnect_all x net) !! a =
  (λ r, MkPeer (peer_cfg r) (drop_conns (lost_conns net x a) (peer_p2p r))) <$> peers_at net !! a.
Proof. unfold disconnect_all. simpl. rewrite map_lookup_imap. by destruct (peers_at net !! a). Qed.

(** Who is left with [a] when [x] is gone. *)
Definition rest_of (a : SocketAddr) : gset SocketAddr := if decide (a = x) then {[x]} else V ∖ {[x]}.

Lemma rest_of_others a b : a ∈ V → (b ∈ rest_of a ∧ b ≠ a) ↔ (b ∈ V ∧ b ≠ a) ∧ a ≠ x ∧ b ≠ x.
Proof. unfold rest_of. intros Ha. case_decide; set_solver. Qed.

Lemma left_member a : a ∈ V → ∃ r, member (rest_of a) (disconnect_all x net) a r.
Proof.
  intros Ha. destruct (Hmesh a Ha) as [r [M1 M2 M3 M4 M5 M6 M7 M8]].
  set (l := lost_conns net x a). destruct (drop_conns_spec l (peer_p2p r)) as (D1 & D2 & D3).
  assert (∀ b, b ∈ V → b ≠ a →
    Forall (λ e, peer_addr_mapping (peer_p2p r) !! e ≠ Some b) l ↔ a ≠ x ∧ b ≠ x) as Hgone.
  { intros b Hb Hne. rewrite Forall_forall. subst l. setoid_rewrite lost_conns_elem. split.
    - intros Hall. destruct (proj2 (M7 b) (conj Hb Hne)) as [e He].
      split; intros ->; apply (Hall e); (by apply M6) || eauto.
    - intros [Hax Hbx] e (b' & Hl & Hor) He. destruct Hor as [Hax'|Hbx']; [done|]. subst b'. apply M6 in Hl. naive_solver. }
  exists (MkPeer (peer_cfg r) (drop_conns l (peer_p2p r))). split.
  - rewrite left_at, M1. reflexivity.
  - done.
  - cbn [peer_p2p peer_cfg]. intros b Hb Hne. assert (b ∈ V ∧ b ≠ a) as [HbV _] by (apply rest_of_others; done).
    rewrite D2. split; [by apply M3|]. apply Hgone; [done..|]. by apply rest_of_others.
  - cbn [peer_p2p peer_cfg]. intros b [Hb Hall]%D2. destruct (M4 b Hb) as [?|[HbV Hne]]; [by left|right].
    apply rest_of_others; [done|]. split; [done|]. by apply Hgone.
  - cbn [peer_p2p peer_cfg]. intros b. rewrite D3, M5. destruct (decide (b ∈ V ∧ b ≠ a)) as [[Hb Hne]|Hn].
    + rewrite (decide_ext _ (b ∈ rest_of a ∧ b ≠ a)).
      * unfold port_of. rewrite left_at. case_decide; [|done]. by destruct (peers_at net !! b).
      * rewrite Hgone, rest_of_others by done. naive_solver.
    + rewrite (decide_False (P := b ∈ rest_of a ∧ b ≠ a)); [by case_decide|].
      rewrite rest_of_others by done. naive_solver.
  - cbn [peer_p2p peer_cfg]. intros e b. rewrite D1, linked_after, <-M6. unfold l. case_decide as Hl.
    + split; [done|]. intros (He & Hax & Hbx). apply lost_conns_elem in Hl as (b' & Hl & [Ho|Ho]); [done|]. subst b'.
      apply M6 in Hl. naive_solver.
    + split; [|naive_solver]. intros He. split; [done|]. rewrite lost_conns_elem in Hl.
      apply M6 in He. naive_solver.
  - intros b. setoid_rewrite linked_after. rewrite rest_of_others, <-M7 by done. naive_solver.
  - intros b [s Hs]. apply map_lookup_filter_Some in Hs as [Hs _]. apply map_lookup_filter_None. left.
    apply M8. by eexists.
Qed.
End leaving.

(** A member whose connections close is alone, and the others are a mesh without it:
    every list forgets it, and only it. *)
Theorem disconnect_leaves_mesh x V net :
  mesh V net → x ∈ V →
  mesh (V ∖ {[x]}) (disconnect_all x net) ∧ mesh {[x]} (disconnect_all x net).
Proof.
  intros Hm Hx. split.
  - intros a Ha. destruct (left_member V net Hm x Hx a) as [r Hr]; [set_solver|]. exists r.
    unfold rest_of in Hr. by rewrite decide_False in Hr by set_solver.
  - intros a ->%elem_of_singleton. destruct (left_member V net Hm x Hx x Hx) as [r Hr]. exists r.
    unfold rest_of in Hr. by rewrite decide_True in Hr.
Qed.

Section theorems.
Context (iter : gset SocketAddr → list SocketAddr) (iter_perm : ∀ s, iter s ≡ₚ elements s).

(** The source addresses of a node that joins: its own, with ports that are free. *)
Definition fresh_source (source : SocketAddr → SocketAddr) (V : gset SocketAddr) (net : Net)
    (x : SocketAddr) : Prop :=
  ∀ b, b ∈ V → ip (source b) = ip x ∧ ∀ e, ¬ linked net b (source b) e.

(** C33: A node that is connected to nobody and connects to any one member of a mesh
    becomes a member: within the bound on the turns it connects to every node of the mesh, and afterwards
    every two of them list each other, are connected once, and know each other's
    download ports.  What it reports as failed was connected nevertheless; nodes
    outside the mesh notice nothing. *)
Theorem connect_joins_mesh fuel source x v V net :
  mesh V net → mesh {[x]} net → (x ∉ V) → v ∈ V → fresh_source source V net x →
  size V * size V + 2 ≤ fuel →
  ∃ failed net', connect iter fuel source x v net = Some (V, failed, net') ∧ failed ⊆ V ∧
    mesh ({[x]} ∪ V) net' ∧
    (∀ b, (b ∉ {[x]} ∪ V) → peers_at net' !! b = peers_at net !! b).
Proof.
  intros Hm Hx Hnin Hv Hsrc Hf. destruct (Hx x) as [r Hr]; [set_solver|].
  destruct (alone_member net x r Hr) as (Hp & Hq & Hmap & Hno).
  set (net0 := MkNet (delete x (peers_at net)) (links net)).
  assert (mesh V net0) as Hm0.
  { apply (mesh_ext V net); [done..|]. intros b Hb. simpl. apply lookup_delete_ne. set_solver. }
  assert (conn_addrs net x = ∅) as Hc.
  { apply set_eq. intros e. rewrite elem_of_conn_addrs. split; [intros [b Hb]; by apply Hno in Hb|set_solver]. }
  assert (joining V net0 x (peer_cfg r) source [v] (MkConnecting (peer_p2p r) ∅ ∅ ∅) net0) as Hj
    by (apply (joining_start iter iter_perm); try done; [apply Hr|intros b Hb; by apply Hsrc]).
  destruct (connect_net_joining iter iter_perm V net0 Hm0 x (peer_cfg r) Hnin (mem_public _ _ _ _ Hr) source
    (λ b Hb, proj1 (Hsrc b Hb)) fuel [v] (MkConnecting (peer_p2p r) ∅ ∅ ∅) net0 Hj) as (c & net' & Hrun & Hend).
  { unfold join_work. simpl. rewrite difference_empty_L. lia. }
  exists (failed_peers c). eexists. unfold connect. rewrite (mem_at _ _ _ _ Hr). cbn [mbind option_bind].
  rewrite Hc. fold net0. rewrite Hrun. simpl. pose proof (joining_end _ _ _ _ _ _ _ Hend) as HV.
  rewrite HV. split_and!; [done| | |].
  - rewrite <-HV. apply Hend.
  - apply (joined_mesh iter iter_perm V net0 Hm0 x (peer_cfg r) Hnin (mem_public _ _ _ _ Hr) source); try done.
    + intros b Hb. apply (Hsrc b Hb).
    + simpl. apply lookup_delete_eq.
    + intros b e Hb. apply (Hsrc b Hb).
  - intros b Hb. simpl. rewrite lookup_insert_ne by set_solver.
    rewrite (j_others _ _ _ _ _ _ _ _ Hend) by (rewrite HV; set_solver). simpl. apply lookup_delete_ne. set_solver.
Qed.

End theorems.

(** ** Networks that grow and shrink *)

Section formed.
Context (iter : gset SocketAddr → list SocketAddr) (iter_perm : ∀ s, iter s ≡ₚ elements s).

(** The members of a mesh after some have joined, each through any member, and some
    have left. *)
Inductive formed : gset SocketAddr → Net → Prop :=
  | formed_alone x net : mesh {[x]} net → formed {[x]} net
  | formed_join V net x v source fuel connected failed net' :
      formed V net → mesh {[x]} net → (x ∉ V) → v ∈ V → fresh_source source V net x →
      size V * size V + 2 ≤ fuel →
      connect iter fuel source x v net = Some (connected, failed, net') →
      formed ({[x]} ∪ V) net'
  | formed_leave V net x : formed V net → x ∈ V → formed (V ∖ {[x]}) (disconnect_all x net).

Lemma formed_mesh V net : formed V net → mesh V net.
Proof using iter_perm.
  induction 1 as [x net Hm|V net x v source fuel connected failed net' _ IH Hx Hn Hv Hs Hf Hc|V net x _ IH Hx].
  - done.
  - destruct (connect_joins_mesh iter iter_perm fuel source x v V net IH Hx Hn Hv Hs Hf)
      as (failed' & net'' & Hc' & _ & Hm & _).
    rewrite Hc in Hc'. by simplify_eq.
  - by apply disconnect_leaves_mesh.
Qed.

Lemma conns_once V net x : mesh V net → x ∈ V → NoDup (conns net x).*2.
Proof.
  intros Hm Hx. destruct (Hm x Hx) as [r Hr].
  assert (∀ e e' b, linked net x e b → linked net x e' b → e = e') as Honce.
  { intros e e' b [[Hs ->]|Hs] [[Hs' ->]|Hs']; try done.
    - rewrite (mem_once _ _ _ _ Hr b Hs) in Hs'. done.
    - rewrite (mem_once _ _ _ _ Hr b Hs') in Hs. done.
    - rewrite Hs in Hs'. by simplify_eq. }
  apply NoDup_fmap_2_strong.
  - intros [e b] [e' b'] Hl%elem_of_conns Hl'%elem_of_conns. simpl. intros <-. f_equal. eauto.
  - unfold conns. apply NoDup_bind; [| |apply NoDup_map_to_list].
    + intros [[i1 r1] s1] [[i2 r2] s2] [e b] H1%elem_of_map_to_list H2%elem_of_map_to_list.
      rewrite !elem_of_app. intros Hi1 Hi2.
      assert (∀ (i r s : SocketAddr), (e, b) ∈ (if decide (i = x) then [(r, r)] else []) ∨
        (e, b) ∈ (if decide (r = x) then [(s, i)] else []) →
        (i = x ∧ r = b ∧ e = b) ∨ (r = x ∧ i = b ∧ e = s)) as Hcase.
      { intros i rr s [Hin|Hin]; case_decide; try (by apply elem_of_nil in Hin);
          apply list_elem_of_singleton in Hin; simplify_eq; auto. }
      destruct (Hcase _ _ _ Hi1) as [(-> & -> & He1)|(-> & -> & He1)],
        (Hcase _ _ _ Hi2) as [(-> & -> & He2)|(-> & -> & He2)]; simplify_eq; try done.
      * by rewrite (mem_once _ _ _ _ Hr _ (mk_is_Some _ _ H1)) in H2.
      * by rewrite (mem_once _ _ _ _ Hr _ (mk_is_Some _ _ H2)) in H1.
    + intros [[i rr] s] Hin%elem_of_map_to_list. repeat case_decide; simpl; try apply NoDup_nil_2;
        try apply NoDup_singleton. subst. pose proof (mem_once _ _ _ _ Hr _ (mk_is_Some _ _ Hin)). congruence.
Qed.

Context `{Wire, Snow, Framing, !FramingLaws} (scan : ∀ A : Type, list A → list A).
Context (scan_perm : ∀ A (l : list A), scan A l ≡ₚ l).
Context (takes : SocketAddr → bool) (reply : SocketAddr → RequestKind.t → result string (list u8)).

(** C38: However a mesh came about, by nodes that joined through one member and nodes that
    left, a transaction that one member broadcasts over connections whose two ends agree
    on the nonce is received by every other member whose connection has room for it in
    its queue, once and marked as received from a peer, and by nobody else, provided the
    serialised message fits in a noise frame (65519 bytes); the connections then agree
    again, so the next transaction is received as well.  A larger transaction is
    received by nobody. *)
Theorem broadcast_reaches_mesh V net x tx bs s :
  formed V net → x ∈ V →
  broadcast_bytes tx = Ok bs → de_msg0 bs = Ok (V0.V0 (V0.Transaction tx)) →
  (∀ b, b ∈ V → b ≠ x → ∃ w, wires s !! (x, b) = Some w ∧ in_step w) →
  (∀ b ch, channels s !! b = Some ch → ch_open ch = true) →
  let s' := broadcast scan takes reply net x tx s in
  (fits bs → ∀ b,
    (channels s' !! b =
      if decide (b ∈ V ∧ b ≠ x ∧ takes b = true)
      then (λ ch, MkChannel (ch_queue ch ++
             [(into_received (created_of_validated tx) Received.P2P, None)]) true) <$> channels s !! b
      else channels s !! b) ∧
    (b ∈ V → b ≠ x → ∃ w, wires s' !! (x, b) = Some w ∧ in_step w)) ∧
  (¬ fits bs → ∀ b, channels s' !! b = channels s !! b).
Proof using iter_perm scan_perm.
  intros Hf Hx Hs Hd Hw Hopen s'. pose proof (formed_mesh V net Hf) as Hm. destruct (Hm x Hx) as [r Hr].
  assert ((scan _ (conns net x)).*2 ≡ₚ (conns net x).*2) as Hperm by by rewrite scan_perm.
  assert (NoDup (scan _ (conns net x)).*2) as Hnd by (rewrite Hperm; by apply (conns_once V)).
  assert (∀ b, b ∈ (scan _ (conns net x)).*2 ↔ b ∈ V ∧ b ≠ x) as Hin.
  { intros b. rewrite <-(mem_linked _ _ _ _ Hr), Hperm, list_elem_of_fmap. split.
    - intros ([e b'] & -> & Hl%elem_of_conns). by exists e.
    - intros [e Hl%elem_of_conns]. by exists (e, b). }
  assert (∀ b, channels s' !! b = channels (if decide (b ∈ V ∧ b ≠ x) then deliver takes reply x bs b s else s) !! b ∧
    wires s' !! (x, b) = wires (if decide (b ∈ V ∧ b ≠ x) then deliver takes reply x bs b s else s) !! (x, b))
    as Hall.
  { intros b. subst s'. unfold broadcast. rewrite Hs, <-(decide_ext _ _ _ _ (Hin b)). by apply deliver_all. }
  split.
  - intros Hfit b. destruct (Hall b) as [-> ->].
    destruct (decide (b ∈ V ∧ b ≠ x)) as [[Hb Hne]|Hno];
      [|rewrite decide_False by naive_solver; split; [done|intros ??; by destruct Hno]].
    destruct (Hw b Hb Hne) as (w & Hwb & Hstep). unfold deliver. rewrite Hwb.
    destruct (takes b); [|rewrite decide_False by naive_solver; split; [done|by exists w]].
    destruct (transmit_fits bs w Hfit Hstep) as (w' & -> & Hstep'). rewrite decide_True by done. simpl.
    rewrite lookup_alter_eq, lookup_insert_eq. split; [|by exists w'].
    destruct (channels s !! b) as [ch|] eqn:Hch; [|done]. simpl.
    by rewrite (broadcast_received tx bs (reply b) ch Hs Hd (Hopen b ch Hch)).
  - intros Hbig b. destruct (Hall b) as [-> _]. destruct (decide (b ∈ V ∧ b ≠ x)) as [[Hb Hne]|]; [|done].
    destruct (Hw b Hb Hne) as (w & Hwb & Hstep). unfold deliver. rewrite Hwb. destruct (takes b); [|done].
    pose proof (transmit_oversized bs w Hbig Hstep) as Ho.
    destruct (transmit bs w) as [o w']. simpl in Ho. by subst o.
Qed.
End formed.

(** A node that listens and is connected to nobody. *)
Lemma new_peer_alone net a cfg : peers_at net !! a = Some (MkPeer cfg (P2P_new ∅)) → public cfg a →
  (∀ e b, ¬ linked net a e b) → mesh {[a]} net.
Proof.
  intros Hat Hpub Hno a' ->%elem_of_singleton. eexists. split; [done|done|..]; cbn.
  - set_solver.
  - set_solver.
  - intros b. by rewrite decide_False by set_solver.
  - intros e b. split; [done|]. by intros Hl%Hno.
  - intros b. split; [|set_solver]. by intros [e Hl%Hno].
  - intros b Hl. exfalso. apply (Hno b b). by left.
Qed.

(** ** Witnesses *)

Section mesh_witnesses.
#[local] Existing Instances secp_toy.

(** Two nodes on one host, the second behind an address of its own. *)
Definition mesh_cfg (n : Z) (nat_addr : option SocketAddr) : P2PConfig :=
  MkP2PConfig (node_addr n) (Some 80%Z) nat_addr.
Definition mesh_net : Net :=
  MkNet {[ node_addr 1 := MkPeer (mesh_cfg 1 None) (P2P_new ∅);
           node_addr 2 := MkPeer (mesh_cfg 3 (Some (node_addr 2))) (P2P_new ∅) ]} ∅.
Definition mesh_source (b : SocketAddr) : SocketAddr := (inl 2%Z, 50000%Z).
Definition mesh_net2 : Net :=
  match connect elements 3 mesh_source (node_addr 2) (node_addr 1) mesh_net with
  | Some (_, _, net) => net
  | None => mesh_net
  end.

Lemma mesh_net_unlinked a e b : ¬ linked mesh_net a e b.
Proof.
  assert (links mesh_net = ∅) as Hl by done. unfold linked. rewrite Hl, !lookup_empty.
  by intros [[[s Hs] _]|Hs].
Qed.
Lemma mesh_alone1 : mesh {[node_addr 1]} mesh_net.
Proof. apply (new_peer_alone _ _ (mesh_cfg 1 None)); [done|by split|apply mesh_net_unlinked]. Qed.
Lemma mesh_alone2 : mesh {[node_addr 2]} mesh_net.
Proof. apply (new_peer_alone _ _ (mesh_cfg 3 (Some (node_addr 2)))); [done|by split|apply mesh_net_unlinked]. Qed.
Lemma mesh_fresh : fresh_source mesh_source {[node_addr 1]} mesh_net (node_addr 2).
Proof. intros b _. split; [done|]. intros e. apply mesh_net_unlinked. Qed.

Example connect_joins_mesh_witness : ∃ failed net',
  connect elements 3 mesh_source (node_addr 2) (node_addr 1) mesh_net = Some ({[node_addr 1]}, failed, net') ∧
  failed ⊆ {[node_addr 1]} ∧ mesh ({[node_addr 2]} ∪ {[node_addr 1]}) net' ∧
  (∀ b, (b ∉ ({[node_addr 2]} ∪ {[node_addr 1]} : gset SocketAddr)) → peers_at net' !! b = peers_at mesh_net !! b).
Proof.
  apply (connect_joins_mesh elements (λ s, Permutation_refl _) 3 mesh_source (node_addr 2) (node_addr 1)
    {[node_addr 1]} mesh_net mesh_alone1 mesh_alone2); [by_evaluation|by_evaluation|exact mesh_fresh|].
  vm_compute. lia.
Defined.

Lemma mesh_formed2 : formed elements ({[node_addr 2]} ∪ {[node_addr 1]}) mesh_net2.
Proof.
  apply (formed_join elements {[node_addr 1]} mesh_net (node_addr 2) (node_addr 1) mesh_source 3
    {[node_addr 1]} ∅).
  - apply formed_alone, mesh_alone1.
  - apply mesh_alone2.
  - by_evaluation.
  - by_evaluation.
  - exact mesh_fresh.
  - vm_compute. lia.
  - vm_compute. reflexivity.
Qed.

#[local] Existing Instances snow_toy framing_toy framing_toy_laws.
Definition mesh_wire : NoiseWire :=
  MkNoiseWire (tx_state (tx:=toy_side) None 0 5) (rx_state (rx:=toy_side) None 5 0) [].
Definition mesh_traffic : @Traffic secp_toy snow_toy :=
  MkTraffic {[ (node_addr 1, node_addr 2) := mesh_wire ]}
    {[ node_addr 1 := MkChannel [] true; node_addr 2 := MkChannel [] true ]}.
Lemma mesh_channels_open b ch : channels mesh_traffic !! b = Some ch → ch_open ch = true.
Proof.
  unfold mesh_traffic. cbn [channels]. rewrite lookup_insert_Some. intros [[_ <-]|[_ Hb]]; [done|].
  apply lookup_singleton_Some in Hb as [_ <-]. done.
Qed.
Lemma mesh_wires_in_step b :
  b ∈ ({[node_addr 2]} ∪ {[node_addr 1]} : gset SocketAddr) → b ≠ node_addr 1 →
  ∃ w, wires mesh_traffic !! (node_addr 1, b) = Some w ∧ in_step w.
Proof.
  intros [ ->%elem_of_singleton | ->%elem_of_singleton ]%elem_of_union Hne; [|done].
  exists mesh_wire. split; [apply lookup_singleton_eq|].
  exists toy_side, toy_side, snow_toy_laws, 5%Z, None, 0%Z, 0%Z. split; [lia|done].
Qed.

Example broadcast_reaches_mesh_witness :
  channels (@broadcast secp_toy wire_tx snow_toy framing_toy (λ _ l, l) (λ _, true) (λ _ _, Err "none")
    mesh_net2 (node_addr 1) toy_p2p_tx mesh_traffic) !! node_addr 2 =
  Some (MkChannel [(into_received (created_of_validated toy_p2p_tx) Received.P2P, None)] true).
Proof.
  assert (fits ["a"%char]) as Hfit by (unfold fits, MAX_MESSAGE_LEN, TAG_LEN; cbn [length]; lia).
  destruct (@broadcast_reaches_mesh elements (λ s, Permutation_refl _) secp_toy wire_tx snow_toy framing_toy
    framing_toy_laws (λ _ l, l)
    (λ _ l, Permutation_refl _) (λ _, true) (λ _ _, Err "none") ({[node_addr 2]} ∪ {[node_addr 1]}) mesh_net2
    (node_addr 1) toy_p2p_tx ["a"%char] mesh_traffic mesh_formed2 ltac:(by_evaluation) eq_refl eq_refl
    mesh_wires_in_step mesh_channels_open) as [Hall _].
  destruct (Hall Hfit (node_addr 2)) as [-> _].
  rewrite decide_True by by_evaluation. reflexivity.
Defined.

Example disconnect_leaves_mesh_witness :
  mesh (({[node_addr 2]} ∪ {[node_addr 1]}) ∖ {[node_addr 1]}) (disconnect_all (node_addr 1) mesh_net2) ∧
  mesh {[node_addr 1]} (disconnect_all (node_addr 1) mesh_net2).
Proof.
  apply (disconnect_leaves_mesh _ _ _ (formed_mesh elements (λ s, Permutation_refl _) _ _ mesh_formed2)).
  by_evaluation.
Defined.
End mesh_witnesses.
