(* ===== verification/KeyCapsule.v ===== *)
(** * Key capsules ([crates/node/src/types/key_capsule.rs])

    A message encrypted for several recipients: encrypted once under a fresh key,
    and that key encrypted for each recipient.  [ecies] is an interface. *)

From S2P Require Import Prelude Types Models.

Class Ecies `{Secp} := {
  sk_serialize : SecretKey → list u8;
  ecies_encrypt : list u8 → list u8 → result string (list u8);
  ecies_decrypt : list u8 → list u8 → result string (list u8)
}.

(** Encryption under a public key succeeds and is undone with its secret key. *)
Class EciesLaws `{Ecies} : Prop := {
  ecies_roundtrip sk m : ∃ c,
    ecies_encrypt (pk_serialize (from_secret_key sk)) m = Ok c ∧
    ecies_decrypt (sk_serialize sk) c = Ok m
}.

Record KeyCapsule := MkKeyCapsule { msg : list u8; keys : list (list u8 * list u8) }.

Section capsule.
Context `{Ecies}.

(** The loop over the recipients. *)
Definition encrypt_key (sk : SecretKey) (recipient : PublicKey) : result string (list u8 * list u8) :=
  match ecies_encrypt (pk_serialize recipient) (sk_serialize sk) with
  | Ok key => Ok (pk_serialize recipient, key)
  | _ => Panic
  end.

(** [KeyCapsule::new]; [sk] is the generated key. *)
Definition KeyCapsule_new (sk : SecretKey) (m : list u8) (recipients : list PublicKey)
    : result string KeyCapsule :=
  keys ← collect_results (encrypt_key sk) recipients;
  match ecies_encrypt (pk_serialize (from_secret_key sk)) m with
  | Ok c => Ok (MkKeyCapsule c keys)
  | _ => Panic
  end.

Definition decrypt (capsule : KeyCapsule) (secret_key : SecretKey) : result string (list u8) :=
  let pk := pk_serialize (from_secret_key secret_key) in
  match list_find (λ e, fst e = pk) (keys capsule) with
  | Some (_, (_, key)) =>
      key ← ecies_decrypt (sk_serialize secret_key) key;
      ecies_decrypt key (msg capsule)
  | None => Err "recipient not present"
  end.

(** Every recipient of a capsule, however many there are, reads the message, and
    only recipients get past the lookup: with any other key [decrypt] is an error. *)
Theorem capsule_recipients `{!EciesLaws} sk m (sks : list SecretKey) :
  ∃ capsule, KeyCapsule_new sk m (from_secret_key <$> sks) = Ok capsule ∧
    (∀ k, k ∈ sks → (∀ k', k' ∈ sks → pk_serialize (from_secret_key k') = pk_serialize (from_secret_key k) →
                       k' = k) → decrypt capsule k = Ok m) ∧
    (∀ k, pk_serialize (from_secret_key k) ∉ pk_serialize ∘ from_secret_key <$> sks →
       decrypt capsule k = Err "recipient not present").
Proof.
  destruct (ecies_roundtrip sk m) as (c & Hc & Hd).
  destruct (collect_results_total (encrypt_key sk) (from_secret_key <$> sks)) as [ks Hks].
  { intros pk (k & -> & _)%list_elem_of_fmap. unfold encrypt_key.
    destruct (ecies_roundtrip k (sk_serialize sk)) as (e & -> & _). by eexists. }
  exists (MkKeyCapsule c ks). unfold KeyCapsule_new. rewrite Hks. simpl. rewrite Hc.
  split; [done|]. apply collect_results_Ok in Hks.
  assert (∀ i e, ks !! i = Some e → ∃ k, sks !! i = Some k ∧ fst e = pk_serialize (from_secret_key k) ∧
    ecies_decrypt (sk_serialize k) (snd e) = Ok (sk_serialize sk)) as Hkeys.
  { intros i e He. destruct (Forall2_lookup_r _ _ _ _ _ Hks He) as (pk & Hpk & Henc).
    apply list_lookup_fmap_Some in Hpk as (k & -> & Hk). exists k. split; [done|]. revert Henc.
    unfold encrypt_key. destruct (ecies_roundtrip k (sk_serialize sk)) as (x & -> & Hx).
    by intros [= <-]. }
  split; intros k Hk; unfold decrypt; simpl.
  - intros Huniq. destruct (list_find _ ks) as [[i [pk key]]|] eqn:Hf.
    + apply list_find_Some in Hf as (Hi & Hpk & _). simpl in Hpk.
      destruct (Hkeys i _ Hi) as (k' & Hk' & Hpk' & Hdec). simpl in *.
      assert (k' = k) as -> by (apply Huniq; [by eapply list_elem_of_lookup_2|congruence]).
      rewrite Hdec. exact Hd.
    + apply list_find_None in Hf. apply list_elem_of_lookup_1 in Hk as [i Hi].
      assert (∃ e, ks !! i = Some e) as [e He].
      { apply lookup_lt_is_Some_2. rewrite <-(Forall2_length _ _ _ Hks), length_fmap.
        by eapply lookup_lt_Some. }
      destruct (Hkeys i e He) as (k' & Hk' & Hpk & _). rewrite Forall_lookup in Hf.
      destruct (Hf i e He). congruence.
  - destruct (list_find _ ks) as [[i [pk key]]|] eqn:Hf; [|done].
    apply list_find_Some in Hf as (Hi & Hpk & _). simpl in Hpk.
    destruct (Hkeys i _ Hi) as (k' & Hk' & Hpk' & _). simpl in Hpk'. destruct Hk.
    apply list_elem_of_fmap. exists k'. split; [simpl; congruence|by eapply list_elem_of_lookup_2].
Qed.
End capsule.

(** ** Witness *)

Section capsule_witnesses.
#[local] Existing Instance secp_toy.

(** The key, then the message; the toy keys are their own public keys. *)
Definition ecies_toy : @Ecies secp_toy := {|
  sk_serialize := vec_to_list;
  ecies_encrypt pk m := Ok (pk ++ m);
  ecies_decrypt sk c := if bool_decide (take (length sk) c = sk) then Ok (drop (length sk) c) else Err "key"
|}.
Lemma ecies_toy_laws : @EciesLaws secp_toy ecies_toy.
Proof.
  split. intros sk m. eexists. split; [reflexivity|]. cbn [ecies_decrypt ecies_toy sk_serialize].
  cbn [pk_serialize from_secret_key secp_toy].
  rewrite take_app_length, drop_app_length. by rewrite bool_decide_eq_true_2.
Qed.

Example capsule_recipients_witness :
  ∃ capsule, @KeyCapsule_new secp_toy ecies_toy (toy_key "e") ["m"%char]
               (from_secret_key <$> [toy_key "a"; toy_key "b"]) = Ok capsule ∧
    (∀ k, k ∈ [toy_key "a"; toy_key "b"] → (∀ k', k' ∈ [toy_key "a"; toy_key "b"] →
        pk_serialize (from_secret_key k') = pk_serialize (from_secret_key k) → k' = k) →
        @decrypt secp_toy ecies_toy capsule k = Ok ["m"%char]) ∧
    (∀ k, pk_serialize (from_secret_key k) ∉ pk_serialize ∘ from_secret_key <$> [toy_key "a"; toy_key "b"] →
       @decrypt secp_toy ecies_toy capsule k = Err "recipient not present").
Proof.
  exact (@capsule_recipients secp_toy ecies_toy ecies_toy_laws (toy_key "e") ["m"%char]
    [toy_key "a"; toy_key "b"]).
Defined.
End capsule_witnesses.
