(* ===== verification/Download.v ===== *)
(** * Asset download and the file server
    ([crates/node/src/mempool/txvalidation/download_manager.rs])

    Fetching an asset from its url, or else from the peers, into a temporary file
    that is renamed once its checksum is verified; and the HTTP handler that serves
    the node's files to other nodes.  The network, the disk and [blake3] are arguments.
    A download is one step here: two tasks that download the same asset at the same time
    write to the same temporary file, and that interleaving is not modelled. *)

From S2P Require Import Prelude Types Models Files Protocol.

(** What reading the body of a response yields, in order; the end is [None]. *)
Inductive Chunk := ChunkData (bytes : list u8) | ChunkError | ChunkTimeout.
Record HttpResponse := MkHttpResponse { status : Z; body : list Chunk }.
Definition HTTP_OK : Z := 200.

(** [timeout(.., client.get(url).send())] *)
Inductive Sent := SentOk (r : HttpResponse) | SentErr | SentTimeout.

(** What the file system does: whether the directory is made ([try_exists] and
    [create_dir_all]), the temporary file created, a chunk written (given all that has
    been written with it), the writer flushed and the file renamed; and how much of what
    was written is on disk when the writer is dropped early. *)
Record Disk := MkDisk {
  makes_dir : bool;
  creates : bool;
  writes : list u8 → bool;
  flushes : bool;
  renames : bool;
  on_disk : list u8 → list u8
}.
(** A disk without errors. *)
Definition working_disk (on_disk : list u8 → list u8) : Disk :=
  MkDisk true true (λ _, true) true true on_disk.
(** [std::io::Error], whose text is the system's. *)
Definition io_error : string := "I/O error".

Section download.
Context `{Hex}.
Context (blake3 : list u8 → Hash).
(** The asset's own url is asked under a timeout; peers are asked without. *)
Context (get_url : string → Sent) (get_peer : string → option HttpResponse).
(** [Url] calls: scheme, ip, port and path of a peer's file. *)
Context (peer_url : IpAddr → Z → string → string).
Context (disk : Disk).

(** The file [tmp_file_name(path)] denotes: [set_extension] appends [.tmp]. *)
Definition tmp_file_name (path : string) : list string :=
  match file_name path with
  | Some name => let p := path_resolve path in take (length p - 1) p ++ [name +:+ ".tmp"]
  | None => path_resolve path
  end.

(** The first peer that answers with the file. *)
Fixpoint first_response (urls : list string) : option HttpResponse :=
  match urls with
  | [] => None
  | url :: rest =>
      match get_peer url with
      | Some resp => if (status resp =? HTTP_OK)%Z then Some resp else first_response rest
      | None => first_response rest
      end
  end.

Definition find_response (http_peer_list : list (SocketAddr * option Z)) (asset_file : AssetFile)
    : result string HttpResponse :=
  let peers :=
    let peer_urls := omap (λ e, (λ port, peer_url (ip (fst e)) port (get_uri asset_file)) <$> snd e)
                       http_peer_list in
    ok_or (first_response peer_urls)
      ("Download no host found to download the file: " +:+ af_name asset_file) in
  match get_url (af_url asset_file) with
  | SentOk resp => if (status resp =? HTTP_OK)%Z then Ok resp else peers
  | SentErr => peers
  | SentTimeout => Err ("Download file: " +:+ af_name asset_file +:+ ", request send timeout.")
  end.

(** The [loop] over the chunks: everything received, or why it stopped. *)
Definition download_error (asset_file : AssetFile) (msg : string) : string :=
  "Download file: " +:+ af_name asset_file +:+ msg.
Fixpoint receive (asset_file : AssetFile) (l : list Chunk) (written : list u8) : list u8 * option string :=
  match l with
  | [] => (written, None)
  | ChunkData bytes :: rest =>
      if writes disk (written ++ bytes) then receive asset_file rest (written ++ bytes)
      else (written ++ bytes, Some io_error)
  | ChunkError :: _ => (written, Some (download_error asset_file ", connection timeout"))
  | ChunkTimeout :: _ => (written, Some (download_error asset_file ", http error:deadline has elapsed"))
  end.

Definition download_asset_file (local_directory_path : string)
    (http_peer_list : list (SocketAddr * option Z)) (asset_file : AssetFile) : M fs string () := λ root,
  let local_relative_file_path := get_save_path asset_file in
  if AssetFile_exist root asset_file local_relative_file_path then (Ok (), root)
  else
    match find_response http_peer_list asset_file with
    | Ok resp =>
        if (status resp =? HTTP_OK)%Z then
          let file_path := path_push local_directory_path local_relative_file_path in
          let tmp := tmp_file_name file_path in
          if negb (makes_dir disk && creates disk) then (Err io_error, root) else
          match receive asset_file (body resp) [] with
          | (written, Some err) =>
              (Err err, <[tmp := on_disk disk written]> root)
          | (content, None) =>
              if negb (flushes disk) then (Err io_error, <[tmp := on_disk disk content]> root)
              else if bool_decide (blake3 content = af_checksum asset_file) then
                if renames disk then (Ok (), <[path_resolve file_path := content]> (delete tmp root))
                else (Err io_error, <[tmp := content]> root)
              else
                (Err ("download_file:" +:+ af_name asset_file +:+ " bad checksum"),
                 <[tmp := content]> root)
          end
        else (Err ("failed to download file: " +:+ af_name asset_file), root)
    | Err e => (Err e, root)
    | Panic => (Panic, root)
    end.

(** ** The file server *)

Inductive ServerResponse := Served (content : list u8) | PartialContent | NotFound.

(** [req.uri().path()\[1..\]] *)
Definition server_process_file (data_directory uri_path : string) (root : fs)
    : result string ServerResponse :=
  match uri_path with
  | EmptyString => Panic
  | String _ file_digest =>
      let file_path := path_push data_directory file_digest in
      match root !! path_resolve file_path with
      | Some content => Ok (Served content)
      | None => Ok (if bool_decide (is_Some (root !! tmp_file_name file_path))
                    then PartialContent else NotFound)
      end
  end.

(** ** Downloads are all or nothing *)

Lemma tmp_differs path name : file_name path = Some name → tmp_file_name path ≠ path_resolve path.
Proof.
  unfold tmp_file_name. intros Hn. rewrite Hn. unfold file_name in Hn.
  destruct (last (components path)) as [c|] eqn:Hl; [|done].
  destruct (bool_decide (c = "..")) eqn:Hdd; [done|]. injection Hn as ->.
  assert (∃ init, path_resolve path = init ++ [name]) as [init ->].
  { unfold path_resolve. apply last_Some in Hl as [l' ->]. rewrite fold_left_app. simpl.
    unfold resolve_step at 1. rewrite Hdd. by eexists. }
  rewrite length_app. simpl. rewrite Nat.add_sub, take_app_length.
  intros [_ Heq]%app_inj_2; [|done]. injection Heq as Heq.
  apply (f_equal String.length) in Heq. rewrite string_length_app in Heq. simpl in Heq. lia.
Qed.

(** C34: A download is all or nothing.  When it succeeds, either the asset was found on
    disk and nothing changed, or its file now holds content with the checksum the
    transaction names; the temporary file is gone and every other file is
    untouched.  When it fails, for whatever reason, the peers, the checksum or the disk,
    nothing but the temporary file changed: the asset's file never holds partial or
    unverified content. *)
Theorem download_all_or_nothing dir peers asset name root r root' :
  file_name (path_push dir (get_save_path asset)) = Some name →
  download_asset_file dir peers asset root = (r, root') →
  let path := path_push dir (get_save_path asset) in
  let tmp := tmp_file_name path in
  tmp ≠ path_resolve path ∧
  (∀ p, p ≠ tmp → p ≠ path_resolve path → root' !! p = root !! p) ∧
  (r = Ok () →
     root' = root ∧ AssetFile_exist root asset (get_save_path asset) = true ∨
     root' !! tmp = None ∧
     ∃ content, root' !! path_resolve path = Some content ∧ blake3 content = af_checksum asset) ∧
  (r ≠ Ok () → root' !! path_resolve path = root !! path_resolve path).
Proof.
  intros Hname Hrun path tmp. assert (tmp ≠ path_resolve path) as Hne by (by eapply tmp_differs).
  split; [done|]. revert Hrun. unfold download_asset_file. fold path. fold tmp.
  destruct (AssetFile_exist root asset _) eqn:Hex; [intros [= <- <-]; by auto|].
  destruct (find_response peers asset) as [resp|e|]; [|by intros [= <- <-]..].
  destruct (status resp =? HTTP_OK)%Z; [|by intros [= <- <-]].
  destruct (negb (makes_dir disk && creates disk)); [by intros [= <- <-]|].
  destruct (receive asset (body resp) []) as [content [err|]].
  { intros [= <- <-]. split_and!; [|done|]; intros; by rewrite lookup_insert_ne. }
  destruct (negb (flushes disk)).
  { intros [= <- <-]. split_and!; [|done|]; intros; by rewrite lookup_insert_ne. }
  case_bool_decide as Hck; [destruct (renames disk)|]; intros [= <- <-].
  - split_and!; [|intros _; right|done].
    + intros p Hp1 Hp2. by rewrite lookup_insert_ne, lookup_delete_ne by done.
    + split; [by rewrite lookup_insert_ne, lookup_delete_eq by done|].
      exists content. by rewrite lookup_insert_eq.
  - split_and!; [|done|]; intros; by rewrite lookup_insert_ne.
  - split_and!; [|done|]; intros; by rewrite lookup_insert_ne.
Qed.

(** The file server joins the request path to the data directory without looking
    at it: a path with two leading slashes is absolute, so any file of the host is
    served to whoever asks. *)
Theorem served_file_escapes dir file root content :
  is_absolute file = true → root !! path_resolve file = Some content →
  server_process_file dir (String slash file) root = Ok (Served content).
Proof.
  intros Habs Hf. unfold server_process_file, path_push. by rewrite Habs, Hf.
Qed.

(** What a node saved, it serves under the asset's uri. *)
Lemma saved_file_served dir asset root content :
  root !! path_resolve (path_push dir (get_save_path asset)) = Some content →
  server_process_file dir (String slash (get_uri asset)) root = Ok (Served content).
Proof. intros Hf. unfold server_process_file, get_uri. by rewrite Hf. Qed.
End download.

(** ** Witnesses *)

Section download_witnesses.
#[local] Existing Instance hex_crate.

Definition dl_blake3 (bs : list u8) : Hash := fill (default "0"%char (head bs)).
Definition dl_asset : AssetFile :=
  MkAssetFile "f" "txfiles/t/f" "http://h/f" (fill "a") true.
Definition dl_url (_ : string) : Sent := SentOk (MkHttpResponse 200 [ChunkData ["a"%char]; ChunkData ["b"%char]]).
Definition dl_run : result string () * fs :=
  download_asset_file dl_blake3 dl_url (λ _, None) (λ _ _ _, "") (working_disk id) "/data" [] dl_asset ∅.

Example download_all_or_nothing_witness :
  let path := path_push "/data" (get_save_path dl_asset) in
  let tmp := tmp_file_name path in
  tmp ≠ path_resolve path ∧
  (∀ p, p ≠ tmp → p ≠ path_resolve path → snd dl_run !! p = (∅ : fs) !! p) ∧
  (fst dl_run = Ok () →
     snd dl_run = ∅ ∧ AssetFile_exist ∅ dl_asset (get_save_path dl_asset) = true ∨
     snd dl_run !! tmp = None ∧
     ∃ content, snd dl_run !! path_resolve path = Some content ∧
       dl_blake3 content = af_checksum dl_asset) ∧
  (fst dl_run ≠ Ok () → snd dl_run !! path_resolve path = (∅ : fs) !! path_resolve path).
Proof.
  exact (download_all_or_nothing dl_blake3 dl_url (λ _, None) (λ _ _ _, "") (working_disk id) "/data" [] dl_asset
    "f" ∅ (fst dl_run) (snd dl_run) eq_refl (surjective_pairing dl_run)).
Defined.

Example served_file_escapes_witness :
  server_process_file "/data" "//etc/passwd" {[["etc"; "passwd"] := ["r"%char]]} = Ok (Served ["r"%char]).
Proof.
  exact (served_file_escapes "/data" "/etc/passwd" {[["etc"; "passwd"] := ["r"%char]]} ["r"%char]
    eq_refl eq_refl).
Defined.

(** The check for a file that is already there looks under the file's own relative
    path instead of the data directory, so a saved asset is fetched again. *)
Example saved_asset_not_recognised :
  let root : fs := {[path_resolve "/data/txfiles/t/f" := ["a"%char]]} in
  is_ok (fst (download_asset_file dl_blake3 (λ _, SentTimeout) (λ _, None) (λ _ _ _, "") (working_disk id) "/data" []
                dl_asset root)) = false.
Proof. by_evaluation. Qed.
End download_witnesses.
