(* ===== verification/Spread.v ===== *)
(** * How an asset spreads ([download_manager.rs])

    The two ends of a download put together: [download_asset_file] of one node against
    the file servers ([server_process_file]) of the others.  When the asset's own url
    is dead, the nodes that have the file hand it on; the state is the data
    directories of all nodes.  The [url] crate and the framing of the HTTP body are
    interfaces. *)

From S2P Require Import Prelude Types Models Files Protocol Download.

(** [reqwest::Url]: [set_ip_host], [set_port] and [set_path] on [http://localhost], and
    what a client that is given the url connects to and asks for. *)
Class PeerUrls := {
  set_path : string → string;
  peer_url : IpAddr → Z → string → string;
  url_target : string → option (IpAddr * Z * string)
}.

(** The characters a url path keeps as they are. *)
Definition plain_char (c : ascii) : bool :=
  let n := Z.of_nat (nat_of_ascii c) in
  ((48 <=? n) && (n <=? 57) || (65 <=? n) && (n <=? 90) || (97 <=? n) && (n <=? 122))%Z ||
  bool_decide (c ∈ ["-"; "_"; "."; "~"; "/"]%char).
(** [set_path] percent-encodes other characters and removes the segments [.] and [..]. *)
Definition plain_uri (uri : string) : Prop :=
  Forall (λ c, plain_char c = true) (as_bytes uri) ∧ Forall safe_piece (split_slash uri).

Class PeerUrlLaws `{PeerUrls} : Prop := {
  target_peer ip port uri : url_target (peer_url ip port uri) = Some (ip, port, set_path uri);
  set_path_plain uri : plain_uri uri → set_path uri = String slash uri
}.

(** [ReaderStream] and the HTTP body: the frames in which a file arrives. *)
Class BodyFrames := { frames : list u8 → list Chunk }.
Class BodyFramesLaws `{BodyFrames} : Prop := {
  frames_complete on_disk asset c : receive (working_disk on_disk) asset (frames c) [] = (c, None)
}.

Section spread.
Context `{Hex, PeerUrls, BodyFrames}.
Context (blake3 : list u8 → Hash) (get_url : string → Sent) (on_disk : list u8 → list u8).

(** Where a node's file server listens, its data directory and its files. *)
Abbreviation Listener := (IpAddr * Z)%type.
Record Host := MkHost { data_directory : string; host_files : fs }.
Abbreviation Swarm := (gmap Listener Host).

Definition HTTP_PARTIAL_CONTENT : Z := 206.
Definition HTTP_NOT_FOUND : Z := 404.

(** What comes back over the connection; a handler that panics drops it. *)
Definition file_answer (h : Host) (path : string) : option HttpResponse :=
  match server_process_file (data_directory h) path (host_files h) with
  | Ok (Served content) => Some (MkHttpResponse HTTP_OK (frames content))
  | Ok PartialContent => Some (MkHttpResponse HTTP_PARTIAL_CONTENT
                                 (frames (as_bytes "Update in progess, retry later")))
  | Ok NotFound => Some (MkHttpResponse HTTP_NOT_FOUND (frames (as_bytes "File not found")))
  | _ => None
  end.

(** [http_client.get(url).send()] *)
Definition get_from (s : Swarm) (url : string) : option HttpResponse :=
  '(ip, port, path) ← url_target url;
  h ← s !! (ip, port);
  file_answer h path.

(** One node downloads; the others answer with what they have. *)
Abbreviation Peers := (list (SocketAddr * option Z)).
Definition fetch (asset : AssetFile) (who : Listener) (peers : Peers) : M Swarm string () := λ s,
  match s !! who with
  | Some h =>
      let '(r, root) := download_asset_file blake3 get_url (get_from s) peer_url (working_disk on_disk)
                          (data_directory h) peers asset (host_files h) in
      (r, <[who := MkHost (data_directory h) root]> s)
  | None => (Err "no such node", s)
  end.

Fixpoint fetches (asset : AssetFile) (schedule : list (Listener * Peers)) : M Swarm string (list (result string ())) :=
  match schedule with
  | [] => mret []
  | (who, peers) :: rest => λ s,
      let '(r, s1) := fetch asset who peers s in
      match fetches asset rest s1 with
      | (Ok rs, s2) => (Ok (r :: rs), s2)
      | (res, s2) => (res, s2)
      end
  end.

(** ** What a node has *)

Section asset.
Context (asset : AssetFile).

Definition asset_path (h : Host) : string := path_push (data_directory h) (get_save_path asset).
Definition stored (h : Host) : option (list u8) := host_files h !! path_resolve (asset_path h).
Definition has_asset (s : Swarm) (k : Listener) : Prop :=
  ∃ h c, s !! k = Some h ∧ stored h = Some c ∧ blake3 c = af_checksum asset.

(** Nobody has other content under the asset's name. *)
Definition honest (s : Swarm) : Prop :=
  ∀ k h c, s !! k = Some h → stored h = Some c → blake3 c = af_checksum asset.

(** The node does not take the asset for one it already has: the place it looks at
    (the asset's relative path twice) is empty, and not one it downloads to. *)
Definition looks_at : list string := path_resolve (path_push (get_save_path asset) (get_save_path asset)).
Definition will_download (h : Host) : Prop :=
  (∃ name, file_name (asset_path h) = Some name) ∧
  AssetFile_exist (host_files h) asset (get_save_path asset) = false ∧
  looks_at ≠ path_resolve (asset_path h) ∧ looks_at ≠ tmp_file_name (asset_path h).

(** The url the author gave does not lead to the file: the request fails, or is answered
    with another status than OK.  A url that does not answer within five seconds is not
    dead in this sense: [download_asset_file] then gives up without asking a peer. *)
Definition dead_url : Prop :=
  match get_url (af_url asset) with
  | SentOk resp => status resp ≠ HTTP_OK
  | SentErr => True
  | SentTimeout => False
  end.

Definition lists (peers : Peers) (k : Listener) : Prop :=
  ∃ e port, (e, Some port) ∈ peers ∧ k = (ip e, port).

Context `{!PeerUrlLaws, !BodyFramesLaws}.

(** What a listed peer answers. *)
Lemma peer_answer s ipa port :
  plain_uri (get_uri asset) →
  get_from s (peer_url ipa port (get_uri asset)) =
    (h ← s !! (ipa, port);
     Some (match stored h with
           | Some c => MkHttpResponse HTTP_OK (frames c)
           | None => if bool_decide (is_Some (host_files h !! tmp_file_name (asset_path h)))
                     then MkHttpResponse HTTP_PARTIAL_CONTENT (frames (as_bytes "Update in progess, retry later"))
                     else MkHttpResponse HTTP_NOT_FOUND (frames (as_bytes "File not found"))
           end)).
Proof.
  intros Hp. unfold get_from. rewrite target_peer. simpl. rewrite set_path_plain by done.
  destruct (s !! (ipa, port)) as [h|]; [|done]. simpl. unfold file_answer, server_process_file, stored.
  fold (get_save_path asset) (asset_path h). unfold get_uri. fold (asset_path h).
  destruct (host_files h !! _); [done|]. by case_bool_decide.
Qed.

Definition urls_of (peers : Peers) : list string :=
  omap (λ e, (λ port, peer_url (ip (fst e)) port (get_uri asset)) <$> snd e) peers.

(** Peers that do not have the file are skipped, and so are unreachable ones. *)
Lemma first_found s peers :
  plain_uri (get_uri asset) →
  match first_response (get_from s) (urls_of peers) with
  | Some resp => ∃ k h c, lists peers k ∧ s !! k = Some h ∧ stored h = Some c ∧
                   resp = MkHttpResponse HTTP_OK (frames c)
  | None => ∀ k h, lists peers k → s !! k = Some h → stored h = None
  end.
Proof.
  intros Hp. induction peers as [|[e [port|]] peers IH]; unfold urls_of in *; simpl.
  - intros k h (? & ? & ?%elem_of_nil & _). done.
  - rewrite peer_answer by done.
    assert ((∀ h, s !! (ip e, port) = Some h → stored h = None) →
      match first_response (get_from s) (omap (λ e, (λ port, peer_url (ip e.1) port (get_uri asset)) <$> e.2) peers) with
      | Some resp => ∃ k h c, lists ((e, Some port) :: peers) k ∧ s !! k = Some h ∧
          stored h = Some c ∧ resp = MkHttpResponse HTTP_OK (frames c)
      | None => ∀ k h, lists ((e, Some port) :: peers) k → s !! k = Some h → stored h = None
      end) as Hskip.
    { intros Hno. destruct (first_response _ _) as [resp|].
      - destruct IH as (k & h & c & (e' & q & ? & ?) & ?). exists k, h, c.
        split; [|done]. exists e', q. split; [by right|done].
      - intros k h (e' & q & [[= <- <-]|Hin]%elem_of_cons & ->) Hh; [by apply Hno|].
        apply (IH (ip e', q) h); [by exists e', q|done]. }
    destruct (s !! (ip e, port)) as [h|] eqn:Hh; simpl; [|by apply Hskip].
    destruct (stored h) as [c|] eqn:Hc; simpl.
    + exists (ip e, port), h, c. split_and!; [|done..]. exists e, port. split; [left|done].
    + case_bool_decide; simpl; apply Hskip; by intros ? [= <-].
  - destruct (first_response _ _) as [resp|].
    + destruct IH as (k & h & c & (e' & q & ? & ?) & ?). exists k, h, c.
      split; [|done]. exists e', q. split; [by right|done].
    + intros k h (e' & q & [[=]|Hin]%elem_of_cons & ->). apply IH. by exists e', q.
Qed.

Lemma find_peer_response s peers :
  plain_uri (get_uri asset) → dead_url →
  match find_response get_url (get_from s) peer_url peers asset with
  | Ok resp => ∃ k h c, lists peers k ∧ s !! k = Some h ∧ stored h = Some c ∧
                 resp = MkHttpResponse HTTP_OK (frames c)
  | Err _ => ∀ k h, lists peers k → s !! k = Some h → stored h = None
  | Panic => False
  end.
Proof.
  intros Hp Hd. pose proof (first_found s peers Hp) as Hf. unfold dead_url in Hd.
  unfold find_response. fold (urls_of peers).
  destruct (get_url (af_url asset)) as [resp| |]; [|destruct (first_response _ _); done..].
  destruct (Z.eqb_spec (status resp) HTTP_OK); [done|]. by destruct (first_response _ _).
Qed.

(** A node that now holds the right content. *)
Lemma store_asset s who h c :
  honest s → s !! who = Some h → will_download h → blake3 c = af_checksum asset →
  let h' := MkHost (data_directory h) (<[path_resolve (asset_path h) := c]>
              (delete (tmp_file_name (asset_path h)) (host_files h))) in
  honest (<[who := h']> s) ∧ will_download h' ∧ stored h' = Some c.
Proof.
  intros Hs Hh (Hn & Hex & Hl1 & Hl2) Hc h'.
  assert (stored h' = Some c) as Hst by apply lookup_insert_eq.
  split_and!; [| |done].
  - intros k h1 c1 [[<- <-]|[_ Hk]]%lookup_insert_Some Hc1; [|by eapply Hs]. congruence.
  - split; [done|]. split; [|done]. revert Hex. unfold AssetFile_exist, try_exists.
    destruct (af_verify_exist asset); [|done]. intros Hex. rewrite <-Hex. apply bool_decide_ext.
    simpl. fold looks_at. by rewrite lookup_insert_ne, lookup_delete_ne by done.
Qed.

Lemma has_asset_insert s who h' c :
  stored h' = Some c → blake3 c = af_checksum asset →
  has_asset (<[who := h']> s) who ∧ ∀ k, has_asset s k → has_asset (<[who := h']> s) k.
Proof.
  intros Hst Hc. assert (has_asset (<[who := h']> s) who) as Hw
    by (exists h', c; split; [apply lookup_insert_eq|done]).
  split; [done|]. intros k (h1 & c1 & Hk & ?). destruct (decide (k = who)) as [->|]; [done|].
  exists h1, c1. by rewrite lookup_insert_ne.
Qed.

(** One download among honest nodes: it succeeds exactly when a listed peer has the
    file, afterwards the node has it too, and nobody else is touched. *)
Lemma fetch_spec s who h peers :
  honest s → s !! who = Some h → will_download h → plain_uri (get_uri asset) → dead_url →
  let '(r, s') := fetch asset who peers s in
  honest s' ∧ (∃ h', s' !! who = Some h' ∧ will_download h') ∧
  (∀ k, k ≠ who → s' !! k = s !! k) ∧ (∀ k, has_asset s k → has_asset s' k) ∧
  (r = Ok () ↔ ∃ k, lists peers k ∧ has_asset s k) ∧
  (r = Ok () → has_asset s' who) ∧ (r ≠ Ok () → s' = s).
Proof.
  intros Hs Hh Hw Hp Hd. unfold fetch. rewrite Hh.
  pose proof (find_peer_response s peers Hp Hd) as Hf.
  pose proof Hw as (_ & Hex & _). unfold download_asset_file. rewrite Hex.
  destruct (find_response _ _ _ _ _) as [resp|e|] eqn:Hr; [|..|done].
  - destruct Hf as (k & hk & c & Hk & Hsk & Hc & ->). cbn -[receive]. rewrite frames_complete.
    assert (blake3 c = af_checksum asset) as Hck by (by eapply Hs).
    rewrite bool_decide_eq_true_2 by done. fold (asset_path h).
    destruct (store_asset s who h c Hs Hh Hw Hck) as (Hs' & Hw' & Hst).
    destruct (has_asset_insert s who _ c Hst Hck) as [Hown Hkeep].
    split_and!; [done| |intros; by rewrite lookup_insert_ne|done| |done|done].
    + eexists. split; [apply lookup_insert_eq|done].
    + split; [|done]. intros _. exists k. split; [done|]. by exists hk, c.
  - assert (<[who := MkHost (data_directory h) (host_files h)]> s = s) as ->
      by (destruct h; by apply insert_id).
    split_and!; [done|by exists h|done|done| |done|done].
    split; [done|]. intros (k & Hk & hk & c & Hsk & Hc & _). by rewrite (Hf k hk Hk Hsk) in Hc.
Qed.

(** ** Gossip: who is informed *)

Definition asks (have : gset Listener) (peers : Peers) : bool :=
  bool_decide (Exists (λ k, k ∈ have) (omap (λ e, pair (ip (fst e)) <$> snd e) peers)).

(** The abstract process: a node is informed when it asks one that is. *)
Fixpoint gossip (have : gset Listener) (schedule : list (Listener * Peers)) : list bool * gset Listener :=
  match schedule with
  | [] => ([], have)
  | (who, peers) :: rest =>
      let ok := asks have peers in
      let '(oks, have') := gossip (if ok then {[who]} ∪ have else have) rest in (ok :: oks, have')
  end.

Lemma asks_spec have peers : asks have peers = true ↔ ∃ k, lists peers k ∧ k ∈ have.
Proof.
  unfold asks. rewrite bool_decide_eq_true, Exists_exists. apply exist_proper. intros k.
  rewrite list_elem_of_omap. unfold lists. split.
  - intros [([e [port|]] & Hin & [= <-]) Hk]. split; [by exists e, port|done].
  - intros [(e & port & Hin & ->) Hk]. split; [|done]. by exists (e, Some port).
Qed.

Definition ready (s : Swarm) (who : Listener) : Prop := ∃ h, s !! who = Some h ∧ will_download h.

Lemma fetches_gossip schedule s have :
  honest s → plain_uri (get_uri asset) → dead_url →
  Forall (λ e, ready s e.1) schedule → (∀ k, k ∈ have ↔ has_asset s k) →
  let '(r, s') := fetches asset schedule s in
  let '(oks, have') := gossip have schedule in
  (∃ rs, r = Ok rs ∧ is_ok <$> rs = oks) ∧ (∀ k, k ∈ have' ↔ has_asset s' k) ∧ honest s'.
Proof.
  intros Hs Hp Hd. revert s have Hs. induction schedule as [|[who peers] rest IH]; intros s have Hs Hr Hh.
  { simpl. split; [by exists []|done]. }
  apply Forall_cons in Hr as [(h & Hw & Hwd) Hr]. cbn [fetches gossip].
  pose proof (fetch_spec s who h peers Hs Hw Hwd Hp Hd) as Hf.
  destruct (fetch asset who peers s) as [r s1].
  destruct Hf as (Hs1 & Hw1 & Hother & Hkeep & Hiff & Hown & Hsame).
  assert (asks have peers = is_ok r) as Hask.
  { apply eq_true_iff_eq. rewrite asks_spec. setoid_rewrite Hh. rewrite <-Hiff.
    destruct r as [[]|e|]; split; done. }
  rewrite Hask.
  assert (Forall (λ e, ready s1 e.1) rest) as Hr1.
  { eapply Forall_impl; [exact Hr|]. intros [k ps] (hk & Hk & Hkd). simpl in *.
    destruct (decide (k = who)) as [->|Hne]; [done|]. exists hk. by rewrite Hother. }
  assert (∀ k, k ∈ (if is_ok r then {[who]} ∪ have else have) ↔ has_asset s1 k) as Hh1.
  { intros k. destruct r as [[]|e|]; simpl; [|by rewrite (Hsame ltac:(done))..].
    rewrite elem_of_union, elem_of_singleton, Hh. split; [intros [->|?]; auto|].
    intros (hk & c & Hk & ?). destruct (decide (k = who)) as [|Hne]; [by left|]. right.
    exists hk, c. by rewrite <-Hother. }
  specialize (IH s1 _ Hs1 Hr1 Hh1).
  destruct (fetches asset rest s1) as [r2 s2], (gossip _ rest) as [oks have'].
  destruct IH as ((rs & -> & Hrs) & Hhave & Hs2). split; [|done].
  exists (r :: rs). split; [done|]. by rewrite fmap_cons, Hrs.
Qed.

(** C30: among honest nodes an asset whose own url is dead spreads like gossip.  The url
    fails or answers with another status than OK (when it does not answer in time, the
    download fails without asking a peer, [slow_url_blocks]), and the asset's path needs no percent-encoding
    (a file server looks for the path as it was sent, [encoded_name_not_served]); disks
    work.  Run the
    downloads of a schedule one after the other, each against the file servers of the
    peers the node knows: a download succeeds exactly when one of those peers is
    informed by then, the informed nodes afterwards are those of the abstract process,
    each of them serves the asset to whoever asks, and what it serves has the checksum
    the transaction names. *)
Theorem asset_spreads schedule s have :
  honest s → plain_uri (get_uri asset) → dead_url →
  Forall (λ e, ready s e.1) schedule → (∀ k, k ∈ have ↔ has_asset s k) →
  let '(r, s') := fetches asset schedule s in
  let '(oks, have') := gossip have schedule in
  (∃ rs, r = Ok rs ∧ is_ok <$> rs = oks) ∧
  ∀ ip port, (ip, port) ∈ have' ↔
    ∃ c, get_from s' (peer_url ip port (get_uri asset)) = Some (MkHttpResponse HTTP_OK (frames c)) ∧
         blake3 c = af_checksum asset.
Proof.
  intros Hs Hp Hd Hr Hh. pose proof (fetches_gossip schedule s have Hs Hp Hd Hr Hh) as Hg.
  destruct (fetches asset schedule s) as [r s'], (gossip have schedule) as [oks have'].
  destruct Hg as (Hrs & Hhave & Hs'). split; [done|]. intros ipa port. rewrite Hhave, peer_answer by done.
  unfold has_asset. split.
  - intros (h & c & Hh' & Hc & Hck). exists c. rewrite Hh'. simpl. by rewrite Hc.
  - intros (c & Ha & Hck). destruct (s' !! (ipa, port)) as [h|] eqn:Hh'; [|done]. simpl in Ha.
    destruct (stored h) as [c'|] eqn:Hc; [|by case_bool_decide].
    exists h, c'. split_and!; [done..|]. by eapply Hs'.
Qed.

(** The first peer that answers decides: when its content is wrong the download fails,
    whatever the peers after it have. *)
Theorem bad_peer_blocks s who h e port h1 c peers :
  plain_uri (get_uri asset) → dead_url → s !! who = Some h → will_download h →
  s !! (ip e, port) = Some h1 → stored h1 = Some c → blake3 c ≠ af_checksum asset →
  is_ok (fst (fetch asset who ((e, Some port) :: peers) s)) = false.
Proof.
  intros Hp Hd Hw (_ & Hex & _) Hs1 Hc Hck. unfold fetch. rewrite Hw.
  unfold download_asset_file. rewrite Hex.
  assert (find_response get_url (get_from s) peer_url ((e, Some port) :: peers) asset =
    Ok (MkHttpResponse HTTP_OK (frames c))) as ->.
  { unfold find_response, dead_url in *. simpl. rewrite peer_answer, Hs1 by done. simpl. rewrite Hc. simpl.
    destruct (get_url (af_url asset)) as [resp| |]; [|done..].
    by destruct (Z.eqb_spec (status resp) HTTP_OK). }
  cbn -[receive]. rewrite frames_complete, bool_decide_eq_false_2 by done. done.
Qed.

(** A url that does not answer in time blocks the download, whatever the peers have. *)
Theorem slow_url_blocks s who h peers :
  get_url (af_url asset) = SentTimeout → s !! who = Some h → will_download h →
  is_ok (fst (fetch asset who peers s)) = false ∧ snd (fetch asset who peers s) = s.
Proof.
  intros Hu Hw (_ & Hex & _). unfold fetch. rewrite Hw. unfold download_asset_file, find_response.
  rewrite Hex, Hu. split; [done|]. destruct h. simpl. by apply insert_id.
Qed.

(** The server joins the path of the request as it came: a name that the url encodes
    is looked for under its encoded form. *)
Theorem encoded_name_not_served s ip port h enc :
  set_path (get_uri asset) = String slash enc → s !! (ip, port) = Some h →
  host_files h !! path_resolve (path_push (data_directory h) enc) = None →
  ∃ resp, get_from s (peer_url ip port (get_uri asset)) = Some resp ∧ status resp ≠ HTTP_OK.
Proof.
  intros Henc Hs Hn. unfold get_from. rewrite target_peer. simpl. rewrite Hs, Henc. simpl.
  unfold file_answer, server_process_file. rewrite Hn. case_bool_decide; eexists; by split.
Qed.

End asset.
End spread.

(** ** Witnesses *)

Section spread_witnesses.
#[local] Existing Instance hex_crate.

(** A url that spells out the address in binary. *)
Fixpoint pos_text (p : positive) : string :=
  match p with xI p => String "1" (pos_text p) | xO p => String "0" (pos_text p) | xH => "h" end.
Fixpoint text_pos (s : string) : option (positive * string) :=
  match s with
  | String "1" s => '(p, r) ← text_pos s; Some (xI p, r)
  | String "0" s => '(p, r) ← text_pos s; Some (xO p, r)
  | String "h" s => Some (xH, s)
  | _ => None
  end.
Lemma text_pos_text p r : text_pos (pos_text p +:+ r) = Some (p, r).
Proof.
  induction p as [p IH|p IH|]; [| |done].
  - change (pos_text p~1 +:+ r) with (String "1" (pos_text p +:+ r)). cbn [text_pos]. by rewrite IH.
  - change (pos_text p~0 +:+ r) with (String "0" (pos_text p +:+ r)). cbn [text_pos]. by rewrite IH.
Qed.

#[local] Instance binary_urls : PeerUrls := {|
  set_path uri := String slash uri;
  peer_url ip port uri := pos_text (encode (ip, port)) +:+ String slash uri;
  url_target url :=
    '(p, path) ← text_pos url; '(ip, port) ← decode p; Some (ip, port, path)
|}.
#[local] Instance binary_urls_laws : PeerUrlLaws.
Proof.
  split; [|done]. intros ip port uri. unfold url_target, peer_url, binary_urls.
  rewrite text_pos_text. cbn [mbind option_bind]. by rewrite decode_encode.
Qed.
#[local] Instance one_frame : BodyFrames := {| frames c := [ChunkData c] |}.
#[local] Instance one_frame_laws : BodyFramesLaws.
Proof. by split. Qed.

(** Three nodes in a row; the first has the file. *)
Definition sp_addr (n : Z) : SocketAddr := (inl n, 9999%Z).
Definition sp_node (n : Z) : IpAddr * Z := (inl n, 8080%Z).
Definition sp_swarm : gmap (IpAddr * Z) Host :=
  <[sp_node 1 := MkHost "/data" {[path_resolve "/data/txfiles/t/f" := ["a"%char]]}]>
  (<[sp_node 2 := MkHost "/data" ∅]> (<[sp_node 3 := MkHost "/data" ∅]> ∅)).
Definition sp_schedule : list ((IpAddr * Z) * list (SocketAddr * option Z)) :=
  [(sp_node 3, [(sp_addr 2, Some 8080%Z)]);
   (sp_node 2, [(sp_addr 3, Some 8080%Z); (sp_addr 1, Some 8080%Z)]);
   (sp_node 3, [(sp_addr 1, None); (sp_addr 2, Some 8080%Z)])].
Abbreviation sp_has := (has_asset dl_blake3 dl_asset).

Lemma sp_hosts k h : sp_swarm !! k = Some h →
  k = sp_node 1 ∧ h = MkHost "/data" {[path_resolve "/data/txfiles/t/f" := ["a"%char]]} ∨
  (k = sp_node 2 ∨ k = sp_node 3) ∧ h = MkHost "/data" ∅.
Proof.
  unfold sp_swarm. rewrite !lookup_insert_Some, lookup_empty. naive_solver.
Qed.
Lemma sp_honest : honest dl_blake3 dl_asset sp_swarm.
Proof.
  intros k h c [[-> ->]|[_ ->]]%sp_hosts; [|done].
  assert (stored dl_asset (MkHost "/data" {[path_resolve "/data/txfiles/t/f" := ["a"%char]]}) =
    Some ["a"%char]) as -> by by_evaluation.
  by intros [= <-].
Qed.
Lemma sp_have k : k ∈ ({[sp_node 1]} : gset (IpAddr * Z)) ↔ sp_has sp_swarm k.
Proof.
  rewrite elem_of_singleton. split.
  - intros ->. exists (MkHost "/data" {[path_resolve "/data/txfiles/t/f" := ["a"%char]]}), ["a"%char].
    split_and!; [apply lookup_insert_eq|by_evaluation..].
  - intros (h & c & [[-> ->]|[_ ->]]%sp_hosts & Hc & _); [done|]. done.
Qed.
Lemma sp_plain : plain_uri (get_uri dl_asset).
Proof.
  split; [repeat constructor|].
  change (split_slash (get_uri dl_asset)) with ["txfiles"; "t"; "f"].
  repeat constructor; repeat (apply Forall_cons; split; [by intros [=]|]); try done; apply Forall_nil.
Qed.
Lemma sp_will_download fs : fs = ∅ → will_download dl_asset (MkHost "/data" fs).
Proof.
  intros ->. split; [exists "f"; by_evaluation|]. split; [by_evaluation|].
  split; by_evaluation.
Qed.
Lemma sp_ready : Forall (λ e, ready dl_asset sp_swarm e.1) sp_schedule.
Proof.
  assert (∀ k, k = sp_node 2 ∨ k = sp_node 3 → ready dl_asset sp_swarm k) as Hr.
  { intros k Hk. exists (MkHost "/data" ∅). split; [by destruct Hk as [-> | ->]|by apply sp_will_download]. }
  apply Forall_cons; split; [apply Hr; by right|].
  apply Forall_cons; split; [apply Hr; by left|].
  apply Forall_cons; split; [apply Hr; by right|by apply Forall_nil].
Qed.

(** The third node asks in vain, the second gets the file from the first, and then the
    third from the second. *)
Example sp_gossip :
  gossip {[sp_node 1]} sp_schedule =
    ([false; true; true], {[sp_node 3]} ∪ ({[sp_node 2]} ∪ {[sp_node 1]})).
Proof. by_evaluation. Qed.

Example asset_spreads_witness :
  let '(r, s') := fetches dl_blake3 (λ _, SentErr) id dl_asset sp_schedule sp_swarm in
  let '(oks, have') := gossip {[sp_node 1]} sp_schedule in
  (∃ rs, r = Ok rs ∧ is_ok <$> rs = oks) ∧
  ∀ ip port, (ip, port) ∈ have' ↔
    ∃ c, get_from s' (peer_url ip port (get_uri dl_asset)) = Some (MkHttpResponse HTTP_OK (frames c)) ∧
         dl_blake3 c = af_checksum dl_asset.
Proof.
  exact (asset_spreads dl_blake3 (λ _, SentErr) id dl_asset sp_schedule sp_swarm {[sp_node 1]}
    sp_honest sp_plain I sp_ready sp_have).
Defined.
End spread_witnesses.
