(* ===== verification/Http.v ===== *)
(** * The HTTP listeners of the node ([download_manager.rs], [watchdog/mod.rs], [main.rs])

    The accept loops of the file server, of the health check and of the beacon: a task
    per connection, so that connections do not disturb one another; and the health
    check as a whole, its state machine fed by the scheduler while clients ask. *)

From S2P Require Import Prelude Types Models Files Protocol Download Watchdog.

(** ** The accept loop *)

Section server.
Context {Env Req Resp : Type}.
Context (service_fn : Env → Req → result () Resp).
(** Whether an error of [accept] ends the loop (the beacon's [?]) or is logged. *)
Context (accept_error_ends : bool).

(** Open connections with the responses they got, in order. *)
Record HttpServer := MkHttpServer { listening : bool; connections : gmap nat (list Resp) }.
Definition HttpServer_new : HttpServer := MkHttpServer true ∅.

(** A new connection, an error of [accept], a request on a connection with what the
    handler sees when it runs, and the end of a connection. *)
Inductive HttpEvent :=
  | Accepted (c : nat)
  | AcceptError
  | Requested (c : nat) (env : Env) (req : Req)
  | Disconnected (c : nat).

(** A handler that fails or panics ends the task of its connection. *)
Definition server_step (ev : HttpEvent) (s : HttpServer) : HttpServer :=
  match ev with
  | Accepted c => if listening s then MkHttpServer true (<[c := []]> (connections s)) else s
  | AcceptError => if accept_error_ends then MkHttpServer false ∅ else s
  | Requested c env req =>
      match connections s !! c with
      | Some answered =>
          match service_fn env req with
          | Ok resp => MkHttpServer (listening s) (<[c := answered ++ [resp]]> (connections s))
          | _ => MkHttpServer (listening s) (delete c (connections s))
          end
      | None => s
      end
  | Disconnected c => MkHttpServer (listening s) (delete c (connections s))
  end.
Definition server_run (evs : list HttpEvent) (s : HttpServer) : HttpServer :=
  foldl (λ s ev, server_step ev s) s evs.

(** The events of one connection. *)
Definition concerns (c : nat) (ev : HttpEvent) : bool :=
  match ev with
  | Accepted c' | Requested c' _ _ | Disconnected c' => bool_decide (c' = c)
  | AcceptError => false
  end.

Lemma step_other c ev s :
  accept_error_ends = false → concerns c ev = false →
  listening (server_step ev s) = listening s ∧
  connections (server_step ev s) !! c = connections s !! c.
Proof.
  intros He. destruct ev as [c'| |c' env req|c']; simpl; rewrite ?bool_decide_eq_false.
  - intros ?. destruct (listening s) eqn:Hl; simpl; rewrite ?Hl; [by rewrite lookup_insert_ne|done].
  - by rewrite He.
  - intros ?. destruct (connections s !! c') as [l|]; [|done].
    destruct (service_fn env req); simpl; (split; [done|]);
      by rewrite ?lookup_insert_ne, ?lookup_delete_ne by done.
  - intros ?. simpl. by rewrite lookup_delete_ne.
Qed.

Lemma step_same c ev s1 s2 :
  accept_error_ends = false → listening s1 = listening s2 → connections s1 !! c = connections s2 !! c →
  listening (server_step ev s1) = listening (server_step ev s2) ∧
  (concerns c ev = true → connections (server_step ev s1) !! c = connections (server_step ev s2) !! c).
Proof.
  intros He Hl Hc. destruct ev as [c'| |c' env req|c']; simpl; rewrite ?bool_decide_eq_true.
  - rewrite Hl. destruct (listening s2) eqn:Hl2; simpl; rewrite ?Hl, ?Hl2; (split; [done|]);
      intros ->; [by rewrite !lookup_insert_eq|done].
  - by rewrite He.
  - split; [by repeat (case_match; simpl)|]. intros ->. rewrite Hc. destruct (connections s2 !! c) as [l|] eqn:Hs2; [|congruence].
    destruct (service_fn env req); simpl; by rewrite ?lookup_insert_eq, ?lookup_delete_eq.
  - split; [done|]. intros ->. by rewrite !lookup_delete_eq.
Qed.

(** Connections do not disturb one another: what a connection was answered is what it
    would have been answered alone, whatever other clients sent, whichever of their
    handlers failed or panicked, and whatever [accept] reported in between. *)
Lemma connections_isolated c evs s1 s2 :
  accept_error_ends = false → listening s1 = listening s2 → connections s1 !! c = connections s2 !! c →
  listening (server_run evs s1) = listening s1 ∧
  connections (server_run evs s1) !! c =
    connections (server_run (filter (λ ev, concerns c ev = true) evs) s2) !! c.
Proof.
  intros He. unfold server_run. revert s1 s2.
  induction evs as [|ev evs IH]; intros s1 s2 Hl Hc; [done|].
  assert (listening (server_step ev s1) = listening s1) as Hls.
  { destruct ev as [c'| |c' env req|c']; simpl; rewrite ?He; by repeat case_match. }
  destruct (step_same c ev s1 s2 He Hl Hc) as [Hl' Hc'].
  cbn [foldl]. destruct (concerns c ev) eqn:Hco.
  - rewrite filter_cons_True by done. cbn [foldl]. rewrite <-Hls. by apply IH; [|apply Hc'].
  - rewrite filter_cons_False by (by rewrite Hco). rewrite <-Hls.
    destruct (step_other c ev s1 He Hco) as [Hl1 Hc1]. apply IH; congruence.
Qed.

(** The server never stops answering: after anything that happened, a new connection
    gets the handler's answer. *)
Lemma server_answers evs c env req resp :
  accept_error_ends = false → service_fn env req = Ok resp →
  connections (server_run (evs ++ [Accepted c; Requested c env req]) HttpServer_new) !! c = Some [resp].
Proof.
  intros He Hr. unfold server_run. rewrite foldl_app. cbn [foldl].
  destruct (connections_isolated c evs HttpServer_new HttpServer_new He eq_refl eq_refl) as [Hl _].
  unfold server_run in Hl. cbn [server_step]. rewrite Hl. cbn [listening HttpServer_new connections].
  rewrite lookup_insert_eq, Hr. simpl. by rewrite lookup_insert_eq.
Qed.

Lemma server_run_snoc evs ev s : server_run (evs ++ [ev]) s = server_step ev (server_run evs s).
Proof. unfold server_run. by rewrite foldl_app. Qed.
End server.
Arguments HttpEvent : clear implicits.
Arguments HttpServer : clear implicits.

(** ** The listeners *)

(** [serve_files]: the handler reads the files as they are at that time. *)
Definition serve_files (data_directory : string) : list (HttpEvent fs string) → HttpServer ServerResponse :=
  λ evs, server_run
    (λ root path, match server_process_file data_directory path root with
                  | Ok r => Ok r | Err _ => Err () | Panic => Panic end) false evs HttpServer_new.

(** The listener at the end of [p2p_beacon]: the first error of [accept] ends it. *)
Definition ok (_ : ()) : result () (list u8) := Ok (as_bytes "OK").
Definition beacon_healthcheck : list (HttpEvent () ()) → HttpServer (list u8) :=
  λ evs, server_run (λ _ req, ok req) true evs HttpServer_new.

(** A node's file server serves what is on disk, whatever happened before. *)
Theorem file_server_answers dir evs c root asset content :
  root !! path_resolve (path_push dir (get_save_path asset)) = Some content →
  connections (serve_files dir (evs ++ [Accepted c; Requested c root (String slash (get_uri asset))])) !! c
    = Some [Served content].
Proof.
  intros Hf. apply server_answers; [done|].
  by rewrite (saved_file_served dir asset root content Hf).
Qed.

(** After an error of [accept] the beacon's listener is gone for good. *)
Theorem beacon_listener_ends evs evs' :
  beacon_healthcheck (evs ++ [AcceptError] ++ evs') = MkHttpServer false ∅.
Proof.
  unfold beacon_healthcheck, server_run. rewrite foldl_app. cbn [foldl app server_step].
  induction evs' as [|[c| |c [] []|c] evs' IH]; [done|done|done| |]; simpl; [done|].
  by rewrite delete_empty.
Qed.

(** ** The health check as a whole *)

Record Health := MkHealth { h_watchdog : Watchdog; h_server : HttpServer Z }.
Definition Health_new : Health := MkHealth Watchdog_new HttpServer_new.

(** A turn of [run_healthcheck], or something that happens to the HTTP listener; a
    request is a method and a path. *)
Inductive HealthEvent := Watched (e : Event) | Asked (ev : HttpEvent () (string * string)).

(** The handler locks the shared state when it runs. *)
Definition locked (state : WatchDogState) (ev : HttpEvent () (string * string))
    : HttpEvent WatchDogState (string * string) :=
  match ev with
  | Accepted c => Accepted c
  | AcceptError => AcceptError
  | Requested c _ req => Requested c state req
  | Disconnected c => Disconnected c
  end.
Definition serve_healthcheck (state : WatchDogState) (ev : HttpEvent () (string * string))
    : HttpServer Z → HttpServer Z :=
  server_step (λ state req, Ok (healthcheck_status req.1 req.2 state)) false (locked state ev).

Definition start_healthcheck_step (limit : nat) (h : Health) (ev : HealthEvent) : Health :=
  match ev with
  | Watched e => MkHealth (run_healthcheck_turn limit e (h_watchdog h)) (h_server h)
  | Asked ev => MkHealth (h_watchdog h) (serve_healthcheck (watchdog_state (h_watchdog h)) ev (h_server h))
  end.
Definition start_healthcheck (limit : nat) (evs : list HealthEvent) : Health :=
  foldl (start_healthcheck_step limit) Health_new evs.

(** What the state machine saw. *)
Definition watched (evs : list HealthEvent) : list Event :=
  omap (λ ev, match ev with Watched e => Some e | Asked _ => None end) evs.

Lemma health_watchdog limit evs h :
  h_watchdog (foldl (start_healthcheck_step limit) h evs) = run_healthcheck limit (watched evs) (h_watchdog h).
Proof. revert h. induction evs as [|[e|ev] evs IH]; intros h; [done|..]; cbn [foldl]; by rewrite IH. Qed.

(** C39: the health check tells the truth to whoever asks.  Through any interleaving of
    scheduler signals, timer ticks, connections, requests, failed accepts and
    disconnections, the next [GET] or [HEAD] of [/healthz] on an open connection is
    answered with one more status: 503 exactly when the scheduler loop counts as dead or
    the mempool as not drained, 204 when only the signals are missing, else 200.  It is
    503 when no loop signal came between the last two ticks of the timer, and not 200
    when the channel was silent for [limit] timeouts. *)
Theorem healthz_spec limit evs c methd answered :
  0 < limit → methd = "GET" ∨ methd = "HEAD" →
  connections (h_server (start_healthcheck limit evs)) !! c = Some answered →
  ∃ code, connections (h_server (start_healthcheck limit
              (evs ++ [Asked (Requested c () (methd, "/healthz"))]))) !! c = Some (answered ++ [code]) ∧
    (let s := scheduler_state (run_healthcheck limit (watched evs) Watchdog_new) in
     code = (if negb (scheduler_alive s && scheduler_mempool_empty s) then 503
             else if scheduler_signal_valid s then 200 else 204)%Z) ∧
    (∀ before between, watched evs = before ++ [Tick] ++ between ++ [Tick] →
       Forall (λ e, is_loop_ok e = false) between → code = 503%Z) ∧
    (∀ before silent, watched evs = before ++ silent →
       Forall (λ e, is_quiet e = true) silent → limit ≤ timeouts silent → code ≠ 200%Z).
Proof.
  intros Hl Hm Hc. unfold start_healthcheck in *. rewrite foldl_app. cbn [foldl start_healthcheck_step h_server].
  rewrite health_watchdog. unfold serve_healthcheck, locked. cbn [server_step]. rewrite Hc.
  exists (StatusCode_of (watchdog_state (run_healthcheck limit (watched evs) Watchdog_new))). split.
  { simpl. rewrite lookup_insert_eq. unfold healthcheck_status. by rewrite bool_decide_eq_true_2. }
  split_and!.
  - apply status_always_current.
  - intros before between -> Hb. by apply stuck_scheduler_detected.
  - intros before silent -> Hq Hn. by apply missing_signals_detected.
Qed.

(** ** Witnesses *)

Section http_witnesses.

Definition hz_run : list HealthEvent :=
  [Asked (Accepted 0); Watched (Signal SchedulerLoopOk); Asked (Requested 0 () ("GET", "/healthz"));
   Watched Tick; Asked AcceptError; Watched (Signal (SchedulerMempoolLen 0)); Watched Tick].

Lemma hz_open : connections (h_server (start_healthcheck GRACEFULL_SIGNAL_COUNTER_LIMIT hz_run)) !! 0 = Some [200%Z].
Proof. by_evaluation. Qed.

Example healthz_spec_witness :
  ∃ code, connections (h_server (start_healthcheck GRACEFULL_SIGNAL_COUNTER_LIMIT
              (hz_run ++ [Asked (Requested 0 () ("GET", "/healthz"))]))) !! 0 = Some ([200%Z] ++ [code]) ∧
    (let s := scheduler_state (run_healthcheck GRACEFULL_SIGNAL_COUNTER_LIMIT (watched hz_run) Watchdog_new) in
     code = (if negb (scheduler_alive s && scheduler_mempool_empty s) then 503
             else if scheduler_signal_valid s then 200 else 204)%Z) ∧
    (∀ before between, watched hz_run = before ++ [Tick] ++ between ++ [Tick] →
       Forall (λ e, is_loop_ok e = false) between → code = 503%Z) ∧
    (∀ before silent, watched hz_run = before ++ silent →
       Forall (λ e, is_quiet e = true) silent → GRACEFULL_SIGNAL_COUNTER_LIMIT ≤ timeouts silent → code ≠ 200%Z).
Proof.
  refine (healthz_spec GRACEFULL_SIGNAL_COUNTER_LIMIT hz_run 0 "GET" [200%Z] _ (or_introl eq_refl) hz_open).
  unfold GRACEFULL_SIGNAL_COUNTER_LIMIT. lia.
Defined.

(** A request that makes the handler panic takes its own connection down, not the server. *)
Example panic_is_isolated :
  let root : fs := {[path_resolve "/data/f" := ["x"%char]]} in
  let s := serve_files "/data" [Accepted 1; Accepted 2; Requested 1 root ""; Requested 2 root "/f"] in
  connections s !! 1 = None ∧ connections s !! 2 = Some [Served ["x"%char]].
Proof. split; by vm_compute. Qed.
End http_witnesses.
