(* ===== verification/Cli.v ===== *)
(** * Command line client ([crates/cli/src])

    How the client turns files and JSON task descriptions into deployment and run
    transactions, serves the local files to the nodes ([file.rs], [server.rs]), and
    checks that the node stored the transaction ([lib.rs]).  The file system, the
    address of the local server, [blake3], url parsing, the JSON parser and the RPC
    client are arguments. *)

From S2P Require Import Prelude Types Models Files Transaction.

(** ** The JSON description of a run ([lib.rs]) *)

Module JsonProgramData.
Inductive t :=
  | Input (local_path vm_path : string) (file_url : option string)
  | Output (source_program file_name : string).
End JsonProgramData.

Record JsonCmdArgs := MkJsonCmdArgs { ja_name : string; ja_value : string }.
Record JsonExecArgs := MkJsonExecArgs {
  je_program : string; je_cmd_args : list JsonCmdArgs; je_inputs : list JsonProgramData.t
}.

(** ** Files to download ([file.rs]) *)

Record FileData := MkFileData { fd_filename : string; fd_url : string; fd_checksum : Hash }.

Section cli.
Context `{Hex, Secp, Sha3, NumBigint, Bincode}.
Context (blake3 : list u8 → Hash).
(** The last path segment of a url, when it parses and has one. *)
Context (url_last_segment : string → result string (option string)).

Definition ProgramMetadata_of_FileData (data : FileData) : ProgramMetadata :=
  update_hash (MkProgramMetadata (fd_filename data) Hash_default (fd_filename data) (fd_url data)
    (Hash_to_string (fd_checksum data)) None).

Definition extract_hash_from_file_content (root : fs) (path : string) : option Hash :=
  blake3 <$> root !! path_resolve path.

Definition calculate_file_url_digest (file_path listen_addr : string) : string * string :=
  let digest := hex_encode (vec_to_list (sha3_256 (as_bytes file_path))) in
  ("http://" +:+ listen_addr +:+ "/" +:+ digest, digest).

Definition verify_file_path (root : fs) (file_path : string) : option string :=
  if try_exists root file_path then Some file_path else None.

(** The loop of [prepare_files_download]: the address of the server once it is
    started, the files it serves by digest, and the file data so far. *)
Record Prepared := MkPrepared {
  listen_addr : option string;
  server_data : gmap string string;
  file_data : list FileData
}.

Definition prepare_file (root : fs) (start_server : result string string) (p : Prepared)
    (input : string * option string) : result string Prepared :=
  let '(file_or_hash, url) := input in
  match verify_file_path root file_or_hash with
  | Some path =>
      addr ← match listen_addr p with Some addr => Ok addr | None => start_server end;
      let '(url, url_hash) := calculate_file_url_digest path addr in
      '(filename, checksum) ← ok_or
          (file_hash ← extract_hash_from_file_content root path;
           name ← file_name path; Some (name, file_hash))
          "Can't extract hash from file path";
      Ok (MkPrepared (Some addr) (<[url_hash := path]> (server_data p))
            (file_data p ++ [MkFileData filename url checksum]))
  | None =>
      bytes ← map_err (λ err, "error during Hash decoding:" +:+ err) (hex_decode file_or_hash);
      hash ← ok_or (MkHash <$> array_of_list HASH_SIZE bytes) "error Hash binary vec into array conv";
      file_url ← ok_or url ("File url not provided with Hash:" +:+ file_or_hash);
      segment ← url_last_segment file_url;
      Ok (MkPrepared (listen_addr p) (server_data p)
            (file_data p ++ [MkFileData (default file_or_hash segment) file_url hash]))
  end.

Fixpoint prepare_loop (root : fs) (start_server : result string string) (p : Prepared)
    (inputs : list (string * option string)) : result string Prepared :=
  match inputs with
  | [] => Ok p
  | input :: rest => p ← prepare_file root start_server p input; prepare_loop root start_server p rest
  end.

Definition prepare_files_download (root : fs) (start_server : result string string)
    (inputs : list (string * option string)) : result string Prepared :=
  prepare_loop root start_server (MkPrepared None ∅ []) inputs.

(** ** The local server ([server.rs]) *)

Inductive CliResponse := CliServed (content : list u8) | CliNotFound | CliInternalError.

Definition cli_process_file (root : fs) (files : gmap string string) (uri_path : string)
    : result string CliResponse :=
  match uri_path with
  | EmptyString => Panic
  | String _ file_digest =>
      match files !! file_digest with
      | None => Ok CliNotFound
      | Some file_path =>
          match root !! path_resolve file_path with
          | Some content => Ok (CliServed content)
          | None => Ok CliInternalError
          end
      end
  end.

(** ** Commands ([lib.rs]) *)

Definition get_file_data_from_json (d : JsonProgramData.t) : option (string * option string) :=
  match d with
  | JsonProgramData.Input local_path _ file_url => Some (local_path, file_url)
  | _ => None
  end.

(** [hex::decode(s)?] and [Hash::from(&\[u8\])], which panics on a wrong length. *)
Definition hash_of_hex (s : string) : result string Hash :=
  bytes ← hex_decode s; Hash_from_slice bytes.

(** The closure over the inputs of one step; [counter] counts the input files. *)
Fixpoint build_inputs (file_data : list FileData) (counter : nat) (inputs : list JsonProgramData.t)
    : result string (list ProgramData.t * nat) :=
  match inputs with
  | [] => Ok ([], counter)
  | JsonProgramData.Input _ vm_path _ :: rest =>
      d ← index file_data counter;
      '(l, counter) ← build_inputs file_data (S counter) rest;
      Ok (ProgramData.Input vm_path (fd_url d) (Hash_to_string (fd_checksum d)) :: l, counter)
  | JsonProgramData.Output source_program file_name :: rest =>
      h ← hash_of_hex source_program;
      '(l, counter) ← build_inputs file_data counter rest;
      Ok (ProgramData.Output h file_name :: l, counter)
  end.

Definition build_args (l : list JsonCmdArgs) : list string :=
  filter (λ x, x ≠ "") (l ≫= λ a, [ja_name a; ja_value a]).

Fixpoint build_steps (file_data : list FileData) (counter : nat) (json_args : list JsonExecArgs)
    : result string (list WorkflowStep) :=
  match json_args with
  | [] => Ok []
  | args :: rest =>
      '(inputs, counter) ← build_inputs file_data counter (je_inputs args);
      program ← map_err (λ err, "program decoding hash error:" +:+ err) (hash_of_hex (je_program args));
      steps ← build_steps file_data counter rest;
      Ok (MkWorkflowStep program (build_args (je_cmd_args args)) inputs :: steps)
  end.

(** [send_transaction]: sent, then read back by hash. *)
Definition send_transaction (rpc_send : Transaction Created → result string ())
    (rpc_get_hash : Hash → result string string) (tx : Transaction Created) : result string Hash :=
  _ ← map_err (λ err, "Error during send  transaction to the node:" +:+ err) (rpc_send tx);
  read_hash ← map_err (λ err, "Error during send  get_transaction from the node:" +:+ err)
                (rpc_get_hash (hash tx));
  if bool_decide (Hash_to_string (hash tx) = read_hash) then Ok (hash tx)
  else Err "Error get_transaction doesn't return the right tx".

Definition run_exec_command (root : fs) (start_server : result string string)
    (key : result string SecretKey) (json_tasks : result string (list JsonExecArgs))
    (rpc_send : Transaction Created → result string ()) (rpc_get_hash : Hash → result string string)
    : result string string :=
  key ← map_err (λ err, "Error during key file reading:" +:+ err) key;
  json_args ← map_err (λ err, "Json decoding error :" +:+ err) json_tasks;
  prepared ← prepare_files_download root start_server
               (omap get_file_data_from_json (json_args ≫= je_inputs));
  steps ← build_steps (file_data prepared) 0 json_args;
  tx ← Transaction_new (Payload.Run (MkWorkflow steps)) key;
  tx_hash ← send_transaction rpc_send rpc_get_hash tx;
  Ok (Hash_to_string tx_hash).

(** The metadata of one program of a deployment. *)
Definition deploy_metadata (data : FileData) (name : option string) (reqs : option ResourceRequest)
    : ProgramMetadata :=
  let m := ProgramMetadata_of_FileData data in
  update_hash (MkProgramMetadata (default (pm_name m) name) (pm_hash m) (pm_image_file_name m)
    (pm_image_file_url m) (pm_image_file_checksum m) reqs).

Definition run_deploy_command (root : fs) (start_server : result string string)
    (key : result string SecretKey) (name prover verifier : string)
    (prover_name verifier_name prover_img_url verifier_img_url : option string)
    (prover_reqs verifier_reqs : option ResourceRequest)
    (rpc_send : Transaction Created → result string ()) (rpc_get_hash : Hash → result string string)
    : result string (string * string * string) :=
  key ← map_err (λ err, "Error during key file reading:" +:+ err) key;
  prepared ← prepare_files_download root start_server
               [(prover, prover_img_url); (verifier, verifier_img_url)];
  prover_data ← index (file_data prepared) 0;
  verifier_data ← index (file_data prepared) 1;
  let prover_prg_data := deploy_metadata prover_data prover_name prover_reqs in
  let verifier_prg_data := deploy_metadata verifier_data verifier_name verifier_reqs in
  tx ← Transaction_new (Payload.Deploy name prover_prg_data verifier_prg_data) key;
  tx_hash ← send_transaction rpc_send rpc_get_hash tx;
  Ok (Hash_to_string tx_hash, Hash_to_string (pm_hash prover_prg_data),
      Hash_to_string (pm_hash verifier_prg_data)).

(** ** Key files ([keyfile.rs]) *)

(** [key] is the random key, [bytes] its serialisation. *)
Definition create_key_file (file_path : string) (key : SecretKey) (bytes : list u8)
    : M fs string PublicKey := λ root,
  if try_exists root file_path then (Err "Key file already exist. Can't erase it.", root)
  else (Ok (from_secret_key key), <[path_resolve file_path := bytes]> root).
Definition read_key_file (parse : list u8 → result string SecretKey) (root : fs) (file_path : string)
    : result string SecretKey :=
  key_array ← ok_or (root !! path_resolve file_path) "No such file or directory";
  parse key_array.

(** ** What the client describes is what it serves *)

(** Different served paths have different digests. *)
Definition no_collision (paths : list string) : Prop := ∀ p q, p ∈ paths → q ∈ paths →
  hex_encode (vec_to_list (sha3_256 (as_bytes p))) = hex_encode (vec_to_list (sha3_256 (as_bytes q))) → p = q.

(** The file data of an input: of a local file, its url at the local server; of a
    remote file, the url and hash it was given with. *)
Definition describes (root : fs) (p : Prepared) (input : string * option string) (d : FileData) : Prop :=
  match verify_file_path root (fst input) with
  | Some path => ∃ addr content,
      listen_addr p = Some addr ∧ fd_url d = fst (calculate_file_url_digest path addr) ∧
      server_data p !! snd (calculate_file_url_digest path addr) = Some path ∧
      root !! path_resolve path = Some content ∧ fd_checksum d = blake3 content
  | None => snd input = Some (fd_url d) ∧ hash_of_hex (fst input) = Ok (fd_checksum d)
  end.

(** Preparing one more file keeps what the earlier ones were promised. *)
Definition extends (paths : list string) (p p' : Prepared) : Prop :=
  (∀ a, listen_addr p = Some a → listen_addr p' = Some a) ∧
  (∀ path a, path ∈ paths → let d := snd (calculate_file_url_digest path a) in
     server_data p !! d = Some path → server_data p' !! d = Some path).

Lemma extends_trans paths p1 p2 p3 : extends paths p1 p2 → extends paths p2 p3 → extends paths p1 p3.
Proof. intros [A B] [A' B']. split; [auto|]. intros path a Hin d Hd. apply B'; [done|]. by apply B. Qed.

Lemma verify_file_path_Some root f path : verify_file_path root f = Some path → path = f.
Proof. unfold verify_file_path. destruct (try_exists root f); [by intros [= <-]|done]. Qed.

Lemma describes_extends paths root p p' input d :
  fst input ∈ paths → extends paths p p' → describes root p input d → describes root p' input d.
Proof.
  intros Hin [A B]. unfold describes.
  destruct (verify_file_path root (fst input)) as [path|] eqn:Hv; [|done].
  apply verify_file_path_Some in Hv as ->.
  intros (addr & content & D1 & D2 & D3 & D4 & D5). exists addr, content.
  split_and!; [by apply A|done|by apply (B (fst input) addr)|done|done].
Qed.

Lemma prepare_file_ok paths root start p input p' :
  no_collision paths → fst input ∈ paths → prepare_file root start p input = Ok p' →
  extends paths p p' ∧ ∃ d, file_data p' = file_data p ++ [d] ∧ describes root p' input d.
Proof.
  intros Hinj. unfold prepare_file, describes. destruct input as [f url]. cbn [fst snd]. intros Hf.
  destruct (verify_file_path root f) as [path|] eqn:Hv.
  - apply verify_file_path_Some in Hv as ->. intros (addr & Haddr & Hrest)%result_bind_Ok.
    destruct (calculate_file_url_digest f addr) as [u dg] eqn:Hd.
    apply result_bind_Ok in Hrest as ([fname ck] & Hck & Hp). injection Hp as <-.
    unfold extract_hash_from_file_content in Hck.
    destruct (root !! path_resolve f) as [content|] eqn:Hc; [|done]. simpl in Hck.
    destruct (file_name f) as [nm|]; [|done]. injection Hck as <- <-. split; [split|].
    + intros a Ha. rewrite Ha in Haddr. by injection Haddr as ->.
    + intros path' a Hin d' Hs. simpl. destruct (decide (d' = dg)) as [Heq|Hne].
      * rewrite Heq, lookup_insert_eq. f_equal. apply Hinj; [done|done|].
        unfold calculate_file_url_digest in Hd, d'. injection Hd as _ Hdg. simpl in d'.
        subst d'. by rewrite Heq, Hdg.
      * by rewrite lookup_insert_ne.
    + eexists. split; [done|]. exists addr, content.
      cbn [listen_addr server_data fd_url fd_checksum]. rewrite Hd. cbn [fst snd].
      split_and!; [done|done|apply lookup_insert_eq|done|done].
  - intros (bytes & Hb & (h & Hh & (fu & Hu & (seg & _ & Hp)%result_bind_Ok)%result_bind_Ok)%result_bind_Ok)%result_bind_Ok.
    injection Hp as <-. split; [by split|]. eexists. split; [done|]. simpl. split.
    + destruct url; [by injection Hu as ->|done].
    + unfold hash_of_hex. destruct (hex_decode f) as [bs| |]; [|done..]. injection Hb as ->. simpl.
      unfold Hash_from_slice. destruct (array_of_list HASH_SIZE bytes); [|done]. by injection Hh as <-.
Qed.

Lemma prepare_loop_ok paths root start inputs p p' :
  no_collision paths → (∀ i, i ∈ inputs → fst i ∈ paths) → prepare_loop root start p inputs = Ok p' →
  extends paths p p' ∧ ∃ ds, file_data p' = file_data p ++ ds ∧ Forall2 (describes root p') inputs ds.
Proof.
  intros Hinj. revert p. induction inputs as [|i inputs IH]; intros p Hin; cbn [prepare_loop].
  - intros [= <-]. split; [by split|]. exists []. rewrite app_nil_r. by split.
  - intros (p1 & Hp1 & Hp2)%result_bind_Ok.
    apply (prepare_file_ok paths) in Hp1 as (E1 & d & Hd & Hdesc); [|done|apply Hin; by left].
    apply IH in Hp2 as (E2 & ds & Hds & Hall); [|intros j Hj; apply Hin; by right].
    split; [by eapply extends_trans|].
    exists (d :: ds). rewrite Hds, Hd, <-app_assoc. split; [done|]. constructor; [|done].
    eapply describes_extends; [apply Hin; by left|exact E2|exact Hdesc].
Qed.

(** The input files of a list of steps, in order. *)
Definition is_input (d : ProgramData.t) : bool :=
  match d with ProgramData.Input _ _ _ => true | _ => false end.
Definition input_files (l : list ProgramData.t) : list ProgramData.t := filter (λ d, is_input d = true) l.
Definition vm_path_of (d : JsonProgramData.t) : option string :=
  match d with JsonProgramData.Input _ vm _ => Some vm | _ => None end.
Definition input_of (vm_path : string) (d : FileData) : ProgramData.t :=
  ProgramData.Input vm_path (fd_url d) (Hash_to_string (fd_checksum d)).

Lemma build_inputs_ok fd n inputs l n' :
  build_inputs fd n inputs = Ok (l, n') →
  n' = n + length (omap vm_path_of inputs) ∧
  input_files l = zip_with input_of (omap vm_path_of inputs) (drop n fd).
Proof.
  revert n l. induction inputs as [|[lp vm u|sp fn] inputs IH]; intros n l; cbn [build_inputs].
  - intros [= <- <-]. split; [simpl; lia|done].
  - intros (d & Hd & ([l1 n1] & Hl & Hr)%result_bind_Ok)%result_bind_Ok. injection Hr as <- <-.
    apply IH in Hl as [-> Hl]. cbn [omap list_omap vm_path_of length]. split; [simpl; lia|].
    unfold index, unwrap in Hd. destruct (fd !! n) as [d'|] eqn:Hn; [|done]. injection Hd as ->.
    unfold input_files. rewrite filter_cons_True by done. fold (input_files l1). rewrite Hl.
    by rewrite (drop_S fd d n Hn).
  - intros (h & _ & ([l1 n1] & Hl & Hr)%result_bind_Ok)%result_bind_Ok. injection Hr as <- <-.
    apply IH in Hl as [-> Hl]. split; [done|].
    unfold input_files. by rewrite filter_cons_False.
Qed.

Lemma build_steps_ok fd n json steps :
  build_steps fd n json = Ok steps →
  input_files (steps ≫= ws_inputs) = zip_with input_of (omap vm_path_of (json ≫= je_inputs)) (drop n fd) ∧
  Forall2 (λ s j, hash_of_hex (je_program j) = Ok (ws_program s) ∧
                  ws_args s = build_args (je_cmd_args j)) steps json.
Proof.
  revert n steps. induction json as [|j json IH]; intros n steps; cbn [build_steps].
  - intros [= <-]. by split.
  - intros ([l n1] & Hl & (pr & Hpr & (ss & Hss & Hs)%result_bind_Ok)%result_bind_Ok)%result_bind_Ok.
    injection Hs as <-. apply build_inputs_ok in Hl as [-> Hl]. apply IH in Hss as [Hin Hall].
    split.
    + rewrite !bind_cons. cbn [ws_inputs]. unfold input_files in *. rewrite filter_app, Hl, Hin.
      rewrite omap_app. rewrite <-drop_drop. symmetry.
      rewrite zip_with_app_l, zip_with_take_r by done. done.
    + constructor; [|done]. split; [|done]. unfold hash_of_hex in *. cbn [ws_program].
      destruct (hex_decode (je_program j) ≫= Hash_from_slice); [by injection Hpr as ->|done..].
Qed.

(** A described local file is served under its url, with the described checksum. *)
Lemma described_file_served root p input d path :
  describes root p input d → verify_file_path root (fst input) = Some path →
  ∃ addr content, fd_url d = fst (calculate_file_url_digest path addr) ∧
    cli_process_file root (server_data p) (String slash (snd (calculate_file_url_digest path addr)))
      = Ok (CliServed content) ∧ blake3 content = fd_checksum d.
Proof.
  unfold describes. intros Hd Hv. rewrite Hv in Hd. destruct Hd as (addr & content & A1 & A2 & A3 & A4 & A5).
  exists addr, content. split_and!; [done| |done]. unfold cli_process_file. by rewrite A3, A4.
Qed.

Lemma transaction_new_payload {E} p sk tx : Transaction_new (E:=E) p sk = Ok tx → payload tx = p.
Proof. unfold Transaction_new, sign. intros (h & _ & Htx)%result_bind_Ok. by injection Htx as <-. Qed.

(** C37: When [exec] succeeds, the transaction that was sent is a run whose steps have
    the programs and the non-empty arguments of the JSON description, in order, and
    whose input files are those of the description, in order: each with its path in
    the VM and, for a local file, the url at which the client serves exactly the
    content with the checksum in the transaction, for a remote one, the url and the
    hash given.  (Different local paths are assumed to have different digests.) *)
Theorem run_exec_command_spec root start key json rpc_send rpc_get out :
  no_collision (omap get_file_data_from_json (json ≫= je_inputs)).*1 →
  run_exec_command root start key (Ok json) rpc_send rpc_get = Ok out →
  ∃ tx steps p,
    payload tx = Payload.Run (MkWorkflow steps) ∧ rpc_send tx = Ok () ∧ out = Hash_to_string (hash tx) ∧
    Forall2 (λ s j, hash_of_hex (je_program j) = Ok (ws_program s) ∧
                    ws_args s = build_args (je_cmd_args j)) steps json ∧
    input_files (steps ≫= ws_inputs) =
      zip_with input_of (omap vm_path_of (json ≫= je_inputs)) (file_data p) ∧
    Forall2 (describes root p) (omap get_file_data_from_json (json ≫= je_inputs)) (file_data p) ∧
    (∀ input d path, describes root p input d → verify_file_path root (fst input) = Some path →
       ∃ addr content, fd_url d = fst (calculate_file_url_digest path addr) ∧
         cli_process_file root (server_data p)
           (String slash (snd (calculate_file_url_digest path addr))) = Ok (CliServed content) ∧
         blake3 content = fd_checksum d).
Proof.
  intros Hinj. unfold run_exec_command.
  intros (k & _ & (json' & Hjson & (p & Hp & (steps & Hsteps & (tx & Htx & (h & Hsend & Hout)%result_bind_Ok)%result_bind_Ok)%result_bind_Ok)%result_bind_Ok)%result_bind_Ok)%result_bind_Ok.
  injection Hjson as <-. injection Hout as <-.
  apply (prepare_loop_ok (omap get_file_data_from_json (json ≫= je_inputs)).*1) in Hp
    as (_ & ds & Hds & Hall); [|done|intros i Hi; by apply list_elem_of_fmap_2].
  simpl in Hds. apply build_steps_ok in Hsteps as [Hin Hprog]. rewrite drop_0 in Hin.
  exists tx, steps, p. unfold send_transaction in Hsend.
  apply result_bind_Ok in Hsend as (u & Hu & (rh & _ & Hh)%result_bind_Ok).
  destruct (bool_decide _); [|done]. injection Hh as <-.
  split_and!; [by eapply transaction_new_payload| |done|done|done|by rewrite Hds|by apply described_file_served].
  destruct (rpc_send tx) as [[]| |]; done.
Qed.
End cli.

(** ** Witness *)

Section cli_witnesses.
#[local] Existing Instances hex_crate secp_toy sha3_toy bigint_toy bincode_toy.

Definition cli_blake3 (bs : list u8) : Hash := fill (default "0"%char (head bs)).
Definition cli_root : fs := {[path_resolve "/in" := ["i"%char]]}.
Definition cli_json : list JsonExecArgs :=
  [MkJsonExecArgs (Hash_to_string (fill "p")) [MkJsonCmdArgs "--n" "3"]
     [JsonProgramData.Input "/in" "/workspace/in" None];
   MkJsonExecArgs (Hash_to_string (fill "v")) []
     [JsonProgramData.Output (Hash_to_string (fill "p")) "/workspace/out"]].
Definition cli_out : result string string :=
  run_exec_command cli_blake3 (λ _, Ok None) cli_root (Ok "h:8080") (Ok (toy_key "k")) (Ok cli_json)
    (λ _, Ok ()) (λ h, Ok (Hash_to_string h)).

Lemma cli_out_Ok : ∃ out, cli_out = Ok out.
Proof.
  assert (is_ok cli_out = true) as Hok by by_evaluation.
  destruct cli_out as [out| |]; [by eexists|done..].
Qed.

Lemma cli_no_collision : no_collision (omap get_file_data_from_json (cli_json ≫= je_inputs)).*1.
Proof.
  intros p q Hp Hq _. change (p ∈ ["/in"]) in Hp. change (q ∈ ["/in"]) in Hq.
  apply list_elem_of_singleton in Hp as ->. by apply list_elem_of_singleton in Hq as ->.
Qed.

Example run_exec_command_spec_witness :
  ∃ (tx : Transaction Created) steps,
    payload tx = Payload.Run (MkWorkflow steps) ∧
    Forall2 (λ s j, hash_of_hex (je_program j) = Ok (ws_program s) ∧
                    ws_args s = build_args (je_cmd_args j)) steps cli_json.
Proof.
  destruct cli_out_Ok as [out Hout].
  destruct (run_exec_command_spec cli_blake3 (λ _, Ok None) cli_root (Ok "h:8080") (Ok (toy_key "k"))
    cli_json (λ _, Ok ()) (λ h, Ok (Hash_to_string h)) out cli_no_collision Hout)
    as (tx & steps & p & Hpay & _ & _ & Hsteps & _).
  exists tx, steps. split; [exact Hpay|exact Hsteps].
Defined.
End cli_witnesses.
