(* ===== verification/Shim.v ===== *)
(** * The shim inside a VM ([crates/shim/src/lib.rs])

    The library a prover or verifier links: it waits for its workspace, asks the node
    for a task, runs the program's callback and hands in the result until the node
    says stop.  The gRPC service is a record of operations on the server's state; the
    node's own service ([VmServer]) is one instance of it. *)

From S2P Require Import Prelude Types Models Files Transaction Event Mempool Workflow Watchdog Resources Scheduler Vmm VmServer.

(** ** Waiting for the workspace *)

Definition MOUNT_TIMEOUT : Z := 30.
Definition WORKSPACE_PATH : string := "/workspace".

(** [str::contains] *)
Fixpoint contains (pat s : string) : bool :=
  String.prefix pat s ||
  match s with EmptyString => false | String _ s' => contains pat s' end.

(** The lines of [/proc/mounts]; reading it can fail. *)
Definition mount_present (mounts : result string (list string)) (mount_point : string)
    : result string bool :=
  lines ← mounts; Ok (existsb (contains mount_point) lines).

(** The loop of [GRPCClient::new]; the i-th turn finds [elapsed i] seconds passed and
    the mount table [mounts i], then sleeps for a second. *)
Fixpoint wait_mount (fuel i : nat) (elapsed : nat → Z) (mounts : nat → result string (list string))
    (workspace : string) : option (result string ()) :=
  match fuel with
  | 0 => None
  | S fuel =>
      if (MOUNT_TIMEOUT <? elapsed i)%Z then Some Panic
      else match mount_present (mounts i) workspace with
           | Ok true => Some (Ok ())
           | Ok false => wait_mount fuel (S i) elapsed mounts workspace
           | Err e => Some (Err e)
           | Panic => Some Panic
           end
  end.

(** ** Tasks and results *)

Record ShimTask := MkShimTask { st_id : string; st_args : list string; st_files : list string }.
Record ShimResult := MkShimResult { sr_id : string; sr_data : list u8; sr_files : list string }.

(** [Task::result] *)
Definition task_result (t : ShimTask) (data : list u8) (files : list string) : result string ShimResult :=
  Ok (MkShimResult (st_id t) data files).
Definition get_task_files_path (t : ShimTask) (workspace : string) : list (string * string) :=
  (λ name, (name, path_push workspace name)) <$> st_files t.

(** The gRPC service, on the state [St] of the server. *)
Record VmService (St : Type) := MkVmService {
  service_get_task : M St string (option TaskResponse);
  service_submit_result : TaskResultRequest → M St string TaskResultResponse
}.
Global Arguments MkVmService {St} _ _.
Global Arguments service_get_task {St} _.
Global Arguments service_submit_result {St} _ _.

(** [TaskError::Failed] *)
Definition TASK_FAILED : Z := 1.

Section shim.
Context {St : Type} (service : VmService St).
Context (blake3 : list u8 → list u8).
(** The files the program wrote. *)
Context (root : fs).

Definition shim_get_task : M St string (option ShimTask) :=
  response ← service_get_task service;
  match response with
  | Some (ResponseTask task) => mret (Some (MkShimTask (gt_tx_hash task) (gt_args task) (gt_files task)))
  | Some ResponseUnavailable => throw "get_task() resulted with error code 0"
  | None => mret None
  end.

Definition submit_file (file_path : string) : result string (list u8) :=
  content ← ok_or (root !! path_resolve file_path) ("No such file or directory for file:" +:+ file_path);
  Ok (blake3 content).

(** The request for a callback's result: its files with their checksums, or a failure
    of the task when the callback or a file fails. *)
Definition result_request (task_id : string) (res : result string ShimResult)
    : result string TaskResultRequest :=
  match (r ← res;
         files ← collect_results (λ f, c ← submit_file f; Ok (f, c)) (sr_files r);
         Ok (MkTaskResultRequest (sr_id r) (Some (TaskOk (sr_data r) files)))) with
  | Err _ => Ok (MkTaskResultRequest task_id (Some (TaskErr TASK_FAILED)))
  | r => r
  end.

Definition shim_submit_result (task_id : string) (res : result string ShimResult) : M St string bool :=
  request ← lift (result_request task_id res);
  response ← service_submit_result service request;
  mret (continue response).

(** [run]; [None] is a loop that needs more turns. *)
Fixpoint shim_run (fuel : nat) (callback : ShimTask → result string ShimResult)
    : M St string (option ()) :=
  match fuel with
  | 0 => mret None
  | S fuel =>
      o ← shim_get_task;
      match o with
      | None => shim_run fuel callback
      | Some task =>
          should_continue ← shim_submit_result (st_id task) (callback task);
          match should_continue with true => shim_run fuel callback | false => mret (Some ()) end
      end
  end.
End shim.

(** ** The shim waits at most half a minute *)

Lemma wait_mount_ends_aux elapsed mounts workspace fuel i :
  (∀ i, Z.of_nat i ≤ elapsed i)%Z → 32 ≤ fuel + i →
  is_Some (wait_mount fuel i elapsed mounts workspace) ∨ 32 ≤ i ∧ fuel = 0.
Proof.
  intros He. revert i. induction fuel as [|fuel IH]; intros i Hf; [right; lia|]. left.
  cbn [wait_mount]. destruct (Z.ltb_spec MOUNT_TIMEOUT (elapsed i)) as [Hlt|Hge]; [by eexists|].
  specialize (He i). unfold MOUNT_TIMEOUT in Hge.
  destruct (mount_present (mounts i) workspace) as [[]| |]; [by eexists| |by eexists..].
  destruct (IH (S i)) as [?|[? ->]]; [lia|done|lia].
Qed.

(** Waiting for the workspace ends within 32 turns, when each turn takes a second. *)
Lemma wait_mount_ends elapsed mounts workspace :
  (∀ i, Z.of_nat i ≤ elapsed i)%Z → is_Some (wait_mount 32 0 elapsed mounts workspace).
Proof. intros He. destruct (wait_mount_ends_aux elapsed mounts workspace 32 0 He) as [?|[? ?]]; [lia|done|lia]. Qed.

(** ** The shim and the node *)

Section composition.
Context `{HexLaws, Secp, Sha3, NumBigint, Bincode}.
Context {P D : Type} (provider : Provider P) (tx_store : TransactionStore D).
Context (blake3 : list u8 → list u8) (root : fs).
Context (key : SecretKey) (dir data_dir host : string) (now : Z) (id : CallbackId).
Context (answer : result MempoolError.t ()).

(** A gRPC status reaches the client as an error. *)
Definition grpc_call {A} (m : M (World (P:=P) (D:=D)) Status A) : M (World (P:=P) (D:=D)) string A :=
  λ w, match m w with
       | (Ok r, w') => (Ok r, w')
       | (Err UnknownVm, w') => (Err "unknown VM address", w')
       | (Panic, w') => (Panic, w')
       end.

(** The node's service for the VM with address [conn]. *)
Definition node_service (conn : option (option Z)) (q : Qemu) : VmService (World (P:=P) (D:=D)) :=
  MkVmService
    (r ← grpc_call (get_task provider now conn q); mret (Some r))
    (λ req, grpc_call (server_submit_result provider tx_store key dir data_dir host id answer conn q req)).

(** What the node keeps of a task that a VM took and answered with [res]. *)
Definition task_done (tx program : Hash) (res : TaskResult) (w : World (P:=P) (D:=D)) : World (P:=P) (D:=D) :=
  let w' := snd (submit_result provider tx_store key dir host id answer tx program res w) in
  MkWorld (w_state w') (w_mempool w')
    (remove_dir_all (workspace_dir data_dir tx) (w_fs w')) (w_signals w') (w_channel w').

(** The task as the program in the VM sees it. *)
Definition shim_task (task : Task) : ShimTask :=
  MkShimTask (Hash_to_string (task_tx task)) (task_args task) (vm_file_path <$> task_files task).

(** The result the scheduler gets for a callback's outcome. *)
Definition callback_result (res : result string ShimResult) : TaskResult :=
  match res with
  | Ok r => match collect_results (λ f, c ← submit_file blake3 root f; Ok (f, c)) (sr_files r) with
            | Ok files => TaskOk (sr_data r) files
            | _ => TaskErr TASK_FAILED
            end
  | _ => TaskErr TASK_FAILED
  end.

Lemma submit_file_no_panic f : submit_file blake3 root f ≠ Panic.
Proof. unfold submit_file. by destruct (root !! path_resolve f). Qed.

Lemma result_request_callback (t : ShimTask) (res : result string ShimResult) :
  res ≠ Panic → (∀ r, res = Ok r → sr_id r = st_id t) →
  result_request blake3 root (st_id t) res
    = Ok (MkTaskResultRequest (st_id t) (Some (callback_result res))).
Proof.
  intros Hp Hid. unfold result_request, callback_result. destruct res as [r|e|]; [|done..].
  cbn [mbind result_bind]. rewrite (Hid r eq_refl).
  destruct (collect_results _ (sr_files r)) as [files|e|] eqn:E; [done..|]. exfalso.
  revert E. apply collect_results_no_panic. intros f _. pose proof (submit_file_no_panic f).
  by destruct (submit_file blake3 root f).
Qed.

(** The two requests of a session, at the node. *)
Lemma get_task_hands conn q tx program c task st (w : World (P:=P) (D:=D)) :
  identify conn q = Ok (tx, program, c) →
  get_pending_task provider now tx (w_state w) = (Ok (Some task), st) →
  get_task provider now conn q w
    = (Ok (ResponseTask (grpc_of_task task)),
       MkWorld st (w_mempool w) (w_fs w) (w_signals w) (w_channel w)).
Proof.
  intros Hid Hp. unfold get_task, mbind, M_bind, lift, attempt, on_state. by rewrite Hid, Hp.
Qed.

Lemma shim_get_task_node conn q tx program c task st (w : World (P:=P) (D:=D)) :
  identify conn q = Ok (tx, program, c) →
  get_pending_task provider now tx (w_state w) = (Ok (Some task), st) →
  shim_get_task (node_service conn q) w
    = (Ok (Some (shim_task task)), MkWorld st (w_mempool w) (w_fs w) (w_signals w) (w_channel w)).
Proof.
  intros Hid Hp. unfold shim_get_task, node_service, grpc_call, mbind, M_bind.
  cbn [service_get_task]. by rewrite (get_task_hands _ _ _ _ _ _ _ _ Hid Hp).
Qed.

Lemma submit_accepted conn q tx program c res (w : World (P:=P) (D:=D)) :
  identify conn q = Ok (tx, program, c) →
  fst (submit_result provider tx_store key dir host id answer tx program res w) ≠ Panic →
  server_submit_result provider tx_store key dir data_dir host id answer conn q
    (MkTaskResultRequest (Hash_to_string tx) (Some res)) w
    = (Ok (MkTaskResultResponse false), task_done tx program res w).
Proof.
  intros Hid Hp. unfold server_submit_result, task_done, mbind, M_bind, lift, modify, attempt.
  rewrite Hid. cbn [req_tx_hash req_result]. rewrite hash_string_back, bool_decide_eq_true_2 by done.
  by destruct (submit_result _ _ _ _ _ _ _ _ _ _ w) as [[] w'].
Qed.

Lemma vm_session_run conn q tx program c task st callback (w : World (P:=P) (D:=D)) fuel :
  identify conn q = Ok (tx, program, c) →
  get_pending_task provider now tx (w_state w) = (Ok (Some task), st) → task_tx task = tx →
  callback (shim_task task) ≠ Panic →
  (∀ r, callback (shim_task task) = Ok r → sr_id r = Hash_to_string tx) →
  let w1 := MkWorld st (w_mempool w) (w_fs w) (w_signals w) (w_channel w) in
  let res := callback_result (callback (shim_task task)) in
  fst (submit_result provider tx_store key dir host id answer tx program res w1) ≠ Panic →
  shim_run (node_service conn q) blake3 root (S fuel) callback w
    = (Ok (Some ()), task_done tx program res w1).
Proof.
  intros Hid Hp Htx Hnp Hsr w1 res Hok. cbn [shim_run]. unfold mbind at 1, M_bind at 1.
  rewrite (shim_get_task_node _ _ _ _ _ _ _ _ Hid Hp). fold w1. cbv iota beta.
  unfold mbind at 1, M_bind at 1. rewrite <- Htx in Hsr.
  unfold shim_submit_result, mbind, M_bind, lift.
  rewrite (result_request_callback (shim_task task) _ Hnp Hsr). cbn [st_id shim_task]. rewrite Htx. fold res.
  unfold node_service, grpc_call. cbn [service_submit_result].
  by rewrite (submit_accepted _ _ _ _ _ _ _ Hid Hok).
Qed.

(** C10: A VM's session with the node.  The program gets the arguments and file names
    of the task queued for the VM's transaction, and whatever its callback answers the
    session ends after this one task: the scheduler is handed the callback's data and
    the checksums of its files for that very transaction, a failed callback or an
    unreadable result file is handed in as a failed task, and the task's workspace is
    removed from the node. *)
Theorem vm_session_spec conn q tx program c task st callback (w : World (P:=P) (D:=D)) fuel :
  identify conn q = Ok (tx, program, c) →
  get_pending_task provider now tx (w_state w) = (Ok (Some task), st) → task_tx task = tx →
  callback (shim_task task) ≠ Panic →
  (∀ r, callback (shim_task task) = Ok r → sr_id r = Hash_to_string tx) →
  let w1 := MkWorld st (w_mempool w) (w_fs w) (w_signals w) (w_channel w) in
  let res := callback_result (callback (shim_task task)) in
  fst (submit_result provider tx_store key dir host id answer tx program res w1) ≠ Panic →
  shim_run (node_service conn q) blake3 root (S fuel) callback w
    = (Ok (Some ()), task_done tx program res w1).
Proof. apply vm_session_run. Qed.
End composition.

(** ** Witnesses *)

Section shim_witnesses.
#[local] Existing Instances hex_crate secp_toy secp_toy_laws sha3_toy bigint_toy bincode_toy.

(** The program writes one file and answers with it; the VM's workspace is empty. *)
Definition shim_callback (t : ShimTask) : result string ShimResult := task_result t [zero] ["/w/out"].
Definition shim_queued : World (P:=Z) (D:=list Hash) := toy_turn 1 toy_world.
Definition shim_taken : SchedulerState Z :=
  snd (get_pending_task toy_provider 5 (fill "r") (w_state shim_queued)).
Definition shim_world : World (P:=Z) (D:=list Hash) :=
  MkWorld shim_taken (w_mempool shim_queued) (w_fs shim_queued) (w_signals shim_queued)
    (w_channel shim_queued).
Definition shim_outcome : TaskResult :=
  callback_result id ∅ (shim_callback (shim_task (toy_task wf_run))).

Lemma shim_outcome_failed : shim_outcome = TaskErr TASK_FAILED.
Proof. by vm_compute. Qed.
Lemma shim_taken_ok :
  get_pending_task toy_provider 5 (fill "r") (w_state shim_queued)
    = (Ok (Some (toy_task wf_run)), shim_taken).
Proof. unfold shim_taken. apply run_snd. by_evaluation. Qed.
Lemma shim_submit_ok :
  fst (submit_result toy_provider toy_tx_store (toy_key "k") "/data" "http://h" 3 (Ok ()) (fill "r")
         (fill "p") shim_outcome shim_world) ≠ Panic.
Proof. by vm_compute. Qed.

Example vm_session_spec_witness :
  shim_run (node_service toy_provider toy_tx_store (toy_key "k") "/data" "/data" "http://h" 5 3 (Ok ())
      srv_conn srv_qemu) id ∅ 1 shim_callback shim_queued
    = (Ok (Some ()), task_done toy_provider toy_tx_store (toy_key "k") "/data" "/data" "http://h" 3
        (Ok ()) (fill "r") (fill "p") shim_outcome shim_world).
Proof.
  exact (vm_session_spec (H0:=hex_crate_laws) toy_provider toy_tx_store id ∅ (toy_key "k") "/data"
    "/data" "http://h" 5 3 (Ok ()) srv_conn srv_qemu (fill "r") (fill "p") 4 (toy_task wf_run) shim_taken
    shim_callback shim_queued 0 srv_identify shim_taken_ok eq_refl ltac:(done)
    ltac:(by intros r [= <-]) shim_submit_ok).
Defined.
End shim_witnesses.
