(* ===== verification/Node.v ===== *)
(** * The node ([crates/node/src/main.rs])

    The parts put together as [run] starts them: the event loop over the database, the
    scheduler with the QEMU provider and the gRPC service, peers, RPC clients, the
    refresh of the whitelist and the operator's commands, as one step relation.  What the
    scheduler does while it holds its lock is one step; the event loop's tasks, the VMs and
    everybody else come in between, in any order. *)

From S2P Require Import Prelude Types Models Files Transaction Event Mempool Workflow Watchdog Resources Scheduler Turns Acl Database Vmm VmServer Protocol P2P.

(** ** The stored state the parts share *)

Section store.
Context `{Hex, Secp, Sha3, NumBigint, Bincode, Lru, UrlParse, Uuid}.
Context {P : Type} (provider : Provider P).
Context (scan : ∀ A : Type, list A → list A).

(** Every task the scheduler holds belongs to a stored transaction. *)
Definition tasks_stored (t : Tables) (st : SchedulerState P) : Prop :=
  (∀ k q x ts, task_queue st !! k = Some q → (x, ts) ∈ q → has_tx t (task_tx x) = true) ∧
  (∀ k rt, running_tasks st !! k = Some rt → has_tx t (task_tx (rt_task rt)) = true).

Definition w_tables (w : World (P:=P) (D:=Tables)) : Tables := storage (w_mempool w).

(** What holds of the database, the mempool's queue, the scheduler and the channel
    between any two operations; [ever] bounds the whitelist, and transactions in [Kept]
    are stored as well. *)
Record store_inv (ever : gset PublicKey) (Kept : Hash → Prop) (Rcv Acc : Transaction Received.t → Prop)
    (w : World (P:=P) (D:=Tables)) : Prop := {
  store_wf : db_wf (w_tables w);
  store_acl : t_acl (w_tables w) ⊆ ever;
  store_queue : Forall (λ tx, has_tx (w_tables w) (hash tx) = true ∧ from_accepted Acc tx)
                  (deque (w_mempool w));
  store_tasks : tasks_stored (w_tables w) (w_state w);
  store_channel : ∀ m, m ∈ ch_queue (w_channel w) → Rcv (fst m);
  store_kept : ∀ h, Kept h → has_tx (w_tables w) h = true
}.

Lemma tasks_stored_grow t t' st :
  (∀ h, has_tx t h = true → has_tx t' h = true) → tasks_stored t st → tasks_stored t' st.
Proof. intros Hg [Hq Hr]. split; eauto. Qed.

(** *** Operations of the scheduler state *)

Lemma tasks_same t (st st' : SchedulerState P) :
  task_queue st' = task_queue st → running_tasks st' = running_tasks st →
  tasks_stored t st → tasks_stored t st'.
Proof. intros Hq Hr [??]. split; rewrite ?Hq, ?Hr; done. Qed.

Lemma tasks_on_pm {E A} t (m : M (ProgramManager P) E A) : keeps (tasks_stored t) (on_pm m).
Proof. intros st Hst. unfold on_pm. by destruct (m _) as [[] pm]; apply (tasks_same t st). Qed.

Lemma tasks_remove_and_stop t tx : keeps (tasks_stored t) (remove_and_stop provider tx).
Proof.
  intros st Hst. destruct (remove_and_stop provider tx st) as [r st'] eqn:Hr.
  apply remove_and_stop_fields in Hr as (_ & Ht & _ & Hq). destruct r; by apply (tasks_same t st).
Qed.

Lemma tasks_reap_zombies t now alive : keeps (tasks_stored t) (reap_zombies provider now alive).
Proof.
  unfold reap_zombies. apply keeps_bind; [apply keeps_get|]. intros st0. apply keeps_bind.
  - apply keeps_for_eachM. intros tx. unfold reap_task.
    apply keeps_bind; [apply keeps_attempt, tasks_remove_and_stop|]. intros _.
    apply keeps_modify. intros st [Hq Hr]. split; [exact Hq|]. intros k rt. simpl.
    intros [_ ?]%lookup_delete_Some. eauto.
  - intros _. apply keeps_bind; [apply keeps_get|]. intros st1. apply keeps_for_eachM. intros tx.
    apply keeps_bind; [apply keeps_attempt, tasks_remove_and_stop|intros _; apply keeps_ret].
Qed.

Lemma tasks_start_pending t db l :
  keeps (tasks_stored t) (start_pending_loop provider db_find_program db l).
Proof.
  induction l as [|[tx p] l IH]; cbn [start_pending_loop]; [apply keeps_ret|].
  apply keeps_bind; [by apply keeps_modify|]. intros _.
  apply keeps_bind; [apply keeps_attempt, tasks_on_pm|].
  intros [h|e|]; (apply keeps_bind; [by apply keeps_modify|intros _]); [exact IH|apply keeps_ret..].
Qed.

Lemma tasks_schedule t now db task :
  has_tx t (task_tx task) = true →
  keeps (tasks_stored t) (schedule_task provider db_find_program now db task).
Proof.
  intros Hin. unfold schedule_task. apply keeps_bind.
  { apply keeps_modify. intros st [Hq Hr]. split; [|exact Hr]. intros k q x ts. simpl.
    intros [[<- <-]|[_ Hk]]%lookup_insert_Some Hx; [|by eapply Hq].
    apply elem_of_app in Hx as [Hx|Hx]; [|apply list_elem_of_singleton in Hx; by simplify_eq].
    destruct (task_queue st !! task_tx task) as [q|] eqn:Hl; [|by apply elem_of_nil in Hx].
    by eapply Hq. }
  intros _. apply keeps_bind; [apply keeps_attempt, tasks_on_pm|].
  intros [h|e|]; [by apply keeps_modify| |apply keeps_ret].
  apply keeps_bind; [|intros _; by apply keeps_modify].
  destruct e; [|apply keeps_ret..]. apply keeps_modify. intros st [Hq Hr].
  split; [|exact Hr]. intros k q x ts. simpl. intros [_ ?]%lookup_delete_Some. eauto.
Qed.

Lemma tasks_get_pending t now tx : keeps (tasks_stored t) (get_pending_task provider now tx).
Proof.
  intros st Hst. unfold get_pending_task, mbind at 1, M_bind at 1, get.
  destruct (running_tasks st !! tx).
  { revert st Hst. apply keeps_bind; [apply keeps_attempt, tasks_remove_and_stop|].
    intros _. apply keeps_ret. }
  destruct (task_queue st !! tx) as [[|[x ts] rest]|] eqn:Hl; [done| |done].
  destruct Hst as [Hq Hr]. split; simpl.
  - intros k q y ts'. intros [[<- <-]|[_ Hk]]%lookup_insert_Some Hy; [|by eapply Hq].
    eapply Hq; [exact Hl|by right].
  - intros k rt [[<- <-]|[_ Hk]]%lookup_insert_Some; [|eauto]. simpl.
    eapply Hq; [exact Hl|by left].
Qed.

(** [WorkflowEngine::next_task] over the database.  [fuel] bounds the walk over the
    parents ([Workflow.walks_terminate]); a walk that needs more does not come back. *)
Definition engine (fuel : nat) (id : TaskId) (tx : Transaction Validated)
    : M Tables WorkflowError.t (option Task) := λ t,
  match next_task (database_tx_store scan) fuel id tx t with Some r => r | None => (Panic, t) end.

(** *** Operations of the world *)

Section world.
Context (ever : gset PublicKey) (Kept : Hash → Prop) (Rcv Acc : Transaction Received.t → Prop).

Lemma store_on_state {E A} (m : M (SchedulerState P) E A) :
  (∀ t, keeps (tasks_stored t) m) → keeps (store_inv ever Kept Rcv Acc) (on_state m).
Proof.
  intros Hm w [Hw Hk Hq Ht Hc Hkept]. specialize (Hm _ _ Ht). unfold on_state.
  by destruct (m (w_state w)) as [[] st].
Qed.

Lemma store_on_fs {E A} (m : M fs E A) : keeps (store_inv ever Kept Rcv Acc) (on_fs m).
Proof. intros w []. unfold on_fs. by destruct (m _) as [[] f]. Qed.

Definition channel_ok (c : Channel) : Prop := ∀ m, m ∈ ch_queue c → Rcv (fst m).

Lemma store_on_channel {E A} (m : M Channel E A) :
  keeps channel_ok m → keeps (store_inv ever Kept Rcv Acc) (on_channel m).
Proof.
  intros Hm w [Hw Hk Hq Ht Hc Hkept]. specialize (Hm _ Hc). unfold on_channel.
  by destruct (m (w_channel w)) as [[] c].
Qed.

Lemma send_received (m : Message) : Rcv (fst m) → keeps channel_ok (channel_send m).
Proof.
  intros Hm c Hc. unfold channel_send. destruct (ch_open c); [|done].
  intros x [Hx|Hx]%elem_of_app; [auto|]. by apply list_elem_of_singleton in Hx as ->.
Qed.

Lemma store_signal {E} s : keeps (E:=E) (store_inv ever Kept Rcv Acc) (signal s).
Proof. apply keeps_modify. by intros w []. Qed.

(** A change of the tables that keeps their integrity and forgets no transaction. *)
Lemma store_tables t' w :
  db_wf t' → t_acl t' = t_acl (w_tables w) →
  (∀ h, has_tx (w_tables w) h = true → has_tx t' h = true) → store_inv ever Kept Rcv Acc w →
  store_inv ever Kept Rcv Acc (MkWorld (w_state w) (MkMempool t' (deque (w_mempool w))) (w_fs w) (w_signals w)
                       (w_channel w)).
Proof.
  intros Ht' Ha Hg [Hw Hk Hq Ht Hc Hkept].
  split; [done|unfold w_tables; simpl; by rewrite Ha| |by eapply tasks_stored_grow|done|].
  - simpl. eapply Forall_impl; [exact Hq|]. intros tx [? ?]. auto.
  - intros h ?%Hkept. by apply Hg.
Qed.

Lemma store_mark_executed h :
  keeps (E:=string) (store_inv ever Kept Rcv Acc) (on_db (mark_tx_executed (database_tx_store scan) h)).
Proof.
  intros w Hw. apply (store_tables (snd (db_mark_tx_executed h (w_tables w))) w).
  - apply wf_executed, Hw.
  - apply acl_executed.
  - intros h'. by rewrite has_tx_executed.
  - done.
Qed.

(** The task of a stored transaction is a task of a stored transaction. *)
Lemma next_task_of_stored id tx wf t task t' :
  db_wf t → has_tx t (hash tx) = true →
  next_task_of (database_tx_store scan) id tx wf t = (Ok (Some task), t') →
  has_tx t (task_tx task) = true.
Proof.
  intros Ht Htx. unfold next_task_of.
  assert (∀ k h step files, Some <$> workflow_step_to_task id h step files k = Ok (Some task) →
    task_tx task = h) as Hstep.
  { intros k h step files Hs. destruct (workflow_step_to_task id h step files k) as [x| |] eqn:E;
      [|done..]. injection Hs as ->. by apply result_bind_Ok in E as (? & _ & [= <-]). }
  destruct (payload tx) as [| | | | |[steps]|? ? ? files|parent key| |]; try done.
  - destruct steps as [|s l]; [done|]. intros [= Hs <-]. by rewrite (Hstep _ _ _ _ Hs).
  - destruct wf as [[steps]|]; [|done]. simpl. destruct (position _ steps) as [i|]; [|done].
    case_decide; [done|]. destruct (index steps (i + 1)) as [s| |]; [|done..].
    intros [= Hs <-]. by rewrite (Hstep _ _ _ _ Hs).
  - cbn [find_transaction database_tx_store].
    unfold db_find_transaction. destruct (t_transaction t !! parent) as [r|] eqn:Hr; [|done].
    destruct (find_payload _ _ _ _) as [p| |]; [|done..]. cbn.
    destruct p; try done. destruct wf as [[steps]|]; [|done]. simpl.
    destruct (position _ steps) as [i|]; [|done]. case_decide; [done|].
    destruct (index steps (i + 1)) as [s| |]; [|done..]. intros [= Hs <-].
    rewrite (Hstep _ _ _ _ Hs). simpl. rewrite (wf_hash t Ht _ _ Hr).
    unfold has_tx, has_row. rewrite Hr. by apply bool_decide_eq_true.
Qed.

Lemma engine_run fuel id tx t r t' :
  engine fuel id tx t = (r, t') → t' = t ∨ t' = snd (db_mark_tx_executed (hash tx) t).
Proof.
  unfold engine, next_task. destruct (workflow_for_transaction _ _ _ _) as [[wf|e|]|];
    [|by intros [= <- <-]; left..].
  unfold next_task_of. destruct (payload tx); try (by intros [= <- <-]; auto);
    repeat case_match; intros [= <- <-]; by left.
Qed.

Lemma engine_tables fuel id tx t r t' :
  db_wf t → engine fuel id tx t = (r, t') →
  db_wf t' ∧ t_acl t' = t_acl t ∧ (∀ h, has_tx t h = true → has_tx t' h = true).
Proof.
  intros Ht [->| ->]%engine_run; [done|]. split_and!; [by apply wf_executed|apply acl_executed|].
  intros h. by rewrite has_tx_executed.
Qed.

Lemma engine_stored fuel id tx t task t' :
  db_wf t → has_tx t (hash tx) = true → engine fuel id tx t = (Ok (Some task), t') →
  has_tx t (task_tx task) = true.
Proof.
  intros Ht Htx. unfold engine, next_task.
  destruct (workflow_for_transaction _ _ _ _) as [[wf|e|]|]; [|done..].
  by apply next_task_of_stored.
Qed.

Lemma store_pick_task fuel id :
  hoare (store_inv ever Kept Rcv Acc) (pick_task (P:=P) (engine fuel id))
    (λ r w, store_inv ever Kept Rcv Acc w ∧
            match fst r with Some task => has_tx (w_tables w) (task_tx task) = true | None => True end)
    (store_inv ever Kept Rcv Acc).
Proof.
  intros w [Hw Hk Hq Ht Hc Hkept]. unfold pick_task, next.
  destruct (deque (w_mempool w)) as [|tx rest] eqn:Hd; [by split; [split; rewrite ?Hd|]|].
  apply Forall_cons in Hq as [[Htx _] Hrest]. cbn [storage].
  destruct (engine fuel id tx (storage (w_mempool w))) as [r t'] eqn:He.
  pose proof (engine_tables _ _ _ _ _ _ Hw He) as (Hw' & Ha & Hg).
  assert (store_inv ever Kept Rcv Acc (MkWorld (w_state w) (MkMempool t' rest) (w_fs w) (w_signals w)
    (w_channel w))) as Hinv.
  { split; [done|unfold w_tables; simpl; by rewrite Ha| |by eapply tasks_stored_grow|done|].
    - simpl. eapply Forall_impl; [exact Hrest|]. intros x [? ?]. auto.
    - intros h ?%Hkept. by apply Hg. }
  destruct r as [[task|]|e|]; [|done..]. split; [exact Hinv|]. simpl. apply Hg.
  by eapply engine_stored.
Qed.

Lemma store_schedule now db task w :
  store_inv ever Kept Rcv Acc w → has_tx (w_tables w) (task_tx task) = true →
  match on_state (schedule_task provider db_find_program now db task) w with
  | (_, w') => store_inv ever Kept Rcv Acc w'
  end.
Proof.
  intros [Hw Hk Hq Ht Hc Hkept] Hin. pose proof (tasks_schedule (w_tables w) now db task Hin _ Ht) as Hs.
  unfold on_state. by destruct (schedule_task _ _ _ _ _ (w_state w)) as [[] st].
Qed.

(** The task the loop has in its hands is the task of a stored transaction. *)
Definition held_stored (pos : LoopPos) (w : World (P:=P) (D:=Tables)) : Prop :=
  ∀ task, task_at pos = Some task → has_tx (w_tables w) (task_tx task) = true.
Definition turn_inv (pos : LoopPos) (w : World (P:=P) (D:=Tables)) : Prop :=
  store_inv ever Kept Rcv Acc w ∧ held_stored pos w.

Lemma turn_next {A} (m : M (World (P:=P) (D:=Tables)) string A) pos pos' :
  task_at pos' = None → keeps (store_inv ever Kept Rcv Acc) m →
  hoare (turn_inv pos) (_ ← m; mret pos') turn_inv (store_inv ever Kept Rcv Acc).
Proof.
  intros Hp Hm. eapply (hoare_bind _ _ _ (λ _, store_inv ever Kept Rcv Acc)).
  - eapply hoare_conseq; [exact Hm|by intros w []|done|done].
  - intros _. apply hoare_ret. intros w Hw. split; [done|]. intros task. by rewrite Hp.
Qed.

Lemma store_copy_file dir task file rest size :
  hoare (turn_inv (AtCopy task (file :: rest) size))
    (_ ← copy_task_file (database_tx_store scan) dir task file; mret (AtCopy task rest size))
    turn_inv (store_inv ever Kept Rcv Acc).
Proof.
  set (I := turn_inv (AtCopy task rest size)).
  eapply (hoare_bind _ _ _ (λ _, I)); [|intros _; by apply hoare_ret].
  eapply hoare_conseq; [apply (keeps_bind I)|done|done|by intros w []].
  { apply keeps_attempt. intros w [Hw Hin]. unfold on_fs.
    destruct (copy_file_for_vm_exe _ _ _ _) as [[] f]; (split; [by destruct Hw|exact Hin]). }
  intros x. destruct x; [apply keeps_ret|..]; (apply keeps_bind; [|intros _; apply keeps_ret]);
    apply keeps_attempt; intros w [Hw Hin]; (split; [by apply store_mark_executed|]);
    intros y Hy; exact (eq_trans (has_tx_executed (task_tx task) (w_tables w) _) (Hin y Hy)).
Qed.

Lemma store_turn_step now alive dir fuel id pos :
  hoare (turn_inv pos)
    (turn_step provider (database_tx_store scan) db_find_program (engine fuel id) now alive dir pos)
    turn_inv (store_inv ever Kept Rcv Acc).
Proof.
  destruct pos as [| | | |size|task [|file rest] size|task|]; cbn [turn_step].
  - apply turn_next; [done|]. apply store_on_state. intros t. apply tasks_reap_zombies.
  - eapply (hoare_bind _ _ _ (λ _, store_inv ever Kept Rcv Acc)); [apply hoare_get; by intros w []|].
    intros w0. eapply (hoare_bind _ _ _ (λ _, store_inv ever Kept Rcv Acc)).
    + apply store_on_state. intros t st. apply tasks_start_pending.
    + intros started. apply hoare_ret. intros w Hw. by destruct started.
  - apply turn_next; [done|apply store_signal].
  - eapply (hoare_bind _ _ _ (λ r, turn_inv (match fst r with
        | Some task => AtCopy task (task_files task) (snd r) | None => AtMempoolLen (snd r) end))).
    + eapply hoare_conseq; [apply store_pick_task|by intros w []| |done].
      intros [[task|] size] w [Hw Hin]; (split; [done|]); [by intros x [= <-]|done].
    + intros [[task|] size]; by apply hoare_ret.
  - apply turn_next; [done|apply store_signal].
  - eapply (hoare_bind _ _ _ (λ _, turn_inv (AtStart task))); [|intros _; by apply hoare_ret].
    apply hoare_modify. intros w [[] ?]. by split.
  - apply store_copy_file.
  - eapply (hoare_bind _ _ _ (λ _, turn_inv (AtStart task))); [by apply hoare_get|]. intros w1.
    eapply (hoare_bind _ _ _ (λ _, store_inv ever Kept Rcv Acc)).
    + intros w [Hw Hin].
      pose proof (store_schedule now (storage (w_mempool w1)) task w Hw (Hin task eq_refl)) as Hs.
      by destruct (on_state _ w) as [[] w'].
    + intros _. by apply hoare_ret.
  - by apply hoare_ret.
Qed.

Lemma store_get_task now conn q : keeps (store_inv ever Kept Rcv Acc) (get_task provider now conn q).
Proof.
  unfold get_task. apply keeps_bind; [apply keeps_lift|]. intros [[tx p] c].
  apply keeps_bind; [|intros r; apply keeps_ret].
  apply keeps_attempt, store_on_state. intros t. apply tasks_get_pending.
Qed.

(** The transaction of a result: made and signed with the key [key]. *)
Definition made_by (key : SecretKey) (tx : Transaction Created) : Prop :=
  Transaction_new (E:=TransactionError) (payload tx) key = Ok tx ∧
  match payload tx with Payload.Proof _ _ _ _ | Payload.Verification _ _ _ _ => True | _ => False end.

Lemma result_tx_made key task program data files tx :
  result_tx key task program data files = Ok tx → made_by key tx.
Proof. intros [[_ Hn] [[_ Hp]|[_ Hp]]]%result_tx_Ok; (split; [done|by rewrite Hp]). Qed.

(** What the scheduler sends to validation is signed with the node's key. *)
Context (key : SecretKey).
Context (Hown : ∀ tx : Transaction Created, made_by key tx → Rcv (into_received tx Received.TXRESULT)).

Lemma store_send_result {E} id tx :
  made_by key tx →
  keeps (E:=E) (store_inv ever Kept Rcv Acc) (attempt (on_channel (txresult_send_tx id tx))).
Proof. intros Ha. apply keeps_attempt, store_on_channel, send_received. by apply Hown. Qed.

Lemma store_submit_result dir host id answer tx program res :
  keeps (store_inv ever Kept Rcv Acc)
    (submit_result provider (database_tx_store scan) key dir host id answer tx program res).
Proof.
  unfold submit_result. apply keeps_bind; [apply keeps_get|]. intros w.
  destruct (running_tasks (w_state w) !! tx) as [rt|]; [|apply keeps_throw].
  apply keeps_bind.
  { apply store_on_state. intros t. apply keeps_modify. intros st [Hq Hr]. split; [exact Hq|].
    intros k x. simpl. intros [_ ?]%lookup_delete_Some. eauto. }
  intros _. apply keeps_bind; [apply keeps_attempt, store_mark_executed|]. intros _.
  apply keeps_bind; [|intros _; apply store_on_state; intros t; apply tasks_remove_and_stop].
  destruct res as [data files|code]; [|apply keeps_ret].
  apply keeps_bind; [apply keeps_lift|]. intros efs.
  eapply (hoare_bind _ _ _ (λ r w, store_inv ever Kept Rcv Acc w ∧ made_by key r)).
  { apply hoare_lift; [|done]. intros w' r Hw' Hr. split; [done|]. by eapply result_tx_made. }
  intros r w' [Hw' Ha]. revert w' Hw'.
  apply keeps_bind; [apply keeps_for_eachM; intros sd; apply store_on_fs|]. intros _.
  apply keeps_bind; [by apply store_send_result|]. intros x.
  destruct (x ≫= λ _, answer) as [[]|e|]; [apply keeps_ret|apply keeps_throw..].
Qed.

Lemma store_server_submit dir data_dir host id answer conn q request :
  keeps (store_inv ever Kept Rcv Acc)
    (server_submit_result provider (database_tx_store scan) key dir data_dir host id answer conn q request).
Proof.
  unfold server_submit_result. apply keeps_bind; [apply keeps_lift|]. intros [[tx p] c].
  apply keeps_bind; [apply keeps_lift|]. intros h. apply keeps_bind.
  { case_bool_decide; [|apply keeps_ret]. destruct (req_result request); [|apply keeps_ret].
    apply keeps_bind; [apply keeps_attempt, store_submit_result|intros _; apply keeps_ret]. }
  intros _. apply keeps_bind; [apply keeps_modify; by intros w []|intros _; apply keeps_ret].
Qed.
End world.
End store.

(** ** The resources behind the gRPC service *)

Section resources.
Context `{Hex, Secp, Sha3, NumBigint, Bincode}.
Context {P D : Type} (provider : Provider P) (tx_store : TransactionStore D) (total : ResourceManager).

Lemma get_task_res now conn q :
  keeps (world_inv (D:=D) total) (get_task provider now conn q).
Proof.
  unfold get_task. apply keeps_bind; [apply keeps_lift|]. intros [[tx p] c].
  apply keeps_bind; [|intros r; apply keeps_ret].
  apply keeps_attempt, on_state_keeps, get_pending_task_keeps.
Qed.

Lemma server_submit_res key dir data_dir host id answer conn q request :
  keeps (world_inv total)
    (server_submit_result provider tx_store key dir data_dir host id answer conn q request).
Proof.
  unfold server_submit_result. apply keeps_bind; [apply keeps_lift|]. intros [[tx p] c].
  apply keeps_bind; [apply keeps_lift|]. intros h. apply keeps_bind.
  { case_bool_decide; [|apply keeps_ret]. destruct (req_result request); [|apply keeps_ret].
    apply keeps_bind; [apply keeps_attempt, submit_result_keeps|intros _; apply keeps_ret]. }
  intros _. apply keeps_bind; [by apply keeps_modify|intros _; apply keeps_ret].
Qed.

(** The limits the database hands out are never negative. *)
Lemma database_limits (t : Tables) : limits_u64 (db_find_program t).
Proof.
  intros h p. unfold db_find_program, get_program. destruct (t_program t !! h) as [q|]; [|done].
  intros [= <-]. simpl. unfold rr_nonneg.
  destruct (t_prr t !! h) as [[[mem cpus] gpus]|]; simpl; [|lia].
  destruct ((0 <=? mem)%Z && (0 <=? cpus)%Z && (0 <=? gpus)%Z) eqn:Hb; simpl; [|lia].
  apply andb_true_iff in Hb as [[Hm Hc]%andb_true_iff Hg]. lia.
Qed.
End resources.

(** ** Changes of the database alone *)

Section tables.
Context `{Hex, Secp, Sha3, NumBigint, Bincode, Lru, UrlParse}.
Context (scan : ∀ A : Type, list A → list A).

Lemma merge_keeps {S} (db : MergeStoredAcl S) (I : S → Prop) lines :
  keeps I (get_acl_whitelist db) → (∀ k, keeps I (acl_whitelist db k)) →
  (∀ k, keeps I (acl_deny db k)) → keeps I (merge_acl_white_list lines db).
Proof.
  intros Hg Hw Hd. unfold merge_acl_white_list. apply keeps_bind; [exact Hg|]. intros keys.
  apply keeps_bind; [apply keeps_lift|]. intros [[new old] [|]];
    (apply keeps_bind; [by apply keeps_for_eachM|intros _]); [by apply keeps_for_eachM|apply keeps_ret].
Qed.

(** Refreshing the whitelist changes nothing but the whitelist. *)
Lemma sync_keeps text url resp (I : Tables → Prop) :
  (∀ k t, I t → I (set_acl_keys k t)) → keeps I (sync text url resp (database_acl scan)).
Proof.
  intros HI. unfold sync. apply keeps_bind; [apply keeps_lift|]. intros u.
  apply keeps_bind; [apply keeps_lift|]. intros [status lines].
  destruct (status =? 200)%Z; [|apply keeps_throw].
  apply merge_keeps; [by intros t Ht|intros k; apply keeps_modify; auto..].
Qed.

Definition queue_stored (m : Mempool Tables) : Prop :=
  db_wf (storage m) ∧ Forall (λ tx, has_tx (storage m) (hash tx) = true) (deque m).

(** Saving into the database queues what is stored. *)
Lemma save_txs_stored outs res m r m' :
  queue_stored m → save_txs (database_storage scan) outs res m = (r, m') →
  queue_stored m' ∧ (∀ h, has_tx (storage m) h = true → has_tx (storage m') h = true).
Proof.
  revert res m. induction outs as [|ev outs IH]; intros res m Hm; [by intros [= <- <-]|].
  cbn [save_txs]. unfold save_tx, send_new_tx, add. cbn [storage_set database_storage].
  destruct Hm as [Hw Hq]. pose proof (add_transaction_keeps_wf (into_validated (ev_tx ev)) _ Hw) as Hw'.
  destruct (add_transaction (into_validated (ev_tx ev)) (storage m)) as [x t'] eqn:Ha.
  apply add_transaction_rows in Ha as [Hg Hin].
  assert (Forall (λ tx, has_tx t' (hash tx) = true) (deque m)) as Hq'
    by (eapply Forall_impl; [exact Hq|]; auto).
  destruct x as [[]|e|]; simpl.
  - intros (? & Hg')%IH; [split; [done|]; intros h Hh; apply Hg'; simpl; auto|].
    split; [done|]. apply Forall_app. split; [done|]. apply Forall_singleton. by apply Hin.
  - intros (? & Hg')%IH; [split; [done|]; intros h Hh; apply Hg'; simpl; auto|]. by split.
  - intros [= <- <-]. by split.
Qed.

Lemma save_txs_acl outs res m r m' :
  save_txs (database_storage scan) outs res m = (r, m') → t_acl (storage m') = t_acl (storage m).
Proof.
  revert res m. induction outs as [|ev outs IH]; intros res m; [by intros [= <- <-]|].
  cbn [save_txs]. unfold save_tx, send_new_tx, add. cbn [storage_set database_storage].
  pose proof (add_transaction_acl (into_validated (ev_tx ev)) (storage m)) as Ha.
  destruct (add_transaction _ (storage m)) as [[[]|e|] t']; simpl in *;
    [intros ->%IH|intros ->%IH|intros [= <- <-]]; done.
Qed.

Lemma on_finished_acl now i (el el' : EventLoop Tables) :
  on_finished (database_storage scan) now i el = Some el' →
  t_acl (storage (el_mempool el')) = t_acl (storage (el_mempool el)).
Proof.
  unfold on_finished. destruct (el_stalled el); [done|].
  destruct (el_futures el !! i) as [[[tx|[w|e|]] cb]|]; [done| |by intros [= <-]..|done].
  destruct (validate_tx_dep _ _ _ _) as [[outs|e|] deps]; [|by intros [= <-]|done].
  destruct (save_txs _ outs _ _) as [[r|e|] m] eqn:Hs; [|done..].
  intros [= <-]. by apply save_txs_acl in Hs.
Qed.

Lemma on_finished_stored now i (el el' : EventLoop Tables) :
  queue_stored (el_mempool el) → on_finished (database_storage scan) now i el = Some el' →
  queue_stored (el_mempool el') ∧ el_channel el' = el_channel el ∧
  (∀ h, has_tx (storage (el_mempool el)) h = true → has_tx (storage (el_mempool el')) h = true).
Proof.
  intros Hm. unfold on_finished. destruct (el_stalled el); [done|].
  destruct (el_futures el !! i) as [[[tx|[w|e|]] cb]|]; [done| |by intros [= <-]..|done].
  destruct (validate_tx_dep _ _ _ _) as [[outs|e|] deps]; [|by intros [= <-]|done].
  destruct (save_txs _ outs _ _) as [[r|e|] m] eqn:Hs; [|done..].
  intros [= <-]. by apply save_txs_stored in Hs as [? ?].
Qed.
End tables.

(** ** The node *)

Record Node `{Hex, Secp, Lru} := MkNode {
  n_loop : EventLoop Tables;
  n_sched : SchedulerState Host;
  n_fs : fs;
  n_signals : list HealthCheckSignal;
  (** where the scheduling loop is *)
  n_pos : LoopPos
}.
Global Arguments MkNode {_ _ _} _ _ _ _ _.
Global Arguments n_loop {_ _ _} _.
Global Arguments n_sched {_ _ _} _.
Global Arguments n_fs {_ _ _} _.
Global Arguments n_signals {_ _ _} _.
Global Arguments n_pos {_ _ _} _.

Section node.
Context `{Hex, Secp, Sha3, NumBigint, Bincode, Lru, UrlParse, Uuid, !Wire}.
Context (scan : ∀ A : Type, list A → list A).
Context (config : Config) (node_key : SecretKey) (http_download_host : string).
Context (total : ResourceManager).

Definition n_tables (n : Node) : Tables := storage (el_mempool (n_loop n)).

(** The event loop and the scheduler share the mempool and the channel. *)
Definition world_of (n : Node) : World (P:=Host) (D:=Tables) :=
  MkWorld (n_sched n) (el_mempool (n_loop n)) (n_fs n) (n_signals n)
    (MkChannel (el_channel (n_loop n)) true).
Definition set_loop (n : Node) (el : EventLoop Tables) : Node :=
  MkNode el (n_sched n) (n_fs n) (n_signals n) (n_pos n).
Definition set_world (n : Node) (w : World (P:=Host) (D:=Tables)) : Node :=
  let el := n_loop n in
  MkNode (MkEventLoop (ch_queue (w_channel w)) (el_futures el) (el_deps el) (el_p2p el)
            (w_mempool w) (el_replies el) (el_stalled el))
    (w_state w) (w_fs w) (w_signals w) (n_pos n).

Definition on_world {E A} (m : M (World (P:=Host) (D:=Tables)) E A) (n : Node) : Node :=
  set_world n (snd (m (world_of n))).
(** The next step of the scheduling loop. *)
Definition on_turn (m : LoopPos → M (World (P:=Host) (D:=Tables)) string LoopPos) (n : Node) : Node :=
  let '(r, w) := m (n_pos n) (world_of n) in
  let n' := set_world n w in
  MkNode (n_loop n') (n_sched n') (n_fs n') (n_signals n') (next_pos r).
Definition on_node_channel {E A} (m : M Channel E A) : Node → Node := on_world (on_channel m).
Definition on_tables {E A} (m : M Tables E A) : Node → Node := on_world (on_db m).

(** The VM registry the gRPC service looks into. *)
Definition n_qemu (n : Node) : Qemu := host_qemu (vm_provider (program_manager (n_sched n))).

(** What happened so far: the transactions that were sent to the event loop, and the
    tasks that were given to VMs. *)
Record History := MkHistory { sent : list (Transaction Received.t); handed : list Task }.

(** The messages between [n] and [n'] are those added at the end of the channel. *)
Definition sent_between (n n' : Node) : list (Transaction Received.t) :=
  (drop (length (el_channel (n_loop n))) (el_channel (n_loop n'))).*1.
Definition record (n n' : Node) (tasks : list Task) (h : History) : History :=
  MkHistory (sent h ++ sent_between n n') (handed h ++ tasks).

(** The task the service gives to the VM behind [conn], if any. *)
Definition task_for (provider : Provider Host) (now : Z) (conn : option (option Z)) (n : Node) : list Task :=
  match identify conn (n_qemu n) with
  | Ok (tx_hash, _, _) =>
      match fst (get_pending_task provider now tx_hash (n_sched n)) with
      | Ok (Some task) => [task]
      | _ => []
      end
  | _ => []
  end.

(** [node_run ever h n]: the node can reach [n] by way of [h], and [ever] are the keys
    that were on its whitelist at some time.  What clients, peers, VMs, the operating
    system and the clock do is the environment's choice at every step. *)
Inductive node_run : gset PublicKey → History → Node → Prop :=
  | node_start t q f :
      db_wf t → resource_manager q = total →
      node_run (t_acl t) (MkHistory [] [])
        (MkNode (EventLoop_new t) (SchedulerState_new q) f [] AtReap)
  | node_rpc ever h n id tx :
      node_run ever h n →
      let n' := on_node_channel (rpc_send_tx id tx) n in node_run ever (record n n' [] h) n'
  | node_peer ever h n reply bytes :
      node_run ever h n →
      let n' := on_node_channel (process_message reply bytes) n in node_run ever (record n n' [] h) n'
  | node_receive ever h n el :
      node_run ever h n → on_receive (n_loop n) = Some el → node_run ever h (set_loop n el)
  | node_verify ever h n download p2p_open i el :
      node_run ever h n →
      on_task (database_contains (n_tables n)) download p2p_open i (n_loop n) = Some el →
      node_run ever h (set_loop n el)
  | node_finished ever h n now i el :
      node_run ever h n → on_finished (database_storage scan) now i (n_loop n) = Some el →
      node_run ever h (set_loop n el)
  | node_sync ever h n text url resp :
      node_run ever h n →
      let n' := on_tables (sync text url resp (database_acl scan)) n in
      node_run (ever ∪ t_acl (n_tables n')) h n'
  | node_whitelist ever h n k :
      node_run ever h n → node_run (ever ∪ {[k]}) h (on_tables (db_acl_whitelist k) n)
  | node_deny ever h n k :
      node_run ever h n → node_run ever h (on_tables (db_acl_deny k) n)
  | node_turn ever h n kill_ok wait_ok env now alive fuel id :
      node_run ever h n →
      node_run ever h (on_turn (turn_step (qemu_provider config kill_ok wait_ok env)
        (database_tx_store scan) db_find_program (engine scan fuel id) now alive
        (data_directory config)) n)
  | node_get_task ever h n kill_ok wait_ok env now conn :
      node_run ever h n →
      let provider := qemu_provider config kill_ok wait_ok env in
      let n' := on_world (get_task provider now conn (n_qemu n)) n in
      node_run ever (record n n' (task_for provider now conn n) h) n'
  | node_submit ever h n kill_ok wait_ok env id answer conn request :
      node_run ever h n →
      let n' := on_world (server_submit_result (qemu_provider config kill_ok wait_ok env)
        (database_tx_store scan) node_key (data_directory config) (data_directory config)
        http_download_host id answer conn (n_qemu n) request) n in
      node_run ever (record n n' [] h) n'.

Definition held_hash (pos : LoopPos) (h : Hash) : Prop := ∃ task, task_at pos = Some task ∧ task_tx task = h.

(** A transaction that claims to be a result of this node was made with its key. *)
Definition own (tx : Transaction Received.t) : Prop :=
  state tx = Received.TXRESULT →
  ∃ created, made_by node_key created ∧ tx = into_received created Received.TXRESULT.
Definition acc (ever : gset PublicKey) (tx : Transaction Received.t) : Prop :=
  own tx ∧ validate tx = Ok () ∧ author tx ∈ ever.

Record node_inv (ever : gset PublicKey) (n : Node) : Prop := {
  ni_res : res_inv total (n_sched n);
  ni_loop : loop_inv own (acc ever) [] (n_loop n);
  ni_store : store_inv ever (held_hash (n_pos n)) own (acc ever) (world_of n)
}.

Lemma acc_mono ever ever' tx : ever ⊆ ever' → acc ever tx → acc ever' tx.
Proof. intros Hs (? & ? & ?). split_and!; auto. Qed.

(** The node with the world [w] and the loop at [pos]. *)
Definition put (n : Node) (w : World (P:=Host) (D:=Tables)) (pos : LoopPos) : Node :=
  let n' := set_world n w in MkNode (n_loop n') (n_sched n') (n_fs n') (n_signals n') pos.

Lemma node_inv_put ever ever' n w pos :
  ever ⊆ ever' → node_inv ever n → res_inv total (w_state w) →
  store_inv ever' (held_hash pos) own (acc ever') w → node_inv ever' (put n w pos).
Proof.
  intros Hs [_ Hloop _] Hres [Hw Hk Hq Ht Hc Hkept].
  apply (loop_inv_mono _ _ own (acc ever')) in Hloop; [|done|by intros tx; apply acc_mono].
  destruct Hloop as [_ Hf Hd Hp _]. split; [done| |by split].
  split; [done..|]. simpl. eapply Forall_impl; [exact Hq|]. by intros tx [_ ?].
Qed.

(** A step of the scheduler or of the database. *)
Lemma node_inv_world {E A} ever ever' (m : M (World (P:=Host) (D:=Tables)) E A) n :
  ever ⊆ ever' → keeps (store_inv ever' (held_hash (n_pos n)) own (acc ever')) m →
  keeps (world_inv total) m → store_inv ever' (held_hash (n_pos n)) own (acc ever') (world_of n) →
  node_inv ever n → node_inv ever' (on_world m n).
Proof.
  intros Hs Hm Hr Hst Hn. change (on_world m n) with (put n (snd (m (world_of n))) (n_pos n)).
  apply (node_inv_put ever); [done|done|..|by apply (keeps_snd _ _ _ Hm)].
  apply (keeps_snd (world_inv total) m (world_of n)); [done|apply Hn].
Qed.

Lemma turn_inv_held ever Rcv Acc pos (w : World (P:=Host) (D:=Tables)) :
  turn_inv ever (λ _, False) Rcv Acc pos w ↔ store_inv ever (held_hash pos) Rcv Acc w.
Proof.
  split.
  - intros [[] Hh]. split; try done. intros h (task & Ht & <-). by apply Hh.
  - intros [? ? ? ? ? Hkept]. split; [by split|]. intros task Ht. apply Hkept. by exists task.
Qed.

(** A step of the scheduling loop. *)
Lemma node_inv_turn ever n kill_ok wait_ok env now alive fuel id :
  node_inv ever n →
  node_inv ever (on_turn (turn_step (qemu_provider config kill_ok wait_ok env)
    (database_tx_store scan) db_find_program (engine scan fuel id) now alive (data_directory config)) n).
Proof.
  intros Hn. pose proof (ni_store _ _ Hn) as Hst. pose proof (ni_res _ _ Hn) as Hres.
  apply turn_inv_held in Hst. unfold on_turn.
  match goal with |- context [turn_step ?p ?s ?f ?e ?nw ?a ?d (n_pos n) _] =>
    pose proof (store_turn_step p scan _ _ _ _ nw a d fuel id (n_pos n) _ Hst) as Hst';
    pose proof (turn_step_keeps p s f e total database_limits nw a d (n_pos n) (world_of n) Hres) as Hres' end.
  destruct (turn_step _ _ _ _ _ _ _ _ (world_of n)) as [r w].
  match goal with |- node_inv _ ?g => change g with (put n w (next_pos r)) end.
  apply (node_inv_put ever); [done|done|by destruct r|]. apply turn_inv_held.
  destruct r; [done|by split..].
Qed.

(** A step of the event loop, which leaves the scheduler alone. *)
Lemma node_inv_loop ever n el :
  loop_inv own (acc ever) [] el → queue_stored (el_mempool el) →
  t_acl (storage (el_mempool el)) = t_acl (n_tables n) →
  (∀ h, has_tx (n_tables n) h = true → has_tx (storage (el_mempool el)) h = true) →
  node_inv ever n → node_inv ever (set_loop n el).
Proof.
  intros Hloop [Hw Hq] Ha Hg [Hres _ [_ Hk _ Ht _ Hkept]]. split; [done|done|]. destruct Hloop as [Hc _ _ _ Hm].
  split; [done| | |by eapply tasks_stored_grow|done|]; unfold w_tables; simpl; [by rewrite Ha| |].
  - apply Forall_and. split; [exact Hq|exact Hm].
  - intros h ?%Hkept. by apply Hg.
Qed.

Lemma node_store_queue ever n : node_inv ever n → queue_stored (el_mempool (n_loop n)).
Proof. intros [_ _ [Hw _ Hq _ _ _]]. split; [done|]. eapply Forall_impl; [exact Hq|]. by intros tx [? _]. Qed.

(** A step that only changes the tables. *)
Lemma node_inv_tables {E A} ever ever' (m : M Tables E A) n :
  ever ⊆ ever' → (∀ t, db_wf t → db_wf (snd (m t))) →
  (∀ t h, has_tx t h = true → has_tx (snd (m t)) h = true) →
  t_acl (snd (m (n_tables n))) ⊆ ever' → node_inv ever n → node_inv ever' (on_tables m n).
Proof.
  intros Hs Hwf Hg Ha [Hres Hloop [Hw Hk Hq Ht Hc Hkept]].
  apply (loop_inv_mono _ _ own (acc ever')) in Hloop; [|done|by intros tx; apply acc_mono].
  specialize (Hwf _ Hw). specialize (Hg (n_tables n)). unfold on_tables, on_world, on_db. simpl.
  change (storage (el_mempool (n_loop n))) with (n_tables n).
  destruct (m (n_tables n)) as [r t'] eqn:Hm. unfold w_tables in Hwf. simpl in *.
  change (storage (el_mempool (n_loop n))) with (n_tables n) in Hwf. rewrite Hm in Hwf.
  destruct Hloop as [Hc' Hf Hd Hp Hm']. split; [done|by split|].
  split; [done|done| |by eapply tasks_stored_grow|done|].
  - simpl. eapply Forall_impl; [exact Hq|]. intros tx [Hin Hacc]. split; [by apply Hg|].
    eapply from_accepted_mono; [|exact Hacc]. intros x. by apply acc_mono.
  - intros h ?%Hkept. by apply Hg.
Qed.

Lemma node_inv_channel {E A} ever (m : M Channel E A) n :
  keeps (channel_ok own) m → node_inv ever n → node_inv ever (on_node_channel m n).
Proof.
  intros Hm Hn. apply (node_inv_world ever ever); [done|by apply store_on_channel| |apply Hn|done].
  apply on_channel_keeps.
Qed.

Lemma process_message_own reply bytes : keeps (channel_ok own) (process_message reply bytes).
Proof.
  unfold process_message. destruct (deserialize_msg bytes) as [[tx|kind|pk resp]|e|];
    [|apply keeps_bind; [apply keeps_lift|intros; apply keeps_ret]|apply keeps_ret..|apply keeps_lift].
  apply keeps_bind; [|intros; apply keeps_ret]. by apply keeps_attempt, send_received.
Qed.

Lemma own_result (tx : Transaction Created) :
  made_by node_key tx → own (into_received tx Received.TXRESULT).
Proof. intros ? _. by exists tx. Qed.

Lemma node_start_inv t q f :
  rm_u64 total → db_wf t → resource_manager q = total →
  node_inv (t_acl t) (MkNode (EventLoop_new t) (SchedulerState_new q) f [] AtReap).
Proof.
  intros Htot Ht Hq. split; [by apply sched_new_res|apply loop_inv_new|].
  split; simpl; [done|done|constructor| |by intros m ?%elem_of_nil|by intros h (? & ? & _)].
  by split; intros ??; simpl; rewrite lookup_empty.
Qed.

Lemma node_loop_step ever n el :
  node_inv ever n → loop_inv own (acc ever) [] el → el_mempool el = el_mempool (n_loop n) →
  node_inv ever (set_loop n el).
Proof.
  intros Hn Hel He. apply node_inv_loop; rewrite ?He; try done. by eapply node_store_queue.
Qed.

Lemma node_finished_inv ever n now i el :
  node_inv ever n → on_finished (database_storage scan) now i (n_loop n) = Some el →
  node_inv ever (set_loop n el).
Proof.
  intros Hn Hr. pose proof (on_finished_acl scan now i _ _ Hr) as Ha.
  pose proof (loop_inv_finished _ _ _ _ _ _ _ _ (ni_loop _ _ Hn) Hr) as Hl.
  apply on_finished_stored in Hr as (Hq & _ & Hg); [|by eapply node_store_queue].
  by apply node_inv_loop.
Qed.

Lemma node_run_inv ever h n : rm_u64 total → node_run ever h n → node_inv ever n.
Proof.
  intros Htot. induction 1 as [t q f Ht Hq|ever h n id tx _ IH|ever h n reply bytes _ IH
    |ever h n el _ IH Hr|ever h n download op i el _ IH Hr|ever h n now i el _ IH Hr
    |ever h n text url resp _ IH n'|ever h n k _ IH|ever h n k _ IH
    |ever h n ko wo env now alive fuel id _ IH|ever h n ko wo env now conn _ IH
    |ever h n ko wo env id answer conn request _ IH].
  - by apply node_start_inv.
  - apply node_inv_channel; [|done]. by apply send_received.
  - apply node_inv_channel; [apply process_message_own|done].
  - apply node_loop_step; [done|by eapply loop_inv_receive, Hr; apply IH|].
    unfold on_receive in Hr. destruct (el_channel (n_loop n)) as [|[]]; by simplify_eq/=.
  - apply node_loop_step; [done| |].
    + eapply loop_inv_task; [|apply IH|exact Hr]. intros tx Hrcv Hv Hin. split_and!; [done..|].
      injection Hin as Hin%bool_decide_eq_true. by apply (store_acl _ _ _ _ _ (ni_store _ _ IH)).
    + unfold on_task in Hr. destruct (el_futures (n_loop n) !! i) as [[[] ?]|]; try done.
      destruct (process_received _ _ _ _ _). by simplify_eq/=.
  - by eapply node_finished_inv.
  - apply (node_inv_tables ever); [set_solver|..|exact IH].
    + intros t Ht. apply (keeps_snd db_wf); [|done]. apply sync_keeps. intros ??. by apply wf_acl.
    + intros t g Hg. apply (keeps_snd (λ t, has_tx t g = true)); [by apply sync_keeps|done].
    + apply union_subseteq_r'. unfold n'. clear. unfold on_tables, on_world, on_db. simpl.
      unfold n_tables at 2. simpl. change (storage (el_mempool (n_loop n))) with (n_tables n).
      by destruct (sync text url resp (database_acl scan) (n_tables n)).
  - apply (node_inv_tables ever); [set_solver|intros t; apply wf_acl|done| |done].
    simpl. pose proof (store_acl _ _ _ _ _ (ni_store _ _ IH)). unfold w_tables in *. simpl in *.
    unfold n_tables. set_solver.
  - apply (node_inv_tables ever); [set_solver|intros t; apply wf_acl|done| |done].
    simpl. pose proof (store_acl _ _ _ _ _ (ni_store _ _ IH)). unfold w_tables in *. simpl in *.
    unfold n_tables. set_solver.
  - by apply node_inv_turn.
  - apply (node_inv_world ever); [done|apply store_get_task|apply get_task_res|apply IH|done].
  - apply (node_inv_world ever); [done| |apply server_submit_res|apply IH|done].
    apply store_server_submit, own_result.
Qed.

(** C18: The whole node, with peers, RPC clients, VMs, the operator and the refresh of the
    whitelist acting in any order: the database always has its integrity, and every
    transaction queued for execution is stored in it, is the validated form of a
    received transaction with a valid signature and workflow, and its author was on the
    whitelist of this database at some time. *)
Theorem node_queue_stored ever h n :
  rm_u64 total → node_run ever h n →
  db_wf (n_tables n) ∧
  ∀ t, t ∈ deque (el_mempool (n_loop n)) →
    has_tx (n_tables n) (hash t) = true ∧
    ∃ tx, t = into_validated tx ∧ validate tx = Ok () ∧ author tx ∈ ever.
Proof.
  intros Htot Hrun. destruct (node_run_inv _ _ _ Htot Hrun) as [_ _ [Hw _ Hq _ _ _]].
  split; [exact Hw|]. intros t Ht.
  eapply Forall_forall in Hq as [Hin (tx & (_ & Hv & Ha) & Heq)]; [|exact Ht].
  split; [exact Hin|]. by exists tx.
Qed.

(** C17: Every task the node queued for a VM or runs in one belongs to a transaction that is
    stored in its database, and is filed under that transaction. *)
Theorem node_tasks_stored ever h n tx task :
  rm_u64 total → node_run ever h n →
  get_running_task tx (n_sched n) = Some task ∨
    (∃ q ts, task_queue (n_sched n) !! tx = Some q ∧ (task, ts) ∈ q) →
  task_tx task = tx ∧ has_tx (n_tables n) tx = true.
Proof.
  intros Htot Hrun Hin. destruct (node_run_inv _ _ _ Htot Hrun) as [[_ [Hkq Hkr]] _ [_ _ _ [Hq Hr] _ _]].
  destruct Hin as [(rt & Hrt & ->)%fmap_Some|(q & ts & Hl & Hin)].
  - pose proof (Hkr _ _ Hrt) as Heq. split; [done|]. rewrite <-Heq. by eapply Hr.
  - pose proof (Hkq _ _ _ _ Hl Hin) as Heq. split; [done|]. rewrite <-Heq. by eapply Hq.
Qed.

Lemma made_by_signed key (tx : Transaction Created) :
  made_by key tx →
  author tx = from_secret_key key ∧ compute_hash (E:=TransactionError) tx = Ok (hash tx) ∧
  signature tx = Signature_of_secp (secp_sign (Hash_to_message (hash tx)) key).
Proof.
  intros [Hn _]. split_and!; [..|]; [|by eapply compute_hash_new|];
    unfold Transaction_new, sign in Hn; apply result_bind_Ok in Hn as (h & _ & Htx); by injection Htx as <-.
Qed.

(** C16: Nobody else can pass for a result of this node.  A transaction on its way through
    the event loop (in the channel, in a verification task that runs or has finished, or
    parked for a dependency) that is marked as an execution result, whose files are
    therefore not downloaded, is a proof or verification by the node's own key: its
    author is that key, its hash is the one computed from its content, its signature is
    the key's over this hash, and it passes validation at every node. *)
Theorem node_results_own `{!SecpLaws} ever h n tx :
  rm_u64 total → node_run ever h n →
  tx ∈ on_the_way (n_loop n) → is_from_tx_exec_result (state tx) = true →
  author tx = from_secret_key node_key ∧
  compute_hash (E:=TransactionError) tx = Ok (hash tx) ∧
  signature tx = Signature_of_secp (secp_sign (Hash_to_message (hash tx)) node_key) ∧
  validate tx = Ok () ∧
  match payload tx with Payload.Proof _ _ _ _ | Payload.Verification _ _ _ _ => True | _ => False end.
Proof.
  intros Htot Hrun Hin Hst. destruct (node_run_inv _ _ _ Htot Hrun) as [_ Hloop _].
  assert (own tx) as Hown by (by eapply loop_inv_on_the_way; [..|exact Hloop|exact Hin]; intros ? []).
  destruct Hown as (created & Hmade & ->); [by destruct (state tx)|].
  destruct (made_by_signed _ _ Hmade) as (Ha & Hh & Hs). destruct Hmade as [Hn Hk].
  split_and!; [exact Ha| |exact Hs| |exact Hk].
  - etransitivity; [|exact Hh]. by apply compute_hash_fields.
  - eapply new_tx_validates_aux; [|exact Hn]. destruct (payload created); try done; constructor.
Qed.
End node.

(** ** The whitelist *)

Section whitelist.
Context `{Hex, Secp}.
Context (scan : ∀ A : Type, list A → list A).
Context (scan_perm : ∀ A (l : list A), scan A l ≡ₚ l).

Lemma for_each_modify_Ok {S E A} (f : A → S → S) l s :
  fst (for_eachM (E:=E) (λ x, modify (f x)) l s) = Ok ().
Proof. revert s. induction l as [|x l IH]; intros s; [done|]. apply IH. Qed.

Lemma merge_database_Ok lines t :
  fst (merge_acl_white_list (Ok <$> lines) (database_acl scan) t) = Ok ().
Proof.
  unfold merge_acl_white_list, mbind at 1, M_bind at 1. cbn [get_acl_whitelist database_acl].
  unfold db_get_acl_whitelist.
  destruct (read_lines_ok lines (list_to_set (scan _ (elements (t_acl t)))) [] false)
    as (new & -> & _ & _). unfold mbind, M_bind, lift. cbn [acl_whitelist database_acl acl_deny].
  match goal with |- context [for_eachM ?f ?l t] =>
    pose proof (for_each_modify_Ok (E:=string) (λ k t, set_acl_keys ({[k]} ∪ t_acl t) t) l t) as Hw end.
  unfold db_acl_whitelist. destruct (for_eachM _ _ t) as [r t1]. simpl in Hw. subst r.
  destruct (false || _); [|done]. apply (for_each_modify_Ok (λ k t, set_acl_keys (t_acl t ∖ {[k]}) t)).
Qed.

Lemma merge_only_acl lines t :
  let t' := snd (merge_acl_white_list lines (database_acl scan) t) in t' = set_acl_keys (t_acl t') t.
Proof.
  apply (keeps_snd (λ t', t' = set_acl_keys (t_acl t') t)); [|by destruct t].
  apply merge_keeps; [by intros s Hs|intros k; apply keeps_modify; intros s ->; by destruct t..].
Qed.

(** Refreshing the whitelist: a list that was downloaded completely and has a line
    makes the node accept exactly the authors on it; an empty list changes nothing; and
    when the request fails, is not answered with 200 or breaks off while it is read, the
    refresh reports an error and the whole database is as before.  No other table
    changes in any case. *)
Theorem sync_spec text url resp t :
  let '(r, t') := sync text url resp (database_acl scan) t in
  (∀ u lines, url = Ok u → resp = Ok (200%Z, Ok <$> lines) →
     r = Ok () ∧
     (lines = [] → t' = t) ∧
     (lines ≠ [] → t' = set_acl_keys (parsed_keys lines) t ∧
        ∀ k, acl_contains (database_contains t') k = Ok (bool_decide (k ∈ parsed_keys lines)))) ∧
  ((∃ e, url = Err e) ∨ (∃ e, resp = Err e) ∨ (∃ status lines, resp = Ok (status, lines) ∧ status ≠ 200%Z) ∨
   (∃ lines, resp = Ok (200%Z, lines) ∧ Exists (λ l, ∃ e, l = Err e) lines ∧ Forall (λ l, l ≠ Panic) lines) →
     r ≠ Ok () ∧ t' = t).
Proof.
  destruct (sync text url resp (database_acl scan) t) as [r t'] eqn:Hsync. split.
  - intros u lines -> ->. change (merge_acl_white_list (Ok <$> lines) (database_acl scan) t = (r, t')) in Hsync.
    pose proof (merge_database_Ok lines t) as Hr. rewrite Hsync in Hr. simpl in Hr. subst r.
    pose proof (merge_acl_aux _ _ (database_acl_laws scan scan_perm) _ _ _ _ Hsync) as Ha.
    pose proof (merge_only_acl (Ok <$> lines) t) as Ht. rewrite Hsync in Ht. simpl in Ht.
    split_and!; [done|intros ->|intros Hne; rewrite bool_decide_eq_false_2 in Ha by done]; rewrite Ht, Ha.
    + by destruct t.
    + split; [done|]. intros k. done.
  - intros Hbad. assert (sync text url resp (database_acl scan) t = (r, t') → r ≠ Ok () ∧ t' = t) as Hgoal;
      [|by apply Hgoal]. clear Hsync. unfold sync, mbind at 1, M_bind at 1, lift at 1.
    destruct url as [u|e|]; [|by intros [= <- <-]..].
    unfold mbind at 1, M_bind at 1, lift at 1.
    destruct resp as [[status lines]|e|]; [|by intros [= <- <-]..].
    destruct (Z.eqb_spec status 200) as [->|Hne]; [|by intros [= <- <-]].
    destruct Hbad as [[e ?]|[[e ?]|[(x & l & [= <- <-] & ?)|(l & [= <-] & Hex & Hnp)]]]; [done..|].
    unfold merge_acl_white_list, mbind at 1, M_bind at 1. cbn [get_acl_whitelist database_acl].
    unfold db_get_acl_whitelist, mbind at 1, M_bind at 1, lift.
    destruct (read_lines_err lines (list_to_set (scan _ (elements (t_acl t)))) [] false Hex Hnp) as [e ->].
    by intros [= <- <-].
Qed.
End whitelist.

(** ** Witnesses *)

Section node_witnesses.
#[local] Existing Instances hex_crate secp_toy secp_toy_laws sha3_toy bigint_toy bincode_toy lru_list
  url_toy uuid_toy wire_toy.

(** A node with two programs deployed and one key on its whitelist. *)
Definition nd_scan (A : Type) (l : list A) : list A := l.
Definition nd_deploy : Transaction Validated :=
  db_tx "d" (Payload.Deploy "d" (db_metadata "p") (db_metadata "v")).
Definition nd_tables : Tables :=
  set_acl_keys {[toy_key "k"]} (snd (add_transaction nd_deploy Tables_new)).
Definition nd_total : ResourceManager := MkResourceManager 8192 8 0.
Definition nd_start : Node :=
  MkNode (EventLoop_new nd_tables) (SchedulerState_new (MkProgramManager nd_total (MkHost Qemu_new ∅))) ∅ []
    AtReap.
Definition nd_run (h : History) (n : Node) : Prop :=
  node_run nd_scan toy_config (toy_key "n") "http://h" nd_total {[toy_key "k"]} h n.

Definition nd_loop (n : Node) (o : option (EventLoop Tables)) : Node :=
  match o with Some el => set_loop n el | None => n end.

(** A workflow arrives by RPC. *)
Definition nd_send (id : CallbackId) (n : Node) : Node := on_node_channel (rpc_send_tx id demo_tx) n.

(** The event loop takes the first message, its task verifies it, and the loop finishes it. *)
Definition nd_receive (n : Node) : Node := nd_loop n (on_receive (n_loop n)).
Definition nd_verify (n : Node) : Node :=
  nd_loop n (on_task (database_contains (n_tables n)) (λ _, Ok ()) true 0 (n_loop n)).
Definition nd_finish (n : Node) : Node :=
  nd_loop n (on_finished (database_storage nd_scan) 0 0 (n_loop n)).
Definition nd_process (n : Node) : Node := nd_finish (nd_verify (nd_receive n)).
Definition nd_queued : Node := nd_process (nd_send 0 nd_start).

(** Its first task is scheduled, taken by a VM and answered. *)
Definition nd_provider : Provider Host :=
  qemu_provider toy_config (λ _, true) (λ _, true) (λ _, toy_env (Ok ())).
Definition nd_step (n : Node) : Node :=
  on_turn (turn_step nd_provider (database_tx_store nd_scan) db_find_program (engine nd_scan 5 0%Z)
    0 (λ _, Ok true) (data_directory toy_config)) n.
Definition nd_turn (n : Node) : Node := Nat.iter 6 nd_step n.
Definition nd_scheduled : Node := nd_turn nd_queued.
Definition nd_take (n : Node) : Node := on_world (get_task nd_provider 1 srv_conn (n_qemu n)) n.
Definition nd_taken : Node := nd_take nd_scheduled.
Definition nd_request : TaskResultRequest :=
  MkTaskResultRequest (Hash_to_string (hash demo_tx)) (Some (TaskOk [zero] [])).
Definition nd_answer (n : Node) : Node :=
  on_world (server_submit_result nd_provider (database_tx_store nd_scan) (toy_key "n")
    (data_directory toy_config) (data_directory toy_config) "http://h" 1 (Ok ()) srv_conn
    (n_qemu n) nd_request) n.
Definition nd_answered : Node := nd_answer nd_taken.

(** The history of the run up to each of these. *)
Definition nd_sent_h (id : CallbackId) (n : Node) (h : History) : History :=
  record n (nd_send id n) [] h.
Definition nd_take_h (n : Node) (h : History) : History :=
  record n (nd_take n) (task_for nd_provider 1 srv_conn n) h.
Definition nd_answer_h (n : Node) (h : History) : History := record n (nd_answer n) [] h.
Definition nd_queued_h : History := nd_sent_h 0 nd_start (MkHistory [] []).
Definition nd_answered_h : History := nd_answer_h nd_taken (nd_take_h nd_scheduled nd_queued_h).

Lemma nd_total_u64 : rm_u64 nd_total.
Proof. unfold rm_u64, in_u64, u64_MAX. simpl. lia. Qed.

Lemma nd_tables_wf : db_wf nd_tables.
Proof.
  apply wf_acl. apply (keeps_snd db_wf); [apply add_transaction_keeps_wf|apply Tables_new_wf].
Qed.

Lemma nd_start_run : nd_run (MkHistory [] []) nd_start.
Proof. apply (node_start _ _ _ _ _ nd_tables); [apply nd_tables_wf|done]. Qed.
Lemma nd_send_run id h n : nd_run h n → nd_run (nd_sent_h id n h) (nd_send id n).
Proof. apply node_rpc. Qed.
Lemma nd_process_run h n : nd_run h n → nd_run h (nd_process n).
Proof.
  intros H0.
  assert (nd_run h (nd_receive n)) as H1.
  { unfold nd_receive, nd_loop. destruct (on_receive (n_loop n)) eqn:E; [|done]. by eapply node_receive. }
  assert (nd_run h (nd_verify (nd_receive n))) as H2.
  { unfold nd_verify, nd_loop.
    destruct (on_task _ _ _ _ (n_loop (nd_receive n))) eqn:E; [|done]. by eapply node_verify. }
  unfold nd_process, nd_finish, nd_loop.
  destruct (on_finished _ _ _ (n_loop (nd_verify (nd_receive n)))) eqn:E; [|done]. by eapply node_finished.
Qed.
Lemma nd_turn_run h n : nd_run h n → nd_run h (nd_turn n).
Proof.
  intros Hn. unfold nd_turn. generalize 6. intros k. induction k as [|k IH]; [done|].
  exact (node_turn _ _ _ _ _ _ _ _ _ _ _ _ _ _ _ IH).
Qed.
Lemma nd_take_run h n : nd_run h n → nd_run (nd_take_h n h) (nd_take n).
Proof. apply node_get_task. Qed.
Lemma nd_answer_run h n : nd_run h n → nd_run (nd_answer_h n h) (nd_answer n).
Proof. apply node_submit. Qed.

Lemma nd_queued_run : nd_run nd_queued_h nd_queued.
Proof. apply nd_process_run, nd_send_run, nd_start_run. Qed.
Lemma nd_scheduled_run : nd_run nd_queued_h nd_scheduled.
Proof. apply nd_turn_run, nd_queued_run. Qed.
Lemma nd_answered_run : nd_run nd_answered_h nd_answered.
Proof. apply nd_answer_run, nd_take_run, nd_scheduled_run. Qed.

Example node_queue_stored_witness :
  let t := into_validated (into_received demo_tx Received.RPC) in
  has_tx (n_tables nd_queued) (hash t) = true ∧
  ∃ tx, t = into_validated tx ∧ validate tx = Ok () ∧ author tx ∈ ({[toy_key "k"]} : gset PublicKey).
Proof.
  apply (node_queue_stored nd_scan toy_config (toy_key "n") "http://h" nd_total {[toy_key "k"]} nd_queued_h nd_queued
    nd_total_u64 nd_queued_run).
  assert (deque (el_mempool (n_loop nd_queued)) = [into_validated (into_received demo_tx Received.RPC)])
    as -> by by_evaluation. by left.
Defined.

(** The task the scheduler queued for the workflow. *)
Definition nd_task : option Task :=
  '(t, _) ← (task_queue (n_sched nd_scheduled) !! hash demo_tx) ≫= head; Some t.

Lemma nd_task_some : is_Some nd_task.
Proof. apply (bool_decide_unpack _). by vm_compute. Qed.

Lemma nd_task_queued task :
  nd_task = Some task →
  ∃ q ts, task_queue (n_sched nd_scheduled) !! hash demo_tx = Some q ∧ (task, ts) ∈ q.
Proof.
  unfold nd_task. generalize (task_queue (n_sched nd_scheduled) !! hash demo_tx). intros o Ho.
  apply bind_Some in Ho as ([t ts] & (q & -> & Hh)%bind_Some & [= ->]).
  exists q, ts. split; [done|]. destruct q; [done|]. injection Hh as ->. by left.
Qed.

Example node_tasks_stored_witness :
  ∃ task, nd_task = Some task ∧ task_tx task = hash demo_tx ∧
          has_tx (n_tables nd_scheduled) (hash demo_tx) = true.
Proof.
  destruct nd_task_some as [task Htask]. exists task. split; [exact Htask|].
  exact (node_tasks_stored nd_scan toy_config (toy_key "n") "http://h" nd_total {[toy_key "k"]}
    nd_queued_h nd_scheduled (hash demo_tx) task nd_total_u64 nd_scheduled_run
    (or_intror (nd_task_queued task Htask))).
Defined.

Definition nd_result : option (Transaction Received.t) := fst <$> head (el_channel (n_loop nd_answered)).

Lemma nd_result_some : ∃ tx, nd_result = Some tx ∧ is_from_tx_exec_result (state tx) = true.
Proof.
  assert (from_option (λ tx, is_from_tx_exec_result (state tx)) false nd_result = true) as Hst
    by (by vm_compute).
  revert Hst. generalize nd_result. intros [tx|] Hst; [by exists tx|done].
Qed.

Lemma nd_result_sent tx : nd_result = Some tx → tx ∈ on_the_way (n_loop nd_answered).
Proof.
  intros Hm. apply elem_of_app. left. revert Hm.
  unfold nd_result. generalize (el_channel (n_loop nd_answered)). intros [|m l] Hm; [done|].
  injection Hm as <-. by left.
Qed.

Example node_results_own_witness :
  ∃ tx, nd_result = Some tx ∧ author tx = from_secret_key (toy_key "n") ∧ validate tx = Ok ().
Proof.
  destruct nd_result_some as (tx & Hr & Hst). exists tx. split; [exact Hr|].
  destruct (node_results_own nd_scan toy_config (toy_key "n") "http://h" nd_total {[toy_key "k"]} nd_answered_h
    nd_answered tx nd_total_u64 nd_answered_run (nd_result_sent tx Hr) Hst) as (Ha & _ & _ & Hv & _).
  split; [exact Ha|exact Hv].
Defined.

Example sync_spec_witness :
  let t' := snd (sync (λ _, "") (Ok "u") (Ok (200%Z, Ok <$> [demo_line "a"])) (database_acl nd_scan) nd_tables) in
  t' = set_acl_keys (parsed_keys [demo_line "a"]) nd_tables ∧
  ∀ k, acl_contains (database_contains t') k = Ok (bool_decide (k ∈ parsed_keys [demo_line "a"])).
Proof.
  pose proof (sync_spec nd_scan (λ A l, reflexivity l) (λ _, "") (Ok "u") (Ok (200%Z, Ok <$> [demo_line "a"]))
    nd_tables) as Hs.
  destruct (sync _ _ _ _ nd_tables) as [r t'].
  destruct Hs as [Hs _]. destruct (Hs "u" [demo_line "a"] eq_refl eq_refl) as (_ & _ & H1).
  by apply H1.
Defined.
End node_witnesses.
