(* ===== verification/Pipeline.v ===== *)
(** * An execution from end to end ([crates/node/src/scheduler/mod.rs], [vmm/vm_server.rs],
    [crates/shim/src/lib.rs])

    The way of one transaction from the head of the mempool to the result: a turn of the
    scheduling loop picks it, prepares its task and starts a VM; the program in the VM
    fetches the task, works and hands in its result, which is sent to validation as a new
    transaction.  The counterpart of [Submission] on the other side of the mempool. *)

From S2P Require Import Prelude Types Models Files Transaction Event Mempool Workflow Watchdog Resources Scheduler Turns Acl Database Vmm VmServer Protocol P2P Shim Node.

(** ** What is asked of the provider and of the store *)

(** [known vm p]: the provider has [vm].  Such a VM can be stopped, with or without an
    error, and the provider then still has the others. *)
Class StopLaws {P} (provider : Provider P) (known : VMHandle → P → Prop) : Prop := {
  stop_known vm p : known vm p → fst (stop_vm provider vm p) ≠ Panic;
  stop_others vm vm' p : known vm p → known vm' p → vm_id vm' ≠ vm_id vm →
    known vm' (snd (stop_vm provider vm p))
}.

(** Marking a transaction executed does not panic and leaves the programs alone. *)
Class MarkLaws `{Secp} {D} (tx_store : TransactionStore D)
    (find_program : D → Hash → result string (option Program)) : Prop := {
  mark_calm h d : fst (mark_tx_executed tx_store h d) ≠ Panic;
  mark_programs h d p : find_program (snd (mark_tx_executed tx_store h d)) p = find_program d p
}.

(** QEMU: a VM is known by its entry in the registry. *)
Definition qemu_known (vm : VMHandle) (h : Host) : Prop :=
  ∃ handle, vm_registry (host_qemu h) !! vm_id vm = Some handle ∧ cid handle = vm_id vm.

Lemma kill_and_wait_registry kill_ok wait_ok child h :
  host_qemu (snd (kill_and_wait kill_ok wait_ok child h)) = host_qemu h ∧
  fst (kill_and_wait kill_ok wait_ok child h) ≠ Panic.
Proof.
  unfold kill_and_wait. destruct child as [p|]; [|done]. destruct (kill_ok p); [|done].
  unfold mbind, M_bind, modify. simpl. by destruct (wait_ok p).
Qed.

Lemma release_lookup c q vm : vm ≠ c → vm_registry (release_cid c q) !! vm = vm_registry q !! vm.
Proof. intros Hne. unfold release_cid. case_bool_decide; [|done]. simpl. by rewrite lookup_delete_ne. Qed.

#[export] Instance qemu_stop_laws `{Hex} config kill_ok wait_ok env :
  StopLaws (qemu_provider config kill_ok wait_ok env) qemu_known.
Proof.
  split.
  - intros vm p (hd & Hl & _). simpl. unfold Qemu_stop_vm, mbind, M_bind, get. rewrite Hl.
    destruct (kill_and_wait_registry kill_ok wait_ok (child hd) p) as [_ Hn].
    by destruct (kill_and_wait _ _ _ p) as [[] h].
  - intros vm vm' p (hd & Hl & Hc) (hd' & Hl' & Hc') Hne. simpl. unfold Qemu_stop_vm, mbind, M_bind, get.
    rewrite Hl. destruct (kill_and_wait_registry kill_ok wait_ok (child hd) p) as [Hq _].
    exists hd'. split; [|done]. destruct (kill_and_wait _ _ _ p) as [[] h]; simpl in *; rewrite Hq; [|done..].
    by rewrite lookup_delete_ne, release_lookup by congruence.
Qed.

#[export] Instance database_mark_laws `{Secp} scan : MarkLaws (database_tx_store scan) db_find_program.
Proof.
  split; [done|]. intros h t p. simpl. unfold db_mark_tx_executed, modify. simpl.
  by destruct (t_transaction t !! h).
Qed.

Section pipeline.
Context `{HexLaws, SL : SecpLaws, Sha3, NumBigint, Bincode}.
Context {P D : Type} (provider : Provider P) (tx_store : TransactionStore D).
Context (find_program : D → Hash → result string (option Program)).
Context (engine_next_task : Transaction Validated → M D WorkflowError.t (option Task)).
#[local] Abbreviation World := (World (P:=P) (D:=D)).

Context (known : VMHandle → P → Prop) `{!StopLaws provider known, !MarkLaws tx_store find_program}.

(** The VMs of the scheduler are known to the provider, each under an id of its own. *)
Definition vms_known (st : SchedulerState P) : Prop :=
  (∀ h vm, running_vms st !! h = Some vm → known (vm_handle vm) (vm_provider (program_manager st))) ∧
  (∀ h h' vm vm', running_vms st !! h = Some vm → running_vms st !! h' = Some vm' →
     vm_id (vm_handle vm) = vm_id (vm_handle vm') → h = h').

(** Nothing is pending, and nothing of [h] is queued or running. *)
Definition free_for (h : Hash) (st : SchedulerState P) : Prop :=
  pending_programs st = [] ∧ task_queue st !! h = None ∧ running_tasks st !! h = None.

Definition reapable (h : Hash) (st : SchedulerState P) : Prop := vms_known st ∧ free_for h st.

Lemma attempt_total {S E F A} (I : S → Prop) (m : M S E A) :
  keeps I m → (∀ s, I s → fst (m s) ≠ Panic) → hoare I (attempt (F:=F) m) (λ _, I) (λ _, False).
Proof.
  intros Hm Hp s Hs. specialize (Hm s Hs). specialize (Hp s Hs). unfold attempt.
  by destruct (m s) as [[] ?].
Qed.

Lemma hoare_total {S E A} (m : M S E A) P0 Q s :
  hoare P0 m Q (λ _, False) → P0 s → ∃ a s', m s = (Ok a, s') ∧ Q a s'.
Proof. intros Hm Hs. specialize (Hm s Hs). destruct (m s) as [[a|e|] s']; [by exists a, s'|done..]. Qed.

Lemma vms_remove_and_stop tx : keeps vms_known (remove_and_stop provider tx).
Proof.
  intros st [Hk Hi]. unfold remove_and_stop, on_pm. destruct (running_vms st !! tx) as [vm|] eqn:Hvm; [|done].
  simpl. unfold stop_program.
  pose proof (λ vm', stop_others (vm_handle vm) vm' _ (Hk _ _ Hvm)) as Hothers.
  destruct (stop_vm _ _ _) as [r p]. simpl in Hothers.
  assert (vms_known (MkSchedulerState
    (drop_handle vm (MkProgramManager (resource_manager (program_manager st)) p)) (pending_programs st)
    (running_tasks st) (delete tx (running_vms st)) (task_queue st))) as Hgoal.
  { split; simpl.
    - intros h vm' [Hne Hl]%lookup_delete_Some. apply Hothers; [by eapply Hk|].
      intros Heq. apply Hne. by eapply Hi.
    - intros h h' v v' [_ Hl]%lookup_delete_Some [_ Hl']%lookup_delete_Some. by apply Hi. }
  by destruct r.
Qed.

Lemma reapable_remove_and_stop h tx : keeps (reapable h) (remove_and_stop provider tx).
Proof.
  intros st [Hv (Hp & Hq & Ht)]. pose proof (vms_remove_and_stop tx st Hv) as Hv'.
  destruct (remove_and_stop provider tx st) as [r st'] eqn:Hr.
  apply remove_and_stop_fields in Hr as (_ & Ht' & Hp' & Hq'). unfold reapable, free_for.
  destruct r; rewrite Hp', Hq', Ht'; by split.
Qed.

Lemma remove_and_stop_no_panic h tx st : reapable h st → fst (remove_and_stop provider tx st) ≠ Panic.
Proof.
  intros [[Hk _] _]. unfold remove_and_stop, on_pm. destruct (running_vms st !! tx) as [vm|] eqn:Hvm; [|done].
  simpl. unfold stop_program.
  pose proof (stop_known (vm_handle vm) (vm_provider (program_manager st)) (Hk _ _ Hvm)) as Hn.
  by destruct (stop_vm _ _ _) as [[] p].
Qed.

Lemma attempt_stop h tx :
  hoare (reapable h) (attempt (F:=string) (remove_and_stop provider tx)) (λ _, reapable h) (λ _, False).
Proof. apply attempt_total; [apply reapable_remove_and_stop|apply remove_and_stop_no_panic]. Qed.

(** Reaping always comes to its end. *)
Lemma free_reap h now alive :
  hoare (reapable h) (reap_zombies provider now alive) (λ _, reapable h) (λ _, False).
Proof.
  unfold reap_zombies.
  eapply (hoare_bind _ _ _ (λ _, reapable h)); [by apply hoare_get|]. intros st0.
  eapply (hoare_bind _ _ _ (λ _, reapable h)).
  - apply (hoare_for_eachM _ (λ _, reapable h)). intros tx _. unfold reap_task.
    eapply (hoare_bind _ _ _ (λ _, reapable h)); [apply attempt_stop|]. intros _. apply hoare_modify.
    intros st [Hv (Hp & Hq & Ht)]. split; [exact Hv|]. split_and!; [done|done|]. simpl.
    rewrite lookup_delete_None. by right.
  - intros _. eapply (hoare_bind _ _ _ (λ _, reapable h)); [by apply hoare_get|]. intros st1.
    apply (hoare_for_eachM _ (λ _, reapable h)). intros tx _.
    eapply (hoare_bind _ _ _ (λ _, reapable h)); [apply attempt_stop|]. intros _. by apply hoare_ret.
Qed.

(** Copying comes to its end as well; all it changes are files and marks in the store. *)
Definition rest_is (st : SchedulerState P) (q : list (Transaction Validated)) (ch : Channel) (d : D)
    (w : World) : Prop :=
  w_state w = st ∧ deque (w_mempool w) = q ∧ w_channel w = ch ∧
  ∀ p, find_program (storage (w_mempool w)) p = find_program d p.

Lemma copy_total st q ch d dir task l :
  hoare (rest_is st q ch d) (for_eachM (copy_task_file tx_store dir task) l)
    (λ _, rest_is st q ch d) (λ _, False).
Proof.
  apply (hoare_for_eachM _ (λ _, rest_is st q ch d)). intros file _. unfold copy_task_file.
  eapply (hoare_bind _ _ _ (λ _, rest_is st q ch d)).
  { apply attempt_total.
    - intros w ?. unfold on_fs. by destruct (copy_file_for_vm_exe _ _ _ _) as [[] f].
    - intros w _. unfold on_fs, copy_file_for_vm_exe. by destruct (w_fs w !! _). }
  intros [[]|e|]; [by apply hoare_ret|..];
    (eapply (hoare_bind _ _ _ (λ _, rest_is st q ch d)); [|intros _; by apply hoare_ret]);
    (apply attempt_total; [intros w (?&?&?&Hd)|intros w _]; unfold on_db;
      pose proof (mark_calm (task_tx task) (storage (w_mempool w)));
      pose proof (mark_programs (task_tx task) (storage (w_mempool w))) as Hm;
      destruct (mark_tx_executed _ _ _) as [[] d']; try done;
      split_and!; try done; intros p; simpl in *; by rewrite Hm).
Qed.

(** With the programs of [d], in the state [st], the resources for the program of [task]
    are free and its VM starts. *)
Definition startable (d : D) (task : Task) (st : SchedulerState P) : Prop :=
  is_ok (fst (start_program provider (find_program d) (task_tx task) (task_program_id task) None
                (program_manager st))) = true.

Lemma start_program_ext (f g : Hash → result string (option Program)) tx p l pm :
  f p = g p → start_program provider f tx p l pm = start_program provider g tx p l pm.
Proof. intros Hfg. unfold start_program. by rewrite Hfg. Qed.

Lemma schedule_started now db d task st :
  (∀ p, find_program db p = find_program d p) → startable d task st → free_for (task_tx task) st →
  ∃ st', schedule_task provider find_program now db task st = (Ok (), st') ∧
    is_Some (running_vms st' !! task_tx task) ∧ running_tasks st' !! task_tx task = None ∧
    task_queue st' !! task_tx task = Some [(task, now)].
Proof.
  intros Hd Hs (Hp & Hq & Ht). unfold schedule_task, mbind at 1, M_bind at 1, modify at 1.
  unfold mbind, M_bind, attempt, on_pm.
  change (program_manager (push_task now task st)) with (program_manager st).
  rewrite (start_program_ext (find_program db) (find_program d)) by apply Hd. unfold startable in Hs.
  destruct (start_program _ _ _ _ _ (program_manager st)) as [[p|e|] pm]; [|done..].
  eexists. split; [done|]. simpl. rewrite lookup_insert_eq. split; [by eexists|]. split; [done|].
  unfold push_task. simpl. by rewrite lookup_insert_eq, Hq.
Qed.

(** One turn with nothing pending. *)
Lemma turn_starts now alive dir tx rest task d (w : World) :
  reapable (task_tx task) (w_state w) → deque (w_mempool w) = tx :: rest →
  engine_next_task tx (storage (w_mempool w)) = (Ok (Some task), d) →
  startable d task (snd (reap_zombies provider now alive (w_state w))) →
  ∃ w', run_turn provider tx_store find_program engine_next_task now alive dir w = (Ok (), w') ∧
    deque (w_mempool w') = rest ∧ w_channel w' = w_channel w ∧
    is_Some (running_vms (w_state w') !! task_tx task) ∧
    running_tasks (w_state w') !! task_tx task = None ∧
    task_queue (w_state w') !! task_tx task = Some [(task, now)].
Proof.
  intros Hfree Hdq Heng Hst. rewrite run_turn_cases.
  destruct (hoare_total _ _ _ _ (free_reap (task_tx task) now alive) Hfree) as ([] & st1 & Hr & [_ Hfree1]).
  rewrite Hr in Hst. unfold on_state at 1. rewrite Hr. pose proof Hfree1 as (Hp & _ & _).
  unfold on_state at 1, start_pending. cbn [w_state]. rewrite Hp.
  unfold pick_task, loop_ok, next. cbn [start_pending_loop mret M_ret w_mempool w_state]. rewrite Hdq.
  cbn [w_mempool w_state w_fs w_signals w_channel storage]. rewrite Heng. cbn [deque].
  unfold mbind, M_bind.
  match goal with |- context [for_eachM _ _ ?w3] =>
    destruct (hoare_total _ _ _ w3 (copy_total st1 rest (w_channel w) d dir task (task_files task)))
      as ([] & w4 & -> & (Hs4 & Hd4 & Hc4 & Hp4)); [done|] end.
  unfold start_task, mbind, M_bind, signal, modify, get, on_state. simpl. rewrite Hs4.
  destruct (schedule_started now (storage (w_mempool w4)) d task st1 Hp4 Hst Hfree1)
    as (st' & -> & Hvm & Hrt & Hq).
  eexists. split; [done|]. by simpl.
Qed.

(** The VM's first request. *)
Lemma fetch_scheduled now now' task st :
  running_tasks st !! task_tx task = None → task_queue st !! task_tx task = Some [(task, now)] →
  ∃ st', get_pending_task provider now' (task_tx task) st = (Ok (Some task), st') ∧
    running_tasks st' !! task_tx task = Some (MkRunningTask task now now').
Proof.
  intros Ht Hq. unfold get_pending_task, mbind, M_bind, get. rewrite Ht, Hq. eexists. split; [done|].
  simpl. apply lookup_insert_eq.
Qed.

(** C13: An execution from end to end.  Suppose the provider has the scheduler's VMs, each
    under its own id; no program is pending and nothing of the transaction is queued or
    running; and the first transaction of the mempool has a next task whose program,
    looked up in the database as the workflow engine leaves it, can be started once dead
    VMs are reaped.  Then one turn of the scheduling
    loop takes the transaction from the mempool, copies what inputs it can and starts the
    VM; and whatever program runs in the VM, if it computes a result under the id of its
    task without a panic, it is given exactly this task, ends after it,
    and when its result can be handed in, exactly one transaction is sent to validation: a
    proof or verification whose parent is the task's transaction, made by the program of
    the VM, with the data and files the program returned, which every node accepts.  After
    it neither the task nor its VM is left. *)
Theorem execution_spec blake3 root key dir data_dir host now now' alive id answer
    tx rest task d (w : World) conn q program c callback data files fuel :
  let h := task_tx task in
  reapable h (w_state w) → deque (w_mempool w) = tx :: rest →
  engine_next_task tx (storage (w_mempool w)) = (Ok (Some task), d) →
  startable d task (snd (reap_zombies provider now alive (w_state w))) →
  identify conn q = Ok (h, program, c) →
  callback (shim_task task) ≠ Panic → (∀ r, callback (shim_task task) = Ok r → sr_id r = Hash_to_string h) →
  callback_result blake3 root (callback (shim_task task)) = TaskOk data files →
  let '(turn, w1) := run_turn provider tx_store find_program engine_next_task now alive dir w in
  let w2 := snd (on_state (get_pending_task provider now' h) w1) in
  turn = Ok () ∧ deque (w_mempool w1) = rest ∧ is_Some (running_vms (w_state w1) !! h) ∧
  (fst (submit_result provider tx_store key dir host id answer h program (TaskOk data files) w2) = Ok () →
   ∃ w3, shim_run (node_service provider tx_store key dir data_dir host now' id answer conn q) blake3 root
           (S fuel) callback w1 = (Ok (Some ()), w3) ∧
     ∃ result out,
       ch_queue (w_channel w3) = ch_queue (w_channel w) ++ [(into_received result Received.TXRESULT, Some id)] ∧
       (task_kind task = TaskKind.Proof ∧ payload result = Payload.Proof h program data out ∨
        task_kind task = TaskKind.Verification ∧ payload result = Payload.Verification h program data out) ∧
       (tf_name <$> out) = files.*1 ∧ validate (into_received result Received.TXRESULT) = Ok () ∧
       running_tasks (w_state w3) !! h = None ∧ running_vms (w_state w3) !! h = None).
Proof.
  intros h Hfree Hdq Heng Hst Hid Hnp Hsr Hres.
  destruct (turn_starts now alive dir tx rest task d w Hfree Hdq Heng Hst)
    as (w1 & -> & Hd1 & Hc1 & Hvm & Hrt & Hq).
  split_and!; [done..|].
  destruct (fetch_scheduled now now' task (w_state w1) Hrt Hq) as (st & Hget & Hrun).
  intros Hok. unfold on_state in Hok. fold h in Hget, Hrun. rewrite Hget in Hok. cbn [snd] in Hok.
  set (w2 := MkWorld st (w_mempool w1) (w_fs w1) (w_signals w1) (w_channel w1)) in Hok.
  eexists. split.
  { apply (vm_session_run _ _ blake3 root _ _ _ _ _ _ _ conn q h program c task st callback w1 fuel);
      [done..|]. rewrite Hres. fold w2. by rewrite Hok. }
  fold w2. rewrite Hres. unfold task_done.
  destruct (submit_result _ _ _ _ _ _ _ h program _ w2) as [r w'] eqn:Hsub. simpl in Hok. subst r.
  apply (submit_result_sent provider tx_store key dir host id answer h program data files
    (MkRunningTask task now now') w2) in Hsub as (result & out & Hch & Hn & Hpay & Hv & Hrt' & Hvm'); [|exact Hrun].
  exists result, out. simpl. rewrite Hch. simpl. rewrite Hc1. by split_and!.
Qed.
End pipeline.

(** ** Witness *)

(** The node of [Node.v] over its database, with the workflow engine and QEMU: it has
    received a workflow, which is the next transaction to execute. *)
Section pipeline_witness.
#[local] Existing Instances hex_crate secp_toy secp_toy_laws sha3_toy bigint_toy bincode_toy lru_list
  url_toy uuid_toy wire_toy.

#[local] Abbreviation NodeWorld := (World (P:=Host) (D:=Tables)).
Definition pipe_world : NodeWorld := world_of nd_queued.
Definition pipe_tx : Transaction Validated := into_validated (into_received demo_tx Received.RPC).
Definition pipe_next : result WorkflowError.t (option Task) * Tables :=
  engine nd_scan 5 0%Z pipe_tx (w_tables pipe_world).
Definition pipe_task : Task :=
  match fst pipe_next with Ok (Some task) => task | _ => toy_task wf_run end.

(** The program answers with one byte and no files. *)
Definition pipe_callback (t : ShimTask) : result string ShimResult := task_result t [zero] [].
Definition pipe_turn : result string () * NodeWorld :=
  run_turn nd_provider (database_tx_store nd_scan) db_find_program (engine nd_scan 5 0%Z) 0 (λ _, Ok true)
    "/data" pipe_world.
(** The registry of QEMU when the VM asks for its task. *)
Definition pipe_qemu : Qemu := host_qemu (vm_provider (program_manager (w_state (snd pipe_turn)))).
Definition pipe_service : VmService NodeWorld :=
  node_service nd_provider (database_tx_store nd_scan) (toy_key "n") "/data" "/data" "http://h" 5 3 (Ok ())
    srv_conn pipe_qemu.

Lemma pipe_reapable : reapable qemu_known (hash demo_tx) (w_state pipe_world).
Proof.
  assert (running_vms (w_state pipe_world) = ∅) as He by by_evaluation.
  split; [split|split_and!; by_evaluation]; rewrite He; [intros h vm|intros h h' vm vm']; by rewrite lookup_empty.
Qed.
Lemma pipe_deque : deque (w_mempool pipe_world) = [pipe_tx].
Proof. by_evaluation. Qed.
Lemma pipe_task_hash : task_tx pipe_task = hash demo_tx.
Proof. by_evaluation. Qed.
Lemma pipe_next_task : engine nd_scan 5 0%Z pipe_tx (w_tables pipe_world) = (Ok (Some pipe_task), snd pipe_next).
Proof.
  assert (match fst pipe_next with Ok (Some _) => true | _ => false end = true) as Hn by by vm_compute.
  change (pipe_next = (Ok (Some pipe_task), snd pipe_next)). unfold pipe_task.
  destruct pipe_next as [[[task|]|e|] d]; done.
Qed.
Lemma pipe_startable :
  startable nd_provider db_find_program (snd pipe_next) pipe_task
    (snd (reap_zombies nd_provider 0 (λ _, Ok true) (w_state pipe_world))).
Proof. by vm_compute. Qed.
Lemma pipe_identify : identify srv_conn pipe_qemu = Ok (hash demo_tx, fill "p", 4%Z).
Proof. by vm_compute. Qed.
Lemma pipe_submits :
  fst (submit_result nd_provider (database_tx_store nd_scan) (toy_key "n") "/data" "http://h" 3 (Ok ())
    (hash demo_tx) (fill "p") (TaskOk [zero] [])
    (snd (on_state (get_pending_task nd_provider 5 (hash demo_tx)) (snd pipe_turn)))) = Ok ().
Proof. by vm_compute. Qed.

Example execution_spec_witness :
  ∃ w1 w3 result out, pipe_turn = (Ok (), w1) ∧ deque (w_mempool w1) = [] ∧
    shim_run pipe_service id ∅ 1 pipe_callback w1 = (Ok (Some ()), w3) ∧
    ch_queue (w_channel w3) = [(into_received result Received.TXRESULT, Some 3)] ∧
    payload result = Payload.Proof (hash demo_tx) (fill "p") [zero] out ∧
    running_vms (w_state w3) !! hash demo_tx = None.
Proof.
  pose proof (execution_spec (H0:=hex_crate_laws) nd_provider (database_tx_store nd_scan) db_find_program
    (engine nd_scan 5 0%Z) qemu_known id ∅ (toy_key "n") "/data" "/data" "http://h" 0 5 (λ _, Ok true) 3 (Ok ())
    pipe_tx [] pipe_task (snd pipe_next) pipe_world srv_conn pipe_qemu (fill "p") 4 pipe_callback [zero] [] 0) as Hx.
  cbv zeta in Hx. rewrite pipe_task_hash in Hx.
  specialize (Hx pipe_reapable pipe_deque pipe_next_task pipe_startable pipe_identify ltac:(done)
    ltac:(intros r [= <-]; simpl; by rewrite pipe_task_hash) eq_refl).
  fold pipe_turn in Hx. pose proof pipe_submits as Hsub. fold pipe_service in Hx.
  destruct pipe_turn as [turn w1]. cbn [snd] in Hsub.
  destruct Hx as (-> & Hd & _ & Hx). destruct (Hx Hsub) as (w3 & Hrun & result & out & Hch & Hpay & _ & _ & _ & Hvm).
  exists w1, w3, result, out. split; [done|]. split; [exact Hd|]. split; [exact Hrun|].
  split; [exact Hch|]. split; [|exact Hvm]. destruct Hpay as [[_ Hp]|[Hk _]]; [exact Hp|].
  exfalso. revert Hk. by vm_compute.
Defined.
End pipeline_witness.
