(* ===== verification/Executions.v ===== *)
(** * Every execution was asked for ([crates/node/src/mempool], [scheduler/mod.rs], [main.rs])

    How often the programs of a transaction run is counted over a whole run of [Node]:
    along the event loop, the wait caches, the mempool, the scheduling loop and the queues
    of the VMs transactions are neither invented nor duplicated, so VMs are given a task
    at most as often as its transaction was submitted.  It can be that often: nothing on
    the way recognises a transaction that was already executed. *)

From S2P Require Import Prelude Types Models Files Transaction Event Mempool Workflow Watchdog Resources Scheduler Turns Acl Database Vmm VmServer Protocol P2P Node.

(** ** Counting *)

Section counting.
Context {A : Type} (P : A → Prop) `{∀ x, Decision (P x)}.

Definition times (l : list A) : nat := length (filter P l).

Lemma times_app l k : times (l ++ k) = times l + times k.
Proof. unfold times. by rewrite filter_app, length_app. Qed.
Lemma times_nil : times [] = 0.
Proof. done. Qed.
Lemma times_cons x l : times (x :: l) = times [x] + times l.
Proof. exact (times_app [x] l). Qed.
Lemma times_one x : times [x] = if decide (P x) then 1 else 0.
Proof. unfold times. rewrite filter_cons. by destruct (decide (P x)). Qed.

Lemma times_submseteq l k : l ⊆+ k → times l ≤ times k.
Proof.
  intros (r & Hk)%submseteq_Permutation. unfold times. rewrite Hk, filter_app, length_app. lia.
Qed.

Lemma times_fmap {B} (f : B → A) l : times (f <$> l) = length (filter (λ x, P (f x)) l).
Proof.
  induction l as [|x l IH]; [done|]. rewrite fmap_cons, times_cons, times_one, filter_cons, IH.
  by destruct (decide (P (f x))).
Qed.
End counting.
#[local] Arguments times : simpl never.

(** ** The event loop *)

Section event_loop.
Context `{Hex, Secp, Sha3, NumBigint, Bincode, Lru, UrlParse}.

(** The transactions whose next task is a task of [h]: [h] itself, and the keys that
    name it as their parent. *)
Definition runs {St} (h : Hash) (tx : Transaction St) : Prop :=
  hash tx = h ∨ match payload tx with Payload.ProofKey parent _ => parent = h | _ => False end.
Global Instance runs_dec {St} h (tx : Transaction St) : Decision (runs h tx).
Proof. unfold runs. destruct (payload tx); apply _. Defined.

Lemma receive_on_the_way {S} (el el' : EventLoop S) :
  on_receive el = Some el' → on_the_way el' ⊆+ on_the_way el ∧ el_mempool el' = el_mempool el.
Proof.
  unfold on_receive, on_the_way. destruct (el_channel el) as [|[tx cb] rest]; [done|].
  intros [= <-]. simpl. split; [|done]. rewrite omap_app. simpl.
  apply Permutation_submseteq. solve_Permutation.
Qed.

Lemma omap_insert_sub {A B} (f : A → option B) (l : list A) i x y :
  l !! i = Some x → option_list (f y) ⊆+ option_list (f x) → omap f (<[i:=y]> l) ⊆+ omap f l.
Proof.
  intros Hi Hf. rewrite <-(take_drop_middle l i x Hi) at 2.
  rewrite insert_take_drop by (by eapply lookup_lt_Some).
  rewrite !omap_app. apply submseteq_skips_l.
  change (?a :: ?r) with ([a] ++ r). rewrite !omap_app. apply submseteq_skips_r.
  simpl. by destruct (f x), (f y).
Qed.

Lemma task_on_the_way {S} acl download p2p_open i (el el' : EventLoop S) :
  on_task acl download p2p_open i el = Some el' →
  on_the_way el' ⊆+ on_the_way el ∧ el_mempool el' = el_mempool el.
Proof.
  unfold on_task, on_the_way. destruct (el_futures el !! i) as [[[tx|] cb]|] eqn:Hi; [|done..].
  destruct (process_received acl download p2p_open tx (el_p2p el)) as [res p2p] eqn:Hp.
  intros [= <-]. simpl. split; [|done].
  apply submseteq_skips_l, submseteq_skips_r.
  eapply omap_insert_sub; [exact Hi|]. unfold fut_tx. simpl.
  destruct res as [ev|e|]; [|by apply submseteq_nil_l..].
  apply process_received_spec in Hp as [Hp _]. by destruct (Hp ev eq_refl) as [-> _].
Qed.

Lemma submseteq_app_lost {A} (lost l k : list A) : k ≡ₚ l ++ lost → l ⊆+ k.
Proof. intros ->. by apply submseteq_inserts_r. Qed.

Lemma dep_on_the_way now st ev s r s' :
  validate_tx_dep now ev st s = (r, s') →
  match r with Ok outs => ev_tx <$> outs | _ => [] end ++ parked s' ⊆+ ev_tx ev :: parked s.
Proof.
  intros Hrun.
  pose proof (hoare_run _ _ _ _ _ _ _ (validate_tx_dep_conserved now st _ _ ev)
    (conserved2_init now ev s) Hrun) as Hs.
  assert (∀ L, conserved2 now (ev :: waiting_list (programid_cache s) ++ waiting_list (parent_cache s))
    (fresh now (programid_cache s) ∧ fresh now (parent_cache s)) L s' →
    (ev_tx <$> L) ++ parked s' ⊆+ ev_tx ev :: parked s) as Hgoal.
  { intros L [(lost & Hp & _) _]. unfold parked. rewrite <-fmap_cons, <-Hp, <-fmap_app.
    apply fmap_submseteq, (submseteq_app_lost lost). solve_Permutation. }
  destruct r as [outs|e|].
  - destruct Hs as (l & -> & Hl). rewrite <-list_fmap_compose. by apply (Hgoal l).
  - destruct Hs as (X & HX). etrans; [|by apply (Hgoal X)]. by apply submseteq_inserts_l.
  - destruct Hs as (X & HX). etrans; [|by apply (Hgoal X)]. by apply submseteq_inserts_l.
Qed.

Lemma saved_outs {S} (st : MempoolStorage S) (outs : list (TxEvent NewTx)) res m r m' :
  save_txs st outs res m = (r, m') →
  ∃ queued, queued `sublist_of` (ev_tx <$> outs) ∧ deque m' = deque m ++ (into_validated <$> queued).
Proof.
  revert res m. induction outs as [|ev outs IH]; intros res m; simpl.
  { intros [= <- <-]. exists []. simpl. by rewrite app_nil_r. }
  unfold save_tx, send_new_tx, add.
  destruct (storage_set st _ (storage m)) as [[[]|e|] s']; simpl.
  - intros (l & Hl & Hd)%IH. exists (ev_tx ev :: l). split; [by apply sublist_skip|].
    rewrite Hd. simpl. by rewrite <-app_assoc.
  - intros (l & Hl & Hd)%IH. exists l. split; [by apply sublist_cons|done].
  - intros [= <- <-]. exists []. simpl. rewrite app_nil_r. split; [apply sublist_nil_l|done].
Qed.

(** What a step of the loop queues for execution was on the way. *)
Lemma finished_on_the_way {S} (st : MempoolStorage S) now i (el el' : EventLoop S) :
  on_finished st now i el = Some el' →
  ∃ queued : list (Transaction Received.t),
    deque (el_mempool el') = deque (el_mempool el) ++ (into_validated <$> queued) ∧
    on_the_way el' ++ queued ⊆+ on_the_way el.
Proof.
  unfold on_finished, on_the_way. destruct (el_stalled el); [done|].
  destruct (el_futures el !! i) as [[[tx|res] cb]|] eqn:Hi; [done| |done].
  apply (omap_delete_perm fut_tx) in Hi. unfold fut_tx at 2 in Hi. simpl in Hi.
  destruct res as [ev|e|].
  2,3: intros [= <-]; exists []; simpl; rewrite Hi, !app_nil_r; done.
  destruct (validate_tx_dep _ _ _ _) as [r deps] eqn:Hdep. pose proof (dep_on_the_way _ _ _ _ _ _ Hdep) as Hsub.
  destruct r as [outs|e|]; [| |done].
  - destruct (save_txs st outs (Ok ()) (el_mempool el)) as [[r|e|] m] eqn:Hs; [|done..].
    intros [= <-]. apply saved_outs in Hs as (queued & Hq & Hd). simpl. exists queued. split; [done|].
    assert (queued ++ parked deps ⊆+ ev_tx ev :: parked (el_deps el)) as Hle.
    { etrans; [|exact Hsub]. by apply submseteq_skips_r, sublist_submseteq. }
    rewrite Hi. change (option_list (Some (ev_tx ev))) with [ev_tx ev].
    trans ((el_channel el).*1 ++ omap fut_tx (delete i (el_futures el)) ++ queued ++ parked deps).
    { apply Permutation_submseteq. solve_Permutation. }
    trans ((el_channel el).*1 ++ omap fut_tx (delete i (el_futures el)) ++ ev_tx ev :: parked (el_deps el)).
    { by apply submseteq_skips_l, submseteq_skips_l. }
    apply Permutation_submseteq. solve_Permutation.
  - intros [= <-]. exists []. simpl. rewrite Hi, !app_nil_r. split; [done|].
    apply submseteq_skips_l.
    trans (omap fut_tx (delete i (el_futures el)) ++ ev_tx ev :: parked (el_deps el)).
    { by apply submseteq_skips_l. }
    apply Permutation_submseteq. simpl. solve_Permutation.
Qed.
End event_loop.

(** ** The scheduler *)

Section scheduler_counts.
Context `{Hex, Secp, Sha3, NumBigint, Bincode, Lru, UrlParse}.
Context {P D : Type} (provider : Provider P) (tx_store : TransactionStore D).
Context (find_program : D → Hash → result string (option Program)).
#[local] Abbreviation World := (World (P:=P) (D:=D)).

(** *** Nothing but scheduling and fetching a task changes the queues *)

Section queues.
Context (q0 : gmap Hash (list (Task * Z))).
Definition queues_are (st : SchedulerState P) : Prop := task_queue st = q0.

Lemma queues_remove_and_stop tx : keeps queues_are (remove_and_stop provider tx).
Proof.
  intros st Hst. destruct (remove_and_stop provider tx st) as [r st'] eqn:Hr.
  apply remove_and_stop_fields in Hr as (_ & _ & _ & Hq). unfold queues_are in *. destruct r; congruence.
Qed.

Lemma queues_reap_zombies now alive : keeps queues_are (reap_zombies provider now alive).
Proof.
  unfold reap_zombies. apply keeps_bind; [apply keeps_get|]. intros st0. apply keeps_bind.
  - apply keeps_for_eachM. intros tx. unfold reap_task.
    apply keeps_bind; [apply keeps_attempt, queues_remove_and_stop|]. intros _. by apply keeps_modify.
  - intros _. apply keeps_bind; [apply keeps_get|]. intros st1. apply keeps_for_eachM. intros tx.
    apply keeps_bind; [apply keeps_attempt, queues_remove_and_stop|intros _; apply keeps_ret].
Qed.

Lemma queues_on_pm {E A} (m : M (ProgramManager P) E A) : keeps queues_are (on_pm m).
Proof. intros st Hst. unfold on_pm. by destruct (m _) as [[] pm]. Qed.

Lemma queues_start_pending db l : keeps queues_are (start_pending_loop provider find_program db l).
Proof.
  induction l as [|[tx p] l IH]; cbn [start_pending_loop]; [apply keeps_ret|].
  apply keeps_bind; [by apply keeps_modify|]. intros _.
  apply keeps_bind; [apply keeps_attempt, queues_on_pm|].
  intros [h|e|]; (apply keeps_bind; [by apply keeps_modify|intros _]); [exact IH|apply keeps_ret..].
Qed.

(** *** Nor the mempool, and the channel only grows *)

Context (d0 : list (Transaction Validated)) (C : list Message → Prop).
Definition frozen (w : World) : Prop :=
  queues_are (w_state w) ∧ deque (w_mempool w) = d0 ∧ C (ch_queue (w_channel w)).

Lemma frozen_on_state {E A} (m : M (SchedulerState P) E A) : keeps queues_are m → keeps frozen (on_state m).
Proof.
  intros Hm w (Hq & ? & ?). specialize (Hm _ Hq). unfold on_state. by destruct (m _) as [[] st].
Qed.
Lemma frozen_on_db {E A} (m : M D E A) : keeps frozen (on_db m).
Proof. intros w ?. unfold on_db. by destruct (m _) as [[] d]. Qed.
Lemma frozen_on_fs {E A} (m : M fs E A) : keeps frozen (on_fs m).
Proof. intros w ?. unfold on_fs. by destruct (m _) as [[] d]. Qed.
Lemma frozen_on_channel {E A} (m : M Channel E A) :
  keeps (λ c, C (ch_queue c)) m → keeps frozen (on_channel m).
Proof.
  intros Hm w (? & ? & Hc). specialize (Hm _ Hc). unfold on_channel. by destruct (m _) as [[] c].
Qed.
Lemma frozen_signal {E} s : keeps (E:=E) frozen (signal s).
Proof. by apply keeps_modify. Qed.

Lemma frozen_copy dir task file : keeps frozen (copy_task_file tx_store dir task file).
Proof.
  apply keeps_bind; [apply keeps_attempt, frozen_on_fs|].
  intros []; [apply keeps_ret|..];
    (apply keeps_bind; [apply keeps_attempt, frozen_on_db|intros _; apply keeps_ret]).
Qed.

Context (HC : ∀ l m, C l → C (l ++ [m])).

Lemma send_grows m : keeps (λ c, C (ch_queue c)) (channel_send m).
Proof. intros c Hc. unfold channel_send. destruct (ch_open c); [|done]. by apply HC. Qed.

Lemma frozen_submit key dir host id answer tx program res :
  keeps frozen (submit_result provider tx_store key dir host id answer tx program res).
Proof.
  unfold submit_result. apply keeps_bind; [apply keeps_get|]. intros w.
  destruct (running_tasks (w_state w) !! tx) as [rt|]; [|apply keeps_throw].
  apply keeps_bind; [by apply frozen_on_state, keeps_modify|]. intros _.
  apply keeps_bind; [apply keeps_attempt, frozen_on_db|]. intros _.
  apply keeps_bind; [|intros _; apply frozen_on_state, queues_remove_and_stop].
  destruct res as [data files|code]; [|apply keeps_ret].
  apply keeps_bind; [apply keeps_lift|]. intros efs.
  apply keeps_bind; [apply keeps_lift|]. intros t.
  apply keeps_bind; [apply keeps_for_eachM; intros sd; apply frozen_on_fs|]. intros _.
  apply keeps_bind; [apply keeps_attempt, frozen_on_channel, send_grows|]. intros r.
  destruct (r ≫= λ _, answer) as [[]|e|]; [apply keeps_ret|apply keeps_throw..].
Qed.

Lemma frozen_server_submit key dir data_dir host id answer conn q request :
  keeps frozen
    (server_submit_result provider tx_store key dir data_dir host id answer conn q request).
Proof.
  unfold server_submit_result. apply keeps_bind; [apply keeps_lift|]. intros [[tx p] c].
  apply keeps_bind; [apply keeps_lift|]. intros h. apply keeps_bind.
  { case_bool_decide; [|apply keeps_ret]. destruct (req_result request); [|apply keeps_ret].
    apply keeps_bind; [apply keeps_attempt, frozen_submit|intros _; apply keeps_ret]. }
  intros _. apply keeps_bind; [by apply keeps_modify|intros _; apply keeps_ret].
Qed.
End queues.

(** *** Scheduling and fetching *)

Definition queued (h : Hash) (st : SchedulerState P) : nat := length (default [] (task_queue st !! h)).
Definition is_for (h : Hash) (task : Task) : Prop := task_tx task = h.
Global Instance is_for_dec h task : Decision (is_for h task).
Proof. unfold is_for. apply _. Defined.
#[local] Typeclasses Opaque is_for.
Lemma times_task h task : times (is_for h) [task] = if decide (task_tx task = h) then 1 else 0.
Proof. rewrite times_one. by repeat case_decide. Qed.
(** The task the loop has picked and not yet queued. *)
Definition in_hand (h : Hash) (pos : LoopPos) : nat := times (is_for h) (option_list (task_at pos)).

Lemma queued_same h (st st' : SchedulerState P) : task_queue st' = task_queue st → queued h st' = queued h st.
Proof. unfold queued. by intros ->. Qed.

Lemma get_pending_counts h now tx st :
  keyed st →
  let '(r, st') := get_pending_task provider now tx st in
  queued h st' + times (is_for h) (match r with Ok (Some task) => [task] | _ => [] end) ≤ queued h st.
Proof.
  intros [Hk _]. unfold get_pending_task, mbind at 1, M_bind at 1, get.
  destruct (running_tasks st !! tx) as [rt|].
  - pose proof (queues_remove_and_stop (task_queue st) tx st eq_refl) as Hq.
    unfold mbind, M_bind, attempt. destruct (remove_and_stop provider tx st) as [[[]|e|] st']; simpl;
      rewrite (queued_same h st st' Hq), times_nil; lia.
  - destruct (task_queue st !! tx) as [[|[task ts] rest]|] eqn:Hl; [simpl; rewrite times_nil; lia| |simpl; rewrite times_nil; lia].
    pose proof (Hk _ _ task ts Hl (list_elem_of_here _ _)) as Htx. cbn.
    unfold queued. simpl. rewrite times_task, Htx.
    destruct (decide (tx = h)) as [->|Hne].
    + rewrite lookup_insert_eq, Hl. simpl. lia.
    + rewrite lookup_insert_ne by done. lia.
Qed.

Lemma schedule_counts h now db task st :
  let '(r, st') := schedule_task provider find_program now db task st in
  queued h st' ≤ queued h st + times (is_for h) [task].
Proof.
  set (k := queued h st + times (is_for h) [task]).
  assert (queued h (push_task now task st) ≤ k) as Hpush.
  { unfold k, queued, push_task. simpl. rewrite times_task.
    destruct (decide (task_tx task = h)) as [->|Hne].
    - rewrite lookup_insert_eq. simpl. rewrite length_app. simpl. lia.
    - rewrite lookup_insert_ne by done. lia. }
  unfold schedule_task, mbind at 1, M_bind at 1, modify at 1.
  revert Hpush. generalize (push_task now task st). clearbody k. clear st. intros st Hst.
  match goal with |- let '(_, _) := ?m st in _ =>
    assert (keeps (λ st, queued h st ≤ k) m) as Hm; [|specialize (Hm st Hst); by destruct (m st) as [[] ?]] end.
  clear st Hst. apply keeps_bind.
  { apply keeps_attempt. intros st Hst. unfold on_pm. by destruct (start_program _ _ _ _ _ _) as [[] pm]. }
  intros [p|e|]; [by apply keeps_modify| |apply keeps_ret].
  apply keeps_bind; [|intros _; by apply keeps_modify].
  destruct e; [|apply keeps_ret..]. apply keeps_modify. intros st. unfold queued. simpl.
  destruct (decide (task_tx task = h)) as [->|Hne]; [rewrite lookup_delete_eq; simpl; lia|].
  by rewrite lookup_delete_ne.
Qed.
End scheduler_counts.

(** ** The node *)

Section executions.
Context `{Hex, Secp, Sha3, NumBigint, Bincode, Lru, UrlParse, Uuid, !Wire}.
Context (scan : ∀ A : Type, list A → list A).

(** A task of [h] comes from a transaction that runs [h]. *)
Lemma next_task_runs id tx wf t task t' :
  db_wf t → next_task_of (database_tx_store scan) id tx wf t = (Ok (Some task), t') →
  runs (task_tx task) tx.
Proof.
  intros Ht. unfold next_task_of, runs.
  assert (∀ k h step files, Some <$> workflow_step_to_task id h step files k = Ok (Some task) →
    task_tx task = h) as Hstep.
  { intros k h step files Hs. destruct (workflow_step_to_task id h step files k) as [x| |] eqn:E;
      [|done..]. injection Hs as ->. by apply result_bind_Ok in E as (? & _ & [= <-]). }
  destruct (payload tx) as [| | | | |[steps]|? ? ? files|parent key| |]; try done.
  - destruct steps as [|s l]; [done|]. intros [= Hs _]. rewrite (Hstep _ _ _ _ Hs). by left.
  - destruct wf as [[steps]|]; [|done]. simpl. destruct (position _ steps) as [i|]; [|done].
    case_decide; [done|]. destruct (index steps (i + 1)) as [s| |]; [|done..].
    intros [= Hs _]. rewrite (Hstep _ _ _ _ Hs). by left.
  - cbn [find_transaction database_tx_store].
    unfold db_find_transaction. destruct (t_transaction t !! parent) as [r|] eqn:Hr; [|done].
    destruct (find_payload _ _ _ _) as [p| |]; [|done..]. cbn.
    destruct p; try done. destruct wf as [[steps]|]; [|done]. simpl.
    destruct (position _ steps) as [i|]; [|done]. case_decide; [done|].
    destruct (index steps (i + 1)) as [s| |]; [|done..]. intros [= Hs _].
    rewrite (Hstep _ _ _ _ Hs). right. simpl. by rewrite (wf_hash t Ht _ _ Hr).
Qed.

Lemma engine_runs fuel id tx t task t' :
  db_wf t → engine scan fuel id tx t = (Ok (Some task), t') → runs (task_tx task) tx.
Proof.
  intros Ht. unfold engine, next_task. destruct (workflow_for_transaction _ _ _ _) as [[wf|e|]|]; [|done..].
  by apply next_task_runs.
Qed.

Section turn.
Context {P : Type} (provider : Provider P).
#[local] Abbreviation World := (World (P:=P) (D:=Tables)).
Context (h : Hash) (k : nat) (ch0 : list Message).

(** Executions of [h] that are still to come, with the loop at [pos]. *)
Definition to_come (pos : LoopPos) (w : World) : nat :=
  queued h (w_state w) + in_hand h pos + times (runs h) (deque (w_mempool w)).
Definition bounded (pos : LoopPos) (w : World) : Prop :=
  to_come pos w ≤ k ∧ ch_queue (w_channel w) = ch0.

Lemma bounded_dead pos w : bounded pos w → bounded LoopDead w.
Proof. intros [Hk Hc]. split; [|done]. unfold to_come in *. change (in_hand h LoopDead) with 0. lia. Qed.

Lemma bounded_frozen {E A} pos (m : M World E A) :
  (∀ q0 d0, keeps (frozen q0 d0 (λ l, l = ch0)) m) →
  hoare (bounded pos) m (λ _, bounded pos) (bounded LoopDead).
Proof.
  intros Hm w [Hk Hc].
  specialize (Hm (task_queue (w_state w)) (deque (w_mempool w)) w (conj eq_refl (conj eq_refl Hc))).
  assert (∀ w', frozen (task_queue (w_state w)) (deque (w_mempool w)) (λ l, l = ch0) w' → bounded pos w') as Hgoal.
  { intros w' (Hq & Hd & Hc'). split; [|done]. unfold to_come in *. by rewrite (queued_same _ _ _ Hq), Hd. }
  destruct (m w) as [[] w']; [by apply Hgoal|by eapply bounded_dead, Hgoal..].
Qed.

(** A step that leaves queues and mempool alone and takes no task. *)
Lemma bounded_step {A} (m : M World string A) pos pos' :
  in_hand h pos' = in_hand h pos → (∀ q0 d0, keeps (frozen q0 d0 (λ l, l = ch0)) m) →
  hoare (bounded pos) (_ ← m; mret pos') bounded (bounded LoopDead).
Proof.
  intros Hp Hm. eapply (hoare_bind _ _ _ (λ _, bounded pos)).
  - by apply bounded_frozen.
  - intros _. apply hoare_ret. intros w [Hk Hc]. split; [|done]. unfold to_come in *. lia.
Qed.

Lemma bounded_pick fuel id :
  hoare (λ w, bounded AtPickTask w ∧ db_wf (w_tables w)) (pick_task (engine scan fuel id))
    (λ r, bounded (match fst r with
                   | None => AtMempoolLen (snd r)
                   | Some task => AtCopy task (task_files task) (snd r)
                   end))
    (bounded LoopDead).
Proof.
  intros w [[Hk Hc] Hw]. unfold pick_task, next. unfold to_come in Hk.
  destruct (deque (w_mempool w)) as [|tx rest] eqn:Hd; [split; [by unfold to_come; rewrite Hd|done]|].
  rewrite times_cons in Hk. cbn [storage].
  destruct (engine scan fuel id tx (storage (w_mempool w))) as [r t'] eqn:He.
  destruct r as [[task|]|e|]; (split; [unfold to_come, in_hand in *; simpl in *; rewrite ?times_nil in *|done]);
    [|lia..].
  rewrite times_task. case_decide as Hh; [|lia].
  apply engine_runs in He; [|done]. rewrite Hh in He.
  rewrite (times_one _ tx), decide_True in Hk by done. lia.
Qed.

Lemma bounded_turn_step now alive dir fuel id pos :
  hoare (λ w, bounded pos w ∧ db_wf (w_tables w))
    (turn_step provider (database_tx_store scan) db_find_program (engine scan fuel id) now alive dir pos)
    bounded (bounded LoopDead).
Proof.
  assert (∀ A (m : M World string A) pos', in_hand h pos' = in_hand h pos →
    (∀ q0 d0, keeps (frozen q0 d0 (λ l, l = ch0)) m) →
    hoare (λ w, bounded pos w ∧ db_wf (w_tables w)) (_ ← m; mret pos') bounded (bounded LoopDead)) as Hs.
  { intros A m pos' Hp Hm. eapply hoare_conseq; [by apply (bounded_step m pos pos')|by intros w []|done|done]. }
  destruct pos as [| | | |size|task [|file rest] size|task|]; cbn [turn_step].
  - apply Hs; [done|]. intros. apply frozen_on_state, queues_reap_zombies.
  - eapply (hoare_bind _ _ _ (λ _, bounded AtPendingPrograms)); [apply hoare_get; by intros w []|].
    intros w0. eapply (hoare_bind _ _ _ (λ _, bounded AtPendingPrograms)).
    + apply bounded_frozen. intros. apply frozen_on_state. intros st. apply queues_start_pending.
    + intros started. apply hoare_ret. intros w Hw. by destruct started.
  - apply Hs; [done|]. intros. apply frozen_signal.
  - eapply hoare_bind; [apply bounded_pick|]. intros [[task|] size]; by apply hoare_ret.
  - apply Hs; [done|]. intros. apply frozen_signal.
  - apply Hs; [done|]. intros. apply frozen_signal.
  - apply Hs; [done|]. intros. apply frozen_copy.
  - eapply (hoare_bind _ _ _ (λ _, bounded (AtStart task))); [apply hoare_get; by intros w []|]. intros w0.
    eapply (hoare_bind _ _ _ (λ _, bounded LoopDead)); [|intros _; by apply hoare_ret].
    intros w [Hk Hc]. unfold on_state.
    pose proof (schedule_counts provider db_find_program h now (storage (w_mempool w0)) task (w_state w)) as Hq.
    unfold to_come, in_hand in Hk. simpl in Hk.
    destruct (schedule_task _ _ _ _ _ (w_state w)) as [[] st];
      (split; [unfold to_come, in_hand; simpl; rewrite times_nil; lia|done]).
  - apply hoare_ret. by intros w [].
Qed.
End turn.

Context (config : Config) (node_key : SecretKey) (http_download_host : string).
Context (total : ResourceManager).

(** Tasks of [h] given to VMs, still to be given, and transactions that may cause more,
    against those that were submitted. *)
Definition exec_inv (h : Hash) (hist : History) (n : Node) : Prop :=
  times (is_for h) (handed hist) + to_come h (n_pos n) (world_of n) +
  times (runs h) (on_the_way (n_loop n)) ≤ times (runs h) (sent hist).

Lemma exec_world {E A} h hist n (m : M (World (P:=Host) (D:=Tables)) E A) :
  (∀ q0 d0 ch0, keeps (frozen q0 d0 (λ l, ch0 `prefix_of` l)) m) →
  exec_inv h hist n → exec_inv h (record n (on_world m n) [] hist) (on_world m n).
Proof.
  intros Hm Hn.
  assert (frozen (task_queue (n_sched n)) (deque (el_mempool (n_loop n)))
    (λ l, el_channel (n_loop n) `prefix_of` l) (world_of n)) as Hw by done.
  apply (keeps_snd _ _ _ (Hm _ _ _)) in Hw as (Hq & Hd & [l Hl]).
  unfold exec_inv, on_world, record, sent_between in *. destruct (m (world_of n)) as [r w]. simpl in *.
  rewrite Hl, drop_app_length, app_nil_r, times_app.
  unfold to_come, on_the_way in *. simpl in *.
  rewrite (queued_same _ _ _ Hq), Hd, fmap_app, !times_app in *. lia.
Qed.

Lemma exec_tables {E A} h hist n (m : M Tables E A) :
  exec_inv h hist n → exec_inv h hist (on_tables m n).
Proof. unfold on_tables, on_world, on_db. by destruct (m _) as [r t]. Qed.

Lemma exec_loop h hist n el :
  on_the_way el ⊆+ on_the_way (n_loop n) ∧ el_mempool el = el_mempool (n_loop n) →
  exec_inv h hist n → exec_inv h hist (set_loop n el).
Proof.
  intros [Hsub%(times_submseteq (runs h)) He]. unfold exec_inv, to_come. simpl. rewrite He. lia.
Qed.

Lemma exec_finished h hist n now i el :
  on_finished (database_storage scan) now i (n_loop n) = Some el →
  exec_inv h hist n → exec_inv h hist (set_loop n el).
Proof.
  intros (l & Hd & Hsub)%finished_on_the_way. apply (times_submseteq (runs h)) in Hsub.
  rewrite times_app in Hsub. unfold exec_inv, to_come. simpl. rewrite Hd, times_app, times_fmap.
  change (length (filter (λ x, runs h (into_validated x)) l)) with (times (runs h) l). lia.
Qed.

Lemma exec_turn h hist n kill_ok wait_ok env now alive fuel id :
  db_wf (n_tables n) → exec_inv h hist n →
  exec_inv h hist (on_turn (turn_step (qemu_provider config kill_ok wait_ok env)
    (database_tx_store scan) db_find_program (engine scan fuel id) now alive (data_directory config)) n).
Proof.
  intros Hw Hn. unfold on_turn.
  pose proof (bounded_turn_step (qemu_provider config kill_ok wait_ok env) h
    (to_come h (n_pos n) (world_of n)) (el_channel (n_loop n)) now alive (data_directory config) fuel id
    (n_pos n) (world_of n) (conj (conj (le_n _) eq_refl) Hw)) as Hb.
  destruct (turn_step _ _ _ _ _ _ _ _ (world_of n)) as [r w].
  assert (bounded h (to_come h (n_pos n) (world_of n)) (el_channel (n_loop n)) (next_pos r) w) as [Hk Hc]
    by by destruct r.
  unfold exec_inv, to_come, on_the_way in *. simpl in *. rewrite Hc. lia.
Qed.

Lemma exec_get_task h hist n provider now conn :
  keyed (n_sched n) → exec_inv h hist n →
  let n' := on_world (get_task provider now conn (n_qemu n)) n in
  exec_inv h (record n n' (task_for provider now conn n) hist) n'.
Proof.
  intros Hk Hn. unfold exec_inv, record, sent_between, task_for, on_world, get_task, mbind at 1, M_bind at 1, lift.
  destruct (identify conn (n_qemu n)) as [[[tx p] c]|e|]; simpl.
  2,3: rewrite drop_all, !app_nil_r; exact Hn.
  unfold mbind, M_bind, attempt, on_state. simpl.
  pose proof (get_pending_counts provider h now tx (n_sched n) Hk) as Hc.
  destruct (get_pending_task provider now tx (n_sched n)) as [r st]. simpl in *.
  unfold exec_inv, to_come, on_the_way in *. simpl in *.
  destruct r as [[task|]|e|]; rewrite drop_all; simpl; rewrite ?app_nil_r, ?times_app, ?times_nil in *; lia.
Qed.

Lemma process_grows (C : list Message → Prop) reply bytes :
  (∀ l m, C l → C (l ++ [m])) → keeps (λ c, C (ch_queue c)) (process_message reply bytes).
Proof.
  intros HC. unfold process_message. destruct (deserialize_msg bytes) as [[tx|kind|pk resp]|e|];
    [|apply keeps_bind; [apply keeps_lift|intros; apply keeps_ret]|apply keeps_ret..|apply keeps_lift].
  apply keeps_bind; [|intros; apply keeps_ret]. by apply keeps_attempt, send_grows.
Qed.

(** C15: No execution out of nowhere.  In every run of the node, whoever submits, fetches and
    answers in whatever order, the tasks of a transaction that were given to VMs are at
    most as many as the submissions that ask for them: of the transaction itself, or of a
    key that names it as its parent.  A transaction that is parked, released, evicted,
    refused, queued for a program that does not start or whose VM dies is not run again
    by the node itself. *)
Theorem executions_submitted ever hist n h :
  rm_u64 total → node_run scan config node_key http_download_host total ever hist n →
  times (is_for h) (handed hist) ≤ times (runs h) (sent hist).
Proof.
  intros Htot Hrun. assert (exec_inv h hist n) as Hinv; [|unfold exec_inv in Hinv; lia].
  induction Hrun as [t q f Ht Hq|ever hist n id tx _ IH|ever hist n reply bytes _ IH
    |ever hist n el Hr IH Hel|ever hist n download op i el Hr IH Hel|ever hist n now i el Hr IH Hel
    |ever hist n text url resp Hr IH n'|ever hist n k Hr IH|ever hist n k Hr IH
    |ever hist n ko wo env now alive fuel id Hr IH|ever hist n ko wo env now conn Hr IH
    |ever hist n ko wo env id answer conn request Hr IH].
  - unfold exec_inv, to_come, on_the_way, parked, queued. simpl. unfold waiting_list. simpl.
    rewrite map_to_list_empty. done.
  - apply exec_world; [|done]. intros. apply frozen_on_channel, send_grows.
    intros l m. by apply prefix_app_r.
  - apply exec_world; [|done]. intros. apply frozen_on_channel, process_grows.
    intros l m. by apply prefix_app_r.
  - apply exec_loop; [by apply receive_on_the_way|done].
  - apply exec_loop; [by eapply task_on_the_way|done].
  - by eapply exec_finished.
  - by apply exec_tables.
  - by apply exec_tables.
  - by apply exec_tables.
  - apply exec_turn; [|done]. apply (node_run_inv _ _ _ _ _ _ _ _ Htot Hr).
  - apply exec_get_task; [|done]. apply (node_run_inv _ _ _ _ _ _ _ _ Htot Hr).
  - apply exec_world; [|done]. intros. apply frozen_server_submit. intros l m. by apply prefix_app_r.
Qed.
End executions.

(** ** The bound is reached *)

Section execution_witnesses.
#[local] Existing Instances hex_crate secp_toy secp_toy_laws sha3_toy bigint_toy bincode_toy lru_list
  url_toy uuid_toy wire_toy.

Lemma nd_handed_once : times (is_for (hash demo_tx)) (handed nd_answered_h) = 1.
Proof. by vm_compute. Qed.
Lemma nd_sent_once : times (runs (hash demo_tx)) (sent nd_answered_h) = 1.
Proof. by vm_compute. Qed.

(** In the run of [Node] a workflow is submitted once: its task is given out once, and no
    continuation of a run with this history can have given it out more often. *)
Example executions_submitted_witness :
  times (is_for (hash demo_tx)) (handed nd_answered_h) = 1 ∧
  times (is_for (hash demo_tx)) (handed nd_answered_h) ≤ times (runs (hash demo_tx)) (sent nd_answered_h).
Proof.
  split; [exact nd_handed_once|].
  exact (executions_submitted nd_scan toy_config (toy_key "n") "http://h" nd_total {[toy_key "k"]}
    nd_answered_h nd_answered (hash demo_tx) nd_total_u64 nd_answered_run).
Defined.

(** The same transaction arrives again while the first VM is at work; the first VM
    answers, the loop makes another turn, and the VM it started asks for its task. *)
Definition again_sent : Node := nd_send 2 nd_taken.
Definition again_answered : Node := nd_answer (nd_process again_sent).
Definition again_scheduled : Node := nd_turn again_answered.
Definition again_conn : option (option Z) := Some (Some 5%Z).
Definition again_taken : Node := on_world (get_task nd_provider 1 again_conn (n_qemu again_scheduled)) again_scheduled.
Definition again_sent_h : History := nd_sent_h 2 nd_taken (nd_take_h nd_scheduled nd_queued_h).
Definition again_answered_h : History := nd_answer_h (nd_process again_sent) again_sent_h.
Definition again_taken_h : History :=
  record again_scheduled again_taken (task_for nd_provider 1 again_conn again_scheduled) again_answered_h.

Lemma again_sent_run : nd_run again_sent_h again_sent.
Proof. exact (nd_send_run 2 _ nd_taken (nd_take_run nd_queued_h nd_scheduled nd_scheduled_run)). Qed.
Lemma again_scheduled_run : nd_run again_answered_h again_scheduled.
Proof.
  exact (nd_turn_run _ _ (nd_answer_run _ _ (nd_process_run again_sent_h again_sent again_sent_run))).
Qed.
Lemma again_run : nd_run again_taken_h again_taken.
Proof.
  exact (node_get_task nd_scan toy_config (toy_key "n") "http://h" nd_total {[toy_key "k"]}
    again_answered_h again_scheduled (λ _, true) (λ _, true) (λ _, toy_env (Ok ())) 1 again_conn
    again_scheduled_run).
Qed.

Definition again_check (hist : History) : bool :=
  match sent hist, handed hist with
  | [tx1; tx2; _], [t1; t2] =>
      bool_decide (tx1 = tx2) && bool_decide (hash tx1 = hash demo_tx) &&
      bool_decide (task_tx t1 = hash demo_tx) && bool_decide (task_tx t2 = hash demo_tx) &&
      bool_decide (task_program_id t1 = task_program_id t2)
  | _, _ => false
  end.

(** Whoever has seen a signed transaction can have it executed again: it validates again,
    is stored over itself, queued and run, although it was executed and marked so. *)
Theorem replayed_transaction_runs_again :
  ∃ hist n tx res t1 t2,
    nd_run hist n ∧ sent hist = [tx; tx; res] ∧ hash tx = hash demo_tx ∧
    handed hist = [t1; t2] ∧ task_tx t1 = hash demo_tx ∧ task_tx t2 = hash demo_tx ∧
    task_program_id t1 = task_program_id t2.
Proof.
  assert (again_check again_taken_h = true) as Hc by (by vm_compute).
  pose proof again_run as Hrun. revert Hc Hrun. generalize again_taken_h again_taken.
  intros hist n Hc Hrun. unfold again_check in Hc.
  destruct (sent hist) as [|tx1 [|tx2 [|res [|? ?]]]] eqn:Hs; try done.
  destruct (handed hist) as [|t1 [|t2 [|? ?]]] eqn:Hh; try done.
  repeat setoid_rewrite andb_true_iff in Hc. rewrite !bool_decide_eq_true in Hc.
  destruct Hc as ((((-> & ?) & ?) & ?) & ?). by exists hist, n, tx2, res, t1, t2.
Qed.
End execution_witnesses.
