(* ===== verification/Startup.v ===== *)
(** * Commands and start-up ([crates/node/src/main.rs])

    What the node's binary does around the running node: generating and reading key
    files, printing a public key, the operator's whitelist commands, and joining the
    network, for a node and for a beacon.  The process may end by an error of [main],
    by [std::process::exit], or by a panic; these are different outcomes here. *)

From S2P Require Import Prelude Types Models Files Transaction Event Mempool Workflow Acl Database Protocol P2P.

(** How the process ends before it runs. *)
Inductive StartError := Failed (msg : string) | Exit (code : Z).

(** [libsecp256k1::SecretKey]: [serialize], and [parse] on 32 bytes. *)
Class SecretBytes `{Secp} := {
  sk_serialize : SecretKey → vec u8 32;
  sk_parse : vec u8 32 → result string SecretKey
}.
Class SecretBytesLaws `{SecretBytes} : Prop := {
  sk_parse_serialize k : sk_parse (sk_serialize k) = Ok k
}.

(** ** Key files *)

Inductive IoError := IoNotFound | IoAlreadyExists | IoOther (msg : string).

Section keys.
Context `{Hex, SecretBytes}.

(** [OpenOptions::new().write(true).create_new(true).open(path)]; [fault] is what the
    operating system says besides the existence of the file: a missing directory, a
    missing permission. *)
Definition open_new (fault : option IoError) (path : string) : M fs IoError () := λ root,
  if try_exists root path then (Err IoAlreadyExists, root)
  else match fault with
       | Some e => (Err e, root)
       | None => (Ok (), <[path_resolve path := []]> root)
       end.

(** [write_all], [flush]: a failure leaves the first [n] bytes. *)
Definition write_all (fault : option (nat * string)) (path : string) (bs : list u8)
    : M fs StartError () := λ root,
  match fault with
  | None => (Ok (), <[path_resolve path := bs]> root)
  | Some (n, e) => (Err (Failed e), <[path_resolve path := take n bs]> root)
  end.

(** [generate_key]: [key] is the random key; the public key that is printed. *)
Definition generate_key (key : SecretKey) (open_fault : option IoError)
    (write_fault : option (nat * string)) (key_file : string) : M fs StartError string := λ root,
  let public_key := from_secret_key key in
  match open_new open_fault key_file root with
  | (Err IoNotFound, root) | (Err IoAlreadyExists, root) => (Err (Exit 1), root)
  | (Err (IoOther e), root) => (Err (Failed e), root)
  | (Panic, root) => (Panic, root)
  | (Ok _, root) =>
      (_ ← write_all write_fault key_file (vec_to_list (sk_serialize key));
       mret (hex_encode (pk_serialize public_key))) root
  end.

(** [std::fs::read]; [fault] is an error other than a missing file. *)
Definition fs_read (fault : option string) (path : string) (root : fs) : result IoError (list u8) :=
  match fault with
  | Some e => Err (IoOther e)
  | None => ok_or (root !! path_resolve path) IoNotFound
  end.

Definition read_node_key (fault : option string) (node_key_file : string) (root : fs)
    : result StartError SecretKey :=
  match fs_read fault node_key_file root with
  | Ok bs => bs ← unwrap (array_of_list 32 bs); map_err Failed (sk_parse bs)
  | Err (IoOther e) => Err (Failed e)
  | Err _ => Err (Exit 1)
  | Panic => Panic
  end.

Definition io_message (e : IoError) : string :=
  match e with
  | IoNotFound => "No such file or directory"
  | IoAlreadyExists => "File exists"
  | IoOther msg => msg
  end.

(** [Command::Show]: the printed public key. *)
Definition show_public_key (fault : option string) (key_file : string) (root : fs)
    : result StartError string :=
  bs ← map_err (Failed ∘ io_message) (fs_read fault key_file root);
  bs ← ok_or (array_of_list 32 bs) (Failed "could not convert slice to array");
  key ← map_err Failed (sk_parse bs);
  Ok (hex_encode (pk_serialize (from_secret_key key))).

(** ** [Command::Peer] *)

Inductive PeerCommand := Whitelist | Deny.

Definition PublicKeyError_to_string (e : PublicKeyError) : string :=
  match e with PublicKeyParseError msg => "public key parse error: " +:+ msg end.

(** [connected] is the outcome of [Database::new]. *)
Definition peer_command (connected : result string ()) (peer : string) (op : PeerCommand)
    : M Tables string () :=
  _ ← lift connected;
  key ← lift (map_err PublicKeyError_to_string (PublicKey_try_from peer));
  match op with
  | Whitelist => db_acl_whitelist key
  | Deny => db_acl_deny key
  end.
End keys.

(** ** Joining the network *)

Section joining.
Context (cfg : P2PConfig) (iter : gset SocketAddr → list SocketAddr).

(** The lists of the P2P node, and the addresses of its open connections. *)
Abbreviation net := (P2P * gset SocketAddr)%type.

(** What a pass over the addresses meets: name resolution, and who answers. *)
Record Outside := MkOutside {
  to_socket_addrs : string → result string (list SocketAddr);
  dials : SocketAddr → option (SocketAddr * Handshake)
}.

(** The [for] loop over the discovery addresses, shared by [run] and [p2p_beacon]:
    only the first address a name resolves to is tried. *)
Fixpoint discover (o : Outside) (fuel : nat) (addrs : list string) (connected_nodes : nat) (s : net)
    : option (nat * net) :=
  match addrs with
  | [] => Some (connected_nodes, s)
  | addr :: rest =>
      match to_socket_addrs o addr with
      | Ok (peer :: _) =>
          '(connected, _, p) ← do_connect cfg (dials o) iter fuel peer (snd s) (fst s);
          discover o fuel rest (connected_nodes + size connected) (p, snd s ∪ connected)
      | _ => discover o fuel rest connected_nodes s
      end
  end.

(** [run]: a node that reaches nobody gives up, unless it was given nobody to reach. *)
Definition join_network (o : Outside) (fuel : nat) (p2p_discovery_addrs : list string) (s : net)
    : option (result StartError net) :=
  '(connected_nodes, s) ← discover o fuel p2p_discovery_addrs 0 s;
  Some (if negb (bool_decide (p2p_discovery_addrs = [])) && (connected_nodes =? 0)
        then Err (Exit 1) else Ok s).

(** [p2p_beacon]: passes, one second apart, until a peer is connected or
    [cluster_join_attempt_limit] is reached; [attempts] is what remains of the limit and
    [o] the outside at each attempt.  The result is the connected peers, the number of
    passes and the lists. *)
Fixpoint beacon_loop (o : nat → Outside) (fuel : nat) (addrs : list string) (attempts connected_nodes
    try_count : nat) (s : net) : option (nat * nat * net) :=
  match attempts with
  | 0 => Some (connected_nodes, try_count, s)
  | S attempts =>
      if connected_nodes =? 0 then
        '(connected_nodes, s) ← discover (o try_count) fuel addrs connected_nodes s;
        beacon_loop o fuel addrs attempts connected_nodes (S try_count) s
      else Some (connected_nodes, try_count, s)
  end.
Definition beacon_join (o : nat → Outside) (fuel : nat) (addrs : list string)
    (cluster_join_attempt_limit : nat) (s : net) : option (nat * nat * net) :=
  beacon_loop o fuel addrs cluster_join_attempt_limit 0 0 s.

(** The beacon says that no address is configured when some are and none answered. *)
Definition beacon_message (addrs : list string) (connected_nodes : nat) : option string :=
  if negb (bool_decide (addrs = [])) && (connected_nodes =? 0)
  then Some "No discovery addresses configured or none could be resolved. Assuming we're the first node."
  else None.

(** Somebody to connect to: a name whose first address answers and is not connected. *)
Definition reachable (o : Outside) (open : gset SocketAddr) (addr : string) : Prop :=
  ∃ peer more, to_socket_addrs o addr = Ok (peer :: more) ∧ (peer ∉ open) ∧ is_Some (dials o peer).
End joining.

(** ** A generated key is the key the node starts with *)

Section key_files.
Context `{HexLaws, SecpLaws, !SecretBytes, !SecretBytesLaws}.

(** Printing a public key and parsing it. *)
Lemma PublicKey_try_from_encode k : PublicKey_try_from (hex_encode (pk_serialize k)) = Ok k.
Proof.
  unfold PublicKey_try_from. rewrite hex_decode_encode. cbn [map_err mbind result_bind].
  destruct (array_of_list 65 (pk_serialize k)) as [arr|] eqn:Ha.
  - apply array_of_list_Some in Ha. cbn [ok_or mbind result_bind]. by rewrite Ha, pk_parse_serialize.
  - destruct (proj2 (array_of_list_length 65 _) (pk_serialize_length k)). congruence.
Qed.

Lemma generate_key_fresh key path root :
  root !! path_resolve path = None →
  generate_key key None None path root =
    (Ok (hex_encode (pk_serialize (from_secret_key key))),
     <[path_resolve path := vec_to_list (sk_serialize key)]> root).
Proof.
  intros Hnone. unfold generate_key, open_new, try_exists. rewrite bool_decide_eq_false_2; [|by rewrite Hnone; intros []].
  unfold write_all, mbind, M_bind, mret, M_ret. by rewrite insert_insert_eq.
Qed.

(** A key that [generate_key] writes to a new file is the key a node reads from that
    file at its start; no other file changes; and the public key [generate] and [show]
    print is a name under which the operator of any node can put exactly that author on
    the whitelist, and take it off again. *)
Theorem generated_key_usable key path root t :
  root !! path_resolve path = None →
  ∃ name root',
    generate_key key None None path root = (Ok name, root') ∧
    delete (path_resolve path) root' = root ∧
    read_node_key None path root' = Ok key ∧
    show_public_key None path root' = Ok name ∧
    t_acl (snd (peer_command (Ok ()) name Whitelist t)) = {[from_secret_key key]} ∪ t_acl t ∧
    t_acl (snd (peer_command (Ok ()) name Deny t)) = t_acl t ∖ {[from_secret_key key]}.
Proof.
  intros Hnone. eexists _, _. split; [by apply generate_key_fresh|].
  unfold read_node_key, show_public_key, fs_read. rewrite lookup_insert_eq. cbn [ok_or map_err].
  cbn [mbind result_bind]. rewrite array_of_list_vec. cbn [unwrap ok_or mbind result_bind].
  rewrite sk_parse_serialize. split_and!; try done; [by apply delete_insert_id|..];
    unfold peer_command; rewrite PublicKey_try_from_encode; done.
Qed.

(** [generate_key] never touches a file that exists, whatever the operating system
    answers; when it fails after it created the file, a truncated key stays behind,
    with which a node panics at its start and which a second attempt refuses to
    replace. *)
Theorem generate_key_failures key path root open_fault n e :
  (is_Some (root !! path_resolve path) →
    ∀ write_fault, generate_key key open_fault write_fault path root = (Err (Exit 1), root)) ∧
  (root !! path_resolve path = None → n < 32 →
    ∃ root', generate_key key None (Some (n, e)) path root = (Err (Failed e), root') ∧
      read_node_key None path root' = Panic ∧
      ∀ write_fault, generate_key key open_fault write_fault path root' = (Err (Exit 1), root')).
Proof.
  assert (Hkeep : ∀ r, is_Some (r !! path_resolve path) →
    ∀ write_fault, generate_key key open_fault write_fault path r = (Err (Exit 1), r)).
  { intros r Hr w. unfold generate_key, open_new, try_exists. by rewrite bool_decide_eq_true_2. }
  split; [apply Hkeep|]. intros Hnone Hn. eexists. split; [|split; [|apply Hkeep]].
  - unfold generate_key, open_new, try_exists. rewrite bool_decide_eq_false_2; [|by rewrite Hnone; intros []].
    reflexivity.
  - unfold read_node_key, fs_read. rewrite lookup_insert_eq. cbn [ok_or].
    destruct (array_of_list 32 _) as [v|] eqn:Hv; [exfalso|done].
    apply array_of_list_Some in Hv. apply (f_equal length) in Hv.
    rewrite length_vec_to_list, length_take, length_vec_to_list in Hv. lia.
  - rewrite lookup_insert_eq. by eexists.
Qed.
End key_files.

(** ** Joining *)

Section join.
Context (cfg : P2PConfig) (iter : gset SocketAddr → list SocketAddr).
Context (iter_perm : ∀ s, iter s ≡ₚ elements s).
(** Every address in play: what names resolve to, and what peers tell of. *)
Context (U : gset SocketAddr).
Definition within (o : Outside) : Prop :=
  (∀ name peer more, to_socket_addrs o name = Ok (peer :: more) → peer ∈ U) ∧
  (∀ a remote msg, a ∈ U → dials o a = Some (remote, msg) →
     peers (resolve_listen_addr remote msg) ⊆ U).
Definition join_fuel : nat := size U * size U + 2.

(** A pass over the addresses ends, loses no peer, and counts something exactly when
    there is somebody to connect to. *)
Lemma discover_outcome o addrs n s :
  within o →
  ∃ n' s', discover cfg iter o join_fuel addrs n s = Some (n', s') ∧
    n ≤ n' ∧ peer_list (fst s) ⊆ peer_list (fst s') ∧ snd s ⊆ snd s' ∧
    snd s' ∖ snd s ⊆ peer_list (fst s') ∧
    (n' = n ↔ snd s' = snd s) ∧
    (n' = n ↔ ∀ addr, addr ∈ addrs → ¬ reachable o (snd s) addr).
Proof.
  intros [Hfirst Hclosed]. revert n s. induction addrs as [|a addrs IH]; intros n s.
  { eexists _, _. simpl. split; [done|]. set_solver. }
  assert (Hskip : (∀ peer more, to_socket_addrs o a ≠ Ok (peer :: more)) →
    ∀ open, ¬ reachable o open a).
  { intros Hno open (peer & more & Hr & _). by eapply Hno. }
  cbn [discover]. destruct (to_socket_addrs o a) as [[|peer more]|e|] eqn:Hres.
  1, 3, 4: destruct (IH n s) as (n' & s' & Hd & H1 & H2 & H3 & H4 & H5 & H6);
    exists n', s'; split_and!; [done..|]; rewrite H6; setoid_rewrite elem_of_cons; naive_solver.
  destruct (do_connect_reaches cfg (dials o) iter iter_perm U Hclosed peer (snd s) (fst s)
    (Hfirst _ _ _ Hres)) as (connected & failed & p & Hc & Hpeers & Hfresh & Hempty).
  unfold join_fuel. rewrite Hc. cbn [mbind option_bind].
  destruct (IH (n + size connected) (p, snd s ∪ connected))
    as (n' & s' & Hd & H1 & H2 & H3 & H4 & H5 & H6). fold join_fuel. cbn [fst snd] in *.
  exists n', s'. assert (Hsz := size_empty_iff connected).
  assert (Hreach : reachable o (snd s) a ↔ connected ≠ ∅).
  { rewrite Hempty. unfold reachable. split.
    - intros (? & ? & Hr & Hno & Hd'). rewrite Hres in Hr. injection Hr as <- <-.
      intros [?|Hn]; [done|]. rewrite Hn in Hd'. by destruct Hd'.
    - intros Hn. exists peer, more. split_and!; [done|tauto|]. destruct (dials o peer); [done|tauto]. }
  split_and!; [done|lia|set_solver|set_solver|set_solver|..].
  - split.
    + intros ->. assert (connected = ∅) as -> by (apply leibniz_equiv, Hsz; lia).
      rewrite (proj1 H5); [|rewrite size_empty; lia]. set_solver.
    + intros Hs. assert (connected = ∅) as -> by set_solver. rewrite size_empty, Nat.add_0_r in H5.
      apply H5. rewrite Hs. set_solver.
  - setoid_rewrite elem_of_cons. split.
    + intros ->. assert (connected = ∅) as Hcon by (apply leibniz_equiv, Hsz; lia).
      rewrite Hcon, size_empty, Nat.add_0_r, union_empty_r_L in H6.
      intros addr [->|Hin]; [tauto|]. by apply H6.
    + intros Hall. assert (connected = ∅) as Hcon.
      { destruct (decide (connected = ∅)) as [|Hne]; [done|]. apply Hreach in Hne. exfalso. eapply Hall; eauto. }
      rewrite Hcon, size_empty, Nat.add_0_r, union_empty_r_L in H6. apply H6. auto.
Qed.

(** [run] goes through its discovery addresses in bounded time and quits exactly
    when addresses are configured and for none of them the first resolved address
    answers; otherwise every peer it connected to is on its peer list, and no peer it
    knew is lost. *)
Theorem join_network_spec o addrs s :
  within o →
  ∃ r, join_network cfg iter o join_fuel addrs s = Some r ∧
    (r = Err (Exit 1) ↔ addrs ≠ [] ∧ ∀ addr, addr ∈ addrs → ¬ reachable o (snd s) addr) ∧
    (r ≠ Err (Exit 1) → ∃ s', r = Ok s' ∧ peer_list (fst s) ⊆ peer_list (fst s') ∧
       snd s' ∖ snd s ⊆ peer_list (fst s') ∧ (addrs ≠ [] → snd s' ≠ snd s)).
Proof.
  intros Hw. destruct (discover_outcome o addrs 0 s Hw) as (n & s' & Hd & _ & H2 & H3 & H4 & H5 & H6).
  unfold join_network. rewrite Hd. cbn [mbind option_bind]. eexists. split; [done|].
  case_bool_decide as Ha; simpl; [|destruct (Nat.eqb_spec n 0) as [->|Hn]].
  - split; [naive_solver|]. intros _. exists s'. naive_solver.
  - split; [|done]. naive_solver.
  - split; [split; [done|]|].
    + intros [_ Hno]. by apply H6 in Hno.
    + intros _. exists s'. split_and!; [done..|]. intros _ Heq. by apply Hn, H5.
Qed.

(** Passes of the beacon from attempt [k] on. *)
Lemma beacon_loop_outcome o addrs attempts k s :
  (∀ i, within (o i)) →
  ∃ n tries s', beacon_loop cfg iter o join_fuel addrs attempts 0 k s = Some (n, tries, s') ∧
    k ≤ tries ≤ k + attempts ∧
    (n = 0 → tries = k + attempts ∧ snd s' = snd s) ∧
    (n = 0 ↔ ∀ i addr, k ≤ i < k + attempts → addr ∈ addrs → ¬ reachable (o i) (snd s) addr).
Proof.
  intros Hw. revert k s. induction attempts as [|attempts IH]; intros k s.
  { eexists _, _, _. split; [done|]. split_and!; [lia|lia|intros _; split; [lia|done]|].
    split; [intros _ i addr ?; lia|done]. }
  cbn [beacon_loop]. rewrite Nat.eqb_refl.
  destruct (discover_outcome (o k) addrs 0 s (Hw k)) as (n & s1 & Hd & _ & _ & _ & _ & H5 & H6).
  rewrite Hd. cbn [mbind option_bind]. destruct (decide (n = 0)) as [->|Hn].
  - destruct (IH (S k) s1) as (n & tries & s' & Hb & Hk & Hz & Hr). rewrite (proj1 H5 eq_refl) in *.
    exists n, tries, s'. split_and!; [done|lia|lia|intros Hn; destruct (Hz Hn); split; [lia|done]|].
    rewrite Hr. split.
    + intros Hno i addr Hi Hin. destruct (decide (i = k)) as [->|]; [by apply H6|apply Hno; [lia|done]].
    + intros Hno i addr Hi. apply Hno. lia.
  - exists n, (S k), s1. destruct attempts; simpl.
    + split_and!; [done|lia|lia|lia|]. split; [lia|]. intros Hno. apply H6. intros addr. apply Hno. lia.
    + apply Nat.eqb_neq in Hn as Hb. rewrite Hb. split_and!; [done|lia|lia|lia|].
      split; [lia|]. intros Hno. apply H6. intros addr. apply Hno. lia.
Qed.

(** A beacon stops trying after at most [cluster_join_attempt_limit] passes; it
    ends without a peer exactly when in none of these passes a configured name resolved
    to an address that answers, and then it has used up all of them. *)
Theorem beacon_join_spec o addrs limit s :
  (∀ i, within (o i)) →
  ∃ n tries s', beacon_join cfg iter o join_fuel addrs limit s = Some (n, tries, s') ∧
    tries ≤ limit ∧ (n = 0 → tries = limit) ∧
    (n = 0 ↔ ∀ i addr, i < limit → addr ∈ addrs → ¬ reachable (o i) (snd s) addr).
Proof.
  intros Hw. destruct (beacon_loop_outcome o addrs limit 0 s Hw) as (n & tries & s' & Hb & Hk & Hz & Hr).
  exists n, tries, s'. split_and!; [done|lia|naive_solver|]. rewrite Hr. split.
  - intros Hno i addr Hi. apply Hno. lia.
  - intros Hno i addr Hi. apply Hno. lia.
Qed.
End join.

(** ** Witnesses *)

Section startup_witnesses.
#[local] Existing Instances hex_crate hex_crate_laws.

(** Keys of 32 bytes, their public keys padded. *)
Definition secp_padded : Secp := {|
  PublicKey := vec u8 65;
  SecretKey := vec u8 32;
  PublicKey_countable := array_countable 65;
  pk_serialize := vec_to_list;
  pk_parse bs := ok_or (array_of_list 65 bs) "InvalidPublicKey";
  from_secret_key sk := sk +++ vreplicate 33 zero;
  SecretKey_default := vreplicate 32 zero;
  secp_sign m sk := MkSecpSignature m (u8_val <$> vec_to_list sk ++ replicate 33 zero);
  secp_verify m sig pk :=
    bool_decide (secp_r sig = m) && bool_decide (secp_s sig = u8_val <$> vec_to_list pk);
  secp_sig_serialize sig := (secp_r sig ++ secp_s sig) ≫= be_bytes 4;
  secp_sig_parse_standard bs := Ok (MkSecpSignature (be_limbs (take 32 bs)) (be_limbs (drop 32 bs)))
|}.
#[local] Existing Instance secp_padded.

#[local] Instance secp_padded_laws : SecpLaws.
Proof.
  split.
  - intros m sk. apply andb_true_intro. split; apply bool_decide_eq_true_2; [done|].
    symmetry. exact (f_equal (fmap u8_val) (vec_to_list_app sk (vreplicate 33 zero))).
  - intros pk. apply length_vec_to_list.
  - intros pk. cbn [pk_parse pk_serialize secp_padded]. by rewrite array_of_list_vec.
Qed.
#[local] Instance secret_bytes : SecretBytes := {| sk_serialize k := k; sk_parse bs := Ok bs |}.
#[local] Instance secret_bytes_laws : SecretBytesLaws.
Proof. by split. Qed.

Definition start_key : SecretKey := vreplicate 32 "k"%char.
Definition start_fs : fs := {[ ["etc"; "passwd"] := ["x"%char] ]}.

Example generated_key_usable_witness :
  let '(r, root') := generate_key start_key None None "/var/lib/node.key" start_fs in
  is_ok r = true ∧ root' !! ["etc"; "passwd"] = Some ["x"%char] ∧
  read_node_key None "/var/lib/node.key" root' = Ok start_key.
Proof.
  destruct (generated_key_usable start_key "/var/lib/node.key" start_fs Tables_new)
    as (name & root' & Hg & Hd & Hr & _); [by_evaluation|].
  rewrite Hg. split_and!; [done| |done]. rewrite <- (lookup_delete_ne root' (path_resolve "/var/lib/node.key")) by by_evaluation.
  rewrite Hd. by_evaluation.
Defined.

Example generate_key_failures_witness :
  ∃ root', generate_key start_key None (Some (7, "disk full")) "/node.key" start_fs
    = (Err (Failed "disk full"), root') ∧ read_node_key None "/node.key" root' = Panic.
Proof.
  destruct (proj2 (generate_key_failures start_key "/node.key" start_fs None 7 "disk full"))
    as (root' & Hg & Hr & _); [by_evaluation|lia|by exists root'].
Defined.

(** The second of two names resolves to a peer that answers. *)
Definition toy_outside : Outside :=
  MkOutside (λ name, if bool_decide (name = "two") then Ok [node_addr 2] else Err "no such host") toy_dial.

Lemma toy_outside_within : within toy_universe toy_outside.
Proof.
  split.
  - intros name peer more. simpl. case_bool_decide; [|done]. intros [= <- <-]. by_evaluation.
  - apply toy_universe_closed.
Qed.

Example join_network_spec_witness :
  ∃ r, join_network toy_cfg elements toy_outside (join_fuel toy_universe) ["one"] (P2P_new ∅, ∅) = Some r ∧
    r = Err (Exit 1).
Proof.
  destruct (join_network_spec toy_cfg elements (λ s, Permutation_refl _) toy_universe toy_outside
    ["one"] (P2P_new ∅, ∅) toy_outside_within) as (r & Hr & Hexit & _).
  exists r. split; [done|]. apply Hexit. split; [done|]. intros addr ->%list_elem_of_singleton (? & ? & Ha & _). done.
Defined.

(** The peer answers from the third attempt on. *)
Definition toy_outsides (i : nat) : Outside :=
  if bool_decide (i < 2) then MkOutside (to_socket_addrs toy_outside) (λ _, None) else toy_outside.

Lemma toy_outsides_within i : within toy_universe (toy_outsides i).
Proof.
  unfold toy_outsides. case_bool_decide; [|apply toy_outside_within].
  split; [apply toy_outside_within|done].
Qed.

Example beacon_join_spec_witness :
  ∃ n tries s', beacon_join toy_cfg elements toy_outsides (join_fuel toy_universe) ["two"] 5
      (P2P_new ∅, ∅) = Some (n, tries, s') ∧ tries ≤ 5 ∧ n ≠ 0.
Proof.
  destruct (beacon_join_spec toy_cfg elements (λ s, Permutation_refl _) toy_universe toy_outsides
    ["two"] 5 (P2P_new ∅, ∅) toy_outsides_within) as (n & tries & s' & Hb & Ht & _ & Hz).
  exists n, tries, s'. split_and!; [done..|]. intros Hn. apply (proj1 Hz Hn 2 "two"); [lia|by left|].
  exists (node_addr 2), []. split_and!; [by_evaluation..|]. by eexists.
Defined.

(** Two passes without and one with an answer; the pass finds the peers of the peer. *)
Example beacon_join_run :
  (λ '(n, tries, s'), (n, tries, bool_decide (node_addr 3 ∈ peer_list (fst s')))) <$>
    beacon_join toy_cfg elements toy_outsides (join_fuel toy_universe) ["one"; "two"] 5 (P2P_new ∅, ∅)
  = Some (2, 3, true).
Proof. by vm_compute. Qed.
End startup_witnesses.
