(* ===== verification/Handshake.v ===== *)
(** * The handshake of a connection ([crates/node/src/networking/p2p/noise.rs],
    [pea2pea.rs])

    [handshake_xx] and the exchange of node information that follows it on the same
    stream, as two programs that write to and read from byte streams, and the
    connection of an initiator with a responder as a step relation.  A framed read
    takes what has arrived, an exact read takes the bytes it asks for.  Data that was
    written in one call arrives in one or several pieces; whether the pieces of two
    calls may arrive together is a parameter of the relation.

    One connection is modelled.  [connect_lock], which a node holds during a handshake, is
    left out: it only matters for several connections at once, where two nodes that
    connect to each other each hold their own lock and wait for the other's answer. *)

From S2P Require Import Prelude Types Models Transaction Event Mempool Protocol P2P Noise.

(** ** Programs on a stream *)

Inductive proc (A : Type) :=
  | Ret (a : A)
  | Write (bs : list u8) (k : proc A)
  (** [read_exact]: [None] when the stream ends before *)
  | ReadExact (n : nat) (k : option (list u8) → proc A)
  (** a read of what is there; [None] at the end of the stream *)
  | ReadSome (k : option (list u8) → proc A)
  | OutOfFuel.
Global Arguments Ret {_} _.
Global Arguments Write {_} _ _.
Global Arguments ReadExact {_} _ _.
Global Arguments ReadSome {_} _.
Global Arguments OutOfFuel {_}.

Fixpoint proc_bind {A B} (m : proc A) (f : A → proc B) : proc B :=
  match m with
  | Ret a => f a
  | Write bs k => Write bs (proc_bind k f)
  | ReadExact n k => ReadExact n (λ r, proc_bind (k r) f)
  | ReadSome k => ReadSome (λ r, proc_bind (k r) f)
  | OutOfFuel => OutOfFuel
  end.

(** Code that uses the stream, changes the lists of the node, and may fail. *)
Definition Net (A : Type) : Type := P2P → proc (result string A * P2P).
Global Instance Net_ret : MRet Net := λ A a p, Ret (Ok a, p).
Global Instance Net_bind : MBind Net := λ A B f m p,
  proc_bind (m p) (λ '(r, p), match r with
    | Ok a => f a p
    | Err e => Ret (Err e, p)
    | Panic => Ret (Panic, p)
    end).

Definition net_lift {A} (r : result string A) : Net A := λ p, Ret (r, p).
Definition net_lists {A} (f : P2P → A * P2P) : Net A := λ p, let '(a, p) := f p in Ret (Ok a, p).
Definition write (bs : list u8) : Net () := λ p, Write bs (Ret (Ok (), p)).
Definition read_exact (n : nat) : Net (list u8) := λ p,
  ReadExact n (λ r, Ret (ok_or r "early eof", p)).

(** [conn.side()] is the side of the peer; this is the node's own. *)
Inductive ConnectionSide := Initiator | Responder.

(** ** The noise handshake *)

(** [tokio_util]'s [Framed] around the stream and the codec: [send] one message, and
    [try_next] with the bytes that are buffered.  The result of [framed_next] is the
    message ([None] at the end of the stream), the codec's state and what is left in
    the buffer; [FramedLaws] says what they do. *)
Class Framed `{Snow} := {
  framed_send : State → list u8 → Net State;
  framed_next : State → list u8 → Net (option (list u8) * State * list u8)
}.

Section handshake.
Context `{Snow, !Framed, Wire}.

(** [handshake_xx]; [into_parts] gives up the buffer of the framed stream. *)
Definition handshake_xx (side : ConnectionSide) (noise : SnowHandshake)
    (payload : list u8) : Net (State * list u8) :=
  match side with
  | Initiator =>
      (* -> e *)
      s ← framed_send (StHandshake noise) [];
      (* <- e, ee, s, es *)
      '(secure_payload, s, buf) ← framed_next s [];
      (* -> s, se, psk *)
      s ← framed_send s payload;
      s ← net_lift (into_post_handshake s);
      mret (s, default [] secure_payload)
  | Responder =>
      (* <- e *)
      '(_, s, buf) ← framed_next (StHandshake noise) [];
      (* -> e, ee, s, es *)
      s ← framed_send s payload;
      (* <- s, se, psk *)
      '(secure_payload, s, buf) ← framed_next s buf;
      s ← net_lift (into_post_handshake s);
      mret (s, default [] secure_payload)
  end.

(** ** The exchange of node information *)

Definition write_handshake (msg : Handshake) : Net () :=
  bs ← net_lift (map_err (λ e, "serialize error:" +:+ e) (serialize_handshake msg));
  _ ← write (be_bytes 4 (u32_wrap (Z.of_nat (length bs))));
  write bs.
Definition read_handshake : Net Handshake :=
  len ← read_exact 4;
  buffer ← read_exact (Z.to_nat (from_be_bytes len));
  net_lift (map_err (λ e, "deserialize error:" +:+ e) (deserialize_handshake buffer)).

Definition exchange (cfg : P2PConfig) (side : ConnectionSide) : Net Handshake :=
  match side with
  | Initiator =>
      _ ← write (be_bytes 8 PROTOCOL_VERSION);
      _ ← read_exact 8;
      msg ← net_lists (build_handshake_msg cfg);
      _ ← write_handshake msg;
      read_handshake
  | Responder =>
      _ ← read_exact 8;
      _ ← write (be_bytes 8 PROTOCOL_VERSION);
      peer_handshake_msg ← read_handshake;
      msg ← net_lists (build_handshake_msg cfg);
      _ ← write_handshake msg;
      mret peer_handshake_msg
  end.

(** [Handshake::perform_handshake] with [noise] the state that [snow]'s builder made. *)
Definition handshake (cfg : P2PConfig) (side : ConnectionSide)
    (remote_peer : SocketAddr) (noise : SnowHandshake) : Net State :=
  '(noise_state, _) ← handshake_xx side noise [];
  _ ← net_lists (λ p, ((), save_noise remote_peer p));
  msg ← exchange cfg side;
  _ ← net_lists (λ p, ((), merge_peer cfg remote_peer msg p));
  mret noise_state.
End handshake.

(** ** Two ends of a connection *)

Abbreviation segments := (list (list u8)).

(** [n] bytes from the front of what has arrived. *)
Fixpoint take_bytes (n : nat) (q : segments) : option (list u8 * segments) :=
  if n =? 0 then Some ([], q)
  else match q with
       | [] => None
       | s :: q =>
           if n <? length s then Some (take n s, drop n s :: q)
           else '(bs, q) ← take_bytes (n - length s) q; Some (s ++ bs, q)
       end.

(** One step of an end: its program, what has arrived for it and what it has sent. *)
Inductive side_step {A} : proc A → segments → segments → proc A → segments → segments → Prop :=
  | side_write bs k i o : side_step (Write bs k) i o k i (o ++ [bs])
  | side_exact n k i o bs i' :
      take_bytes n i = Some (bs, i') → side_step (ReadExact n k) i o (k (Some bs)) i' o
  | side_some k s1 s2 i o :
      s1 ≠ [] → side_step (ReadSome k) ((s1 ++ s2) :: i) o (k (Some s1))
                  (if bool_decide (s2 = []) then i else s2 :: i) o.

Record Connected (A : Type) := MkConnected {
  at_initiator : proc A; at_responder : proc A;
  to_initiator : segments; to_responder : segments
}.
Global Arguments MkConnected {_} _ _ _ _.
Global Arguments at_initiator {_} _.
Global Arguments at_responder {_} _.
Global Arguments to_initiator {_} _.
Global Arguments to_responder {_} _.

(** Both ends run; with [together], segments in flight may join. *)
Inductive conn_step {A} (together : bool) : Connected A → Connected A → Prop :=
  | step_initiator p p' r i i' o o' :
      side_step p i o p' i' o' →
      conn_step together (MkConnected p r i o) (MkConnected p' r i' o')
  | step_responder p r r' i i' o o' :
      side_step r o i r' o' i' →
      conn_step together (MkConnected p r i o) (MkConnected p r' i' o')
  | step_join_responder p r i l s1 s2 l' :
      together = true →
      conn_step together (MkConnected p r i (l ++ s1 :: s2 :: l')) (MkConnected p r i (l ++ (s1 ++ s2) :: l'))
  | step_join_initiator p r o l s1 s2 l' :
      together = true →
      conn_step together (MkConnected p r (l ++ s1 :: s2 :: l') o) (MkConnected p r (l ++ (s1 ++ s2) :: l') o).

(** ** Programs that follow a choreography *)

(** What an end does, in order: [(true, s)] sends [s], [(false, s)] receives it. *)
Abbreviation actions := (list (bool * list u8)).

Inductive follows {A} : proc A → actions → A → Prop :=
  | follows_ret a : follows (Ret a) [] a
  | follows_write s k l a : s ≠ [] → follows k l a → follows (Write s k) ((true, s) :: l) a
  | follows_exact s k l a :
      s ≠ [] → follows (k (Some s)) l a → follows (ReadExact (length s) k) ((false, s) :: l) a
  | follows_some s k l a :
      s ≠ [] →
      (∀ s1 s2, s = s1 ++ s2 → s1 ≠ [] → s2 ≠ [] → follows (k (Some s1)) ((false, s2) :: l) a) →
      follows (k (Some s)) l a → follows (ReadSome k) ((false, s) :: l) a.

Lemma follows_proc_bind {A B} (m : proc A) (f : A → proc B) l l' a b :
  follows m l a → follows (f a) l' b → follows (proc_bind m f) (l ++ l') b.
Proof.
  intros Hm Hf. induction Hm as [a|s k l a Hs _ IH|s k l a Hs _ IH|s k l a Hs _ IHp _ IH]; simpl.
  - done.
  - apply follows_write; auto.
  - apply (follows_exact s (λ r, proc_bind (k r) f)); auto.
  - apply follows_some; [done| |by apply IH]. intros s1 s2 Heq H1 H2. by apply (IHp s1 s2).
Qed.

Lemma follows_bind {A B} (m : Net A) (f : A → Net B) l l' p a p1 r :
  follows (m p) l (Ok a, p1) → follows (f a p1) l' r → follows ((m ≫= f) p) (l ++ l') r.
Proof. intros Hm Hf. by eapply follows_proc_bind. Qed.

(** [runs p l q]: with the given pieces read one by one, [p] gets to [q]. *)
Inductive runs {A} : proc A → actions → proc A → Prop :=
  | runs_here p : runs p [] p
  | runs_write s k l q : runs k l q → runs (Write s k) ((true, s) :: l) q
  | runs_some s k l q : s ≠ [] → runs (k (Some s)) l q → runs (ReadSome k) ((false, s) :: l) q.

Lemma runs_proc_bind {A B} (m : proc A) (f : A → proc B) l l' a q :
  runs m l (Ret a) → runs (f a) l' q → runs (proc_bind m f) (l ++ l') q.
Proof.
  intros Hm Hf. remember (Ret a) as e eqn:He. revert He.
  induction Hm as [p|s k l q' _ IH|s k l q' Hs _ IH]; intros ->; simpl; [done| |].
  - apply runs_write. by apply IH.
  - apply runs_some; [done|by apply IH].
Qed.
Lemma runs_bind {A B} (m : Net A) (f : A → Net B) l l' p a p1 q :
  runs (m p) l (Ret (Ok a, p1)) → runs (f a p1) l' q → runs ((m ≫= f) p) (l ++ l') q.
Proof. intros Hm Hf. by eapply runs_proc_bind. Qed.

(** A bind whose first part does not end yet. *)
Lemma runs_proc_bind_stops {A B} (m : proc A) (f : A → proc B) l q :
  runs m l q → runs (proc_bind m f) l (proc_bind q f).
Proof.
  induction 1 as [p|s k l q _ IH|s k l q Hs _ IH]; simpl; [constructor| |].
  - by apply runs_write.
  - by apply runs_some.
Qed.

Lemma runs_send {A} (p q : proc A) s l i o :
  runs p ((true, s) :: l) q → ∃ p', side_step p i o p' i (o ++ [s]) ∧ runs p' l q.
Proof. intros Hr. inversion Hr; subst. eexists. split; [apply side_write|done]. Qed.
Lemma runs_recv {A} (p q : proc A) s l i o :
  runs p ((false, s) :: l) q → ∃ p', side_step p (s :: i) o p' i o ∧ runs p' l q.
Proof.
  intros Hr. inversion Hr as [| |? k ? ? Hs Hk]; subst. exists (k (Some s)). split; [|done].
  pose proof (side_some k s [] i o Hs) as Hstep. by rewrite app_nil_r in Hstep.
Qed.

Lemma runs_initiator {A} t (p r q : proc A) s l i o c :
  runs p ((true, s) :: l) q →
  (∀ p', runs p' l q → rtc (conn_step t) (MkConnected p' r i (o ++ [s])) c) →
  rtc (conn_step t) (MkConnected p r i o) c.
Proof.
  intros (p' & Hs & Hr)%(runs_send _ _ _ _ i o) Hc. eapply rtc_l; [by apply step_initiator, Hs|by apply Hc].
Qed.
Lemma runs_responder {A} t (p r q : proc A) s l i o c :
  runs r ((false, s) :: l) q →
  (∀ r', runs r' l q → rtc (conn_step t) (MkConnected p r' i o) c) →
  rtc (conn_step t) (MkConnected p r i (s :: o)) c.
Proof.
  intros (p' & Hs & Hr)%(runs_recv _ _ _ _ o i) Hc. eapply rtc_l; [by apply step_responder, Hs|by apply Hc].
Qed.

Lemma runs_initiator_recv {A} t (p r q : proc A) s l i o c :
  runs p ((false, s) :: l) q →
  (∀ p', runs p' l q → rtc (conn_step t) (MkConnected p' r i o) c) →
  rtc (conn_step t) (MkConnected p r (s :: i) o) c.
Proof.
  intros (p' & Hs & Hr)%(runs_recv _ _ _ _ i o) Hc. eapply rtc_l; [by apply step_initiator, Hs|by apply Hc].
Qed.
Lemma runs_responder_send {A} t (p r q : proc A) s l i o c :
  runs r ((true, s) :: l) q →
  (∀ r', runs r' l q → rtc (conn_step t) (MkConnected p r' (i ++ [s]) o) c) →
  rtc (conn_step t) (MkConnected p r i o) c.
Proof.
  intros (p' & Hs & Hr)%(runs_send _ _ _ _ o i) Hc. eapply rtc_l; [by apply step_responder, Hs|by apply Hc].
Qed.
Lemma runs_nil {A} (p q : proc A) : runs p [] q → p = q.
Proof. by inversion 1. Qed.

(** The order of all messages of a connection: [(true, s)] goes to the responder. *)
Definition projection (me : bool) (g : actions) : actions := (λ '(d, s), (eqb d me, s)) <$> g.
Definition receiving (q : segments) : actions := (λ s, (false, s)) <$> q.
Definition weight (l : actions) : nat := sum_list ((λ x, S (length (snd x))) <$> l).

Lemma take_bytes_segment s q : s ≠ [] → take_bytes (length s) (s :: q) = Some (s, q).
Proof.
  intros Hs. simpl. rewrite Nat.ltb_irrefl, Nat.sub_diag.
  destruct (Nat.eqb_spec (length s) 0) as [?%nil_length_inv|_]; [done|].
  destruct q; simpl; by rewrite app_nil_r.
Qed.

Section choreography.
Context {A : Type} (rI rR : A).

(** Only one direction has messages in flight: an end that is ahead is ahead by
    messages the other end is to receive next. *)
Definition in_step (n : nat) (c : Connected A) : Prop := ∃ g,
  let lI := receiving (to_initiator c) ++ projection true g in
  let lR := receiving (to_responder c) ++ projection false g in
  (to_initiator c = [] ∨ to_responder c = []) ∧
  follows (at_initiator c) lI rI ∧ follows (at_responder c) lR rR ∧ n = weight lI + weight lR.

Lemma side_in_step me (p p' other : proc A) i o i' o' g r r' :
  side_step p i o p' i' o' → i = [] ∨ o = [] →
  follows p (receiving i ++ projection me g) r →
  follows other (receiving o ++ projection (negb me) g) r' →
  ∃ g', (i' = [] ∨ o' = []) ∧
    follows p' (receiving i' ++ projection me g') r ∧
    follows other (receiving o' ++ projection (negb me) g') r' ∧
    weight (receiving i' ++ projection me g') < weight (receiving i ++ projection me g) ∧
    receiving o' ++ projection (negb me) g' = receiving o ++ projection (negb me) g.
Proof.
  intros Hstep Hq Hp Ho. destruct Hstep as [bs k i o|n k i o bs i' Ht|k s1 s2 i o Hs].
  - destruct i as [|s i]; [|by inversion Hp].
    destruct g as [|[d s] g]; [by inversion Hp|]. exists g. simpl in Hp.
    destruct (eqb d me) eqn:Hd; [|by inversion Hp]. apply eqb_prop in Hd as ->.
    inversion Hp as [|? ? ? ? Hs Hk| |]; subst.
    assert (receiving (o ++ [s]) ++ projection (negb me) g =
      receiving o ++ projection (negb me) ((me, s) :: g)) as ->.
    { unfold receiving. rewrite fmap_app, <-app_assoc. simpl. by destruct me. }
    split_and!; [by left|done..| |done]. unfold weight, receiving, projection. csimpl. lia.
  - exists g. destruct i as [|s i].
    + exfalso. simpl in Ht. inversion Hp as [| |s k' l a Hs Hk|]; subst.
      destruct s; [done|]. by simpl in Ht.
    + simpl in Hp. inversion Hp as [| |s' k' l a Hs Hk|]; subst.
      rewrite take_bytes_segment in Ht by done. injection Ht as <- <-.
      split_and!; [destruct Hq; [done|by right]|done..| |done]. unfold weight, receiving, projection. csimpl. lia.
  - exists g. simpl in Hp. inversion Hp as [| | |s k' l a Hne Hpart Hall]; subst. case_bool_decide as H2.
    + subst s2. rewrite app_nil_r in Hall.
      split_and!; [destruct Hq; [done|by right]|done..| |done]. unfold weight, receiving, projection. csimpl. lia.
    + split_and!; [destruct Hq; [done|by right]|by eapply Hpart|done| |done].
      unfold weight, receiving, projection. csimpl. rewrite length_app. destruct s1; [done|simpl; lia].
Qed.

Lemma in_step_step n c c' : in_step n c → conn_step false c c' → ∃ m, m < n ∧ in_step m c'.
Proof.
  intros (g & Hq & HI & HR & ->) Hs.
  destruct Hs as [p p' r i i' o o' Hs|p r r' i i' o o' Hs|?|?]; simpl in *; [| |done..].
  - destruct (side_in_step true _ _ _ _ _ _ _ _ _ _ Hs Hq HI HR) as (g' & H1 & H2 & H3 & H4 & H5).
    simpl in H5. eexists. split; [|exists g'; by split_and!]. simpl. rewrite H5. lia.
  - destruct (side_in_step false _ _ _ _ _ _ _ _ _ _ Hs (proj1 (or_comm _ _) Hq) HR HI) as (g' & H1 & H2 & H3 & H4 & H5).
    simpl in H5. eexists. split; [|exists g'; split_and!; try done; by apply or_comm]. simpl. rewrite H5. lia.
Qed.

Lemma in_step_progress n c :
  in_step n c → (∃ c', conn_step false c c') ∨ c = MkConnected (Ret rI) (Ret rR) [] [].
Proof.
  intros (g & Hq & HI & HR & _). destruct c as [p r i o]. simpl in *.
  assert (Hread : ∀ (q : proc A) s l e out b, follows q ((false, s) :: l) b →
    ∃ q' i' out', side_step q (s :: e) out q' i' out').
  { intros q s l e out b Hf. inversion Hf as [| |? k ? ? Hs|? k ? ? Hs]; subst.
    - do 3 eexists. apply side_exact, take_bytes_segment, Hs.
    - pose proof (side_some k s [] e out Hs) as Hstep. rewrite app_nil_r in Hstep. eauto. }
  destruct i as [|s i].
  2:{ left. destruct (Hread _ _ _ i o _ HI) as (? & ? & ? & Hs). eexists. by eapply step_initiator. }
  destruct o as [|s o].
  2:{ left. destruct (Hread _ _ _ o [] _ HR) as (? & ? & ? & Hs). eexists. by eapply step_responder. }
  destruct g as [|[[] s] g].
  - right. inversion HI. inversion HR. done.
  - left. simpl in HI. inversion HI; subst. eexists. apply step_initiator, side_write.
  - left. simpl in HR. inversion HR; subst. eexists. apply step_responder, side_write.
Qed.

(** Two programs that follow their sides of an order of messages finish: every run of
    the connection is finite, and the last configuration is the finished one. *)
Lemma choreography_completes g pI pR :
  follows pI (projection true g) rI → follows pR (projection false g) rR →
  ∀ n c, nsteps (conn_step false) n (MkConnected pI pR [] []) c →
    n ≤ weight (projection true g) + weight (projection false g) ∧
    ((∃ c', conn_step false c c') ∨ c = MkConnected (Ret rI) (Ret rR) [] []).
Proof.
  intros HI HR.
  assert (Hrun : ∀ n c0 m c, in_step m c0 → nsteps (conn_step false) n c0 c → ∃ k, n + k ≤ m ∧ in_step k c).
  { induction n as [|n IH]; intros c0 m c Hm Hs; inversion Hs; subst; [by exists m; split|].
    destruct (in_step_step m c0 y Hm) as (m' & Hlt & Hm'); [done|].
    destruct (IH y m' c Hm') as (k & Hk & Hin); [done|]. exists k. split; [lia|done]. }
  intros n c Hs. destruct (Hrun n (MkConnected pI pR [] []) (weight (projection true g) + weight (projection false g)) c) as (k & Hk & Hin);
    [by exists g; split_and!; [left|..]|done|].
  split; [lia|by eapply in_step_progress].
Qed.
End choreography.

(** ** The handshake follows its choreography *)

(** [LengthDelimitedCodec]: two bytes of length; nothing is decoded from a part of a frame. *)
Class FramingPrefix `{Framing} : Prop := {
  frame_length bs f : frame_encode bs = Ok f → length f = length bs + 2;
  frame_partial bs f x y : frame_encode bs = Ok f → f = x ++ y → y ≠ [] → frame_decode x = Ok None
}.

(** A noise XX handshake that succeeds: both ends know the same [psk]. *)
Record XX `{Snow} (hsI hsR : SnowHandshake) := MkXX {
  xx_m1 : list u8; xx_m2 : list u8; xx_m3 : list u8;
  xx_i1 : SnowHandshake; xx_i2 : SnowHandshake; xx_i3 : SnowHandshake;
  xx_r1 : SnowHandshake; xx_r2 : SnowHandshake; xx_r3 : SnowHandshake;
  xx_tI : SnowTransport; xx_tR : SnowTransport;
  xx_write1 : hs_write hsI [] = Ok (xx_m1, xx_i1);
  xx_read1 : hs_read hsR xx_m1 = Ok ([], xx_r1);
  xx_write2 : hs_write xx_r1 [] = Ok (xx_m2, xx_r2);
  xx_read2 : hs_read xx_i1 xx_m2 = Ok ([], xx_i2);
  xx_write3 : hs_write xx_i2 [] = Ok (xx_m3, xx_i3);
  xx_read3 : hs_read xx_r2 xx_m3 = Ok ([], xx_r3);
  xx_transportI : hs_transport xx_i3 = Ok xx_tI;
  xx_transportR : hs_transport xx_r3 = Ok xx_tR;
  xx_length : length xx_m1 ≤ MAX_MESSAGE_LEN ∧ length xx_m2 ≤ MAX_MESSAGE_LEN ∧ length xx_m3 ≤ MAX_MESSAGE_LEN
}.
Global Arguments xx_m1 {_ _ _} _.
Global Arguments xx_m2 {_ _ _} _.
Global Arguments xx_m3 {_ _ _} _.
Global Arguments xx_i1 {_ _ _} _.
Global Arguments xx_i2 {_ _ _} _.
Global Arguments xx_i3 {_ _ _} _.
Global Arguments xx_r1 {_ _ _} _.
Global Arguments xx_r2 {_ _ _} _.
Global Arguments xx_r3 {_ _ _} _.
Global Arguments xx_tI {_ _ _} _.
Global Arguments xx_tR {_ _ _} _.

(** A frame is at most [2 + MAX_MESSAGE_LEN] bytes. *)
Definition max_frame : nat := 2 + MAX_MESSAGE_LEN.

(** The documentation of [Framed]: a sent message is encoded and written in one call; a
    received one is decoded as soon as what was read suffices, however it is cut into
    pieces, and what was read beyond it stays in the buffer. *)
Class FramedLaws `{Snow, Framing, !Framed} : Prop := {
  send_follows s s' m f p :
    encode m s = (Ok f, s') → f ≠ [] → follows (framed_send s m p) [(true, f)] (Ok s', p);
  send_runs s s' m f p :
    encode m s = (Ok f, s') → f ≠ [] → runs (framed_send s m p) [(true, f)] (Ret (Ok s', p));
  next_follows s s' m f p :
    f ≠ [] → length f ≤ max_frame →
    (∀ x y, f = x ++ y → y ≠ [] → decode (s, x) = (Ok None, (s, x))) →
    decode (s, f) = (Ok (Some m), (s', [])) →
    follows (framed_next s [] p) [(false, f)] (Ok (Some m, s', []), p);
  next_runs s s' m bs rest p :
    bs ≠ [] → decode (s, []) = (Ok None, (s, [])) → decode (s, bs) = (Ok (Some m), (s', rest)) →
    runs (framed_next s [] p) [(false, bs)] (Ret (Ok (Some m, s', rest), p))
}.

(** A handshake message that [bincode] carries. *)
Definition carried `{Wire} (msg : Handshake) (bs : list u8) : Prop :=
  serialize_handshake msg = Ok bs ∧ deserialize_handshake bs = Ok msg ∧ bs ≠ [] ∧
  (Z.of_nat (length bs) < 2 ^ 32)%Z.

(** The state of the codec after the handshake. *)
Definition established `{Snow} (t : SnowTransport) : State :=
  StPostHandshake (MkPostHandshakeState t None 0 0).

Section handshake_proofs.
Context `{Snow, Framing, !FramingLaws, !FramingPrefix, !Framed, !FramedLaws, Wire}.

Lemma frame_fits m f : frame_encode m = Ok f → length m ≤ MAX_MESSAGE_LEN →
  f ≠ [] ∧ length f ≤ max_frame.
Proof.
  intros Hf%frame_length Hm. unfold max_frame. split; [|lia]. intros ->. simpl in Hf. lia.
Qed.
Lemma frame_nonempty m f : frame_encode m = Ok f → f ≠ [].
Proof. intros Hf%frame_length ->. simpl in Hf. lia. Qed.

Lemma encode_handshake hs hs' m out f :
  hs_write hs m = Ok (out, hs') → frame_encode out = Ok f →
  encode m (StHandshake hs) = (Ok f, StHandshake hs').
Proof. intros Hw Hf. unfold encode. by rewrite Hw, Hf. Qed.

Lemma framed_send_follows hs hs' m out f p :
  hs_write hs m = Ok (out, hs') → frame_encode out = Ok f →
  follows (framed_send (StHandshake hs) m p) [(true, f)] (Ok (StHandshake hs'), p).
Proof. intros Hw Hf. apply send_follows; [by eapply encode_handshake|by eapply frame_nonempty]. Qed.

Lemma decode_partial hs m f x y :
  frame_encode m = Ok f → f = x ++ y → y ≠ [] →
  decode (StHandshake hs, x) = (Ok None, (StHandshake hs, x)).
Proof. intros Hf Hxy Hy. simpl. by rewrite (frame_partial m f x y). Qed.

Lemma decode_frame hs hs' m out f rest :
  length m ≤ MAX_MESSAGE_LEN → frame_encode m = Ok f → hs_read hs m = Ok (out, hs') →
  decode (StHandshake hs, f ++ rest) = (Ok (Some out), (StHandshake hs', rest)).
Proof.
  intros Hm Hf Hr. destruct (frame_roundtrip m Hm) as (f' & Hf' & Hd). rewrite Hf in Hf'.
  injection Hf' as <-. simpl. by rewrite Hd, Hr.
Qed.

Lemma framed_recv_follows hs hs' m out f p :
  length m ≤ MAX_MESSAGE_LEN → frame_encode m = Ok f → hs_read hs m = Ok (out, hs') →
  follows (framed_next (StHandshake hs) [] p) [(false, f)]
    (Ok (Some out, StHandshake hs', []), p).
Proof.
  intros Hm Hf Hr. destruct (frame_fits m f Hf Hm). apply next_follows; [done..| |].
  - intros x y Hxy Hy. by eapply decode_partial.
  - rewrite <-(app_nil_r f). by eapply decode_frame.
Qed.

Lemma read_follows s p : s ≠ [] → follows (read_exact (length s) p) [(false, s)] (Ok s, p).
Proof. intros Hs. apply (follows_exact s (λ r, Ret (ok_or r "early eof", p))); [done|constructor]. Qed.
Lemma write_follows s p : s ≠ [] → follows (write s p) [(true, s)] (Ok (), p).
Proof. intros Hs. apply follows_write; [done|constructor]. Qed.

Lemma be_bytes_nonempty n z : be_bytes (S n) z ≠ [].
Proof. intros Hb%(f_equal length). by rewrite length_be_bytes in Hb. Qed.

Definition length_prefix (bs : list u8) : list u8 := be_bytes 4 (Z.of_nat (length bs)).

Lemma write_handshake_follows msg bs p :
  carried msg bs → follows (write_handshake msg p) [(true, length_prefix bs); (true, bs)] (Ok (), p).
Proof.
  intros (Hs & _ & Hne & Hlen). unfold write_handshake. rewrite Hs.
  eapply (follows_bind _ _ []); [constructor|]. unfold u32_wrap. rewrite Z.mod_small by lia.
  eapply (follows_bind _ _ [_] [_]); apply write_follows; [apply be_bytes_nonempty|done].
Qed.
Lemma read_handshake_follows msg bs p :
  carried msg bs → follows (read_handshake p) [(false, length_prefix bs); (false, bs)] (Ok msg, p).
Proof.
  intros (_ & Hd & Hne & Hlen). unfold read_handshake.
  eapply (follows_bind _ _ [_] [_]).
  { replace 4 with (length (length_prefix bs)) by apply length_be_bytes. apply read_follows, be_bytes_nonempty. }
  unfold length_prefix. rewrite from_be_bytes_be_bytes, Nat2Z.id by lia.
  eapply (follows_bind _ _ [_] []); [by apply read_follows|]. rewrite Hd. constructor.
Qed.
End handshake_proofs.

(** ** Both ends finish *)

Section completion.
Context `{Snow, Framing, !FramingLaws, !FramingPrefix, !Framed, !FramedLaws, Wire}.
Context {hsI hsR : SnowHandshake} (x : XX hsI hsR).

(** The three frames of the noise handshake. *)
Lemma xx_frames : ∃ f1 f2 f3,
  frame_encode (xx_m1 x) = Ok f1 ∧ frame_encode (xx_m2 x) = Ok f2 ∧ frame_encode (xx_m3 x) = Ok f3.
Proof.
  destruct (xx_length _ _ x) as (L1 & L2 & L3).
  destruct (frame_roundtrip _ L1) as (f1 & ? & _), (frame_roundtrip _ L2) as (f2 & ? & _),
    (frame_roundtrip _ L3) as (f3 & ? & _). by exists f1, f2, f3.
Qed.

Lemma into_post_handshake_Ok hs t : hs_transport hs = Ok t → into_post_handshake (StHandshake hs) = Ok (established t).
Proof. intros Ht. simpl. by rewrite Ht. Qed.

Definition choreography (f1 f2 f3 bI bR : list u8) : actions :=
  [(true, f1); (false, f2); (true, f3);
   (true, be_bytes 8 PROTOCOL_VERSION); (false, be_bytes 8 PROTOCOL_VERSION);
   (true, length_prefix bI); (true, bI); (false, length_prefix bR); (false, bR)].

Lemma version_follows_read p :
  follows (read_exact 8 p) [(false, be_bytes 8 PROTOCOL_VERSION)] (Ok (be_bytes 8 PROTOCOL_VERSION), p).
Proof. apply (read_follows (be_bytes 8 PROTOCOL_VERSION)), be_bytes_nonempty. Qed.

Lemma initiator_follows f1 f2 f3 cfg remote p bI bR msgR :
  frame_encode (xx_m1 x) = Ok f1 → frame_encode (xx_m2 x) = Ok f2 → frame_encode (xx_m3 x) = Ok f3 →
  carried (fst (build_handshake_msg cfg p)) bI → carried msgR bR →
  follows (handshake cfg Initiator remote hsI p)
    (projection true (choreography f1 f2 f3 bI bR))
    (Ok (established (xx_tI x)), perform_handshake cfg remote msgR p).
Proof.
  intros F1 F2 F3 HbI HbR. destruct (xx_length _ _ x) as (L1 & L2 & L3). unfold handshake.
  eapply (follows_bind _ _ [_; _; _]).
  { eapply (follows_bind _ _ [_]); [by eapply framed_send_follows, F1; apply xx_write1|].
    eapply (follows_bind _ _ [_]); [eapply framed_recv_follows; [exact L2|exact F2|apply xx_read2]|].
    eapply (follows_bind _ _ [_] []); [by eapply framed_send_follows, F3; apply xx_write3|].
    rewrite (into_post_handshake_Ok _ _ (xx_transportI _ _ x)). repeat constructor. }
  eapply (follows_bind _ _ []); [constructor|].
  eapply (follows_bind _ _ [_; _; _; _; _; _] []).
  - eapply (follows_bind _ _ [_]); [apply write_follows, be_bytes_nonempty|].
    eapply (follows_bind _ _ [_]); [apply version_follows_read|].
    eapply (follows_bind _ _ []); [constructor|].
    eapply (follows_bind _ _ [_; _]); [by apply write_handshake_follows|].
    by apply read_handshake_follows.
  - constructor.
Qed.

Lemma responder_follows f1 f2 f3 cfg remote p bI bR msgI :
  frame_encode (xx_m1 x) = Ok f1 → frame_encode (xx_m2 x) = Ok f2 → frame_encode (xx_m3 x) = Ok f3 →
  carried (fst (build_handshake_msg cfg p)) bR → carried msgI bI →
  follows (handshake cfg Responder remote hsR p)
    (projection false (choreography f1 f2 f3 bI bR))
    (Ok (established (xx_tR x)), perform_handshake cfg remote msgI p).
Proof.
  intros F1 F2 F3 HbR HbI. destruct (xx_length _ _ x) as (L1 & L2 & L3). unfold handshake.
  eapply (follows_bind _ _ [_; _; _]).
  { eapply (follows_bind _ _ [_]); [eapply framed_recv_follows; [exact L1|exact F1|apply xx_read1]|].
    eapply (follows_bind _ _ [_]); [by eapply framed_send_follows, F2; apply xx_write2|].
    eapply (follows_bind _ _ [_] []); [eapply framed_recv_follows; [exact L3|exact F3|apply xx_read3]|].
    cbn beta iota. rewrite (into_post_handshake_Ok _ _ (xx_transportR _ _ x)). repeat constructor. }
  eapply (follows_bind _ _ []); [constructor|].
  eapply (follows_bind _ _ [_; _; _; _; _; _] []).
  - eapply (follows_bind _ _ [_]); [apply version_follows_read|].
    eapply (follows_bind _ _ [_]); [apply write_follows, be_bytes_nonempty|].
    eapply (follows_bind _ _ [_; _]); [by apply read_handshake_follows|].
    eapply (follows_bind _ _ []); [constructor|].
    eapply (follows_bind _ _ [_; _] []); [by apply write_handshake_follows|]. constructor.
  - constructor.
Qed.

Context (cfgI cfgR : P2PConfig) (remoteI remoteR : SocketAddr) (pI pR : P2P).

Definition connection_start : Connected (result string State * P2P) :=
  MkConnected (handshake cfgI Initiator remoteR hsI pI)
    (handshake cfgR Responder remoteI hsR pR) [] [].
Definition connection_done : Connected (result string State * P2P) :=
  MkConnected
    (Ret (Ok (established (xx_tI x)),
          perform_handshake cfgI remoteR (fst (build_handshake_msg cfgR pR)) pI))
    (Ret (Ok (established (xx_tR x)),
          perform_handshake cfgR remoteI (fst (build_handshake_msg cfgI pI)) pR)) [] [].

(** C35: When both ends know the same passphrase and no two writes of an end are read
    together, the handshake of a connection completes: however the data is cut into
    pieces and the two ends interleave, every run ends, and it ends with both ends
    having noise transports of the same session and having merged the lists the other
    end sent: nobody waits for ever and no error is reported. *)
Theorem handshake_completes bI bR :
  carried (fst (build_handshake_msg cfgI pI)) bI → carried (fst (build_handshake_msg cfgR pR)) bR →
  ∃ bound, ∀ n c, nsteps (conn_step false) n connection_start c →
    n ≤ bound ∧ ((∃ c', conn_step false c c') ∨ c = connection_done).
Proof.
  intros HI HR. destruct xx_frames as (f1 & f2 & f3 & F1 & F2 & F3).
  eexists. apply (choreography_completes _ _ (choreography f1 f2 f3 bI bR)).
  - by apply initiator_follows.
  - by apply responder_follows.
Qed.
End completion.

(** ** Data that is read together is lost *)

(** Nobody can go on: both ends read and nothing is in flight. *)
Definition stuck {A} (c : Connected A) : Prop :=
  ∃ n m k k', 0 < n ∧ 0 < m ∧ c = MkConnected (ReadExact n k) (ReadExact m k') [] [].

Lemma stuck_no_step {A} t (c c' : Connected A) : stuck c → ¬ conn_step t c c'.
Proof.
  intros (n & m & k & k' & Hn & Hm & ->) Hs.
  assert (∀ j (q q' : option (list u8) → proc A) p' i' out out', 0 < j →
    ¬ side_step (ReadExact j q) [] out p' i' out') as Hno.
  { intros j q _ p' i' out out' Hj Hstep. inversion Hstep as [|? ? ? ? ? ? Ht|]; subst.
    destruct j; [lia|done]. }
  inversion Hs as [? ? ? ? ? ? ? Hside|? ? ? ? ? ? ? Hside|? ? ? l ? ? ? ? E|? ? ? l ? ? ? ? E]; subst.
  - by eapply (Hno n k k) in Hside.
  - by eapply (Hno m k' k') in Hside.
  - by destruct l.
  - by destruct l.
Qed.

Section lost.
Context `{Snow, Framing, !FramingLaws, !FramingPrefix, !Framed, !FramedLaws, Wire}.
Context {hsI hsR : SnowHandshake} (x : XX hsI hsR).

Lemma framed_send_runs hs hs' m out f p :
  hs_write hs m = Ok (out, hs') → frame_encode out = Ok f →
  runs (framed_send (StHandshake hs) m p) [(true, f)] (Ret (Ok (StHandshake hs'), p)).
Proof. intros Hw Hf. apply send_runs; [by eapply encode_handshake|by eapply frame_nonempty]. Qed.

Lemma framed_recv_runs hs hs' m out f rest p :
  length m ≤ MAX_MESSAGE_LEN → frame_encode m = Ok f → hs_read hs m = Ok (out, hs') →
  runs (framed_next (StHandshake hs) [] p) [(false, f ++ rest)]
    (Ret (Ok (Some out, StHandshake hs', rest), p)).
Proof.
  intros Hm Hf Hr. pose proof (frame_nonempty m f Hf) as Hne. apply next_runs.
  - by destruct f.
  - by apply (decode_partial hs m f [] f).
  - by eapply decode_frame.
Qed.

Lemma initiator_runs f1 f2 f3 cfg remote p :
  frame_encode (xx_m1 x) = Ok f1 → frame_encode (xx_m2 x) = Ok f2 → frame_encode (xx_m3 x) = Ok f3 →
  ∃ k, runs (handshake cfg Initiator remote hsI p)
    [(true, f1); (false, f2); (true, f3); (true, be_bytes 8 PROTOCOL_VERSION)] (ReadExact 8 k).
Proof.
  intros F1 F2 F3. destruct (xx_length _ _ x) as (L1 & L2 & L3). eexists. unfold handshake.
  eapply (runs_bind _ _ [_; _; _]).
  { eapply (runs_bind _ _ [_]); [by eapply framed_send_runs, F1; apply xx_write1|].
    eapply (runs_bind _ _ [_]).
    { rewrite <-(app_nil_r f2). eapply framed_recv_runs; [exact L2|exact F2|apply xx_read2]. }
    eapply (runs_bind _ _ [_] []); [by eapply framed_send_runs, F3; apply xx_write3|].
    rewrite (into_post_handshake_Ok _ _ (xx_transportI _ _ x)). constructor. }
  eapply (runs_bind _ _ []); [constructor|]. apply (runs_write (be_bytes 8 PROTOCOL_VERSION)), runs_here.
Qed.

Lemma responder_runs f1 f2 f3 rest cfg remote p :
  frame_encode (xx_m1 x) = Ok f1 → frame_encode (xx_m2 x) = Ok f2 → frame_encode (xx_m3 x) = Ok f3 →
  ∃ k, runs (handshake cfg Responder remote hsR p)
    [(false, f1); (true, f2); (false, f3 ++ rest)] (ReadExact 8 k).
Proof.
  intros F1 F2 F3. destruct (xx_length _ _ x) as (L1 & L2 & L3). eexists. unfold handshake.
  eapply (runs_bind _ _ [_; _; _]).
  { eapply (runs_bind _ _ [_]).
    { rewrite <-(app_nil_r f1). eapply framed_recv_runs; [exact L1|exact F1|apply xx_read1]. }
    eapply (runs_bind _ _ [_]); [by eapply framed_send_runs, F2; apply xx_write2|].
    eapply (runs_bind _ _ [_] []); [by eapply framed_recv_runs; [exact L3|exact F3|apply xx_read3]|].
    cbn beta iota. rewrite (into_post_handshake_Ok _ _ (xx_transportR _ _ x)). constructor. }
  eapply (runs_bind _ _ []); [constructor|]. apply runs_here.
Qed.

Context (cfgI cfgR : P2PConfig) (remoteI remoteR : SocketAddr) (pI pR : P2P).

(** The initiator sends its protocol version right after the last noise message,
    and the responder's framed read may take both at once.  What it read beyond the
    frame is dropped with the framed stream ([into_parts] without [save_buffer]), so
    the version is lost: each end waits for the other, and nothing either of them does
    in the handshake ends that. *)
Theorem handshake_deadlock :
  ∃ c, rtc (conn_step true) (connection_start (hsI:=hsI) (hsR:=hsR) cfgI cfgR remoteI remoteR pI pR) c ∧
    stuck c ∧ ∀ c', ¬ conn_step true c c'.
Proof.
  destruct (xx_frames x) as (f1 & f2 & f3 & F1 & F2 & F3).
  destruct (initiator_runs f1 f2 f3 cfgI remoteR pI F1 F2 F3) as [kI HI].
  destruct (responder_runs f1 f2 f3 (be_bytes 8 PROTOCOL_VERSION) cfgR remoteI pR F1 F2 F3) as [kR HR].
  exists (MkConnected (ReadExact 8 kI) (ReadExact 8 kR) [] []).
  assert (stuck (MkConnected (ReadExact 8 kI) (ReadExact 8 kR) [] [])) as Hstuck
    by (exists 8, 8, kI, kR; split_and!; [lia|lia|done]).
  split_and!; [|done|by intros c' Hc'%stuck_no_step].
  apply (runs_initiator _ _ _ _ _ _ _ _ _ HI). clear HI. intros i1 HI.
  apply (runs_responder _ _ _ _ _ _ _ _ _ HR). clear HR. intros r1 HR.
  apply (runs_responder_send _ _ _ _ _ _ _ _ _ HR). clear HR. intros r2 HR.
  apply (runs_initiator_recv _ _ _ _ _ _ _ _ _ HI). clear HI. intros i2 HI.
  apply (runs_initiator _ _ _ _ _ _ _ _ _ HI). clear HI. intros i3 HI.
  apply (runs_initiator _ _ _ _ _ _ _ _ _ HI). clear HI. intros i4 ->%runs_nil.
  eapply rtc_l; [by apply (step_join_responder true _ _ _ [] f3 _ [])|].
  apply (runs_responder _ _ _ _ _ _ _ _ _ HR). clear HR. intros r3 ->%runs_nil. constructor.
Qed.
End lost.

(** ** A framed stream *)

Section buffered.
Context `{Snow, Framing}.

(** [send] *)
Definition buffered_send (s : State) (msg : list u8) : Net State :=
  match encode msg s with
  | (Ok f, s) => _ ← write f; mret s
  | (Err e, s) => net_lift (Err e)
  | (Panic, s) => net_lift Panic
  end.

(** [try_next]: decodes what is buffered and reads until there is a frame.
    The result is the message ([None] at the end of the stream), the codec's state and
    the bytes that are left in the buffer.  [fuel] bounds the reads. *)
Fixpoint buffered_next (fuel : nat) (s : State) (buf : list u8)
    : Net (option (list u8) * State * list u8) := λ p,
  match decode (s, buf) with
  | (Ok (Some m), (s, buf)) => Ret (Ok (Some m, s, buf), p)
  | (Err e, _) => Ret (Err e, p)
  | (Panic, _) => Ret (Panic, p)
  | (Ok None, (s, buf)) =>
      match fuel with
      | 0 => OutOfFuel
      | S fuel =>
          ReadSome (λ r, match r with
            | Some bs => buffered_next fuel s (buf ++ bs) p
            | None => Ret (if bool_decide (buf = []) then Ok (None, s, buf)
                           else Err "bytes remaining on stream", p)
            end)
      end
  end.

#[local] Instance buffered_framed : Framed := {|
  framed_send := buffered_send; framed_next := buffered_next max_frame
|}.

Lemma buffered_next_follows fuel s s' m f buf rest p :
  (∀ x y, f = x ++ y → y ≠ [] → decode (s, x) = (Ok None, (s, x))) →
  decode (s, f) = (Ok (Some m), (s', [])) → f = buf ++ rest → rest ≠ [] → length rest ≤ fuel →
  follows (buffered_next fuel s buf p) [(false, rest)] (Ok (Some m, s', []), p).
Proof.
  intros Hpart Hall. revert buf rest. induction fuel as [|fuel IH]; intros buf rest Heq Hne Hlen.
  { destruct rest; [done|simpl in Hlen; lia]. }
  cbn [buffered_next]. rewrite (Hpart buf rest) by done. apply follows_some; [done| |].
  - intros s1 s2 -> Hs1 Hs2. apply IH; [by rewrite <-app_assoc|done|].
    rewrite length_app in Hlen. destruct s1; [done|simpl in Hlen; lia].
  - rewrite <-Heq. destruct fuel; cbn [buffered_next]; rewrite Hall; constructor.
Qed.

#[local] Instance buffered_laws : FramedLaws.
Proof.
  split; cbn [framed_send framed_next buffered_framed].
  - intros s s' m f p He Hf. unfold buffered_send. rewrite He. by repeat constructor.
  - intros s s' m f p He Hf. unfold buffered_send. rewrite He. by repeat constructor.
  - intros s s' m f p Hf Hlen Hpart Hall. by eapply buffered_next_follows.
  - intros s s' m bs rest p Hbs Hnil Hd. unfold max_frame. cbn [Nat.add buffered_next].
    rewrite Hnil. apply runs_some; [done|]. cbn [app buffered_next]. rewrite Hd. constructor.
Qed.
End buffered.

(** ** Witnesses *)

Section handshake_witnesses.
#[local] Existing Instances secp_toy snow_toy framing_toy framing_toy_laws buffered_framed buffered_laws.

#[local] Instance framing_toy_prefix : FramingPrefix.
Proof.
  assert (Hf : ∀ bs f, frame_encode bs = Ok f →
    length bs ≤ MAX_MESSAGE_LEN ∧ f = be_bytes 2 (Z.of_nat (length bs)) ++ bs).
  { intros bs f. cbn [frame_encode framing_toy]. case_bool_decide; [|done]. by intros [= <-]. }
  split.
  - intros bs f [_ ->]%Hf. rewrite length_app, length_be_bytes. lia.
  - intros bs f x y [Hbs ->]%Hf Hxy Hy. cbn [frame_decode framing_toy].
    apply (f_equal length) in Hxy as Hlen. rewrite !length_app, length_be_bytes in Hlen.
    assert (0 < length y) by (destruct y; [done|simpl; lia]).
    rewrite bool_decide_eq_false_2; [done|]. intros Hle.
    assert (take 2 x = be_bytes 2 (Z.of_nat (length bs))) as Ht.
    { rewrite <-(take_app_le x y 2) by lia. rewrite <-Hxy.
      by rewrite take_app_length' by (by rewrite length_be_bytes). }
    rewrite Ht, from_be_bytes_be_bytes, Nat2Z.id in Hle by (unfold MAX_MESSAGE_LEN in Hbs; simpl; lia).
    lia.
Qed.

Definition toy_xx : XX (() : SnowHandshake) ().
Proof. refine (MkXX _ () () [] [] [] () () () () () () () () _ _ _ _ _ _ _ _ _); try done; simpl; lia. Defined.

(** The other end of [toy_cfg]. *)
Definition toy_cfg2 : P2PConfig := MkP2PConfig (node_addr 2) (Some 80%Z) (Some (node_addr 2)).
Definition toy_msg (cfg : P2PConfig) : Handshake := fst (build_handshake_msg cfg (P2P_new ∅)).
#[local] Instance wire_handshakes : Wire := {|
  ser_hs0 '(V0.V1 h) :=
    Ok (if bool_decide (V0.my_p2p_listen_addr h = node_addr 1) then ["i"%char] else ["r"%char]);
  de_hs0 bs := if bool_decide (bs = ["i"%char]) then Ok (hs0_of (toy_msg toy_cfg))
               else if bool_decide (bs = ["r"%char]) then Ok (hs0_of (toy_msg toy_cfg2)) else Err "tag";
  ser_hs1 _ := Err "unused"; de_hs1 _ := Err "unused";
  ser_msg0 _ := Err "unused"; de_msg0 _ := Err "unused";
  ser_msg1 _ := Err "unused"; de_msg1 _ := Err "unused"
|}.

Example handshake_completes_witness :
  ∃ bound, ∀ n c,
    nsteps (conn_step false) n (connection_start (hsI:=()) (hsR:=()) toy_cfg toy_cfg2 (node_addr 1)
      (node_addr 2) (P2P_new ∅) (P2P_new ∅)) c →
    n ≤ bound ∧ ((∃ c', conn_step false c c') ∨
      c = connection_done toy_xx toy_cfg toy_cfg2 (node_addr 1) (node_addr 2) (P2P_new ∅) (P2P_new ∅)).
Proof.
  apply (handshake_completes toy_xx toy_cfg toy_cfg2 (node_addr 1) (node_addr 2) (P2P_new ∅) (P2P_new ∅)
    ["i"%char] ["r"%char]); split_and!; by vm_compute.
Defined.

(** Afterwards each end has the other on its list. *)
Example handshake_makes_peers :
  match at_initiator (connection_done toy_xx toy_cfg toy_cfg2 (node_addr 1) (node_addr 2) (P2P_new ∅) (P2P_new ∅)),
        at_responder (connection_done toy_xx toy_cfg toy_cfg2 (node_addr 1) (node_addr 2) (P2P_new ∅) (P2P_new ∅)) with
  | Ret (_, p), Ret (_, q) => node_addr 2 ∈ peer_list p ∧ node_addr 1 ∈ peer_list q
  | _, _ => False
  end.
Proof. split; by_evaluation. Qed.

Example handshake_deadlock_witness :
  ∃ c, rtc (conn_step true) (connection_start (hsI:=()) (hsR:=()) toy_cfg toy_cfg2 (node_addr 1)
      (node_addr 2) (P2P_new ∅) (P2P_new ∅)) c ∧ stuck c ∧ ∀ c', ¬ conn_step true c c'.
Proof. apply (handshake_deadlock toy_xx). Defined.
End handshake_witnesses.
