(* ===== verification/Ffi.v ===== *)
(** * The C interface of the shim ([crates/shim-ffi/src/lib.rs], [shim.h])

    Programs in VMs that are written in C get their task as a structure of pointers and
    build their result through an opaque one.  Memory is a map of blocks; a pointer is
    null or an offset into a block.  Reading what is not there is undefined behaviour
    and a value of its own, next to panics. *)

From S2P Require Import Prelude Types Models Files Transaction Event Mempool Workflow Watchdog Resources Scheduler Vmm VmServer Shim.

(** ** Memory *)

Definition Ptr : Type := option (nat * nat).
Definition null : Ptr := None.

Inductive Block :=
  | BBytes (bs : list u8)
  | BPtrs (ps : list Ptr)
  (** [Task] of [shim.h]: id, args, files *)
  | BTask (id args files : Ptr)
  (** [TaskResult], opaque to C *)
  | BResult (data : list u8) (files : list string).

Abbreviation heap := (gmap nat Block).
Inductive Undefined := UndefinedBehaviour.

(** [String::from_utf8_lossy] *)
Class Utf8 := {
  valid_utf8 : list u8 → bool;
  to_string_lossy : list u8 → string
}.
Class Utf8Laws `{Utf8} : Prop := {
  lossy_valid s : valid_utf8 (as_bytes s) = true → to_string_lossy (as_bytes s) = s
}.

Definition NUL : u8 := "000"%char.
Definition no_nul (s : string) : Prop := NUL ∉ as_bytes s.
#[global] Instance no_nul_dec s : Decision (no_nul s).
Proof. unfold no_nul. apply _. Defined.

(** The bytes before the terminator, the pointers before the null pointer. *)
Fixpoint until_nul (l : list u8) : option (list u8) :=
  match l with
  | [] => None
  | c :: l => if decide (c = NUL) then Some [] else cons c <$> until_nul l
  end.
Fixpoint until_null (l : list Ptr) : option (list Ptr) :=
  match l with
  | [] => None
  | None :: _ => Some []
  | p :: l => cons p <$> until_null l
  end.

(** What a C program reads. *)
Definition c_string (h : heap) (p : Ptr) : option (list u8) :=
  '(b, o) ← p;
  match h !! b with Some (BBytes bs) => until_nul (drop o bs) | _ => None end.
Definition c_array (h : heap) (p : Ptr) : option (list Ptr) :=
  '(b, o) ← p;
  match h !! b with Some (BPtrs ps) => until_null (drop o ps) | _ => None end.
Definition c_bytes (h : heap) (p : Ptr) (len : nat) : option (list u8) :=
  '(b, o) ← p;
  match h !! b with
  | Some (BBytes bs) => if decide (o + len ≤ length bs) then Some (take len (drop o bs)) else None
  | _ => None
  end.
Definition c_task (h : heap) (p : Ptr) : option (list u8 * list (list u8) * list (list u8)) :=
  '(b, o) ← p;
  match o, h !! b with
  | 0, Some (BTask id args files) =>
      id ← c_string h id;
      args ← c_array h args; args ← mapM (c_string h) args;
      files ← c_array h files; files ← mapM (c_string h) files;
      Some (id, args, files)
  | _, _ => None
  end.

(** ** The functions of the library *)

Definition undefined {A} : M heap Undefined A := throw UndefinedBehaviour.
Definition read {A} (o : option A) : M heap Undefined A :=
  match o with Some a => mret a | None => undefined end.
Definition alloc (v : Block) : M heap Undefined Ptr := λ h,
  let b := base.fresh (dom h) in (Ok (Some (b, 0)), <[b := v]> h).
(** A Rust value goes out of scope. *)
Definition drop_block (p : Ptr) : M heap Undefined () :=
  match p with Some (b, _) => modify (delete b) | None => mret () end.

Definition new_task_result (data : Ptr) (len : nat) : M heap Undefined Ptr :=
  h ← get;
  data ← (if decide (data = null) then mret [] else read (c_bytes h data len));
  alloc (BResult data []).

Definition read_result (h : heap) (p : Ptr) : option (nat * list u8 * list string) :=
  '(b, o) ← p;
  match o, h !! b with 0, Some (BResult data files) => Some (b, data, files) | _, _ => None end.

(** [CString::new(s).expect(..)]: panics on an inner NUL byte. *)
Definition cstring_new (s : string) : M heap Undefined Ptr :=
  if decide (no_nul s) then alloc (BBytes (as_bytes s ++ [NUL])) else lift Panic.

Fixpoint map_eachM {S E A B} (f : A → M S E B) (l : list A) : M S E (list B) :=
  match l with
  | [] => mret []
  | x :: l => y ← f x; ys ← map_eachM f l; mret (y :: ys)
  end.

Section ffi.
Context `{Utf8}.

Definition add_file_to_result (result file_name : Ptr) : M heap Undefined () :=
  h ← get;
  c_str ← read (c_string h file_name);
  '(b, data, files) ← read (read_result h result);
  modify (insert b (BResult data (files ++ [to_string_lossy c_str]))).

(** The closure [run] hands to the shim.  The strings, the arrays and the task are
    dropped when it returns; the result is not. *)
Definition ffi_callback (callback : Ptr → M heap Undefined Ptr) (task : ShimTask)
    : M heap Undefined (result string ShimResult) :=
  id_cstr ← cstring_new (st_id task);
  cstr_args ← map_eachM cstring_new (st_args task);
  cstr_files ← map_eachM cstring_new (st_files task);
  carr_args ← alloc (BPtrs (cstr_args ++ [null]));
  carr_files ← alloc (BPtrs (cstr_files ++ [null]));
  c_task ← alloc (BTask id_cstr carr_args carr_files);
  result ← callback c_task;
  h ← get;
  '(_, data, files) ← read (read_result h result);
  _ ← for_eachM drop_block (c_task :: carr_files :: carr_args :: cstr_files ++ cstr_args ++ [id_cstr]);
  mret (task_result task data files).
End ffi.

(** The end of [run]: [if res.is_err() { eprintln!(.., res.unwrap()) }]. *)
Definition ffi_run_end (res : result string ()) : result string () :=
  match res with Ok _ => Ok () | Err _ => Panic | Panic => Panic end.

(** ** Memory grows and is read *)

Lemma c_string_mono h h' p bs : h ⊆ h' → c_string h p = Some bs → c_string h' p = Some bs.
Proof.
  intros Hh. destruct p as [[b o]|]; [|done]. simpl. destruct (h !! b) as [v|] eqn:Hb; [|done].
  by rewrite (lookup_weaken h h' b v).
Qed.
Lemma c_strings_mono h h' ps l :
  h ⊆ h' → mapM (c_string h) ps = Some l → mapM (c_string h') ps = Some l.
Proof.
  intros Hh. rewrite !mapM_Some. induction 1; constructor; [by eapply c_string_mono|done].
Qed.

Lemma alloc_spec v (h : heap) :
  let b := base.fresh (dom h) in
  alloc v h = (Ok (Some (b, 0)), <[b := v]> h) ∧ h !! b = None ∧ h ⊆ <[b := v]> h.
Proof.
  assert (h !! base.fresh (dom h) = None) as Hf by (apply not_elem_of_dom, is_fresh).
  split_and!; [done..|by apply insert_subseteq].
Qed.

Lemma until_nul_app l : NUL ∉ l → until_nul (l ++ [NUL]) = Some l.
Proof.
  induction l as [|c l IH]; intros Hn; cbn [until_nul app]; [by rewrite decide_True|].
  apply not_elem_of_cons in Hn as [Hc Hl]. rewrite decide_False by done. by rewrite IH.
Qed.
(** A C string ends at its first NUL byte. *)
Fixpoint before_nul (l : list u8) : list u8 :=
  match l with [] => [] | c :: l => if decide (c = NUL) then [] else c :: before_nul l end.
Lemma until_nul_any l : until_nul (l ++ [NUL]) = Some (before_nul l).
Proof.
  induction l as [|c l IH]; cbn [until_nul before_nul app]; [by rewrite decide_True|].
  case_decide; [done|]. by rewrite IH.
Qed.
Lemma before_nul_none l : NUL ∉ l → before_nul l = l.
Proof.
  induction l as [|c l IH]; [done|]. intros [Hc Hl]%not_elem_of_cons. cbn [before_nul].
  rewrite decide_False by done. by rewrite IH.
Qed.

Lemma until_null_app ps : Forall is_Some ps → until_null (ps ++ [null]) = Some ps.
Proof. induction 1 as [|p ps [? ->] _ IH]; simpl; [done|by rewrite IH]. Qed.

(** The blocks [d] were allocated between [h] and [h']. *)
Definition allocated (d : gset nat) (h h' : heap) : Prop := h ⊆ h' ∧ dom h' = d ∪ dom h ∧ d ## dom h.

Lemma allocated_refl h : allocated ∅ h h.
Proof. split_and!; [done|set_solver..]. Qed.
Lemma allocated_trans d1 d2 h1 h2 h3 :
  allocated d1 h1 h2 → allocated d2 h2 h3 → allocated (d1 ∪ d2) h1 h3.
Proof. intros (A1 & A2 & A3) (B1 & B2 & B3). split_and!; [by etransitivity|set_solver..]. Qed.

(** The blocks of a list of pointers. *)
Definition blocks (ps : list Ptr) : gset nat := list_to_set (omap (λ p : Ptr, fst <$> p) ps).

Lemma blocks_app ps qs : blocks (ps ++ qs) = blocks ps ∪ blocks qs.
Proof. unfold blocks. by rewrite omap_app, list_to_set_app_L. Qed.

Lemma alloc_ok v h :
  ∃ p h', alloc v h = (Ok p, h') ∧ allocated (blocks [p]) h h' ∧ is_Some p ∧
    ∃ b, p = Some (b, 0) ∧ h' !! b = Some v.
Proof.
  destruct (alloc_spec v h) as (Ha & Hf & Hs). eexists _, _. split; [exact Ha|]. split_and!.
  - split_and!; [done|rewrite dom_insert_L; unfold blocks; simpl; set_solver|].
    apply not_elem_of_dom in Hf. unfold blocks. simpl. set_solver.
  - by eexists.
  - eexists. split; [done|]. apply lookup_insert_eq.
Qed.

Lemma cstring_new_ok s h :
  no_nul s → ∃ p h', cstring_new s h = (Ok p, h') ∧ allocated (blocks [p]) h h' ∧ is_Some p ∧
    c_string h' p = Some (as_bytes s).
Proof.
  intros Hs. unfold cstring_new. rewrite decide_True by done.
  destruct (alloc_ok (BBytes (as_bytes s ++ [NUL])) h) as (p & h' & Ha & Hd & Hp & b & -> & Hb).
  exists (Some (b, 0)), h'. split_and!; [done..|].
  unfold c_string, mbind, option_bind. by rewrite Hb, drop_0, until_nul_app.
Qed.

Lemma cstrings_new_ok l h :
  Forall no_nul l → ∃ ps h', map_eachM cstring_new l h = (Ok ps, h') ∧ allocated (blocks ps) h h' ∧
    Forall is_Some ps ∧ mapM (c_string h') ps = Some (as_bytes <$> l).
Proof.
  intros Hl. revert h. induction Hl as [|s l Hs _ IH]; intros h.
  - exists [], h. split_and!; [done|apply allocated_refl|done..].
  - destruct (cstring_new_ok s h Hs) as (p & h1 & H1 & D1 & P1 & C1).
    destruct (IH h1) as (ps & h2 & H2 & D2 & P2 & C2). exists (p :: ps), h2. split_and!.
    + simpl. unfold mbind, M_bind. by rewrite H1, H2.
    + change (p :: ps) with ([p] ++ ps). rewrite blocks_app. by eapply allocated_trans.
    + by constructor.
    + simpl. rewrite (c_string_mono h1 h2 p (as_bytes s)) by (done || apply D2). simpl. by rewrite C2.
Qed.

Lemma cstrings_new_panic l h : ¬ Forall no_nul l → fst (map_eachM cstring_new l h) = Panic.
Proof.
  revert h. induction l as [|s l IH]; intros h Hl; [destruct Hl; constructor|]. simpl.
  unfold mbind, M_bind. destruct (decide (no_nul s)) as [Hs|Hs].
  - destruct (cstring_new_ok s h Hs) as (p & h1 & H1 & _). rewrite H1.
    assert (fst (map_eachM cstring_new l h1) = Panic) as Hp by (apply IH; intros ?; by apply Hl; constructor).
    destruct (map_eachM cstring_new l h1) as [[]]; simpl in *; done.
  - unfold cstring_new. by rewrite decide_False.
Qed.

(** ** From the task to the result *)

Lemma bind_get {S E A} (f : S → M S E A) (s : S) : (x ← get; f x) s = f s s.
Proof. done. Qed.
Lemma bind_read {A B} (a : A) (f : A → M heap Undefined B) h : (x ← read (Some a); f x) h = f a h.
Proof. done. Qed.
Lemma bind_Ok {S E A B} (m : M S E A) (f : A → M S E B) s a s' :
  m s = (Ok a, s') → (m ≫= f) s = f a s'.
Proof. unfold mbind, M_bind. by intros ->. Qed.
Lemma read_result_block h b data files :
  h !! b = Some (BResult data files) → read_result h (Some (b, 0)) = Some (b, data, files).
Proof. intros Hb. unfold read_result, mbind, option_bind. by rewrite Hb. Qed.
Lemma c_bytes_block h b bs : h !! b = Some (BBytes bs) → c_bytes h (Some (b, 0)) (length bs) = Some bs.
Proof.
  intros Hb. unfold c_bytes, mbind, option_bind. rewrite Hb, decide_True by (simpl; lia).
  by rewrite drop_0, firstn_all.
Qed.

Section callback.
Context `{Utf8Laws}.

(** No string of the task has a NUL byte inside. *)
Definition task_clean (t : ShimTask) : Prop :=
  no_nul (st_id t) ∧ Forall no_nul (st_args t) ∧ Forall no_nul (st_files t).

Lemma drop_blocks_spec l (h : heap) :
  ∃ h', for_eachM drop_block l h = (Ok (), h') ∧
    ∀ b, h' !! b = if decide (b ∈ blocks l) then None else h !! b.
Proof.
  revert h. induction l as [|p l IH]; intros h; [by exists h|]. cbn [for_eachM].
  destruct p as [[a o]|]; cbn [drop_block].
  - destruct (IH (delete a h)) as (h' & H1 & H2). exists h'. split; [done|]. intros b. rewrite H2.
    change (blocks (Some (a, o) :: l)) with ({[a]} ∪ blocks l).
    destruct (decide (b = a)) as [->|Hne].
    + rewrite lookup_delete_eq, (decide_True (P:=a ∈ {[a]} ∪ _)) by set_solver. by destruct (decide _).
    + rewrite lookup_delete_ne by done. destruct (decide (b ∈ blocks l)), (decide (b ∈ {[a]} ∪ _)); set_solver.
  - apply IH.
Qed.

(** What the callback is called with: a pointer to the whole task, in a memory that
    still holds everything that was there. *)
Lemma ffi_callback_prepared f task h :
  task_clean task → ∃ p h1 locals, allocated (blocks locals) h h1 ∧
    c_task h1 p = Some (as_bytes (st_id task), as_bytes <$> st_args task, as_bytes <$> st_files task) ∧
    ffi_callback f task h =
      (result ← f p;
       h ← get;
       '(_, data, files) ← read (read_result h result);
       _ ← for_eachM drop_block locals;
       mret (task_result task data files)) h1.
Proof.
  intros (C1 & C2 & C3).
  destruct (cstring_new_ok _ h C1) as (pid & h1 & E1 & D1 & _ & R1).
  destruct (cstrings_new_ok _ h1 C2) as (pargs & h2 & E2 & D2 & N2 & R2).
  destruct (cstrings_new_ok _ h2 C3) as (pfiles & h3 & E3 & D3 & N3 & R3).
  destruct (alloc_ok (BPtrs (pargs ++ [null])) h3) as (aargs & h4 & E4 & D4 & _ & b4 & -> & R4).
  destruct (alloc_ok (BPtrs (pfiles ++ [null])) h4) as (afiles & h5 & E5 & D5 & _ & b5 & -> & R5).
  destruct (alloc_ok (BTask pid (Some (b4, 0)) (Some (b5, 0))) h5) as (p & h6 & E6 & D6 & _ & b6 & -> & R6).
  exists (Some (b6, 0)), h6, (Some (b6, 0) :: Some (b5, 0) :: Some (b4, 0) :: pfiles ++ pargs ++ [pid]).
  split_and!.
  - pose proof (allocated_trans _ _ _ _ _ D1 (allocated_trans _ _ _ _ _ D2 (allocated_trans _ _ _ _ _ D3
      (allocated_trans _ _ _ _ _ D4 (allocated_trans _ _ _ _ _ D5 D6))))) as Hall.
    assert (∀ d d' : gset nat, d = d' → allocated d h h6 → allocated d' h h6) as Hsub by (by intros ?? ->).
    eapply Hsub; [|exact Hall].
    change (Some (b6, 0) :: Some (b5, 0) :: Some (b4, 0) :: pfiles ++ pargs ++ [pid])
      with ([Some (b6, 0)] ++ [Some (b5, 0)] ++ [Some (b4, 0)] ++ pfiles ++ pargs ++ [pid] : list Ptr).
    rewrite !blocks_app. set_solver.
  - assert (S5 := proj1 D6). assert (S4 := transitivity (proj1 D5) S5).
    assert (S3 := transitivity (proj1 D4) S4). assert (S2 := transitivity (proj1 D3) S3).
    assert (S1 := transitivity (proj1 D2) S2).
    change (c_task h6 (Some (b6, 0))) with (match h6 !! b6 with
      | Some (BTask id args files) =>
          id ← c_string h6 id; args ← c_array h6 args; args ← mapM (c_string h6) args;
          files ← c_array h6 files; files ← mapM (c_string h6) files; Some (id, args, files)
      | _ => None end).
    rewrite R6, (c_string_mono h1 h6 pid _ S1 R1).
    assert (∀ b l, h6 !! b = Some (BPtrs (l ++ [null])) → Forall is_Some l → c_array h6 (Some (b, 0)) = Some l) as Ha.
    { intros b l Hb Hl. unfold c_array, mbind, option_bind. by rewrite Hb, drop_0, until_null_app. }
    rewrite (Ha b4 pargs), (Ha b5 pfiles) by (done || by eapply lookup_weaken).
    cbn [mbind option_bind].
    by rewrite (c_strings_mono h2 h6 _ _ S2 R2), (c_strings_mono h3 h6 _ _ S3 R3).
  - unfold ffi_callback. unfold mbind at 1, M_bind at 1. rewrite E1.
    unfold mbind at 1, M_bind at 1. rewrite E2. unfold mbind at 1, M_bind at 1. rewrite E3.
    unfold mbind at 1, M_bind at 1. rewrite E4. unfold mbind at 1, M_bind at 1. rewrite E5.
    unfold mbind at 1, M_bind at 1. by rewrite E6.
Qed.

Lemma ffi_callback_panics f task h : ¬ task_clean task → fst (ffi_callback f task h) = Panic.
Proof.
  intros Hc. unfold ffi_callback. unfold mbind at 1, M_bind at 1.
  destruct (decide (no_nul (st_id task))) as [C1|C1]; [|by unfold cstring_new; rewrite decide_False].
  destruct (cstring_new_ok _ h C1) as (pid & h1 & -> & _). unfold mbind at 1, M_bind at 1.
  destruct (decide (Forall no_nul (st_args task))) as [C2|C2].
  - destruct (cstrings_new_ok _ h1 C2) as (pargs & h2 & -> & _). unfold mbind at 1, M_bind at 1.
    assert (¬ Forall no_nul (st_files task)) as C3 by (intros C3; by apply Hc).
    pose proof (cstrings_new_panic _ h2 C3) as Hp. destruct (map_eachM _ _ h2) as [[]]; done.
  - pose proof (cstrings_new_panic _ h1 C2) as Hp. destruct (map_eachM _ _ h1) as [[]]; done.
Qed.

(** The name the shim has of a file that a C program names by these bytes. *)
Definition shim_name (name : list u8) : string := to_string_lossy (before_nul name).

Lemma shim_name_clean s : no_nul s → valid_utf8 (as_bytes s) = true → shim_name (as_bytes s) = s.
Proof. intros Hs Hv. unfold shim_name. by rewrite before_nul_none, lossy_valid. Qed.

(** A C program that computes [g] on what it reads from its task and builds its result
    with the library. *)
Definition c_program (g : list u8 → list (list u8) → list (list u8) → list u8 * list (list u8))
    (t : Ptr) : M heap Undefined Ptr :=
  h ← get;
  '(id, args, files) ← read (c_task h t);
  let '(data, out) := g id args files in
  buffer ← alloc (BBytes data);
  result ← new_task_result buffer (length data);
  _ ← for_eachM (λ f, name ← alloc (BBytes (f ++ [NUL])); add_file_to_result result name) out;
  mret result.

Lemma add_file_run b name data files f h :
  h !! b = Some (BResult data files) → c_string h name = Some (before_nul f) →
  add_file_to_result (Some (b, 0)) name h = (Ok (), <[b := BResult data (files ++ [shim_name f])]> h).
Proof.
  intros Hb Hc. unfold add_file_to_result.
  by rewrite bind_get, Hc, bind_read, (read_result_block h b data files), bind_read.
Qed.

(** Files that are added to a result, in order; other memory is untouched. *)
Lemma add_files_run b data files out h :
  h !! b = Some (BResult data files) →
  ∃ h', for_eachM (λ f, name ← alloc (BBytes (f ++ [NUL]));
                        add_file_to_result (Some (b, 0)) name) out h = (Ok (), h') ∧
    h' !! b = Some (BResult data (files ++ (shim_name <$> out))) ∧
    ∀ a, a ≠ b → a ∈ dom h → h' !! a = h !! a.
Proof.
  revert files h. induction out as [|f out IH]; intros files h Hb.
  - exists h. rewrite app_nil_r. by split_and!.
  - destruct (alloc_ok (BBytes (f ++ [NUL])) h) as (p & h1 & H1 & (D1 & D2 & D3) & _ & n & -> & Hn).
    assert (c_string h1 (Some (n, 0)) = Some (before_nul f)) as Hc
      by (unfold c_string, mbind, option_bind; by rewrite Hn, drop_0, until_nul_any).
    assert (h1 !! b = Some (BResult data files)) as Hb1 by (by eapply lookup_weaken).
    destruct (IH (files ++ [shim_name f]) (<[b := BResult data (files ++ [shim_name f])]> h1))
      as (h' & Hr & Hb' & Ho); [by apply lookup_insert_eq|].
    exists h'. split_and!.
    + cbn [for_eachM]. unfold mbind at 1, M_bind at 1. unfold mbind at 1, M_bind at 1.
      rewrite H1, (add_file_run b _ data files f h1) by done. exact Hr.
    + rewrite Hb', fmap_cons. by rewrite <-app_assoc.
    + intros a Ha Hin. rewrite Ho, lookup_insert_ne by (done || set_solver).
      apply elem_of_dom in Hin as [v Hv']. rewrite Hv'. by eapply lookup_weaken.
Qed.

Lemma c_program_run g t h id args files data out :
  c_task h t = Some (id, args, files) → g id args files = (data, out) →
  ∃ b h', c_program g t h = (Ok (Some (b, 0)), h') ∧ h' !! b = Some (BResult data (shim_name <$> out)) ∧
    (b ∉ dom h) ∧ h ⊆ h'.
Proof.
  intros Ht Hg. destruct (alloc_ok (BBytes data) h) as (p & h1 & E1 & D1 & _ & a & -> & Ra).
  destruct (alloc_ok (BResult data []) h1) as (q & h2 & E2 & D2 & _ & b & -> & Rb).
  destruct (add_files_run b data [] out h2 Rb) as (h' & Hr & Hb' & Ho). exists b, h'.
  assert ((b ∉ dom h1) ∧ dom h ⊆ dom h1 ∧ h ⊆ h2) as (Hb & Hd & Hs).
  { destruct D1 as (? & ? & ?), D2 as (? & ? & ?). unfold blocks in *. simpl in *.
    split_and!; [set_solver|set_solver|by etransitivity]. }
  split_and!; [|done|set_solver|].
  - assert (new_task_result (Some (a, 0)) (length data) h1 = (Ok (Some (b, 0)), h2)) as Hnew.
    { unfold new_task_result. rewrite bind_get, decide_False by done.
      by rewrite (c_bytes_block h1 a data), bind_read. }
    unfold c_program. rewrite bind_get, Ht, bind_read, Hg, (bind_Ok _ _ _ _ _ E1), (bind_Ok _ _ _ _ _ Hnew).
    by rewrite (bind_Ok _ _ _ _ _ Hr).
  - apply map_subseteq_spec. intros x v Hx. rewrite Ho.
    + by eapply lookup_weaken.
    + intros ->. apply Hb, Hd. by apply elem_of_dom_2 in Hx.
    + apply elem_of_dom. exists v. by eapply lookup_weaken.
Qed.

(** C32: a C program gets its task and hands in its result: when no string of
    the task has a NUL byte inside, a program that computes anything on the id, the
    arguments and the file names it reads through [shim.h], and builds its result with
    the library, gets exactly the bytes of the task, and the shim gets exactly the data,
    and the file names in their order, under the id of the task; everything that was in
    memory is still there.  A name reaches the shim up to its first NUL byte and with
    what is not UTF-8 replaced, so a name that is UTF-8 without NUL bytes unchanged.
    One block more is in memory, the result, which nothing frees.  A task with a NUL byte
    panics, whatever the program. *)
Theorem ffi_callback_spec g task h :
  (task_clean task →
   let '(data, out) := g (as_bytes (st_id task)) (as_bytes <$> st_args task) (as_bytes <$> st_files task) in
   ∃ b h', ffi_callback (c_program g) task h =
       (Ok (Ok (MkShimResult (st_id task) data (shim_name <$> out))), h') ∧
     h ⊆ h' ∧ (b ∉ dom h) ∧ h' !! b = Some (BResult data (shim_name <$> out))) ∧
  (∀ name, no_nul name → valid_utf8 (as_bytes name) = true → shim_name (as_bytes name) = name) ∧
  (¬ task_clean task → ∀ f, fst (ffi_callback f task h) = Panic).
Proof.
  split; [|split; [apply shim_name_clean|by intros Hc f; apply ffi_callback_panics]]. intros Hc.
  destruct (g _ _ _) as [data out] eqn:Hg.
  destruct (ffi_callback_prepared (c_program g) task h Hc) as (p & h1 & locals & (A1 & A2 & A3) & Ht & ->).
  destruct (c_program_run g p h1 _ _ _ data out Ht Hg) as (b & h2 & Hr & Hb & Hnew & Hs).
  destruct (drop_blocks_spec locals h2) as (h3 & Hd & Hl). exists b, h3.
  assert (∀ a, a ∈ dom h → a ∉ blocks locals) as Hkeep by set_solver.
  split_and!.
  - rewrite (bind_Ok _ _ _ _ _ Hr), bind_get, (read_result_block h2 b data (shim_name <$> out)), bind_read by done.
    by rewrite (bind_Ok _ _ _ _ _ Hd).
  - apply map_subseteq_spec. intros x v Hx.
    rewrite Hl, decide_False by (apply Hkeep; by apply elem_of_dom_2 in Hx).
    eapply lookup_weaken; [|exact Hs]. by eapply lookup_weaken.
  - set_solver.
  - rewrite Hl, decide_False; [done|]. set_solver.
Qed.
End callback.

(** ** Witness *)

Section ffi_witnesses.

Definition utf8_ascii : Utf8 := {|
  valid_utf8 bs := forallb (λ c, (u8_val c <? 128)%Z) bs;
  to_string_lossy := String.string_of_list_ascii
|}.
#[local] Existing Instance utf8_ascii.
#[local] Instance utf8_ascii_laws : Utf8Laws.
Proof. split. intros s _. apply String.string_of_list_ascii_of_string. Qed.

Definition ffi_task : ShimTask := MkShimTask "tx" ["--nonce"; "42"] ["/workspace/in"].
(** Data: the id; files: one per argument. *)
Definition ffi_work (id : list u8) (args files : list (list u8)) : list u8 * list (list u8) :=
  (id, args).

Example ffi_callback_spec_witness :
  ∃ b h', ffi_callback (c_program ffi_work) ffi_task ∅ =
      (Ok (Ok (MkShimResult "tx" (as_bytes "tx") ["--nonce"; "42"])), h') ∧
    h' !! b = Some (BResult (as_bytes "tx") ["--nonce"; "42"]).
Proof.
  destruct (proj1 (ffi_callback_spec ffi_work ffi_task ∅)) as (b & h' & Hr & _ & _ & Hb).
  - by_evaluation.
  - by exists b, h'.
Defined.

(** What is left is the buffer of the C program and the result. *)
Example ffi_result_left :
  size (snd (ffi_callback (c_program (λ _ _ _, ([], []))) ffi_task ∅)) = 2.
Proof. by vm_compute. Qed.

Example ffi_nul_panics : fst (ffi_callback (c_program ffi_work) (MkShimTask "tx" [String NUL "x"] []) ∅) = Panic.
Proof. by vm_compute. Qed.
End ffi_witnesses.
