(* ===== verification/Serve.v ===== *)
(** * The file server of the command line tool ([crates/cli/src/server.rs])

    [serve_file]: while nodes download the served files, every connection reports the
    bytes it sends, and the loop stops when each file has been sent.  The progress bars
    of [indicatif], which count the bytes, are an interface. *)

From S2P Require Import Prelude Types Files.

(** [indicatif::ProgressBar] *)
Class ProgressBar := {
  Bar : Type;
  bar_new : nat → Bar;
  bar_inc : nat → Bar → Bar;
  bar_finish : Bar → Bar;
  bar_length : Bar → nat;
  bar_position : Bar → nat
}.
Class ProgressBarLaws `{ProgressBar} : Prop := {
  position_new n : bar_position (bar_new n) = 0;
  length_new n : bar_length (bar_new n) = n;
  position_inc n b : bar_position (bar_inc n b) = bar_position b + n;
  length_inc n b : bar_length (bar_inc n b) = bar_length b
}.

Section serve.
Context `{ProgressBar}.

(** The state of the loop: the files still to be sent by digest, the bars of those
    files whose size could be read, and whether a download has begun. *)
Record Serving := MkServing {
  served_files : gmap string string;
  pg_map : gmap string Bar;
  download_started : bool
}.

Definition serve_start (root : fs) (files : gmap string string) : Serving :=
  MkServing files
    (omap (λ path, bar_new ∘ length <$> root !! path_resolve path) files) false.

(** What the [select!] wakes up for: a chunk of [n] bytes of a file was sent, or the ten
    second timer.  A new connection only starts a task. *)
Inductive ServeEvent := Sent (digest : string) (n : nat) | Tick.

(** One turn; [true] is [break]. *)
Definition serve_step (ev : ServeEvent) (s : Serving) : Serving * bool :=
  match ev with
  | Sent digest n =>
      let s :=
        match pg_map s !! digest with
        | Some pg =>
            let pg := bar_inc n pg in
            if bar_length pg <=? bar_position pg
            then MkServing (delete digest (served_files s)) (<[digest := bar_finish pg]> (pg_map s)) true
            else MkServing (served_files s) (<[digest := pg]> (pg_map s)) true
        | None => MkServing (served_files s) (pg_map s) true
        end in
      (s, bool_decide (served_files s = ∅))
  | Tick => (s, negb (download_started s))
  end.

(** The loop over the events that happen; [true] when it has stopped. *)
Fixpoint serve (evs : list ServeEvent) (s : Serving) : Serving * bool :=
  match evs with
  | [] => (s, false)
  | ev :: evs => match serve_step ev s with (s, true) => (s, true) | (s, false) => serve evs s end
  end.

(** ** When it stops *)

Definition sent_of (digest : string) (ev : ServeEvent) : nat :=
  match ev with Sent d n => if decide (d = digest) then n else 0 | Tick => 0 end.
Definition total_sent (digest : string) (evs : list ServeEvent) : nat :=
  sum_list (sent_of digest <$> evs).
Definition touched (digest : string) (evs : list ServeEvent) : Prop := ∃ n, Sent digest n ∈ evs.

(** A file is sent: its bar exists, something of it was sent, and enough. *)
Definition complete (s : Serving) (evs : list ServeEvent) (digest : string) : Prop :=
  ∃ pg, pg_map s !! digest = Some pg ∧ touched digest evs ∧
    bar_length pg ≤ bar_position pg + total_sent digest evs.

Lemma touched_cons d ev evs : touched d (ev :: evs) ↔ (∃ n, ev = Sent d n) ∨ touched d evs.
Proof. unfold touched. setoid_rewrite elem_of_cons. naive_solver. Qed.

Lemma total_sent_pos d evs : 0 < total_sent d evs → touched d evs.
Proof.
  unfold total_sent. induction evs as [|[d' n|] evs IH]; cbn; [lia| |]; rewrite touched_cons.
  - case_decide as Hd; [subst; eauto|]. intros Hs. right. apply IH. lia.
  - intros Hs. right. apply IH. lia.
Qed.

Context `{!ProgressBarLaws}.

(** What one chunk does: only its own file is concerned. *)
Lemma serve_step_sent d n s :
  let '(s', stop) := serve_step (Sent d n) s in
  download_started s' = true ∧ stop = bool_decide (served_files s' = ∅) ∧
  (∀ e, e ≠ d → pg_map s' !! e = pg_map s !! e ∧ served_files s' !! e = served_files s !! e) ∧
  match pg_map s !! d with
  | None => pg_map s' !! d = None ∧ served_files s' !! d = served_files s !! d
  | Some pg =>
      if decide (bar_length pg ≤ bar_position pg + n) then served_files s' !! d = None
      else pg_map s' !! d = Some (bar_inc n pg) ∧ served_files s' !! d = served_files s !! d
  end.
Proof.
  unfold serve_step. destruct (pg_map s !! d) as [pg|] eqn:Hpg; [|by split_and!].
  rewrite length_inc, position_inc.
  destruct (Nat.leb_spec (bar_length pg) (bar_position pg + n)); simpl; split_and!; try done;
    try (intros e He; rewrite ?lookup_insert_ne, ?lookup_delete_ne by done; done).
  - rewrite decide_True by done. apply lookup_delete_eq.
  - rewrite decide_False by lia. by rewrite lookup_insert_eq.
Qed.

(** Once a download has begun, the timer does nothing. *)
Lemma serve_started evs s :
  download_started s = true →
  snd (serve evs s) = true ↔
    (∃ d, touched d evs) ∧ ∀ d, is_Some (served_files s !! d) → complete s evs d.
Proof.
  revert s. induction evs as [|ev evs IH]; intros s Hs.
  { simpl. split; [done|]. intros [(d & n & ?%elem_of_nil) _]. done. }
  destruct ev as [d n|].
  2:{ cbn [serve serve_step]. rewrite Hs. cbn [negb]. rewrite IH by done.
      unfold complete. setoid_rewrite touched_cons.
      change (total_sent ?d (Tick :: evs)) with (total_sent d evs). naive_solver. }
  assert (Hn : ∀ e, total_sent e (Sent d n :: evs) = (if decide (d = e) then n else 0) + total_sent e evs) by done.
  cbn [serve]. pose proof (serve_step_sent d n s) as Hstep.
  destruct (serve_step (Sent d n) s) as [s' stop]. destruct Hstep as (Hs' & -> & Hother & Hd).
  assert (Hsplit : (∀ e, is_Some (served_files s !! e) → complete s (Sent d n :: evs) e) ↔
    (∀ e, is_Some (served_files s' !! e) → complete s' evs e)).
  { unfold complete. setoid_rewrite Hn. setoid_rewrite touched_cons. split; intros Hall e He.
    - destruct (decide (e = d)) as [->|Hne].
      + destruct (pg_map s !! d) as [pg|] eqn:Hpg.
        * destruct (decide _) as [Hle|Hgt] in Hd; [rewrite Hd in He; by destruct He|].
          destruct Hd as [Hd1 Hd2]. rewrite Hd2 in He. destruct (Hall d He) as (pg' & Hp & _ & Hle).
          rewrite Hpg in Hp. injection Hp as <-. rewrite decide_True in Hle by done.
          exists (bar_inc n pg). rewrite position_inc, length_inc. split_and!; [done| |lia].
          apply total_sent_pos. lia.
        * destruct Hd as [Hd1 Hd2]. rewrite Hd2 in He. destruct (Hall d He) as (? & ? & _). congruence.
      + destruct (Hother e Hne) as [Ho1 Ho2]. rewrite Ho2 in He. destruct (Hall e He) as (pg & Hp & Ht & Hle).
        rewrite decide_False in Hle by done. exists pg. rewrite Ho1. split_and!; [done|naive_solver|lia].
    - destruct (decide (e = d)) as [->|Hne].
      + destruct (pg_map s !! d) as [pg|] eqn:Hpg.
        * destruct (decide _) as [Hle|Hgt] in Hd; exists pg; rewrite ?decide_True by done;
            [split_and!; [done|eauto|lia]|].
          destruct Hd as [Hd1 Hd2]. rewrite <-Hd2 in He. destruct (Hall d He) as (pg' & Hp & Ht & Hle).
          rewrite Hd1 in Hp. injection Hp as <-. rewrite position_inc, length_inc in Hle.
          split_and!; [done|eauto|lia].
        * destruct Hd as [Hd1 Hd2]. rewrite <-Hd2 in He. destruct (Hall d He) as (? & ? & _). congruence.
      + destruct (Hother e Hne) as [Ho1 Ho2]. rewrite <-Ho2 in He. destruct (Hall e He) as (pg & Hp & Ht & Hle).
        exists pg. rewrite <-Ho1, decide_False by done. split_and!; [done|eauto|lia]. }
  rewrite Hsplit. case_bool_decide as Hempty.
  - simpl. split; [|done]. intros _. split; [exists d; apply touched_cons; eauto|].
    intros e [x Hx]. by rewrite Hempty, lookup_empty in Hx.
  - rewrite IH by done. split; intros [Ht Hall]; (split; [|done]).
    + destruct Ht as [e Ht]. exists e. apply touched_cons. by right.
    + apply map_choose in Hempty as (e & x & Hx). destruct (Hall e) as (? & _ & Ht' & _); [by eexists|].
      by exists e.
Qed.

Lemma serve_first d n rest s :
  snd (serve (Sent d n :: rest) s) = true ↔
    ∀ e, is_Some (served_files s !! e) → complete s (Sent d n :: rest) e.
Proof.
  pose proof (serve_started (Sent d n :: rest) (MkServing (served_files s) (pg_map s) true) eq_refl) as Hiff.
  change (snd (serve (Sent d n :: rest) s)) with
    (snd (serve (Sent d n :: rest) (MkServing (served_files s) (pg_map s) true))).
  rewrite Hiff. split; [by intros [_ Hall]|]. intros Hall. split; [exists d, n; by left|exact Hall].
Qed.

(** The file server stops in exactly two cases: the timer fires before any byte was
    sent, or the first event is a download and afterwards every served file is
    complete: its size was readable at the start, something of it was sent, and all
    chunks together are as long as the file.  Until then it serves. *)
Theorem serve_file_stops_iff root files evs :
  snd (serve evs (serve_start root files)) = true ↔
    (∃ rest, evs = Tick :: rest) ∨
    (∃ d n rest, evs = Sent d n :: rest ∧
      ∀ e path, files !! e = Some path →
        ∃ content, root !! path_resolve path = Some content ∧ touched e evs ∧
          length content ≤ total_sent e evs).
Proof.
  destruct evs as [|[d n|] rest].
  - simpl. split; [done|]. intros [[? ?]|(? & ? & ? & ? & _)]; done.
  - set (s := serve_start root files). rewrite serve_first.
    assert (∀ e path, files !! e = Some path →
      complete s (Sent d n :: rest) e ↔
      ∃ content, root !! path_resolve path = Some content ∧ touched e (Sent d n :: rest) ∧
        length content ≤ total_sent e (Sent d n :: rest)) as Hc.
    { intros e path He. unfold complete. cbn [pg_map s serve_start]. rewrite lookup_omap, He. simpl.
      split.
      - intros (pg & Hpg & Ht & Hle). destruct (root !! path_resolve path) as [content|]; [|done].
        injection Hpg as <-. unfold compose in Hle. rewrite length_new, position_new in Hle. eauto.
      - intros (content & -> & Ht & Hle). eexists. split; [done|]. unfold compose.
        by rewrite length_new, position_new. }
    split.
    + intros Hall. right. exists d, n, rest. split; [done|]. intros e path He.
      apply Hc; [done|]. apply Hall. by eexists.
    + intros [[? ?]|(d' & n' & r' & _ & Hall)]; [done|].
      intros e [path He]. apply (Hc e path He). by apply Hall.
  - simpl. split; [eauto|done].
Qed.
End serve.

(** ** Witnesses *)

Section serve_witnesses.

#[local] Instance bar_pair : ProgressBar := {|
  Bar := nat * nat;
  bar_new n := (0, n); bar_inc n b := (fst b + n, snd b); bar_finish b := (snd b, snd b);
  bar_length := snd; bar_position := fst
|}.
#[local] Instance bar_pair_laws : ProgressBarLaws.
Proof. by split. Qed.

Definition serve_fs : fs := {[ ["prover.img"] := replicate 10 "p"%char; ["empty"] := [] ]}.
Definition serve_list : gmap string string := {[ "d1" := "/prover.img" ]}.

Example serve_file_stops_iff_witness :
  snd (serve [Sent "d1" 4; Tick; Sent "d1" 6] (serve_start serve_fs serve_list)) = true.
Proof.
  apply (serve_file_stops_iff serve_fs serve_list). right. exists "d1", 4, [Tick; Sent "d1" 6].
  split; [done|]. intros e path He. unfold serve_list in He. apply lookup_singleton_Some in He as [<- <-]. eexists. split; [reflexivity|].
  split; [exists 4; by left|]. vm_compute. lia.
Defined.

(** Chunks with the connection they were sent on. *)
Definition conn_total (c : nat) (digest : string) (l : list (nat * ServeEvent)) : nat :=
  total_sent digest (snd <$> filter (λ e, fst e = c) l).

(** The bytes of all connections are added up: two nodes that have half of the file each
    end the server, and none of them has the file. *)
Theorem half_downloads_stop :
  let l := [(1, Sent "d1" 5); (2, Sent "d1" 5)] in
  snd (serve (snd <$> l) (serve_start serve_fs serve_list)) = true ∧
  Forall (λ c, conn_total c "d1" l < 10) [1; 2].
Proof. split; [by vm_compute|]. repeat constructor. Qed.

(** Nothing is ever sent of an empty file, so serving one does not end by itself. *)
Theorem empty_file_never_complete :
  let s := serve_start serve_fs {[ "d1" := "/prover.img"; "d2" := "/empty" ]} in
  ∀ evs, (∃ n rest, evs = Sent "d1" n :: rest) → ¬ touched "d2" evs → snd (serve evs s) = false.
Proof.
  intros s evs (n & rest & ->) Ht. apply not_true_is_false. intros Hstop.
  destruct (proj1 (serve_first "d1" n rest s) Hstop "d2") as (_ & _ & Ht' & _); [by eexists|done].
Qed.
End serve_witnesses.
