(* ===== verification/Client.v ===== *)
(** * RPC client and command line tool ([crates/node/src/rpc_client/mod.rs],
    [crates/cli/src/main.rs])

    The three calls of the client, with what the HTTP client answers as an argument, the
    dispatch of the command line tool with the lines it prints, and the printing of a
    transaction tree. *)

From S2P Require Import Prelude Types Models Files Transaction Event Mempool Workflow Acl Database Rpc Cli.

(** ** The client *)

(** [RpcClientBuilder]; a timeout in seconds. *)
Record RpcClientBuilder := MkRpcClientBuilder { request_timeout : Z }.
Definition RpcClientBuilder_default : RpcClientBuilder := MkRpcClientBuilder 60.
Definition set_request_timeout (t : Z) (b : RpcClientBuilder) : RpcClientBuilder := MkRpcClientBuilder t.

(** [HttpClient::request::<R, ArrayParams>(method, params)] for the three response
    types: an answer of the server, or a failure of the request. *)
Record HttpClient `{Secp} := MkHttpClient {
  request_send : string → Transaction Created → result string (RpcResponse ());
  request_tree : string → Hash → result string (RpcResponse TransactionTree);
  request_tx : string → Hash → result string (RpcResponse RpcTransaction)
}.
Global Arguments MkHttpClient {_} _ _ _.
Global Arguments request_send {_} _ _ _.
Global Arguments request_tree {_} _ _ _.
Global Arguments request_tx {_} _ _ _.

(** [.expect(..)] on a result. *)
Definition expect {E F A} (r : result E A) : result F A :=
  match r with Ok a => Ok a | _ => Panic end.

Section client.
Context `{Hex, Secp, Sha3, NumBigint, Bincode}.

Definition client_send_transaction (client : HttpClient) (tx : Transaction Created) : result string () :=
  resp ← expect (request_send client "sendTransaction" tx);
  match resp with RpcErr e => Err (RpcError_to_string e) | RpcOk _ => Ok () end.
Definition client_get_tx_tree (client : HttpClient) (tx_hash : Hash) : result string TransactionTree :=
  resp ← expect (request_tree client "getTransactionTree" tx_hash); result_of_response resp.
Definition client_get_transaction (client : HttpClient) (tx_hash : Hash) : result string RpcTransaction :=
  resp ← expect (request_tx client "getTransaction" tx_hash); result_of_response resp.

(** The module of [RpcServer::run]: a method that is not registered fails the request.
    The three arguments are the handlers, with what they need. *)
Definition rpc_server (send : Transaction Created → result string (RpcResponse ()))
    (tx : Hash → result string (RpcResponse RpcTransaction))
    (tree : Hash → result string (RpcResponse TransactionTree)) : HttpClient :=
  MkHttpClient
    (λ method p, if decide (method = "sendTransaction") then send p else Err "Method not found")
    (λ method p, if decide (method = "getTransactionTree") then tree p else Err "Method not found")
    (λ method p, if decide (method = "getTransaction") then tx p else Err "Method not found").

(** ** Printing a tree *)

Definition u16_wrap (z : Z) : Z := (z `mod` 2 ^ 16)%Z.
Fixpoint tabs (n : nat) : string := match n with 0 => "" | S n => String "009" (tabs n) end.

Fixpoint print_tx_tree (tree : TransactionTree) (indentation : Z) : list string :=
  match tree with
  | Root children hash =>
      ("Root: " +:+ Hash_to_string hash) ::
      (children ≫= λ x, print_tx_tree x (u16_wrap (indentation + 1)))
  | Node children hash =>
      (tabs (Z.to_nat indentation) +:+ "Node: " +:+ Hash_to_string hash) ::
      (children ≫= λ x, print_tx_tree x (u16_wrap (indentation + 1)))
  | Leaf hash => [tabs (Z.to_nat indentation) +:+ "Leaf: " +:+ Hash_to_string hash]
  end.

(** ** The tool *)

(** [gpus_parser]: [clap_num::number_range] between 0 and 1. *)
Definition gpus_parser (number_range : string → Z → Z → result string Z) (s : string) : result string Z :=
  number_range s 0%Z 1%Z.

Definition resource_requirements (cpus mem gpus : option Z) : option ResourceRequest :=
  match cpus, mem, gpus with
  | None, None, None => None
  | _, _, _ =>
      let req := ResourceRequest_default in
      Some (MkResourceRequest (default (rr_mem req) mem) (default (rr_cpus req) cpus)
              (default (rr_gpus req) gpus))
  end.

Inductive ConfCommands :=
  | GenerateKey
  | ShowPublicKey
  | CmdDeploy (name prover verifier : string)
      (prover_name verifier_name prover_img_url verifier_img_url : option string)
      (prover_cpus prover_mem prover_gpus verifier_cpus verifier_mem verifier_gpus : option Z)
      (listen_addr : string)
  | CmdExec (listen_addr : option string) (tasks : string)
  | PrintTxTree (hash : string)
  | GetTx (hash : string)
  | CalculateHash (file : string).

Record ArgConfiguration := MkArgConfiguration {
  json_url : string;
  rpc_timeout : option Z;
  keyfile : string;
  command : ConfCommands
}.

(** What the tool meets: [build] connects to a url; [server] starts the local file
    server at an address; the key it would generate with its bytes; parsers, printers. *)
Record CliWorld := MkCliWorld {
  cw_build : RpcClientBuilder → string → result string HttpClient;
  cw_server : option string → result string string;
  cw_key : SecretKey * list u8;
  cw_parse_key : list u8 → result string SecretKey;
  cw_parse_tasks : string → result string (list JsonExecArgs);
  cw_debug_path : string → string;
  cw_tx_json : RpcTransaction → result string string;
  cw_blake3 : list u8 → Hash;
  cw_url_segment : string → result string (option string)
}.

Definition calculate_hash_command (blake3 : list u8 → Hash) (debug_path : string → string) (root : fs)
    (file_path : string) : result string string :=
  h ← ok_or (extract_hash_from_file_content blake3 root file_path) ("File not found:" +:+ debug_path file_path);
  Ok (Hash_to_string h).

(** [read_key_file] as the two commands call it. *)
Definition cli_key (w : CliWorld) (root : fs) (keyfile : string) : result string SecretKey :=
  read_key_file (cw_parse_key w) root keyfile.

(** [match res { Ok(a) => println!(..), Err(err) => println!(..) }] *)
Definition printed {A} (ok : A → list string) (err : string → string) (r : result string A)
    : result () (list string) :=
  match r with Ok a => Ok (ok a) | Err e => Ok [err e] | Panic => Panic end.

(** [main]: the lines it prints; only [GenerateKey] writes a file. *)
Definition cli_main (w : CliWorld) (args : ArgConfiguration) : M fs () (list string) := λ root,
  let builder := match rpc_timeout args with
                 | Some t => set_request_timeout t RpcClientBuilder_default
                 | None => RpcClientBuilder_default
                 end in
  match cw_build w builder (json_url args) with
  | Ok client =>
      let get_hash h := rt_hash <$> client_get_transaction client h in
      match command args with
      | GenerateKey =>
          let '(r, root) := create_key_file (keyfile args) (fst (cw_key w)) (snd (cw_key w)) root in
          (printed (λ pubkey, ["Key generated  pubkey:" +:+ hex_encode (pk_serialize pubkey) +:+
                               " and saved in file:" +:+ keyfile args])
             (λ err, "Error during key file creation:" +:+ err) r, root)
      | ShowPublicKey =>
          (printed (λ key, ["Public key: " +:+ hex_encode (pk_serialize (from_secret_key key))])
             (λ err, "Error: Couldn't read the keyfile " +:+ cw_debug_path w (keyfile args) +:+ ": " +:+ err)
             (cli_key w root (keyfile args)), root)
      | CmdDeploy name prover verifier prover_name verifier_name prover_img_url verifier_img_url
          prover_cpus prover_mem prover_gpus verifier_cpus verifier_mem verifier_gpus listen_addr =>
          (lines ← printed (λ '(tx_hash, prover_hash, verifier_hash),
               ["Prover / Verifier deployed correctly."; "Prover hash:" +:+ prover_hash;
                "Verifier hash:" +:+ verifier_hash +:+ "."; "Tx Hash:" +:+ tx_hash])
             (λ err, "An error occurs during Prover / Verifier deployment :" +:+ err)
             (run_deploy_command (cw_blake3 w) (cw_url_segment w) root (cw_server w (Some listen_addr))
                (cli_key w root (keyfile args)) name prover verifier prover_name verifier_name
                prover_img_url verifier_img_url
                (resource_requirements prover_cpus prover_mem prover_gpus)
                (resource_requirements verifier_cpus verifier_mem verifier_gpus)
                (client_send_transaction client) get_hash);
           Ok ("Start prover / verifier deployment" :: lines), root)
      | CmdExec listen_addr tasks =>
          (printed (λ tx_hash, ["Programs send to execution correctly. Tx hash:" +:+ tx_hash])
             (λ err, "An error occurs during send execution Tx :" +:+ err)
             (run_exec_command (cw_blake3 w) (cw_url_segment w) root (cw_server w listen_addr)
                (cli_key w root (keyfile args)) (cw_parse_tasks w tasks)
                (client_send_transaction client) get_hash), root)
      | CalculateHash file =>
          (printed (λ h, ["The hash of the file is: " +:+ h]) (λ err, "An error hash calculus Tx :" +:+ err)
             (calculate_hash_command (cw_blake3 w) (cw_debug_path w) root file), root)
      | PrintTxTree hash =>
          (match Hash_from_str (E:=string) hash with
           | Ok h => printed (λ tree, print_tx_tree tree 0)
               (λ err, "An error while fetching transaction tree: " +:+ err) (client_get_tx_tree client h)
           | _ => Panic
           end, root)
      | GetTx hash =>
          (match Hash_from_str (E:=string) hash with
           | Ok h => printed (λ json, [json]) (λ err, "An error while getting Tx : " +:+ err)
               (tx ← client_get_transaction client h; cw_tx_json w tx)
           | _ => Panic
           end, root)
      end
  | _ => (Panic, root)
  end.
End client.

(** ** What is printed determines the tree *)

Section printing.
Context `{HexLaws}.

Lemma Hash_to_string_inj' h h' : Hash_to_string h = Hash_to_string h' → h = h'.
Proof.
  unfold Hash_to_string, Hash_to_vec. destruct h as [v], h' as [v']. intros Heq.
  apply (f_equal hex_decode) in Heq. rewrite !hex_decode_encode in Heq. injection Heq as Heq.
  f_equal. by apply vec_to_list_inj2.
Qed.

Lemma tree_nested_ind (Q : TransactionTree → Prop) :
  (∀ c h, Forall Q c → Q (Root c h)) → (∀ c h, Forall Q c → Q (Node c h)) → (∀ h, Q (Leaf h)) →
  ∀ t, Q t.
Proof.
  intros HR HN HL. fix IH 1. intros [c h|c h|h]; [apply HR|apply HN|apply HL];
    (induction c; constructor; [apply IH|done]).
Qed.

(** Trees as the server builds them: the root is at the top only. *)
Fixpoint below_root (t : TransactionTree) : Prop :=
  match t with
  | Root _ _ => False
  | Node c _ => (fix go l := match l with [] => True | x :: l => below_root x ∧ go l end) c
  | Leaf _ => True
  end.
Definition rooted (t : TransactionTree) : Prop :=
  match t with Root c _ => Forall below_root c | _ => below_root t end.

Lemma below_root_Node c h : below_root (Node c h) ↔ Forall below_root c.
Proof.
  simpl. induction c as [|x c IH]; [split; [constructor|done]|]. rewrite Forall_cons, <-IH. done.
Qed.

Fixpoint tree_depth (t : TransactionTree) : nat :=
  match t with
  | Root c _ | Node c _ => S (foldr (λ x n, tree_depth x `max` n) 0 c)
  | Leaf _ => 0
  end.

(** A line: its label, its indentation and its hash. *)
Inductive Label := LRoot | LNode | LLeaf.
Definition label_text (l : Label) : string :=
  match l with LRoot => "Root: " | LNode => "Node: " | LLeaf => "Leaf: " end.
Definition render (line : Label * nat * Hash) : string :=
  let '(l, n, h) := line in tabs n +:+ label_text l +:+ Hash_to_string h.

Fixpoint tree_lines (t : TransactionTree) (d : nat) : list (Label * nat * Hash) :=
  match t with
  | Root c h => (LRoot, 0, h) :: (c ≫= λ x, tree_lines x (S d))
  | Node c h => (LNode, d, h) :: (c ≫= λ x, tree_lines x (S d))
  | Leaf h => [(LLeaf, d, h)]
  end.

Lemma render_inj line line' : render line = render line' → line = line'.
Proof.
  destruct line as [[l n] h], line' as [[l' n'] h']. simpl. revert n'.
  induction n as [|n IH]; intros [|n'] Heq.
  - assert (l = l') as <- by (by destruct l, l'). do 2 f_equal.
    apply Hash_to_string_inj'. destruct l; simpl in Heq; by injection Heq.
  - by destruct l.
  - by destruct l'.
  - injection Heq as Heq. apply IH in Heq. by injection Heq as -> -> ->.
Qed.

Lemma renders_inj (l l' : list (Label * nat * Hash)) : render <$> l = render <$> l' → l = l'.
Proof.
  revert l'. induction l as [|x l IH]; intros [|y l'] Heq; try done.
  rewrite !fmap_cons in Heq. injection Heq as Hxy Heq. f_equal; [by apply render_inj|by apply IH].
Qed.

Lemma print_lines t i :
  (0 ≤ i)%Z → (i + Z.of_nat (tree_depth t) < 2 ^ 16)%Z →
  print_tx_tree t i = render <$> tree_lines t (Z.to_nat i).
Proof.
  revert i. induction t as [c h IH|c h IH|h] using tree_nested_ind; intros i Hi Hd; [| |done].
  all: cbn [print_tx_tree tree_lines]; rewrite fmap_cons; f_equal; cbn [tree_depth] in Hd.
  all: assert (u16_wrap (i + 1) = (i + 1)%Z) as -> by (unfold u16_wrap; apply Z.mod_small; lia).
  all: assert (Z.to_nat (i + 1) = S (Z.to_nat i)) as Hs by lia; rewrite <-Hs.
  all: clear Hs; induction IH as [|x c Hx _ IHc]; [done|]; cbn [foldr] in Hd.
  all: rewrite !bind_cons, fmap_app, <-IHc, <-Hx by lia; done.
Qed.

(** What follows a subtree of depth [d] is not deeper. *)
Definition not_deeper (d : nat) (r : list (Label * nat * Hash)) : Prop :=
  match r with (_, e, _) :: _ => e ≤ d | [] => True end.

Lemma tree_lines_head t d : below_root t → ∃ l h rest, tree_lines t d = (l, d, h) :: rest.
Proof. destruct t; [done|eauto..]. Qed.

Lemma forest_lines_unique d c :
  Forall (λ t, ∀ t' d r r', below_root t → below_root t' → not_deeper d r → not_deeper d r' →
    tree_lines t d ++ r = tree_lines t' d ++ r' → t = t' ∧ r = r') c →
  ∀ c' r r', Forall below_root c → Forall below_root c' → not_deeper d r → not_deeper d r' →
    (c ≫= λ x, tree_lines x (S d)) ++ r = (c' ≫= λ x, tree_lines x (S d)) ++ r' → c = c' ∧ r = r'.
Proof.
  assert (Hrest : ∀ l r, Forall below_root l → not_deeper d r →
    not_deeper (S d) ((l ≫= λ x, tree_lines x (S d)) ++ r)).
  { intros [|x l] r Hl Hr; [destruct r as [|[[? ?] ?] ?]; simpl in *; lia|].
    apply Forall_cons in Hl as [Hx _]. destruct (tree_lines_head x (S d) Hx) as (? & ? & ? & He).
    rewrite bind_cons, He. simpl. lia. }
  assert (Hno : ∀ y l s r, Forall below_root (y :: l) → not_deeper d r →
    r ≠ ((y :: l) ≫= λ x, tree_lines x (S d)) ++ s).
  { intros y l s r [Hy _]%Forall_cons Hr ->. destruct (tree_lines_head y (S d) Hy) as (? & ? & ? & He).
    rewrite bind_cons, He in Hr. simpl in Hr. lia. }
  induction 1 as [|x c Hx _ IH]; intros [|y c'] r r' Hc Hc' Hr Hr' Heq.
  - done.
  - exfalso. by eapply (Hno y c' r' r).
  - exfalso. symmetry in Heq. by eapply (Hno x c r r').
  - apply Forall_cons in Hc as [Hbx Hc], Hc' as [Hby Hc']. rewrite !bind_cons, <-!app_assoc in Heq.
    apply Hx in Heq as [-> Heq]; [|done|done|by apply Hrest..].
    destruct (IH c' r r' Hc Hc' Hr Hr' Heq) as [-> ->]. done.
Qed.

Lemma tree_lines_unique t t' d r r' :
  below_root t → below_root t' → not_deeper d r → not_deeper d r' →
  tree_lines t d ++ r = tree_lines t' d ++ r' → t = t' ∧ r = r'.
Proof.
  revert t' d r r'. induction t as [c h _|c h IH|h] using tree_nested_ind; [done| |];
    intros [|c' h'|h'] d r r' Ht Ht' Hr Hr' Heq; try done.
  - injection Heq as <- Heq. apply below_root_Node in Ht, Ht'.
    destruct (forest_lines_unique d c IH c' r r' Ht Ht' Hr Hr' Heq) as [-> ->]. done.
  - by injection Heq as <- <-.
Qed.

(** Printing loses nothing: two transaction trees of the shape the server builds
    that are printed alike are the same tree, as long as the 16 bit indentation does
    not wrap around. *)
Theorem print_tx_tree_inj t t' :
  rooted t → rooted t' →
  (Z.of_nat (tree_depth t) < 2 ^ 16)%Z → (Z.of_nat (tree_depth t') < 2 ^ 16)%Z →
  print_tx_tree t 0 = print_tx_tree t' 0 → t = t'.
Proof.
  intros Ht Ht' Hd Hd' Heq. rewrite !print_lines in Heq by lia.
  apply renders_inj in Heq.
  change (Z.to_nat 0) with 0 in Heq.
  assert (Hall : ∀ c, Forall (λ t, ∀ t' d r r', below_root t → below_root t' → not_deeper d r →
    not_deeper d r' → tree_lines t d ++ r = tree_lines t' d ++ r' → t = t' ∧ r = r') c).
  { intros c. apply Forall_forall. intros x _. apply tree_lines_unique. }
  destruct t as [c h|c h|h], t' as [c' h'|c' h'|h']; try done.
  - injection Heq as <- Heq. f_equal. rewrite <-(app_nil_r (c ≫= _)), <-(app_nil_r (c' ≫= _)) in Heq.
    by destruct (forest_lines_unique 0 c (Hall c) c' [] [] Ht Ht') as [-> _].
  - rewrite <-(app_nil_r (tree_lines (Node c h) 0)), <-(app_nil_r (tree_lines (Node c' h') 0)) in Heq.
    by destruct (tree_lines_unique _ _ 0 [] [] Ht Ht' I I Heq).
  - by injection Heq as ->.
Qed.
End printing.

(** A malformed hash on the command line ends the tool in a panic, before any request. *)
Lemma malformed_hash_panics `{Hex, Secp, Sha3, NumBigint, Bincode} w args client hash root :
  cw_build w match rpc_timeout args with
             | Some t => set_request_timeout t RpcClientBuilder_default
             | None => RpcClientBuilder_default
             end (json_url args) = Ok client →
  command args = PrintTxTree hash ∨ command args = GetTx hash →
  Hash_from_str (E:=string) hash = Panic →
  cli_main w args root = (Panic, root).
Proof. intros Hb Hc Hh. unfold cli_main. rewrite Hb. by destruct Hc as [-> | ->]; rewrite Hh. Qed.

(** ** Evaluation *)

#[local] Existing Instances hex_crate hex_crate_laws.

Definition sample_tree : TransactionTree :=
  Root [Node [Leaf (fill "v"); Leaf (fill "w")] (fill "p"); Node [] (fill "q")] (fill "r").

Lemma print_sample : print_tx_tree sample_tree 0 =
  [ "Root: " +:+ Hash_to_string (fill "r");
    tabs 1 +:+ "Node: " +:+ Hash_to_string (fill "p");
    tabs 2 +:+ "Leaf: " +:+ Hash_to_string (fill "v");
    tabs 2 +:+ "Leaf: " +:+ Hash_to_string (fill "w");
    tabs 1 +:+ "Node: " +:+ Hash_to_string (fill "q") ].
Proof. reflexivity. Qed.

(** The same nodes, one of them moved to another parent. *)
Definition moved_tree : TransactionTree :=
  Root [Node [Leaf (fill "v")] (fill "p"); Node [Leaf (fill "w")] (fill "q")] (fill "r").

Lemma print_tx_tree_inj_witness :
  rooted sample_tree ∧ rooted moved_tree ∧ print_tx_tree sample_tree 0 ≠ print_tx_tree moved_tree 0.
Proof.
  assert (rooted sample_tree ∧ rooted moved_tree) as [Hs Hm] by repeat constructor.
  split; [done|]. split; [done|]. intros Heq.
  apply (print_tx_tree_inj sample_tree moved_tree) in Heq; [discriminate|done|done|by vm_compute..].
Defined.
