(* ===== verification/E2e.v ===== *)
(** * The end-to-end test ([crates/tests/e2e-tests], [crates/tests/test-programs])

    The test client that deploys two programs from a file server of its own and sends
    a proving task, and the two programs.  The theorems put them together with the
    node: the images it publishes are what nodes download, and the task it sends goes
    from the prover to the verifier with the proof file. *)

From stdpp Require Import pretty.
From S2P Require Import Prelude Types Models Files Transaction Event Mempool Workflow Watchdog Resources Scheduler Vmm VmServer Shim Protocol Download Acl Database Rpc Cli Client.

(** ** The programs ([prover.rs], [verifier.rs]) *)

Definition proof_path : string := WORKSPACE_PATH +:+ "/proof.dat".
Definition bytes_from (n : nat) : list u8 := ascii_of_nat <$> seq n 10.

(** [entries] is what [read_dir] of the workspace yields (unwrapped), [written] whether
    the proof file can be written. *)
Definition prover_run_task (entries : result string (list string)) (written : result string ())
    (task : ShimTask) : M fs string ShimResult := λ root,
  match entries with
  | Ok _ =>
      match written with
      | Ok _ => (task_result task (bytes_from 0) [proof_path],
                 <[path_resolve proof_path := as_bytes "this is a proof."]> root)
      | Err e => (Err e, root)
      | Panic => (Panic, root)
      end
  | _ => (Panic, root)
  end.

Definition verifier_run_task (entries : result string (list string)) (task : ShimTask)
    : result string ShimResult :=
  match entries with Ok _ => task_result task (bytes_from 10) [] | _ => Panic end.

(** ** The file server ([server.rs]) *)

Record FileServer := MkFileServer { file_map : gmap string string; fs_listen_addr : string }.

Section e2e.
Context `{HexLaws, Secp, Sha3, NumBigint, Bincode, RpcLib}.
Context (blake3 : list u8 → Hash).

Definition FileServer_new (addr : string) : FileServer := MkFileServer ∅ addr.

Definition file_digest (file : string) : string := hex_encode (vec_to_list (sha3_256 (as_bytes file))).
Definition register_file (file : string) (s : FileServer) : string * FileServer :=
  let digest := file_digest file in
  ("http://" +:+ fs_listen_addr s +:+ String slash digest,
   MkFileServer (<[digest := file]> (file_map s)) (fs_listen_addr s)).

Definition HTTP_INTERNAL_SERVER_ERROR : Z := 500.
Definition serve_file (root : fs) (s : FileServer) (path : string) : result string (Z * list u8) :=
  match path with
  | EmptyString => Panic
  | String _ digest =>
      match file_map s !! digest with
      | None => Ok (404%Z, as_bytes "Not found.")
      | Some file_path =>
          match root !! path_resolve file_path with
          | Some content => Ok (HTTP_OK, content)
          | None => Ok (HTTP_INTERNAL_SERVER_ERROR, as_bytes "Internal server error")
          end
      end
  end.

(** ** The client ([main.rs]) *)

Definition from_img_file_to_metadata (root : fs) (img_file img_file_url : string) : result string ProgramMetadata :=
  match root !! path_resolve img_file, file_name img_file with
  | Some content, Some file_name =>
      Ok (update_hash (MkProgramMetadata file_name Hash_default file_name img_file_url
            (Hash_to_string (blake3 content)) (Some (MkResourceRequest 128 1 0))))
  | _, _ => Panic
  end.

Definition deploy_programs (client : HttpClient) (root : fs) (key : SecretKey)
    (deployment_name prover_img verifier_img : string)
    : M FileServer string (Hash * Hash * Hash) := λ s,
  let '(prover_url, s) := register_file prover_img s in
  match from_img_file_to_metadata root prover_img prover_url with
  | Ok prover =>
      let '(verifier_url, s) := register_file verifier_img s in
      (verifier ← from_img_file_to_metadata root verifier_img verifier_url;
       tx ← Transaction_new (Payload.Deploy deployment_name prover verifier) key;
       _ ← expect (client_send_transaction client tx);
       read_tx ← expect (client_get_transaction client (hash tx));
       read_hash ← Hash_from_str (rt_hash read_tx);
       if decide (hash tx = read_hash) then Ok (hash tx, pm_hash prover, pm_hash verifier) else Panic, s)
  | Err e => (Err e, s)
  | Panic => (Panic, s)
  end.

Definition proving_step (nonce : Z) (prover_hash : Hash) : WorkflowStep :=
  MkWorkflowStep prover_hash ["--nonce"; pretty nonce]
    [ProgramData.Input "/workspace/lorem.ipsum"
       "https://storage.googleapis.com/gevulot-devnet-deployments/static-files/lorem.ipsum"
       "6aac6f1bab62ceab64eb96755739bc9bcb676530023b84423f8e81b9b270dfc1"].
Definition verifying_step (nonce : Z) (prover_hash verifier_hash : Hash) : WorkflowStep :=
  MkWorkflowStep verifier_hash ["--nonce"; pretty nonce]
    [ProgramData.Output prover_hash "/workspace/proof.dat"].
Definition proving_workflow (nonce : Z) (prover_hash verifier_hash : Hash) : Workflow :=
  MkWorkflow [proving_step nonce prover_hash; verifying_step nonce prover_hash verifier_hash].

Definition send_proving_task (client : HttpClient) (key : SecretKey) (nonce : Z) (prover_hash verifier_hash : Hash)
    : result string Hash :=
  tx ← Transaction_new (Payload.Run (proving_workflow nonce prover_hash verifier_hash)) key;
  _ ← expect (client_send_transaction client tx);
  Ok (hash tx).

(** The body of [main] after its arguments: one deployment, one task (of nonce 1). *)
Definition e2e_main (client : HttpClient) (root : fs) (key : SecretKey) (prover_img verifier_img : string)
    : M FileServer string Hash :=
  '(_, prover_hash, verifier_hash) ← (λ s : FileServer,
      let '(r, s) := deploy_programs client root key "e2e-test" prover_img verifier_img s in
      (expect (F:=string) r, s));
  lift (expect (send_proving_task client key 1 prover_hash verifier_hash)).

(** ** What is published can be downloaded *)

Context (get_url : string → Sent) (get_peer : string → option HttpResponse).
Context (peer_url : IpAddr → Z → string → string) (on_disk : list u8 → list u8).

(** The url of a file of the server leads to the server. *)
Definition reaches (root : fs) (s : FileServer) (file : string) : Prop :=
  ∃ chunks,
    get_url ("http://" +:+ fs_listen_addr s +:+ String slash (file_digest file)) =
      match serve_file root s (String slash (file_digest file)) with
      | Ok (code, content) => SentOk (MkHttpResponse code (chunks content))
      | _ => SentErr
      end ∧
    ∀ asset c, receive (working_disk on_disk) asset (chunks c) [] = (c, None).

(** A node that is given the image's metadata gets the image, wherever its data
    directory is, whatever its peers have. *)
Definition published (root : fs) (img : string) (m : ProgramMetadata) : Prop :=
  ∃ asset content, (f ← try_from_prg_meta_data (E:=string) m; Ok (AssetFile_of_image f)) = Ok asset ∧
    root !! path_resolve img = Some content ∧
    ∀ dir peers node_fs, let path := path_push dir (get_save_path asset) in
      download_asset_file blake3 get_url get_peer peer_url (working_disk on_disk) dir peers asset node_fs =
        (Ok (), <[path_resolve path := content]> (delete (tmp_file_name path) node_fs)).

Lemma image_published root s img m :
  from_img_file_to_metadata root img ("http://" +:+ fs_listen_addr s +:+ String slash (file_digest img)) = Ok m →
  file_map s !! file_digest img = Some img → reaches root s img → published root img m.
Proof.
  unfold from_img_file_to_metadata.
  destruct (root !! path_resolve img) as [content|] eqn:Hc; [|done].
  destruct (file_name img) as [name|]; [|done].
  intros [= <-]. intros Hmap. intros (chunks & Hget & Hrec). eexists _, content. split_and!; [|done|].
  { unfold try_from_prg_meta_data. cbn [update_hash pm_image_file_checksum]. by rewrite hash_string_back. }
  intros dir peers node_fs. cbv zeta.
  unfold download_asset_file, AssetFile_exist. cbn [af_verify_exist AssetFile_of_image].
  unfold find_response. cbn [af_url AssetFile_of_image tf_url TxFile_build update_hash pm_image_file_url].
  rewrite Hget. unfold serve_file. rewrite Hmap, Hc. cbn. rewrite Hrec. cbn.
  by rewrite bool_decide_eq_true_2.
Qed.

(** What [deploy_programs] deploys, nodes can download: both images are published, as
    long as the two file names do not collide in the file server's map. *)
Theorem deployed_images_published client root key name prover_img verifier_img s tx prover_hash verifier_hash s' :
  deploy_programs client root key name prover_img verifier_img s = (Ok (tx, prover_hash, verifier_hash), s') →
  prover_img = verifier_img ∨ file_digest prover_img ≠ file_digest verifier_img →
  reaches root s' prover_img → reaches root s' verifier_img →
  ∃ prover verifier, pm_hash prover = prover_hash ∧ pm_hash verifier = verifier_hash ∧
    published root prover_img prover ∧ published root verifier_img verifier.
Proof.
  unfold deploy_programs, register_file. intros Hrun Hcol Hrp Hrv. revert Hrun.
  destruct (from_img_file_to_metadata root prover_img _) as [prover| |] eqn:Hp; [|done..].
  intros [= Hrest <-]. apply result_bind_Ok in Hrest as (verifier & Hv & Hrest).
  apply result_bind_Ok in Hrest as ([] & _ & Hrest). apply result_bind_Ok in Hrest as (rt & _ & Hrest).
  apply result_bind_Ok in Hrest as (rh & _ & Hrest).
  case_decide; [|done]. injection Hrest as <- <- <-.
  exists prover, verifier. split_and!; [done..| |].
  - refine (image_published root _ prover_img prover _ _ Hrp); [exact Hp|]. cbn [file_map].
    destruct Hcol as [->|Hne]; [by rewrite lookup_insert_eq|].
    by rewrite lookup_insert_ne, lookup_insert_eq by done.
  - refine (image_published root _ verifier_img verifier _ _ Hrv); [exact Hv|]. cbn [file_map]. by rewrite lookup_insert_eq.
Qed.
End e2e.

(** ** From the prover to the verifier *)

Section chain.
Context `{HexLaws, Secp, Sha3, NumBigint, Bincode, Uuid}.
Context {S : Type} (tx_store : TransactionStore S) (s : S).
Context (blake3 : list u8 → list u8).

(** A callback that works on the files of its VM. *)
Definition vm_result (callback : ShimTask → M fs string ShimResult) (task : Task) (root : fs) : TaskResult :=
  let '(r, root) := callback (shim_task task) root in callback_result blake3 root r.

(** Where the node keeps a file of the workspace of the VM that runs [tx]. *)
Definition workspace_file (dir : string) (tx : Hash) (file : string) : list string :=
  path_resolve (path_push dir (TaskVmFile_get_relatif_path (TaskVmFile_output_new file tx))).

Lemma prover_result entries task root :
  vm_result (prover_run_task (Ok entries) (Ok ())) task root =
    TaskOk (bytes_from 0) [(proof_path, blake3 (as_bytes "this is a proof."))].
Proof.
  unfold vm_result, prover_run_task, callback_result. cbn [task_result sr_files sr_data collect_results].
  unfold submit_file. by rewrite lookup_insert_eq.
Qed.

Lemma verifier_result entries task root :
  vm_result (λ t root, (verifier_run_task (Ok entries) t, root)) task root = TaskOk (bytes_from 10) [].
Proof. done. Qed.

Context (nonce : Z) (prover verifier : Hash).
Context (run proof : Transaction Validated) (host : string) (cs : Hash).
Context (run_is : payload run = Payload.Run (proving_workflow nonce prover verifier)).
Context (run_stored : find_transaction tx_store s (hash run) = Ok (Some run)).
Context (proof_is : payload proof =
  Payload.Proof (hash run) prover (bytes_from 0) [TxFile_Output_new proof_path host cs]).
Context (proof_stored : find_transaction tx_store s (hash proof) = Ok (Some proof)).

Definition prover_task (id : TaskId) : Task :=
  MkTask id (hash run) (uuid_to_string id +:+ "-" +:+ Hash_to_string prover) TaskKind.Proof prover
    ["--nonce"; pretty nonce] [TaskVmFile_input_new "/workspace/lorem.ipsum" (hash run)] 0 TaskState.New.
Definition verifier_task (id : TaskId) : Task :=
  MkTask id (hash proof) (uuid_to_string id +:+ "-" +:+ Hash_to_string verifier) TaskKind.Verification verifier
    ["--nonce"; pretty nonce]
    [MkTaskVmFile proof_path (MkVmInput (TxFile_get_relatif_path (TxFile_Output_new proof_path host cs) (hash proof)))]
    0 TaskState.New.

Lemma first_task id : next_task tx_store 1 id run s = Some (Ok (Some (prover_task id)), s).
Proof.
  unfold next_task, workflow_for_transaction. cbn [loop]. unfold workflow_turn. rewrite run_stored.
  rewrite run_is. unfold next_task_of. by rewrite run_is.
Qed.

Lemma second_task id : next_task tx_store 2 id proof s = Some (Ok (Some (verifier_task id)), s).
Proof.
  unfold next_task, workflow_for_transaction. cbn [loop]. unfold workflow_turn.
  rewrite proof_stored, proof_is, run_stored, run_is. unfold next_task_of. rewrite proof_is.
  assert (position (Workflow.has_program prover) (wf_steps (proving_workflow nonce prover verifier)) = Some 0) as ->.
  { simpl. unfold Workflow.has_program at 1. by rewrite bool_decide_eq_true_2. }
  done.
Qed.

(** C23: a proving task of the end-to-end test, once its [Run] transaction is stored, goes
    through both programs.  The prover is run on it first, and answers with its ten bytes
    and the proof file, whatever the files in its VM; the scheduler makes of that a
    proof for the run.  Once the proof is stored, the verifier is run on it, and when the
    proof file has been moved from the prover's workspace, preparing the verifier's task
    puts that very content into the verifier's workspace; the verifier answers with its
    ten bytes. *)
Theorem proving_task_runs (id1 id2 : TaskId) (key : SecretKey) (dir : string) (root : fs) program :
  next_task tx_store 1 id1 run s = Some (Ok (Some (prover_task id1)), s) ∧
  (∀ entries vm, vm_result (prover_run_task (Ok entries) (Ok ())) (prover_task id1) vm =
     TaskOk (bytes_from 0) [(proof_path, blake3 (as_bytes "this is a proof."))]) ∧
  (∀ data files, result_tx key (prover_task id1) program data files =
     Transaction_new (Payload.Proof (hash run) program data files) key) ∧
  next_task tx_store 2 id2 proof s = Some (Ok (Some (verifier_task id2)), s) ∧
  (root !! workspace_file dir (hash run) proof_path = Some (as_bytes "this is a proof.") →
   TxFile_exist root (TxFile_Output_new proof_path host cs) dir (hash proof) = false →
   ∃ root1 root2,
     move_vmfile (TaskVmFile_output_new proof_path (hash run)) (TxFile_Output_new proof_path host cs) dir
       (hash proof) root = (Ok (), root1) ∧
     for_eachM (λ f, copy_file_for_vm_exe f dir (hash proof)) (task_files (verifier_task id2)) root1 = (Ok (), root2) ∧
     root2 !! workspace_file dir (hash proof) proof_path = Some (as_bytes "this is a proof.")) ∧
  (∀ entries vm, vm_result (λ t vm, (verifier_run_task (Ok entries) t, vm)) (verifier_task id2) vm =
     TaskOk (bytes_from 10) []).
Proof.
  split; [apply first_task|]. split; [intros; apply prover_result|]. split; [done|].
  split; [apply second_task|]. split; [|done]. intros Hroot Hne.
  unfold move_vmfile. rewrite Hne. fold (workspace_file dir (hash run) proof_path). rewrite Hroot.
  eexists _, _. split; [done|]. cbn [task_files verifier_task for_eachM mbind M_bind].
  unfold mbind, M_bind, copy_file_for_vm_exe. rewrite !path_push_empty.
  cbn [vm_input_0 tv_extension vm_file_path]. rewrite lookup_insert_eq.
  split; [done|]. apply lookup_insert_eq.
Qed.
End chain.

(** ** Witness *)

Section e2e_witness.
#[local] Existing Instances hex_crate hex_crate_laws secp_toy sha3_toy bigint_toy bincode_toy uuid_toy.

Definition e2e_tx (h : u8) (p : Payload.t) : Transaction Validated :=
  MkTransaction (toy_key "k") (fill h) p 0 Signature_default false false MkValidated.
Definition e2e_run : Transaction Validated :=
  e2e_tx "r" (Payload.Run (proving_workflow 1 (fill "p") (fill "v"))).
Definition e2e_proof : Transaction Validated :=
  e2e_tx "q" (Payload.Proof (fill "r") (fill "p") (bytes_from 0) [TxFile_Output_new proof_path "http://h" (fill "c")]).
Definition e2e_files : fs := {[workspace_file "/data" (fill "r") proof_path := as_bytes "this is a proof."]}.

Example proving_task_runs_witness :
  next_task list_tx_store 1 7%Z e2e_run [e2e_run; e2e_proof]
    = Some (Ok (Some (prover_task 1 (fill "p") e2e_run 7%Z)), [e2e_run; e2e_proof]) ∧
  next_task list_tx_store 2 8%Z e2e_proof [e2e_run; e2e_proof]
    = Some (Ok (Some (verifier_task 1 (fill "v") e2e_proof "http://h" (fill "c") 8%Z)), [e2e_run; e2e_proof]) ∧
  ∃ root1 root2,
    move_vmfile (TaskVmFile_output_new proof_path (fill "r")) (TxFile_Output_new proof_path "http://h" (fill "c"))
      "/data" (fill "q") e2e_files = (Ok (), root1) ∧
    for_eachM (λ f, copy_file_for_vm_exe f "/data" (fill "q"))
      (task_files (verifier_task 1 (fill "v") e2e_proof "http://h" (fill "c") 8%Z)) root1 = (Ok (), root2) ∧
    root2 !! workspace_file "/data" (fill "q") proof_path = Some (as_bytes "this is a proof.").
Proof.
  destruct (proving_task_runs list_tx_store [e2e_run; e2e_proof] id 1 (fill "p") (fill "v") e2e_run e2e_proof
    "http://h" (fill "c") eq_refl eq_refl eq_refl eq_refl 7%Z 8%Z (toy_key "k") "/data" e2e_files (fill "p"))
    as (H1 & _ & _ & H2 & H3 & _).
  split; [exact H1|]. split; [exact H2|]. apply H3; by_evaluation.
Defined.
End e2e_witness.
