(* ===== verification/StoreSpec.v ===== *)
(** * What the database promises ([crates/node/src/storage/database/postgres.rs])

    The store the rest of the node thinks it is talking to: a map of transactions, a map
    of programs and a set of keys.  The tables and statements of [Database] refine it. *)

From S2P Require Import Prelude Types Models Files Transaction Event Mempool Workflow Resources Acl Database Progress.

Section store.
Context `{Secp}.

(** ** The abstract store *)

Record Store := MkStore {
  st_txs : gmap Hash (Transaction Validated);
  st_programs : gmap Hash Program;
  st_acl : gset PublicKey
}.
Definition Store_new : Store := MkStore ∅ ∅ ∅.

Definition knows {V} (m : gmap Hash V) (h : Hash) : bool := bool_decide (is_Some (m !! h)).

(** The first deployment of a program decides what it is; its limits are those of the
    first deployment that gives some. *)
Definition store_program (p : Program) (m : gmap Hash Program) : gmap Hash Program :=
  match m !! prg_hash p with
  | None => <[prg_hash p := p]> m
  | Some q =>
      match prg_limits q with
      | Some _ => m
      | None => <[prg_hash p := MkProgram (prg_hash q) (prg_name q) (prg_image_file_name q)
                    (prg_image_file_url q) (prg_image_file_checksum q) (prg_limits p)]> m
      end
  end.

(** The two tables of a step's files have one row per file name: of two inputs, or two
    outputs, of the same name the first is kept. *)
Definition same_slot (d d' : ProgramData.t) : Prop :=
  match d, d' with
  | ProgramData.Input n _ _, ProgramData.Input n' _ _ => n = n'
  | ProgramData.Output _ n, ProgramData.Output _ n' => n = n'
  | _, _ => False
  end.
#[export] Instance same_slot_dec d d' : Decision (same_slot d d').
Proof. destruct d, d'; simpl; apply _. Defined.

Fixpoint kept_data (l : list ProgramData.t) : list ProgramData.t :=
  match l with
  | [] => []
  | d :: rest => d :: filter (λ d', ¬ same_slot d d') (kept_data rest)
  end.
Definition kept_step (s : WorkflowStep) : WorkflowStep :=
  MkWorkflowStep (ws_program s) (ws_args s) (kept_data (ws_inputs s)).

(** A transaction is refused when a row of it would name a program or a parent that is
    not stored. *)
Definition data_known (program : Hash → bool) (d : ProgramData.t) : bool :=
  match d with ProgramData.Output p _ => program p | _ => true end.
Definition step_known (program : Hash → bool) (s : WorkflowStep) : bool :=
  program (ws_program s) && forallb (data_known program) (ws_inputs s).
Definition accepts (s : Store) (tx : Transaction Validated) : bool :=
  match payload tx with
  | Payload.Run workflow => forallb (step_known (knows (st_programs s))) (kept_step <$> wf_steps workflow)
  | Payload.Proof parent program _ _ | Payload.Verification parent program _ _ =>
      (knows (st_txs s) parent || bool_decide (parent = hash tx)) && knows (st_programs s) program
  | _ => true
  end.

Definition store_add (tx : Transaction Validated) (s : Store) : Store :=
  MkStore (<[hash tx := tx]> (st_txs s))
    (match payload tx with
     | Payload.Deploy _ prover verifier =>
         store_program (Program_of_metadata verifier)
           (store_program (Program_of_metadata prover) (st_programs s))
     | _ => st_programs s
     end) (st_acl s).

(** Limits are [u64] in the program and signed in the table: those that do not fit are
    read back as none. *)
Definition limits_fit (r : ResourceRequest) : Prop :=
  (0 ≤ rr_mem r < 2 ^ 63 ∧ 0 ≤ rr_cpus r < 2 ^ 63 ∧ 0 ≤ rr_gpus r < 2 ^ 63)%Z.
#[export] Instance limits_fit_dec r : Decision (limits_fit r).
Proof. unfold limits_fit. apply _. Defined.
Definition read_limits (o : option ResourceRequest) : option ResourceRequest :=
  r ← o; if decide (limits_fit r) then Some r else None.
Definition read_program (p : Program) : Program :=
  MkProgram (prg_hash p) (prg_name p) (prg_image_file_name p) (prg_image_file_url p)
    (prg_image_file_checksum p) (read_limits (prg_limits p)).

(** What can be read of a stored transaction.  The schema loses something: a deployment
    shows its programs as they were first deployed, a step its input files first and one
    file per name, and the payload of a transfer, stake, unstake or cancel has no table. *)
Definition found_program (s : Store) (m : ProgramMetadata) : ProgramMetadata :=
  match st_programs s !! pm_hash m with
  | Some p => ProgramMetadata_of_program (read_program p)
  | None => m
  end.
Definition found_payload (s : Store) (p : Payload.t) : Payload.t :=
  match p with
  | Payload.Deploy name prover verifier =>
      Payload.Deploy name (found_program s prover) (found_program s verifier)
  | Payload.Run workflow => Payload.Run (MkWorkflow (inputs_first ∘ kept_step <$> wf_steps workflow))
  | Payload.Transfer _ _ | Payload.Stake _ | Payload.Unstake _ | Payload.Cancel _ => Payload.Empty
  | _ => p
  end.
Definition store_find (s : Store) (h : Hash) : option (Transaction Validated) :=
  (λ tx, set_payload tx (found_payload s (payload tx))) <$> st_txs s !! h.

(** The payloads of which nothing is lost. *)
Definition inputs_then_outputs (l : list ProgramData.t) : Prop :=
  ∃ ins outs, l = ins ++ outs ∧ Forall (λ d, is_Some (input_row 0 d)) ins ∧
    Forall (λ d, is_Some (output_row 0 d)) outs.
Definition metadata_kept (s : Store) (m : ProgramMetadata) : Prop :=
  st_programs s !! pm_hash m = Some (Program_of_metadata m) ∧
  ∀ r, pm_resource_requirements m = Some r → limits_fit r.
Definition payload_kept (s : Store) (p : Payload.t) : Prop :=
  match p with
  | Payload.Deploy _ prover verifier => metadata_kept s prover ∧ metadata_kept s verifier
  | Payload.Run workflow =>
      Forall (λ st, distinct_names st ∧ inputs_then_outputs (ws_inputs st)) (wf_steps workflow)
  | Payload.Transfer _ _ | Payload.Stake _ | Payload.Unstake _ | Payload.Cancel _ => False
  | _ => True
  end.

Definition mark_executed (tx : Transaction Validated) : Transaction Validated :=
  MkTransaction (author tx) (hash tx) (payload tx) (nonce tx) (signature tx) (propagated tx) true
    (state tx).

Inductive StoreOp :=
  | OpAdd (tx : Transaction Validated)
  | OpExecuted (h : Hash)
  | OpWhitelist (k : PublicKey)
  | OpDeny (k : PublicKey).

Definition store_step (op : StoreOp) (s : Store) : bool * Store :=
  match op with
  | OpAdd tx => if accepts s tx then (true, store_add tx s) else (false, s)
  | OpExecuted h => (true, MkStore (alter mark_executed h (st_txs s)) (st_programs s) (st_acl s))
  | OpWhitelist k => (true, MkStore (st_txs s) (st_programs s) ({[k]} ∪ st_acl s))
  | OpDeny k => (true, MkStore (st_txs s) (st_programs s) (st_acl s ∖ {[k]}))
  end.

Definition db_step (op : StoreOp) : M Tables string () :=
  match op with
  | OpAdd tx => add_transaction tx
  | OpExecuted h => db_mark_tx_executed h
  | OpWhitelist k => db_acl_whitelist k
  | OpDeny k => db_acl_deny k
  end.

(** The operations the node makes: a transaction is added once, and the limits of a
    program are [u64]. *)
Definition limits_u64 (r : ResourceRequest) : Prop :=
  (0 ≤ rr_mem r < 2 ^ 64 ∧ 0 ≤ rr_cpus r < 2 ^ 64 ∧ 0 ≤ rr_gpus r < 2 ^ 64)%Z.
Definition metadata_u64 (m : ProgramMetadata) : Prop :=
  match pm_resource_requirements m with Some r => limits_u64 r | None => True end.
Definition valid_op (s : Store) (op : StoreOp) : Prop :=
  match op with
  | OpAdd tx =>
      st_txs s !! hash tx = None ∧
      match payload tx with
      | Payload.Deploy _ prover verifier => metadata_u64 prover ∧ metadata_u64 verifier
      | _ => True
      end
  | _ => True
  end.

(** A sequence of operations, with which of them succeeded. *)
Fixpoint run_store (ops : list StoreOp) (s : Store) : list bool * Store :=
  match ops with
  | [] => ([], s)
  | op :: rest => let '(b, s1) := store_step op s in let '(bs, s2) := run_store rest s1 in (b :: bs, s2)
  end.
Fixpoint run_db (ops : list StoreOp) (t : Tables) : list bool * Tables :=
  match ops with
  | [] => ([], t)
  | op :: rest => let '(r, t1) := db_step op t in let '(bs, t2) := run_db rest t1 in (is_ok r :: bs, t2)
  end.
Fixpoint valid_ops (ops : list StoreOp) (s : Store) : Prop :=
  match ops with
  | [] => True
  | op :: rest => valid_op s op ∧ valid_ops rest (snd (store_step op s))
  end.

(** ** The refinement relation *)

Definition limits_row (r : ResourceRequest) : Z * Z * Z :=
  (as_i64 (rr_mem r), as_i64 (rr_cpus r), as_i64 (rr_gpus r)).

(** The two program tables hold a map of programs. *)
Record programs_refine (programs : gmap Hash Program) (prr : gmap Hash (Z * Z * Z))
    (m : gmap Hash Program) : Prop := {
  pr_row h : programs !! h = no_limits <$> m !! h;
  pr_limits h : prr !! h = limits_row <$> (m !! h ≫= prg_limits);
  pr_key h p : m !! h = Some p → prg_hash p = h;
  pr_fit h p r : m !! h = Some p → prg_limits p = Some r → limits_u64 r
}.

(** The rows of a payload; those of a deployment only name its programs. *)
Definition stored_payload (t : Tables) (h : Hash) (p : Payload.t) : Prop :=
  match p with
  | Payload.Deploy name prover verifier =>
      t_deploy t !! h = Some (MkDeployRow name (pm_hash prover) (pm_hash verifier))
  | _ => find_payload (λ _ l, l) t h (kind_of p) = Ok (found_payload Store_new p)
  end.

Record refines (t : Tables) (s : Store) : Prop := {
  rf_wf : db_wf t;
  rf_key h tx : st_txs s !! h = Some tx → hash tx = h;
  rf_row h : t_transaction t !! h = row_of_tx <$> st_txs s !! h;
  rf_payload h tx : st_txs s !! h = Some tx → stored_payload t h (payload tx);
  rf_programs : programs_refine (t_program t) (t_prr t) (st_programs s);
  rf_acl : t_acl t = st_acl s
}.

(** ** Programs *)

Lemma programs_refine_knows programs prr m h :
  programs_refine programs prr m → has_row h programs = knows m h.
Proof. intros Hp. unfold has_row, knows. apply bool_decide_ext. by rewrite (pr_row _ _ _ Hp), fmap_is_Some. Qed.

Lemma as_i64_nonneg z : (0 ≤ z < 2 ^ 64)%Z → (0 <=? as_i64 z)%Z = (z <? 2 ^ 63)%Z.
Proof. intros Hz. unfold as_i64. destruct (Z.ltb_spec z (2 ^ 63)); [apply Z.leb_le|apply Z.leb_gt]; lia. Qed.

Lemma limits_row_of r :
  limits_u64 r → ResourceRequest_of_row (limits_row r) = read_limits (Some r).
Proof.
  destruct r as [m c g]. unfold limits_u64, read_limits, limits_row, ResourceRequest_of_row. simpl.
  intros (? & ? & ?). rewrite !as_i64_nonneg by done. case_decide as Hf; unfold limits_fit in Hf; simpl in Hf.
  - rewrite !(proj2 (Z.ltb_lt _ _)) by lia. unfold as_i64. by rewrite !(proj2 (Z.ltb_lt _ _)) by lia.
  - destruct (Z.ltb_spec m (2 ^ 63)), (Z.ltb_spec c (2 ^ 63)), (Z.ltb_spec g (2 ^ 63)); try done. lia.
Qed.

Lemma get_program_refines t m h :
  programs_refine (t_program t) (t_prr t) m → db_find_program t h = Ok (read_program <$> m !! h).
Proof.
  intros Hp. unfold db_find_program, get_program.
  rewrite (pr_row _ _ _ Hp), (pr_limits _ _ _ Hp). destruct (m !! h) as [p|] eqn:Hm; simpl; [|done].
  destruct p as [ph pn pi pu pc [r|]]; simpl; [|done].
  assert (limits_u64 r) as Hr by (by eapply (pr_fit _ _ _ Hp)).
  unfold read_program. simpl. assert (Hrow := limits_row_of r Hr). unfold limits_row in Hrow. simpl in Hrow.
  by rewrite Hrow.
Qed.

Lemma programs_refine_insert programs prr m p programs' prr' :
  programs_refine programs prr m →
  (∀ r, prg_limits p = Some r → limits_u64 r) →
  programs' = <[prg_hash p := no_limits p]> programs →
  prr' !! prg_hash p = limits_row <$> prg_limits p →
  (∀ h, h ≠ prg_hash p → prr' !! h = prr !! h) →
  programs_refine programs' prr' (<[prg_hash p := p]> m).
Proof.
  intros Hp Hfit -> Hk Hne. split; intros h; destruct (decide (h = prg_hash p)) as [->|Hh].
  - by rewrite !lookup_insert_eq.
  - rewrite !lookup_insert_ne by done. apply (pr_row _ _ _ Hp).
  - by rewrite lookup_insert_eq.
  - rewrite lookup_insert_ne, Hne by done. apply (pr_limits _ _ _ Hp).
  - intros p'. rewrite lookup_insert_eq. by intros [= <-].
  - intros p'. rewrite lookup_insert_ne by done. apply (pr_key _ _ _ Hp).
  - intros p' r. rewrite lookup_insert_eq. intros [= <-]. apply Hfit.
  - intros p' r. rewrite lookup_insert_ne by done. apply (pr_fit _ _ _ Hp).
Qed.

Lemma add_program_refines p t m :
  programs_refine (t_program t) (t_prr t) m →
  (∀ r, prg_limits p = Some r → limits_u64 r) →
  programs_refine (t_program (add_program p t)) (t_prr (add_program p t)) (store_program p m).
Proof.
  intros Hp Hfit. simpl. unfold store_program, insert_new.
  rewrite (pr_row _ _ _ Hp), (pr_limits _ _ _ Hp).
  destruct (m !! prg_hash p) as [q|] eqn:Hq; simpl.
  - assert (Hk := pr_key _ _ _ Hp _ _ Hq). destruct (prg_limits q) as [rq|] eqn:Hlq; simpl.
    { destruct (prg_limits p); exact Hp. }
    rewrite <-Hk.
    set (p' := MkProgram _ _ _ _ _ _). apply (programs_refine_insert _ _ _ p' _ _ Hp); simpl; [done|..].
    + rewrite insert_id; [done|]. by rewrite (pr_row _ _ _ Hp), Hk, Hq.
    + rewrite Hk. destruct (prg_limits p) as [r|]; simpl.
      * by rewrite lookup_insert_eq.
      * by rewrite (pr_limits _ _ _ Hp), Hq; simpl; rewrite Hlq.
    + intros h Hh. destruct (prg_limits p); [|done]. rewrite lookup_insert_ne; congruence.
  - apply (programs_refine_insert _ _ _ p _ _ Hp); [done|done|..].
    + destruct (prg_limits p) as [r|]; simpl; [by rewrite lookup_insert_eq|].
      by rewrite (pr_limits _ _ _ Hp), Hq.
    + intros h Hh. by destruct (prg_limits p); [rewrite lookup_insert_ne|].
Qed.

(** ** What the rows of a transaction are *)

(** [t'] has the same rows for the payload of [h]. *)
Record rows_agree (t t' : Tables) (h : Hash) : Prop := {
  ra_deploy : t_deploy t' !! h = t_deploy t !! h;
  ra_proof : t_proof t' !! h = t_proof t !! h;
  ra_key : t_proof_key t' !! h = t_proof_key t !! h;
  ra_verification : t_verification t' !! h = t_verification t !! h;
  ra_files : filter (λ f, fst f = h) (t_txfile t') = filter (λ f, fst f = h) (t_txfile t);
  ra_steps : steps_of t' h = steps_of t h;
  ra_inputs : filter (λ e, in_step e ∈ step_id <$> steps_of t h) (t_input t') =
              filter (λ e, in_step e ∈ step_id <$> steps_of t h) (t_input t);
  ra_outputs : filter (λ e, out_step e ∈ step_id <$> steps_of t h) (t_output t') =
               filter (λ e, out_step e ∈ step_id <$> steps_of t h) (t_output t)
}.

Lemma stored_payload_agree t t' h p :
  rows_agree t t' h → stored_payload t h p → stored_payload t' h p.
Proof.
  intros [E1 E2 E3 E4 E5 E6 E7 E8]. unfold stored_payload.
  destruct p; cbn [kind_of find_payload]; rewrite ?E1, ?E2, ?E3, ?E4, ?E5, ?E6, ?E7, ?E8; done.
Qed.

Lemma step_id_bound t h id : db_wf t → id ∈ step_id <$> steps_of t h → (id < t_next_step t)%Z.
Proof.
  intros Ht (r & -> & [_ Hr]%list_elem_of_filter)%list_elem_of_fmap. by apply (wf_step t Ht).
Qed.

(** New workflow rows are those of their own transaction. *)
Lemma with_steps_agree tx steps t h :
  db_wf t → h ≠ hash tx →
  rows_agree t (with_steps (hash tx) 1 steps (upsert_transaction (row_of_tx tx) t)) h.
Proof.
  intros Ht Hh.
  assert (∀ r, r ∈ step_rows (hash tx) 1 (t_next_step t) steps → step_tx r ≠ h) as Hrows.
  { generalize 1%Z, (t_next_step t). induction steps as [|s steps IH]; intros seq id r; cbn [step_rows].
    - by intros ?%elem_of_nil.
    - intros [->|Hr]%elem_of_cons; [by simpl|by eapply IH]. }
  assert (∀ {R} (row : Z → ProgramData.t → option R) (step : R → Z) l,
    (∀ i d r, row i d = Some r → step r = i) →
    filter (λ e, step e ∈ step_id <$> steps_of t h) (l ++ all_rows row (t_next_step t) steps) =
    filter (λ e, step e ∈ step_id <$> steps_of t h) l) as Hnew.
  { intros R row step l Hrow. rewrite filter_app, (filter_none _ (all_rows _ _ _)), app_nil_r; [done|].
    intros r Hr Hid. apply (all_rows_bound row step) in Hr; [|done]. apply step_id_bound in Hid; [lia|done]. }
  split; try done; simpl.
  - unfold steps_of. simpl. rewrite filter_app, (filter_none _ (step_rows _ _ _ _)), app_nil_r; done.
  - apply (Hnew _ input_row in_step), input_row_step.
  - apply (Hnew _ output_row out_step), output_row_step.
Qed.

Lemma insert_new_ne {V} k (v : V) m h : h ≠ k → insert_new k v m !! h = m !! h.
Proof. intros Hh. unfold insert_new. destruct (m !! k); [done|]. by rewrite lookup_insert_ne. Qed.

Lemma txfile_rows_ne tx files l h :
  h ≠ tx → filter (λ f, fst f = h) (l ++ txfile_rows tx files) = filter (λ f, fst f = h) l.
Proof.
  intros Hh. rewrite filter_app, (filter_none _ (txfile_rows _ _)), app_nil_r; [done|].
  by intros e ->%txfile_rows_fst.
Qed.

(** ** Files of the same name *)

Definition slot_filled (id : Z) (d : ProgramData.t) (t : Tables) : Prop :=
  match d with
  | ProgramData.Input n _ _ => Exists (λ r, in_step r = id ∧ in_file_name r = n) (t_input t)
  | ProgramData.Output _ n => Exists (λ r, out_step r = id ∧ out_file_name r = n) (t_output t)
  end.

Lemma insert_filled id d t : slot_filled id d t → insert_input id d t = (Ok (), t).
Proof.
  intros Hd. unfold insert_input, mbind, M_bind, get. by destruct d; rewrite bool_decide_eq_true_2.
Qed.
Lemma same_slot_filled id d d' t : same_slot d d' → slot_filled id d t → slot_filled id d' t.
Proof. by destruct d, d'; simpl; try done; intros ->. Qed.

Lemma insert_fills id d t t' :
  insert_input id d t = (Ok (), t') →
  slot_filled id d t' ∧ ∀ d', slot_filled id d' t → slot_filled id d' t'.
Proof.
  unfold insert_input, mbind, M_bind, get, check. destruct d as [n u c|p n]; simpl.
  - case_bool_decide as He; intros [= <-]; [done|]. simpl. split.
    + apply Exists_app. right. by constructor.
    + intros [n' u' c'|p' n']; simpl; [|done]. rewrite Exists_app. by left.
  - case_bool_decide as He; [by intros [= <-]|]. destruct (has_program t p); intros [= <-]. simpl. split.
    + apply Exists_app. right. by constructor.
    + intros [n' u' c'|p' n']; simpl; [done|]. rewrite Exists_app. by left.
Qed.

Lemma insert_skips id d l t :
  slot_filled id d t →
  for_eachM (insert_input id) l t = for_eachM (insert_input id) (filter (λ d', ¬ same_slot d d') l) t.
Proof.
  revert t. induction l as [|x l IH]; intros t Hd; [done|]. destruct (decide (same_slot d x)) as [Hs|Hs].
  - rewrite filter_cons_False by tauto. cbn [for_eachM]. unfold mbind at 1, M_bind at 1.
    rewrite insert_filled by (by apply (same_slot_filled _ d)). by apply IH.
  - rewrite filter_cons_True by done. cbn [for_eachM]. unfold mbind, M_bind.
    destruct (insert_input id x t) as [[[]|e|] t1] eqn:Hi; [|done..].
    apply IH. by apply (proj2 (insert_fills _ _ _ _ Hi)).
Qed.

Lemma insert_inputs_kept id l t :
  for_eachM (insert_input id) l t = for_eachM (insert_input id) (kept_data l) t.
Proof.
  revert t. induction l as [|d l IH]; intros t; [done|]. cbn [for_eachM kept_data]. unfold mbind, M_bind.
  destruct (insert_input id d t) as [[[]|e|] t1] eqn:Hi; [|done..].
  rewrite IH. apply insert_skips. exact (proj1 (insert_fills _ _ _ _ Hi)).
Qed.

Lemma insert_steps_kept tx seq steps t :
  insert_steps tx seq steps t = insert_steps tx seq (kept_step <$> steps) t.
Proof.
  revert seq t. induction steps as [|s steps IH]; intros seq t; [done|]. rewrite fmap_cons.
  cbn [insert_steps]. unfold mbind, M_bind.
  change (insert_step tx seq (kept_step s) t) with (insert_step tx seq s t).
  destruct (insert_step tx seq s t) as [[id|e|] t1]; [|done..].
  rewrite (insert_inputs_kept id (ws_inputs s)). cbn [kept_step ws_inputs].
  destruct (for_eachM _ _ t1) as [[a|e|] t2]; [apply IH|done..].
Qed.

Lemma kept_names {R} (row : ProgramData.t → option R) (name : R → string) l :
  (∀ d d' r r', row d = Some r → row d' = Some r' → name r = name r' → same_slot d d') →
  NoDup (name <$> omap row (kept_data l)).
Proof.
  intros Hrow. induction l as [|d l IH]; [constructor|]. cbn [kept_data].
  assert (NoDup (name <$> omap row (filter (λ d', ¬ same_slot d d') (kept_data l)))) as Hn.
  { eapply sublist_NoDup; [exact IH|]. apply fmap_sublist. generalize (kept_data l) as k. intros k.
    induction k as [|x k IHk]; [done|]. rewrite filter_cons. simpl.
    case_decide; simpl; (destruct (row x); [by constructor|done]). }
  simpl. destruct (row d) as [r|] eqn:Hd; simpl; [|done]. apply NoDup_cons. split; [|done].
  intros (r' & Hname & (d' & [Hs _]%list_elem_of_filter & Hr')%list_elem_of_omap)%list_elem_of_fmap.
  apply Hs. by eapply Hrow.
Qed.

Lemma kept_distinct s : distinct_names (kept_step s).
Proof.
  split; apply kept_names; intros [] [] r r'; simpl; intros; by simplify_eq/=.
Qed.
Lemma kept_all_distinct steps : Forall distinct_names (kept_step <$> steps).
Proof. apply Forall_fmap, Forall_true. intros s. apply kept_distinct. Qed.

(** ** Storing a workflow *)

Lemma insert_inputs_is_ok id inputs t :
  NoDup (out_file_name <$> omap (output_row 0) inputs) →
  (∀ r, r ∈ t_output t → out_step r = id → out_file_name r ∉ out_file_name <$> omap (output_row 0) inputs) →
  is_ok (fst (for_eachM (insert_input id) inputs t)) = forallb (data_known (has_program t)) inputs.
Proof.
  revert t. induction inputs as [|d inputs IH]; intros t Hn Hf; [done|].
  cbn [for_eachM forallb]. unfold mbind, M_bind. destruct d as [n fu c|p n]; simpl in *.
  - unfold insert_input at 1, mbind, M_bind, get. simpl.
    destruct (bool_decide _); simpl; [by apply IH|]. by apply (IH (set_inputs _ t)).
  - apply NoDup_cons in Hn as [Hn Hn']. unfold insert_input at 1, mbind, M_bind, get, check. simpl.
    rewrite bool_decide_eq_false_2.
    2:{ rewrite Exists_exists. intros (r & Hr & Hid & Hname). apply (Hf r Hr Hid). rewrite Hname. by left. }
    destruct (has_program t p) eqn:Hp; [|done]. simpl.
    apply (IH (set_outputs (t_output t ++ [MkOutputRow id n p]) t)); [done|].
    simpl. intros r [Hr| ->%list_elem_of_singleton]%elem_of_app Hid; [|done].
    intros Hin. apply (Hf r Hr Hid). by right.
Qed.

Lemma insert_steps_is_ok tx seq steps t :
  Forall distinct_names steps →
  (∀ r, r ∈ t_step t → step_tx r = tx → (step_sequence r < seq)%Z) →
  (∀ r, r ∈ t_input t → (in_step r < t_next_step t)%Z) →
  (∀ r, r ∈ t_output t → (out_step r < t_next_step t)%Z) →
  is_ok (fst (insert_steps tx seq steps t)) = forallb (step_known (has_program t)) steps.
Proof.
  intros Hd. revert seq t. induction Hd as [|s steps [N1 N2] Hd IH]; intros seq t Fs Fi Fo; [done|].
  cbn [insert_steps forallb]. unfold step_known at 1. unfold mbind, M_bind.
  assert (insert_step tx seq s t =
    if has_program t (ws_program s)
    then (Ok (t_next_step t), set_steps
           (t_step t ++ [MkStepRow (t_next_step t) tx seq (ws_program s) (ws_args s)]) (t_next_step t + 1) t)
    else (Err "violates foreign key constraint", t)) as ->.
  { unfold insert_step, mbind, M_bind, get, check. destruct (list_find _ _) as [[i r]|] eqn:Hf.
    - apply list_find_Some in Hf as (Hi & [Htx Hs] & _). apply list_elem_of_lookup_2 in Hi.
      specialize (Fs r Hi Htx). lia.
    - by destruct (has_program t _). }
  destruct (has_program t (ws_program s)); [|done]. cbn [andb].
  set (t1 := set_steps _ _ t).
  assert (∀ r, r ∈ t_output t → out_step r ≠ t_next_step t) as Hno
    by (intros r Hr; specialize (Fo r Hr); lia).
  assert (∀ r, r ∈ t_input t → in_step r ≠ t_next_step t) as Hni
    by (intros r Hr; specialize (Fi r Hr); lia).
  assert (Hok := insert_inputs_is_ok (t_next_step t) (ws_inputs s) t1 N2 ltac:(by intros r Hr ?%Hno)).
  change (has_program t1) with (has_program t) in Hok. rewrite <-Hok.
  destruct (for_eachM _ _ t1) as [[[]|e|] t2] eqn:He; cbn [fst snd is_ok andb]; [|done..].
  apply insert_inputs_eq in He as ->; [|done|done|by intros r Hr ?%Hni|by intros r Hr ?%Hno].
  rewrite IH; [done|..]; simpl.
  - intros r [Hr| ->%list_elem_of_singleton]%elem_of_app Htx; [specialize (Fs r Hr Htx)|simpl]; lia.
  - intros r [Hr|Hr]%elem_of_app; [specialize (Fi r Hr); lia|].
    apply (omap_row_step input_row in_step _ _ input_row_step) in Hr. lia.
  - intros r [Hr|Hr]%elem_of_app; [specialize (Fo r Hr); lia|].
    apply (omap_row_step output_row out_step _ _ output_row_step) in Hr. lia.
Qed.

(** ** The simulation *)

Lemma refines_insert t s tx t' :
  refines t s → st_txs s !! hash tx = None → db_wf t' →
  t_transaction t' = <[hash tx := row_of_tx tx]> (t_transaction t) →
  (∀ h, h ≠ hash tx → rows_agree t t' h) →
  stored_payload t' (hash tx) (payload tx) →
  programs_refine (t_program t') (t_prr t') (st_programs (store_add tx s)) →
  t_acl t' = t_acl t →
  refines t' (store_add tx s).
Proof.
  intros Hr Hn Hwf Htx Hframe Hp Hprog Hacl. split; [done|..].
  - intros h tx'. simpl. intros [[<- <-]|[_ ?]]%lookup_insert_Some; [done|by apply (rf_key _ _ Hr)].
  - intros h. rewrite Htx. simpl. destruct (decide (h = hash tx)) as [->|].
    + by rewrite !lookup_insert_eq.
    + rewrite !lookup_insert_ne by done. apply (rf_row _ _ Hr).
  - intros h tx'. simpl. intros [[<- <-]|[Hne ?]]%lookup_insert_Some; [done|].
    apply (stored_payload_agree t); [by apply Hframe|]. by apply (rf_payload _ _ Hr).
  - done.
  - rewrite Hacl. apply (rf_acl _ _ Hr).
Qed.

Lemma refines_rollback t s u :
  refines t s → db_wf (rollback t u) → t_program u = t_program t → t_prr u = t_prr t →
  refines (rollback t u) s.
Proof.
  intros [R1 R2 R3 R4 R5 R6] Hwf Hp Hl. split; try done.
  - intros h tx Htx. apply (stored_payload_agree t); [done|by apply R4].
  - simpl. by rewrite Hp, Hl.
Qed.

Lemma refines_knows_tx t s h : refines t s → has_tx t h = knows (st_txs s) h.
Proof.
  intros Hr. unfold has_tx, has_row, knows. apply bool_decide_ext.
  by rewrite (rf_row _ _ Hr), fmap_is_Some.
Qed.
Lemma refines_knows_program t s h : refines t s → has_program t h = knows (st_programs s) h.
Proof. intros Hr. apply (programs_refine_knows _ (t_prr t)), (rf_programs _ _ Hr). Qed.

Lemma forallb_step_known p q steps :
  (∀ h, p h = q h) → forallb (step_known p) steps = forallb (step_known q) steps.
Proof.
  intros Hpq. assert (∀ d, data_known p d = data_known q d) as Hd by (by intros []; simpl).
  induction steps as [|s steps IH]; [done|]. simpl. rewrite IH. f_equal. unfold step_known.
  rewrite Hpq. f_equal. induction (ws_inputs s) as [|d l IHl]; [done|]. simpl. by rewrite Hd, IHl.
Qed.

(** Adding a run. *)
Lemma refines_add_run t s tx workflow :
  refines t s → st_txs s !! hash tx = None → payload tx = Payload.Run workflow →
  is_ok (fst (add_transaction tx t)) = accepts s tx ∧
  refines (snd (add_transaction tx t)) (snd (store_step (OpAdd tx) s)).
Proof.
  intros Hr Hn Hp. assert (Hd := kept_all_distinct (wf_steps workflow)). assert (Hwf := rf_wf _ _ Hr).
  assert (t_transaction t !! hash tx = None) as Hrow by (by rewrite (rf_row _ _ Hr), Hn).
  assert (Hw := add_transaction_keeps_wf tx t Hwf).
  assert (is_ok (fst (add_transaction_body tx t)) = accepts s tx) as Hok.
  { unfold add_transaction_body, accepts, mbind, M_bind, modify. rewrite Hp. simpl.
    rewrite insert_steps_kept, insert_steps_is_ok; [|done|exact (fresh_steps t _ Hwf Hrow)|by intros r ?; apply (wf_input_bound t)
      |by intros r ?; apply (wf_output_bound t)].
    apply forallb_step_known. intros h. exact (refines_knows_program t s h Hr). }
  assert (t_program (snd (add_transaction_body tx t)) = t_program t ∧
          t_prr (snd (add_transaction_body tx t)) = t_prr t) as [Hpr Hl].
  { unfold add_transaction_body, mbind, M_bind, modify. rewrite Hp.
    apply (keeps_snd (λ u, t_program u = t_program t ∧ t_prr u = t_prr t)); [|done].
    by apply insert_steps_closed. }
  assert (∀ u, add_transaction_body tx t = (Ok (), u) →
    u = with_steps (hash tx) 1 (kept_step <$> wf_steps workflow) (upsert_transaction (row_of_tx tx) t)) as Heq.
  { intros u. unfold add_transaction_body, mbind, M_bind, modify. rewrite Hp, insert_steps_kept.
    by apply insert_run_eq. }
  unfold add_transaction in *. simpl.
  destruct (add_transaction_body tx t) as [[[]|e|] u]; simpl in *; rewrite <-Hok; (split; [done|]).
  - specialize (Heq u eq_refl) as ->. simpl. apply (refines_insert t); try done.
    + simpl. by rewrite Hrow.
    + intros h Hh. by apply with_steps_agree.
    + rewrite Hp. unfold stored_payload. cbn [kind_of found_payload wf_steps].
      rewrite list_fmap_compose. by apply run_payload_found.
    + simpl. rewrite Hp. apply (rf_programs _ _ Hr).
  - by apply refines_rollback.
  - by apply refines_rollback.
Qed.

Lemma refines_added t s tx u :
  refines t s → st_txs s !! hash tx = None → add_transaction tx t = (Ok (), u) →
  (∀ h, h ≠ hash tx → rows_agree t u h) →
  stored_payload u (hash tx) (payload tx) →
  programs_refine (t_program u) (t_prr u) (st_programs (store_add tx s)) →
  refines u (store_add tx s).
Proof.
  intros Hr Hn Hadd Hframe Hp Hprog. apply (refines_insert t); try done.
  - assert (Hw := add_transaction_keeps_wf tx t (rf_wf _ _ Hr)). by rewrite Hadd in Hw.
  - assert (Hrows := add_transaction_body_rows tx t). unfold add_transaction in Hadd.
    destruct (add_transaction_body tx t) as [[[]|e|] u']; [|done..]. injection Hadd as <-.
    simpl in Hrows. rewrite Hrows. by rewrite (rf_row _ _ Hr), Hn.
  - by rewrite <-(add_transaction_acl tx t), Hadd.
Qed.

(** A new proof or verification: its table, given the rest. *)
Lemma accepts_result t s tx parent program :
  refines t s → t_transaction t !! hash tx = None →
  has_tx (upsert_transaction (row_of_tx tx) t) parent && has_program t program =
  (knows (st_txs s) parent || bool_decide (parent = hash tx)) && knows (st_programs s) program.
Proof.
  intros Hr Hn. rewrite (refines_knows_program t s program Hr), <-(refines_knows_tx t s parent Hr). f_equal.
  apply eq_bool_prop_intro. rewrite Is_true_true, has_tx_upsert. simpl.
  rewrite Is_true_true, orb_true_iff, bool_decide_eq_true. done.
Qed.

Lemma metadata_limits m r :
  metadata_u64 m → prg_limits (Program_of_metadata m) = Some r → limits_u64 r.
Proof. unfold metadata_u64. simpl. by intros Hm Hr; rewrite Hr in Hm. Qed.

Lemma no_row_yet {V} (m : gmap Hash V) h : m !! h = None → has_row h m = false.
Proof. intros Hn. apply bool_decide_eq_false_2. rewrite Hn. by intros []%is_Some_None. Qed.

Lemma refines_add t s tx :
  refines t s → valid_op s (OpAdd tx) →
  is_ok (fst (add_transaction tx t)) = accepts s tx ∧
  refines (snd (add_transaction tx t)) (snd (store_step (OpAdd tx) s)).
Proof.
  intros Hr [Hn Hv].
  destruct (decide (kind_of (payload tx) = Kind.Run)) as [Hk|Hk].
  { destruct (payload tx) eqn:Hp; try done. by eapply refines_add_run. }
  assert (Hwf := rf_wf _ _ Hr). assert (Hprog := rf_programs _ _ Hr).
  assert (t_transaction t !! hash tx = None) as Hrow by (by rewrite (rf_row _ _ Hr), Hn).
  destruct (fresh_rows t (hash tx) Hwf Hrow) as (F1 & F2 & F3 & F4 & F5 & _).
  assert (Hadded := λ u, refines_added t s tx u Hr Hn).
  assert (Hback := λ u, refines_rollback t s u Hr).
  assert (Hw := add_transaction_keeps_wf tx t Hwf).
  assert (Hres := λ parent prog, accepts_result t s tx parent prog Hr Hrow).
  unfold store_step, accepts, store_add, stored_payload in *.
  unfold add_transaction, add_transaction_body, mbind, M_bind, modify, get, check in *.
  destruct (payload tx) as [| | | |name pv vf|workflow|parent prog pf files|parent key|parent prog pf files|]
    eqn:Hp; cbn [fst snd is_ok] in *; try done.
  1-4, 9: split; [done|]; apply Hadded; rewrite ?Hp; done.
  - split; [done|]. apply Hadded; rewrite ?Hp; [done|..].
    + intros h Hh. split; try done. simpl. by rewrite insert_new_ne.
    + simpl. by rewrite insert_new_fresh.
    + destruct Hv as [Hpv Hvf].
      apply (add_program_refines _ (add_program (Program_of_metadata pv) (upsert_transaction (row_of_tx tx) t)));
        [apply add_program_refines; [done|]|]; intros r; by apply metadata_limits.
  - rewrite <-Hres. rewrite (no_row_yet (t_proof _)) in * by done. cbn [orb] in *.
    destruct (_ && _); cbn [fst snd is_ok] in *; (split; [done|]); [|by apply Hback].
    apply Hadded; rewrite ?Hp; [done|..|done].
    + intros h Hh. split; try done; simpl; [by rewrite insert_new_ne|by apply txfile_rows_ne].
    + simpl. rewrite insert_new_fresh by done. simpl. rewrite filter_app, F5. simpl. by rewrite files_back.
  - split; [done|]. apply Hadded; rewrite ?Hp; [done|..|done].
    + intros h Hh. split; try done. simpl. by rewrite insert_new_ne.
    + simpl. by rewrite insert_new_fresh.
  - rewrite <-Hres. rewrite (no_row_yet (t_verification _)) in * by done. cbn [orb] in *.
    destruct (_ && _); cbn [fst snd is_ok] in *; (split; [done|]); [|by apply Hback].
    apply Hadded; rewrite ?Hp; [done|..|done].
    + intros h Hh. split; try done; simpl; [by rewrite insert_new_ne|by apply txfile_rows_ne].
    + simpl. rewrite insert_new_fresh by done. simpl. rewrite filter_app, F5. simpl. by rewrite files_back.
Qed.

Lemma refines_executed t s h :
  refines t s → refines (snd (db_mark_tx_executed h t)) (snd (store_step (OpExecuted h) s)).
Proof.
  intros Hr. assert (Hw := wf_executed h t (rf_wf _ _ Hr)). destruct Hr as [_ R2 R3 R4 R5 R6].
  assert (t_transaction (snd (db_mark_tx_executed h t)) = alter
    (λ r, MkTransactionRow (row_author r) (row_hash r) (row_kind r) (row_nonce r) (row_signature r)
            (row_propagated r) true) h (t_transaction t) ∧
    (∀ h', rows_agree t (snd (db_mark_tx_executed h t)) h') ∧
    t_program (snd (db_mark_tx_executed h t)) = t_program t ∧
    t_prr (snd (db_mark_tx_executed h t)) = t_prr t) as (Htx & Hrows & Hp & Hl).
  { unfold db_mark_tx_executed, modify. simpl. destruct (t_transaction t !! h) as [r|] eqn:Hh; simpl.
    - split_and!; [|by split..]. apply map_eq. intros h'. destruct (decide (h' = h)) as [->|].
      + by rewrite lookup_insert_eq, lookup_alter_eq, Hh.
      + by rewrite lookup_insert_ne, lookup_alter_ne.
    - split_and!; [|by split..]. apply map_eq. intros h'. destruct (decide (h' = h)) as [->|].
      + by rewrite lookup_alter_eq, Hh.
      + by rewrite lookup_alter_ne. }
  split; cbn [store_step snd st_txs st_programs st_acl]; [done|..].
  - intros h' tx [(<- & tx' & Htx' & ->)|[_ ?]]%lookup_alter_Some; [|by apply R2].
    simpl. by apply R2.
  - intros h'. rewrite Htx. destruct (decide (h' = h)) as [->|].
    + rewrite !lookup_alter_eq, R3. by destruct (st_txs s !! h).
    + by rewrite !lookup_alter_ne, R3.
  - intros h' tx Hlook. apply (stored_payload_agree t); [done|].
    apply lookup_alter_Some in Hlook as [(<- & tx' & Htx' & ->)|[_ ?]]; [exact (R4 _ _ Htx')|by apply R4].
  - by rewrite Hp, Hl.
  - by rewrite acl_executed.
Qed.

Lemma refines_acl k t s :
  refines t s → refines (set_acl_keys k t) (MkStore (st_txs s) (st_programs s) k).
Proof.
  intros [R1 R2 R3 R4 R5 R6]. assert (Hw := wf_acl k t R1). by split.
Qed.

(** Every operation, with its outcome. *)
Lemma refines_step op t s :
  refines t s → valid_op s op →
  is_ok (fst (db_step op t)) = fst (store_step op s) ∧
  refines (snd (db_step op t)) (snd (store_step op s)).
Proof.
  intros Hr Hv. destruct op as [tx|h|k|k].
  - destruct (refines_add t s tx Hr Hv) as [Hok Hs]. split; [|done].
    simpl. rewrite Hok. by destruct (accepts s tx).
  - split; [done|]. by apply refines_executed.
  - split; [done|]. simpl. rewrite <-(rf_acl _ _ Hr). by apply refines_acl.
  - split; [done|]. simpl. rewrite <-(rf_acl _ _ Hr). by apply refines_acl.
Qed.

Lemma refines_run ops t s :
  refines t s → valid_ops ops s →
  fst (run_db ops t) = fst (run_store ops s) ∧ refines (snd (run_db ops t)) (snd (run_store ops s)).
Proof.
  revert t s. induction ops as [|op ops IH]; intros t s Hr; [done|]. intros [Hv Hvs].
  destruct (refines_step op t s Hr Hv) as [Hok Hstep]. simpl.
  destruct (db_step op t) as [r t1], (store_step op s) as [b s1]. simpl in *.
  destruct (IH t1 s1 Hstep Hvs) as [Hoks Hs].
  destruct (run_db ops t1), (run_store ops s1). simpl in *. by rewrite Hok, Hoks.
Qed.

(** ** Observations *)

Lemma refines_program t s h p :
  refines t s → has_program t h = true → st_programs s !! h = Some p → get_program h t = Ok (read_program p).
Proof.
  intros Hr _ Hp. assert (Hf := get_program_refines t _ h (rf_programs _ _ Hr)).
  unfold db_find_program in Hf. rewrite Hp in Hf. by destruct (get_program h t); simplify_eq.
Qed.

Lemma refines_find t s h : refines t s → db_find_transaction (λ _ l, l) t h = Ok (store_find s h).
Proof.
  intros Hr. unfold store_find. destruct (st_txs s !! h) as [tx|] eqn:Htx; simpl.
  2:{ unfold db_find_transaction. by rewrite (rf_row _ _ Hr), Htx. }
  assert (hash tx = h) as <- by (by apply (rf_key _ _ Hr)).
  apply find_stored; [by rewrite (rf_row _ _ Hr), Htx|].
  assert (Hp := rf_payload _ _ Hr _ _ Htx). unfold stored_payload in Hp.
  destruct (payload tx) as [| | | |name pv vf| | | | |] eqn:Hk; try exact Hp.
  cbn [kind_of find_payload found_payload]. rewrite Hp. cbn [dep_prover dep_verifier dep_name].
  destruct (wf_deploy t (rf_wf _ _ Hr) _ _ Hp) as (_ & H1 & H2). cbn in H1, H2.
  assert (∀ m, has_program t (pm_hash m) = true →
    ∃ p, get_program (pm_hash m) t = Ok p ∧ found_program s m = ProgramMetadata_of_program p) as Hm.
  { intros m Hm. assert (Hs := Hm). rewrite (refines_knows_program t s _ Hr) in Hs.
    apply bool_decide_eq_true in Hs as [p Hs]. exists (read_program p). unfold found_program. rewrite Hs.
    by rewrite (refines_program t s (pm_hash m) p). }
  destruct (Hm pv H1) as (p & -> & ->), (Hm vf H2) as (q & -> & ->). done.
Qed.

Lemma find_all_omap t (f : Hash → option (Transaction Validated)) hs :
  (∀ h, db_find_transaction (λ _ l, l) t h = Ok (f h)) →
  find_all (λ _ l, l) t hs = Ok (omap f hs).
Proof.
  intros Hf. induction hs as [|h hs IH]; [done|]. cbn [find_all]. rewrite Hf. simpl. rewrite IH. simpl.
  by destruct (f h).
Qed.

Lemma refines_unexecuted t s :
  refines t s → ∃ l, get_unexecuted_transactions (λ _ l, l) t = Ok l ∧
    ∀ tx, tx ∈ l ↔ executed tx = false ∧ ∃ h, store_find s h = Some tx.
Proof.
  intros Hr. eexists. split; [apply find_all_omap; intros h; by apply refines_find|].
  intros tx. rewrite list_elem_of_omap. split.
  - intros (h & Hh & Hfind). apply list_elem_of_fmap in Hh as ([h' r] & -> & Hin).
    apply list_elem_of_filter in Hin as [He Hin]. apply elem_of_map_to_list in Hin.
    rewrite (rf_row _ _ Hr) in Hin. simpl in *. split; [|eauto].
    unfold store_find in Hfind. destruct (st_txs s !! h'); [|done]. by simplify_eq/=.
  - intros [He [h Hfind]]. exists h. split; [|done]. apply list_elem_of_fmap.
    unfold store_find in Hfind. destruct (st_txs s !! h) as [tx'|] eqn:Htx; [|done]. simplify_eq/=.
    exists (h, row_of_tx tx'). split; [done|]. apply list_elem_of_filter. split; [done|].
    apply elem_of_map_to_list. by rewrite (rf_row _ _ Hr), Htx.
Qed.

Lemma refines_new : refines Tables_new Store_new.
Proof. split; first [apply Tables_new_wf|done|by split]. Qed.

(** *** What is found of a payload that nothing is lost of *)

Lemma kept_data_distinct l :
  NoDup (in_file_name <$> omap (input_row 0) l) → NoDup (out_file_name <$> omap (output_row 0) l) →
  kept_data l = l.
Proof.
  induction l as [|d l IH]; intros Hi Ho; [done|]. cbn [kept_data].
  rewrite IH; [f_equal; apply filter_all; intros d' Hd' Hs
    |by destruct d; [apply NoDup_cons in Hi as []|]|by destruct d; [|apply NoDup_cons in Ho as []]].
  destruct d as [n u c|p n], d' as [n' u' c'|p' n']; simpl in *; try done; subst n'.
  - apply NoDup_cons in Hi as [Hi _]. apply Hi, list_elem_of_fmap. exists (MkInputRow 0 n u' c').
    split; [done|]. apply list_elem_of_omap. by eexists.
  - apply NoDup_cons in Ho as [Ho _]. apply Ho, list_elem_of_fmap. exists (MkOutputRow 0 n p').
    split; [done|]. apply list_elem_of_omap. by eexists.
Qed.

Lemma data_not_both d : is_Some (input_row 0 d) → ¬ is_Some (output_row 0 d).
Proof. destruct d; simpl; [by intros _ []|by intros []]. Qed.

Lemma inputs_first_id s : inputs_then_outputs (ws_inputs s) → inputs_first s = s.
Proof.
  destruct s as [p args l]. unfold inputs_first. simpl. intros (ins & outs & -> & Hi & Ho).
  rewrite Forall_forall in Hi. rewrite Forall_forall in Ho. rewrite !filter_app.
  rewrite (filter_all _ ins) by done. rewrite (filter_none _ outs) by (by intros d Hd ?%data_not_both; auto).
  rewrite (filter_none _ ins) by (by intros d Hd ?; eapply data_not_both; eauto).
  rewrite (filter_all _ outs) by done. by rewrite app_nil_r.
Qed.

Lemma kept_step_id s : distinct_names s → kept_step s = s.
Proof. destruct s as [p args l]. intros [Hi Ho]. unfold kept_step. simpl in *. by rewrite kept_data_distinct. Qed.

Lemma payload_kept_found s p : payload_kept s p → found_payload s p = p.
Proof.
  destruct p as [| | | |name pv vf|[steps]| | | |]; simpl; try done.
  - assert (∀ m, metadata_kept s m → found_program s m = m) as Hm.
    { intros m [Hm Hl]. unfold found_program. rewrite Hm. destruct m as [mn mh mi mu mc [r|]]; [|done].
      unfold read_program, read_limits, ProgramMetadata_of_program. simpl.
      by rewrite decide_True by (by apply Hl). }
    intros [H1 H2]. by rewrite !Hm.
  - intros Hs. do 2 f_equal. induction Hs as [|st steps [Hd Ho] _ IH]; [done|].
    rewrite fmap_cons. f_equal; [|done]. cbn. by rewrite kept_step_id, inputs_first_id.
Qed.

Lemma set_payload_id (tx : Transaction Validated) : set_payload tx (payload tx) = tx.
Proof. by destruct tx. Qed.

(** C11: The tables implement the abstract store.  After any operations on an empty
    database (adding transactions with new hashes and [u64] program limits, marking them
    executed, changing the whitelist) the same operations have succeeded as on the store;
    an addition fails exactly when it names a program or a parent that is not stored, and
    then changes nothing.  A hash is found exactly when the store holds it, with every
    field but the payload as added.  The payload too is as added for proofs, proof keys,
    verifications and empty ones, a run whose steps list inputs before outputs and no file
    name twice, and a deployment that was the first of both programs, with limits that fit
    in [i64].  Otherwise the schema loses what [found_payload] says: a later file of the
    same name, the order of inputs and outputs, a redeployed program's new metadata, limits
    that do not fit, a transfer, stake, unstake or cancel.  Transactions to resume,
    programs and whitelist are those of the store.  Rows come back in insertion order. *)
Theorem database_refines_store ops :
  valid_ops ops Store_new →
  fst (run_db ops Tables_new) = fst (run_store ops Store_new) ∧
  let t := snd (run_db ops Tables_new) in
  let s := snd (run_store ops Store_new) in
  (∀ h, st_txs s !! h = None → db_find_transaction (λ _ l, l) t h = Ok None) ∧
  (∀ h tx, st_txs s !! h = Some tx →
     db_find_transaction (λ _ l, l) t h = Ok (Some (set_payload tx (found_payload s (payload tx)))) ∧
     (payload_kept s (payload tx) → db_find_transaction (λ _ l, l) t h = Ok (Some tx))) ∧
  (∃ l, get_unexecuted_transactions (λ _ l, l) t = Ok l ∧
     ∀ tx, tx ∈ l ↔ executed tx = false ∧ ∃ h, store_find s h = Some tx) ∧
  (∀ h, db_find_program t h = Ok (read_program <$> st_programs s !! h)) ∧
  (∀ k, acl_whitelist_has t k = bool_decide (k ∈ st_acl s)).
Proof.
  intros Hv. destruct (refines_run ops _ _ refines_new Hv) as [Hoks Hr]. split; [done|]. cbv zeta.
  split_and!.
  - intros h Hh. rewrite (refines_find _ _ h Hr). unfold store_find. by rewrite Hh.
  - intros h tx Htx. rewrite (refines_find _ _ h Hr). unfold store_find. rewrite Htx. simpl.
    split; [done|]. intros Hk%payload_kept_found. by rewrite Hk, set_payload_id.
  - by apply refines_unexecuted.
  - intros h. apply get_program_refines, (rf_programs _ _ Hr).
  - intros k. unfold acl_whitelist_has. by rewrite (rf_acl _ _ Hr).
Qed.
End store.

(** ** Evaluation *)

Section store_witness.
#[local] Existing Instance secp_toy.

(** A proof before its transaction is refused; after the deployment and the run it is
    stored, and the run is marked executed.  The last run names a file twice: it is
    stored with the first one. *)
Definition db_twice : Transaction Validated :=
  db_tx "w" (Payload.Run (MkWorkflow [MkWorkflowStep (fill "b") []
    [ProgramData.Output (fill "a") "f"; ProgramData.Input "f" "u" "c"; ProgramData.Input "f" "u2" "c2"]])).
Definition store_ops : list StoreOp :=
  [OpAdd db_proof; OpAdd db_deploy; OpAdd db_run; OpAdd db_proof; OpExecuted (fill "r");
   OpWhitelist (toy_key "k"); OpAdd db_twice].

Lemma database_refines_store_witness :
  fst (run_db store_ops Tables_new) = [false; true; true; true; true; true; true] ∧
  db_find_transaction (λ _ l, l) (snd (run_db store_ops Tables_new)) (fill "p") = Ok (Some db_proof) ∧
  db_find_transaction (λ _ l, l) (snd (run_db store_ops Tables_new)) (fill "w") =
    Ok (Some (set_payload db_twice (Payload.Run (MkWorkflow [MkWorkflowStep (fill "b") []
      [ProgramData.Input "f" "u" "c"; ProgramData.Output (fill "a") "f"]])))) ∧
  db_find_transaction (λ _ l, l) (snd (run_db store_ops Tables_new)) (fill "z") = Ok None.
Proof.
  assert (valid_ops store_ops Store_new) as Hv.
  { split; [split; [by_evaluation|exact I]|].
    split; [split; [by_evaluation|exact (conj I I)]|].
    split; [split; [by_evaluation|exact I]|].
    split; [split; [by_evaluation|exact I]|].
    split; [exact I|]. split; [exact I|].
    split; [split; [by_evaluation|exact I]|exact I]. }
  destruct (database_refines_store store_ops Hv) as (Hok & Hnone & Hfind & _).
  split; [rewrite Hok; by_evaluation|]. split_and!.
  - refine (proj2 (Hfind (fill "p") db_proof _) I). by_evaluation.
  - refine (eq_trans (proj1 (Hfind (fill "w") db_twice _)) _); [by_evaluation|]. do 3 f_equal.
  - apply Hnone. by_evaluation.
Defined.
End store_witness.
