(* ===== verification/Submission.v ===== *)
(** * A submission from end to end ([crates/cli/src/lib.rs], [rpc_client/mod.rs],
    [rpc_server/mod.rs], [mempool/mod.rs], [mempool/event.rs], [storage/database/postgres.rs])

    The path of one transaction: the command line tool sends it through the RPC client,
    the server's handler hands it to the event loop, which verifies, downloads, propagates,
    orders and stores it, and answers; the tool then reads it back by its hash.  The
    components are those of the other files; the database is seen through its abstract
    store ([StoreSpec]). *)

From S2P Require Import Prelude Types Models Files Transaction Event Mempool Workflow Resources Acl Database Progress Rpc Cli Client StoreSpec.

Section submission.
Context `{Hex, Secp, Sha3, NumBigint, Bincode, Lru, UrlParse, RpcLib}.
Context (acl : AclWhitelist) (download : AssetFile → result string ()) (now : Z).

(** ** What the node does with the message *)

(** The handler sends the message; the loop receives it, its task runs, its result is
    handled. *)
Definition submit (id : CallbackId) (tx : Transaction Created) (el : EventLoop Tables)
    : option (EventLoop Tables) :=
  let ch := snd (rpc_send_tx id tx (MkChannel (el_channel el) true)) in
  el1 ← on_receive (MkEventLoop (ch_queue ch) (el_futures el) (el_deps el) (el_p2p el)
          (el_mempool el) (el_replies el) (el_stalled el));
  el2 ← on_task acl download true (length (el_futures el)) el1;
  on_finished (database_storage (λ _ l, l)) now (length (el_futures el)) el2.

Definition reply_to (id : CallbackId) (el : EventLoop Tables) : Reply :=
  default Dropped (snd <$> last (filter (λ r, fst r = id) (el_replies el))).

(** The client as it meets the node in state [el']: the answer of the loop reaches the
    handler through its callback, the other requests read the database. *)
Definition node_client (id : CallbackId) (host : SocketAddr) (el' : EventLoop Tables) : HttpClient :=
  rpc_server
    (λ tx, map_err (λ _, "") (fst (send_transaction_logic (Ok tx) id (reply_to id el') (MkChannel [] true))))
    (λ h, map_err (λ _, "") (get_transaction_logic (λ _ l, l) (Ok h) host (storage (el_mempool el'))))
    (λ h, map_err (λ _, "") (get_tx_tree_logic (λ _ l, l) 3 (Ok h) (storage (el_mempool el')))).

(** What the tool's [send_transaction] returns. *)
Definition cli_result (id : CallbackId) (host : SocketAddr) (tx : Transaction Created)
    (el' : EventLoop Tables) : result string Hash :=
  let client := node_client id host el' in
  send_transaction (client_send_transaction client)
    (λ h, rt_hash <$> client_get_transaction client h) tx.

(** ** The verdict, from the abstract store and the caches *)

Inductive Verdict := Rejected | Parked | Refused | Stored.
Global Instance Verdict_eq_dec : EqDecision Verdict.
Proof. solve_decision. Defined.

(** Valid, from a whitelisted author, and every asset can be downloaded. *)
Definition passes (tx : Transaction Received.t) : bool :=
  match (d ← verify_tx (ReceivedTx_of_tx tx) acl; downlod_tx_assets d download) with
  | Ok _ => true
  | _ => false
  end.

(** Its programs and its parent are known to the caches or stored. *)
Definition ready (s : Store) (deps : DepState) (tx : Transaction Received.t) : bool :=
  match missing_program (knows (st_programs s)) (programid_cache deps)
          (get_run_programs_dep (payload tx)),
        missing_parent (store_find s) (parent_cache deps) (get_parent_tx (payload tx)) with
  | None, None => true
  | _, _ => false
  end.

Definition verdict (s : Store) (deps : DepState) (tx : Transaction Received.t) : Verdict :=
  if passes tx then
    if ready s deps tx then (if accepts s (into_validated tx) then Stored else Refused)
    else Parked
  else Rejected.

(** Nothing waits for the transaction or its programs. *)
Definition nothing_waits (deps : DepState) (tx : Transaction Received.t) : Prop :=
  waiting_tx (parent_cache deps) !! hash tx = None ∧
  ∀ p, p ∈ get_deploy_programs (payload tx) → waiting_tx (programid_cache deps) !! p = None.

(** ** The dependency stage *)

Lemma refines_answers t s :
  refines t s → storage_answers (database_validate (λ _ l, l) t) (knows (st_programs s)) (store_find s).
Proof.
  intros Hr. split.
  - intros p. simpl. rewrite (get_program_refines t (st_programs s)) by apply (rf_programs _ _ Hr).
    simpl. f_equal. apply bool_decide_ext. apply fmap_is_Some.
  - intros h. by apply refines_find.
Qed.

Lemma remove_nothing {Kind} h (c : TxCache Kind) :
  waiting_tx c !! h = None → remove_waiting_children_txs h c = (Ok [], c).
Proof. intros Hn. unfold remove_waiting_children_txs. by rewrite Hn. Qed.

Lemma deploy_alone l (c : TxCache Program) :
  (∀ p, p ∈ l → waiting_tx c !! p = None) →
  flat_mapM (E:=EventProcessError.t)
    (λ prg, _ ← modify (add_cached_tx prg); remove_waiting_children_txs prg) l c =
  (Ok [], fold_left (λ c p, add_cached_tx p c) l c).
Proof.
  revert c. induction l as [|p l IH]; intros c Hl; [done|]. cbn [flat_mapM fold_left].
  unfold mbind, M_bind, modify. rewrite remove_nothing by (apply Hl; by left).
  unfold mbind, M_bind, modify in IH. rewrite IH; [done|]. intros q Hq. apply Hl. by right.
Qed.

Lemma manage_deploy_alone ev st c :
  get_run_programs_dep (payload (ev_tx ev)) = [] →
  (∀ p, p ∈ get_deploy_programs (payload (ev_tx ev)) → waiting_tx c !! p = None) →
  ∃ c', manage_program_dep now ev st c = (Ok [ev], c').
Proof.
  intros Hrun Hl. unfold manage_program_dep. rewrite Hrun. eexists.
  unfold mbind at 1, M_bind at 1. simpl. unfold mbind at 1, M_bind at 1.
  rewrite deploy_alone by done. done.
Qed.

Lemma manage_parent_alone ev st deps :
  get_parent_tx (payload (ev_tx ev)) = None → is_run_payload (payload (ev_tx ev)) = false →
  waiting_tx (parent_cache deps) !! hash (ev_tx ev) = None →
  ∃ deps', manage_parent_dep now ev st deps = (Ok [ev], deps').
Proof.
  intros Hpar Hrun Hn. unfold manage_parent_dep, on_parent, mbind, M_bind. rewrite Hpar. simpl.
  rewrite remove_nothing by done. simpl. unfold mbind, M_bind. rewrite Hrun. simpl. eauto.
Qed.

(** A transaction on its own: it goes on when nothing is missing, else it is parked. *)
Lemma validate_alone ev t s deps :
  refines t s → parent_wf (λ _, True) (parent_cache deps) → nothing_waits deps (ev_tx ev) →
  ∃ deps', validate_tx_dep now ev (database_validate (λ _ l, l) t) deps =
    (Ok (if ready s deps (ev_tx ev) then [NewTx_of_wait ev] else []), deps').
Proof.
  unfold ready. intros Hr Hwf [Hn Hp]. assert (Hst := refines_answers t s Hr).
  destruct (decide (get_deploy_programs (payload (ev_tx ev)) = [])) as [Hd|Hd].
  - rewrite (validate_tx_dep_run _ _ _ _ Hst) by done.
    destruct (missing_program _ _ _); [eauto|]. destruct (missing_parent _ _ _); [eauto|].
    unfold children. rewrite Hn. eauto.
  - destruct (payload (ev_tx ev)) as [| | | |name pv vf| | | | |] eqn:Hk; try done. simpl in Hp.
    destruct (manage_deploy_alone ev (database_validate (λ _ l, l) t) (programid_cache deps)) as [c Hc];
      [by rewrite Hk|by rewrite Hk|].
    destruct (manage_parent_alone ev (database_validate (λ _ l, l) t)
      (MkDepState c (parent_cache deps))) as [d Hd']; [by rewrite Hk|by rewrite Hk|done|].
    unfold validate_tx_dep, on_program, mbind, M_bind. rewrite Hc. cbn [flat_mapM].
    unfold mbind, M_bind. rewrite Hd'. simpl. eauto.
Qed.

(** ** One pass through the loop *)

Lemma process_received_rpc tx sent :
  state tx = Received.RPC →
  if passes tx
  then ∃ w, ev_tx w = tx ∧
         process_received acl download true tx sent = (Ok w, sent ++ [into_validated tx])
  else ∃ r, is_ok r = false ∧ process_received acl download true tx sent = (r, sent).
Proof.
  intros Hst. unfold passes, process_received, mbind, M_bind, lift, result_bind.
  destruct (verify_tx _ acl) as [d|e|] eqn:Hv; [|by eexists; split; [|reflexivity]..].
  apply verify_tx_Ok in Hv as (Hd & _ & _). simpl in Hd.
  destruct (downlod_tx_assets d download) as [[w p]|e|] eqn:Hdl; [|by eexists; split; [|reflexivity]..].
  apply result_bind_Ok in Hdl as (? & _ & (? & _ & [= <- <-])%result_bind_Ok).
  exists (WaitTx_of_download d). split; [done|]. unfold PropagateTx_of_download. rewrite Hd, Hst. simpl.
  unfold propagate_tx, modify. simpl. done.
Qed.

Lemma insert_last {A} (l : list A) x y : <[length l := x]> (l ++ [y]) = l ++ [x].
Proof. induction l as [|z l IH]; [done|]. simpl. by rewrite <-IH. Qed.

(** The answer, and what the loop has changed. *)
Definition answered (id : CallbackId) (v : Verdict) (l l' : list (CallbackId * Reply)) : Prop :=
  ∃ r, l' = l ++ [(id, r)] ∧ is_ok (callback_result r) = bool_decide (v = Stored ∨ v = Parked).

(** A transaction that passed, at the end of its task. *)
Lemma finish_spec id rtx w el s :
  let vtx := into_validated rtx in
  let v := if ready s (el_deps el) rtx then (if accepts s vtx then Stored else Refused) else Parked in
  ev_tx w = rtx → refines (storage (el_mempool el)) s →
  parent_wf (λ _, True) (parent_cache (el_deps el)) → nothing_waits (el_deps el) rtx →
  valid_op s (OpAdd vtx) →
  ∃ el', on_finished (database_storage (λ _ l, l)) now (length (el_futures el))
      (MkEventLoop (el_channel el) (el_futures el ++ [(Done (Ok w), Some id)]) (el_deps el) (el_p2p el)
         (el_mempool el) (el_replies el) false) = Some el' ∧
    answered id v (el_replies el) (el_replies el') ∧
    el_channel el' = el_channel el ∧ el_futures el' = el_futures el ∧ el_p2p el' = el_p2p el ∧
    deque (el_mempool el') = deque (el_mempool el) ++ (if decide (v = Stored) then [vtx] else []) ∧
    refines (storage (el_mempool el')) (if decide (v = Stored) then store_add vtx s else s).
Proof.
  intros vtx v Hw Hr Hwf Hn Hv. rewrite <-Hw in Hn.
  destruct (validate_alone w _ s (el_deps el) Hr Hwf Hn) as [deps Hval]. rewrite Hw in Hval.
  unfold on_finished. cbn [el_futures el_mempool el_deps el_channel el_p2p el_replies el_stalled].
  rewrite list_lookup_middle, delete_middle, app_nil_r by done.
  cbn [database_storage storage_view]. rewrite Hval. fold vtx in v. unfold v. clear v Hval.
  destruct (ready s (el_deps el) rtx).
  2:{ eexists; split; [reflexivity|]; cbn; rewrite app_nil_r; split_and!; try done; by eexists. }
  destruct (refines_add _ s vtx Hr Hv) as [Hok Hs]. cbn [save_txs]. unfold save_tx, send_new_tx, add.
  cbn [NewTx_of_wait ev_tx]. rewrite Hw. fold vtx. cbn [storage_set database_storage].
  simpl in Hs. assert (Hcalm := calm_add_transaction vtx (storage (el_mempool el))).
  destruct (add_transaction vtx (storage (el_mempool el))) as [r t'].
  simpl in Hok, Hs. rewrite <-Hok in Hs |- *. destruct r as [[]|e|]; cbn in *; [..|done].
  all: eexists; split; [reflexivity|]; cbn; rewrite ?app_nil_r; split_and!; try done; by eexists.
Qed.

Lemma submit_spec id tx el s :
  let rtx := into_received tx Received.RPC in
  let vtx := into_validated rtx in
  let v := verdict s (el_deps el) rtx in
  el_channel el = [] → refines (storage (el_mempool el)) s →
  parent_wf (λ _, True) (parent_cache (el_deps el)) → nothing_waits (el_deps el) rtx →
  valid_op s (OpAdd vtx) →
  ∃ el', submit id tx el = Some el' ∧ answered id v (el_replies el) (el_replies el') ∧
    el_channel el' = [] ∧ el_futures el' = el_futures el ∧
    el_p2p el' = el_p2p el ++ (if decide (v = Rejected) then [] else [vtx]) ∧
    deque (el_mempool el') = deque (el_mempool el) ++ (if decide (v = Stored) then [vtx] else []) ∧
    refines (storage (el_mempool el')) (if decide (v = Stored) then store_add vtx s else s).
Proof.
  intros rtx vtx v Hch Hr Hwf Hn Hv. unfold submit, rpc_send_tx. rewrite Hch. fold rtx.
  assert (Hproc := process_received_rpc rtx (el_p2p el) eq_refl). unfold v, verdict. clearbody rtx.
  simpl. unfold on_task. simpl. rewrite list_lookup_middle by done.
  destruct (passes rtx).
  - destruct Hproc as (w & Hw & ->). simpl. rewrite insert_last.
    destruct (finish_spec id rtx w (MkEventLoop [] (el_futures el) (el_deps el)
      (el_p2p el ++ [vtx]) (el_mempool el) (el_replies el) false) s) as (el' & Hfin & Ha & E1 & E2 & E3 & E4 & E5);
      [done..|]. cbn [el_futures el_mempool el_deps el_channel el_p2p el_replies] in Hfin.
    fold vtx. rewrite Hfin. exists el'. split_and!; try done. rewrite E3. simpl. rewrite decide_False; [done|].
    by destruct (ready s (el_deps el) rtx), (accepts s vtx).
  - destruct Hproc as (r & Hrok & ->). simpl. rewrite insert_last. unfold on_finished. simpl.
    rewrite list_lookup_middle, delete_middle, app_nil_r by done.
    destruct r as [w|e|]; [done|..]; eexists; (split; [reflexivity|]); simpl;
      rewrite !app_nil_r; split_and!; try done; by eexists.
Qed.

(** ** What the command line tool sees *)

(** C12: One submission, end to end.  The tool sends a transaction whose hash the store
    does not hold, and whose program limits are [u64], to a node that has no message in
    its channel and nothing parked that waits for this transaction or its programs, and
    reads it back.  A transaction that fails verification, the
    whitelist or a download, and one the database refuses, is an error of the send call
    and leaves the queue and the store alone; one that lacks a program or its parent is
    accepted but cannot be read back, so the tool reports an error for a transaction the
    node holds and may still execute; any other is queued, stored, and read back, and
    the tool returns its hash.  All but rejected ones are propagated. *)
Theorem submission_spec id host tx el s :
  let rtx := into_received tx Received.RPC in
  let vtx := into_validated rtx in
  let v := verdict s (el_deps el) rtx in
  el_channel el = [] → refines (storage (el_mempool el)) s →
  parent_wf (λ _, True) (parent_cache (el_deps el)) → nothing_waits (el_deps el) rtx →
  valid_op s (OpAdd vtx) →
  ∃ el', submit id tx el = Some el' ∧
    cli_result id host tx el' =
      match v with
      | Stored => Ok (hash tx)
      | Parked => Err ("Error during send  get_transaction from the node:" +:+
                       ("RPC response error:" +:+ ("not found: " +:+ Hash_to_string (hash tx))))
      | Rejected | Refused =>
          Err ("Error during send  transaction to the node:" +:+
               ("invalid request: " +:+ "failed to persist transaction"))
      end ∧
    el_p2p el' = el_p2p el ++ (if decide (v = Rejected) then [] else [vtx]) ∧
    deque (el_mempool el') = deque (el_mempool el) ++ (if decide (v = Stored) then [vtx] else []) ∧
    refines (storage (el_mempool el')) (if decide (v = Stored) then store_add vtx s else s).
Proof.
  intros rtx vtx v Hch Hr Hwf Hn Hv.
  destruct (submit_spec id tx el s Hch Hr Hwf Hn Hv)
    as (el' & Hsub & (r & Hrep & Hok) & _ & _ & E3 & E4 & E5).
  exists el'. split_and!; [done| |done..]. fold rtx vtx in Hok, E5. fold v in Hok, E5.
  unfold cli_result, send_transaction, client_send_transaction, client_get_transaction.
  cbn [node_client rpc_server request_send request_tx].
  assert (reply_to id el' = r) as ->.
  { unfold reply_to. rewrite Hrep, filter_app, filter_cons_True, filter_nil by done. by rewrite last_snoc. }
  assert (Hfind := refines_find _ _ (hash tx) E5).
  unfold get_transaction_logic. rewrite Hfind.
  unfold send_transaction_logic, attempt. simpl.
  destruct (callback_result r) as [[]|e|]; destruct v; simpl in *; try done.
  - unfold store_find. destruct Hv as [Hfresh _]. cbn in Hfresh. by rewrite Hfresh.
  - unfold store_find. simpl. rewrite lookup_insert_eq. simpl. by rewrite bool_decide_eq_true_2.
Qed.
End submission.

(** ** Evaluation: a run on a node with and without its programs *)

Section submission_witness.
#[local] Existing Instances hex_crate secp_toy secp_toy_laws sha3_toy bigint_toy bincode_toy lru_list url_toy.
#[local] Instance rpc_toy : RpcLib := {|
  SocketAddr := string;
  base64_encode _ := "";
  make_url scheme host path := scheme +:+ host +:+ path
|}.

Definition sub_deploy : Transaction Validated :=
  db_tx "d" (Payload.Deploy "d" (db_metadata "p") (db_metadata "v")).
Definition sub_store : Store := store_add sub_deploy Store_new.
Definition sub_tables : Tables := snd (add_transaction sub_deploy Tables_new).

Lemma sub_refines : refines sub_tables sub_store.
Proof. apply (refines_add Tables_new Store_new sub_deploy refines_new). split; [by_evaluation|exact (conj I I)]. Qed.

Definition sub_host : SocketAddr := "h".
Definition sub_client (t : Tables) : result string Hash :=
  match submit AlwaysGrantAclWhitelist (λ _, Ok ()) 0 0 demo_tx (EventLoop_new t) with
  | Some el => cli_result 0 sub_host demo_tx el
  | None => Panic
  end.

Definition sub_verdict (t : Tables) (s : Store) : Verdict :=
  verdict AlwaysGrantAclWhitelist (λ _, Ok ()) s (el_deps (EventLoop_new t))
    (into_received demo_tx Received.RPC).

Lemma submission_spec_witness :
  sub_client sub_tables = Ok (hash demo_tx) ∧ is_ok (sub_client Tables_new) = false.
Proof.
  assert (∀ t : Tables, parent_wf (λ _, True) (parent_cache (el_deps (EventLoop_new t)))) as Hwf
    by (intros t p e u; simpl; by rewrite lookup_empty).
  assert (∀ t : Tables, nothing_waits (el_deps (EventLoop_new t)) (into_received demo_tx Received.RPC)) as Hn
    by (intros t; split; [done|intros p _; apply lookup_empty]).
  assert (sub_verdict sub_tables sub_store = Stored) as V1 by by_evaluation.
  assert (sub_verdict Tables_new Store_new = Parked) as V2 by by_evaluation.
  unfold sub_client. split.
  - destruct (submission_spec AlwaysGrantAclWhitelist (λ _, Ok ()) 0 0 sub_host demo_tx
      (EventLoop_new sub_tables) sub_store eq_refl sub_refines (Hwf _) (Hn _)) as (el' & -> & -> & _).
    { split; [by_evaluation|exact I]. }
    unfold sub_verdict in V1. by rewrite V1.
  - destruct (submission_spec AlwaysGrantAclWhitelist (λ _, Ok ()) 0 0 sub_host demo_tx
      (EventLoop_new Tables_new) Store_new eq_refl refines_new (Hwf _) (Hn _)) as (el' & -> & -> & _).
    { split; [by_evaluation|exact I]. }
    unfold sub_verdict in V2. by rewrite V2.
Defined.
End submission_witness.
