(* ===== verification/Metrics.v ===== *)
(** * Metrics ([crates/node/src/metrics/mod.rs], [scheduler/resource_manager.rs],
    [rpc_server/mod.rs])

    The collectors of the node as a record, their registration, their export, and the
    operations that set them: the resource manager's gauges and the timing of RPC calls.
    The registry, the text encoder and the compressor of the [prometheus] and [zstd]
    crates are a class. *)

From S2P Require Import Prelude Types Models Files Transaction Event Mempool Workflow Resources Acl Database Rpc.

(** ** The collectors *)

(** A gauge is an [i64], a counter a [u64], a histogram the list of its observations,
    each with the values of its labels; what is observed is a duration in [D]. *)
Record Metrics (D : Type) := MkMetrics {
  RPC_INCOMING_REQUESTS : Z;
  RPC_RESPONSE_TIME_COLLECTOR : list (list string * D);
  P2P_PROTOCOL_VERSION : Z;
  P2P_CONNECTED_PEERS : Z;
  P2P_INCOMING_MESSAGES : Z;
  TX_EXECUTION_TIME_COLLECTOR : list (list string * D);
  TX_SCHEDULING_REQUEUED : Z;
  CPUS_AVAILABLE : Z;
  MEM_AVAILABLE : Z;
  GPUS_AVAILABLE : Z;
  CPUS_TOTAL : Z;
  MEM_TOTAL : Z;
  GPUS_TOTAL : Z
}.
Arguments MkMetrics {D} _ _ _ _ _ _ _ _ _ _ _ _ _.
Arguments RPC_INCOMING_REQUESTS {D} _.
Arguments RPC_RESPONSE_TIME_COLLECTOR {D} _.
Arguments P2P_PROTOCOL_VERSION {D} _.
Arguments P2P_CONNECTED_PEERS {D} _.
Arguments P2P_INCOMING_MESSAGES {D} _.
Arguments TX_EXECUTION_TIME_COLLECTOR {D} _.
Arguments TX_SCHEDULING_REQUEUED {D} _.
Arguments CPUS_AVAILABLE {D} _.
Arguments MEM_AVAILABLE {D} _.
Arguments GPUS_AVAILABLE {D} _.
Arguments CPUS_TOTAL {D} _.
Arguments MEM_TOTAL {D} _.
Arguments GPUS_TOTAL {D} _.

(** The [lazy_static] values: collectors start empty. *)
Definition Metrics_new {D} : Metrics D := MkMetrics 0 [] 0 0 0 [] 0 0 0 0 0 0 0.

(** The names, in the order of [register_metrics]. *)
Definition metric_names : list string :=
  ["rpc_incoming_requests"; "rpc_response_time"; "p2p_protocol_version"; "p2p_connected_peers";
   "p2p_incoming_messages"; "tx_execution_time"; "tx_scheduling_requeued";
   "gevulot_cpus_available"; "gevulot_mem_available"; "gevulot_gpus_available";
   "gevulot_cpus_total"; "gevulot_mem_total"; "gevulot_gpus_total"].

Definition set_available {D} (cpus mem gpus : Z) (m : Metrics D) : Metrics D :=
  MkMetrics (RPC_INCOMING_REQUESTS m) (RPC_RESPONSE_TIME_COLLECTOR m) (P2P_PROTOCOL_VERSION m)
    (P2P_CONNECTED_PEERS m) (P2P_INCOMING_MESSAGES m) (TX_EXECUTION_TIME_COLLECTOR m)
    (TX_SCHEDULING_REQUEUED m) cpus mem gpus (CPUS_TOTAL m) (MEM_TOTAL m) (GPUS_TOTAL m).
Definition set_total {D} (cpus mem gpus : Z) (m : Metrics D) : Metrics D :=
  MkMetrics (RPC_INCOMING_REQUESTS m) (RPC_RESPONSE_TIME_COLLECTOR m) (P2P_PROTOCOL_VERSION m)
    (P2P_CONNECTED_PEERS m) (P2P_INCOMING_MESSAGES m) (TX_EXECUTION_TIME_COLLECTOR m)
    (TX_SCHEDULING_REQUEUED m) (CPUS_AVAILABLE m) (MEM_AVAILABLE m) (GPUS_AVAILABLE m) cpus mem gpus.
Definition observe_rpc {D} (methd : string) (elapsed : D) (m : Metrics D) : Metrics D :=
  MkMetrics (RPC_INCOMING_REQUESTS m) (RPC_RESPONSE_TIME_COLLECTOR m ++ [([methd], elapsed)])
    (P2P_PROTOCOL_VERSION m) (P2P_CONNECTED_PEERS m) (P2P_INCOMING_MESSAGES m)
    (TX_EXECUTION_TIME_COLLECTOR m) (TX_SCHEDULING_REQUEUED m) (CPUS_AVAILABLE m) (MEM_AVAILABLE m)
    (GPUS_AVAILABLE m) (CPUS_TOTAL m) (MEM_TOTAL m) (GPUS_TOTAL m).
Definition inc_rpc_requests {D} (m : Metrics D) : Metrics D :=
  MkMetrics (u64_wrap (RPC_INCOMING_REQUESTS m + 1)) (RPC_RESPONSE_TIME_COLLECTOR m)
    (P2P_PROTOCOL_VERSION m) (P2P_CONNECTED_PEERS m) (P2P_INCOMING_MESSAGES m)
    (TX_EXECUTION_TIME_COLLECTOR m) (TX_SCHEDULING_REQUEUED m) (CPUS_AVAILABLE m) (MEM_AVAILABLE m)
    (GPUS_AVAILABLE m) (CPUS_TOTAL m) (MEM_TOTAL m) (GPUS_TOTAL m).

(** ** The registry *)

(** [Registry] of the [prometheus] crate: a name can be registered once. *)
Class Prometheus := {
  Registry : Type;
  Family : Type;
  registered : Registry → gset string;
  reg_register : string → Registry → result string Registry;
  reg_gather : Registry → list Family;
  text_encode : list Family → result string (list u8);
  zstd_compress : list u8 → result string (list u8)
}.
Class PrometheusLaws `{Prometheus} : Prop := {
  register_new n r : (n ∉ registered r) →
    ∃ r', reg_register n r = Ok r' ∧ registered r' = {[n]} ∪ registered r;
  register_again n r : n ∈ registered r → ∃ e, reg_register n r = Err e
}.

Section registry.
Context `{Prometheus}.

Fixpoint register_all (names : list string) (r : Registry) : result () Registry :=
  match names with
  | [] => Ok r
  | n :: names =>
      match reg_register n r with Ok r' => register_all names r' | _ => Panic end
  end.
Definition register_metrics (r : Registry) : result () Registry := register_all metric_names r.

Definition export_metrics (r : Registry) : result () (list u8) :=
  match text_encode (reg_gather r) with
  | Ok text => match zstd_compress text with Ok buf => Ok buf | _ => Panic end
  | _ => Panic
  end.

Context `{!PrometheusLaws}.

Lemma register_all_spec names r :
  NoDup names →
  if decide (Forall (λ n, n ∉ registered r) names)
  then ∃ r', register_all names r = Ok r' ∧ registered r' = registered r ∪ list_to_set names
  else register_all names r = Panic.
Proof.
  intros Hd. revert r. induction Hd as [|n names Hn Hd IH]; intros r.
  { rewrite decide_True by constructor. exists r. split; [done|]. set_solver. }
  simpl. destruct (decide (n ∈ registered r)) as [Hin|Hnin].
  - rewrite decide_False by (rewrite Forall_cons; naive_solver).
    by destruct (register_again n r Hin) as [e ->].
  - destruct (register_new n r Hnin) as (r1 & -> & Hr1). specialize (IH r1).
    destruct (decide (Forall _ names)) as [Ha|Ha].
    + rewrite decide_True.
      * destruct IH as (r' & -> & Hr'). exists r'. split; [done|]. rewrite Hr', Hr1. set_solver.
      * constructor; [done|]. eapply Forall_impl; [exact Ha|]. intros x. rewrite Hr1. set_solver.
    + rewrite decide_False; [done|]. rewrite Forall_cons. intros [_ Hall]. apply Ha.
      apply Forall_forall. intros x Hx. rewrite Forall_forall in Hall. specialize (Hall x Hx).
      rewrite Hr1. set_solver.
Qed.

(** The metrics are registered once in the life of the process: on a registry that has
    none of their names registration succeeds and adds exactly them, and a second call
    panics. *)
Lemma register_metrics_once r :
  Forall (λ n, n ∉ registered r) metric_names →
  ∃ r', register_metrics r = Ok r' ∧ registered r' = registered r ∪ list_to_set metric_names ∧
    register_metrics r' = Panic.
Proof.
  intros Hr. assert (NoDup metric_names) as Hd by by_evaluation.
  assert (H1 := register_all_spec metric_names r Hd). rewrite decide_True in H1 by done.
  destruct H1 as (r' & H1 & Hr'). exists r'. split_and!; [done|done|].
  assert (H2 := register_all_spec metric_names r' Hd). rewrite decide_False in H2; [done|].
  intros Hall%Forall_cons. destruct Hall as [Hno _]. apply Hno. rewrite Hr'. set_solver.
Qed.
End registry.

(** ** The gauges of the resource manager *)

Section gauges.
Context {D : Type}.

(** [metrics::..set(..)] inside the operations of [ResourceManager]. *)
Definition publish_available (rm : ResourceManager) : Metrics D → Metrics D :=
  set_available (as_i64 (available_cpus rm)) (as_i64 (available_mem rm)) (as_i64 (available_gpus rm)).
Definition ResourceManager_new_metered (total_mem total_cpus total_gpus : Z) (m : Metrics D)
    : ResourceManager * Metrics D :=
  (ResourceManager_new total_mem total_cpus total_gpus,
   set_total (as_i64 total_cpus) (as_i64 total_mem) (as_i64 total_gpus) m).
Definition try_allocate_metered (request : ResourceRequest)
    : M (ResourceManager * Metrics D) ResourceError ResourceAllocation := λ '(rm, m),
  match try_allocate request rm with
  | (Ok a, rm') => (Ok a, (rm', publish_available rm' m))
  | (r, rm') => (r, (rm', m))
  end.
Definition free_metered (a : ResourceAllocation) : ResourceManager * Metrics D → ResourceManager * Metrics D :=
  λ '(rm, m), let rm' := free a rm in (rm', publish_available rm' m).

(** ** RPC calls *)

(** The middleware counts a request; the time of a handler that returns is observed. *)
Definition timed {E A} (methd : string) (elapsed : D) (r : result E A) (m : Metrics D) : Metrics D :=
  match r with Panic => m | _ => observe_rpc methd elapsed m end.

Section rpc.
Context `{Hex, Secp, Sha3, NumBigint, Bincode, Lru, UrlParse, RpcLib}.
Context (scan : ∀ A : Type, list A → list A).

Definition rpc_send_transaction (elapsed : D) (params : result string (Transaction Created))
    (id : CallbackId) (answer : Reply)
    : M (Channel * Metrics D) () (RpcResponse ()) := λ '(ch, m),
  let '(response, ch) := send_transaction_logic params id answer ch in
  (response, (ch, timed "sendTransaction" elapsed response m)).
Definition rpc_get_transaction (elapsed : D) (params : result string Hash) (host : SocketAddr)
    (t : Tables) : M (Metrics D) () (RpcResponse RpcTransaction) := λ m,
  let response := get_transaction_logic scan params host t in
  (response, timed "getTransaction" elapsed response m).
Definition rpc_get_tx_tree (elapsed : D) (fuel : nat) (params : result string Hash) (t : Tables)
    : M (Metrics D) Unfinished (RpcResponse TransactionTree) := λ m,
  let response := get_tx_tree_logic scan fuel params t in
  (response, timed "getTxTree" elapsed response m).
End rpc.

(** ** The gauges show the manager *)

Inductive RmOp := RmAllocate (request : ResourceRequest) | RmFree (a : ResourceAllocation).

Definition rm_step (op : RmOp) (rm : ResourceManager) : bool * ResourceManager :=
  match op with
  | RmAllocate request => let '(r, rm') := try_allocate request rm in (is_ok r, rm')
  | RmFree a => (true, free a rm)
  end.
Definition metered_step (op : RmOp) (s : ResourceManager * Metrics D) : ResourceManager * Metrics D :=
  match op with
  | RmAllocate request => snd (try_allocate_metered request s)
  | RmFree a => free_metered a s
  end.

(** The unmetered run, and whether something was allocated or freed. *)
Fixpoint rm_steps (ops : list RmOp) (rm : ResourceManager) : bool * ResourceManager :=
  match ops with
  | [] => (false, rm)
  | op :: ops =>
      let '(b, rm1) := rm_step op rm in let '(c, rm2) := rm_steps ops rm1 in (b || c, rm2)
  end.

Lemma metered_step_spec op rm m :
  metered_step op (rm, m) =
    (let '(b, rm') := rm_step op rm in (rm', if b then publish_available rm' m else m)).
Proof.
  destruct op as [request|a]; [|done]. simpl. destruct (try_allocate request rm) as [[a|e|] rm']; done.
Qed.

Lemma rm_step_failed op rm rm' : rm_step op rm = (false, rm') → rm' = rm.
Proof.
  destruct op as [request|a]; [|done]. simpl. unfold try_allocate.
  repeat (destruct (_ <? _)%Z; [by intros [= <-]|]). done.
Qed.
Lemma rm_steps_failed ops rm rm' : rm_steps ops rm = (false, rm') → rm' = rm.
Proof.
  revert rm. induction ops as [|op ops IH]; intros rm; [by intros [= <-]|]. cbn [rm_steps].
  destruct (rm_step op rm) as [b rm1] eqn:H1, (rm_steps ops rm1) as [c rm2] eqn:H2.
  intros [= Hbc <-]. apply orb_false_iff in Hbc as [-> ->].
  apply IH in H2 as ->. by apply rm_step_failed in H1.
Qed.

Lemma metered_steps_spec ops rm m :
  foldl (λ s op, metered_step op s) (rm, m) ops =
    (let '(b, rm') := rm_steps ops rm in (rm', if b then publish_available rm' m else m)).
Proof.
  revert rm m. induction ops as [|op ops IH]; intros rm m; [done|]. cbn [foldl rm_steps].
  rewrite metered_step_spec. destruct (rm_step op rm) as [b rm1] eqn:H1. rewrite IH.
  destruct (rm_steps ops rm1) as [c rm2] eqn:H2. destruct b, c; try done.
  apply rm_steps_failed in H2 as ->. done.
Qed.

(** The gauges follow the resource manager.  Through any sequence of allocations,
    failed allocations and releases, the manager behaves as without metrics; the totals
    stay what the node was started with; and from the first allocation on, the gauges of
    what is available are the manager's counters (as [i64]).  Before it, they are still
    the zeros they were created with: an idle node reports that nothing is available. *)
Theorem gauges_follow_manager ops mem cpus gpus :
  let '(rm, m) := foldl (λ s op, metered_step op s)
                    (ResourceManager_new_metered mem cpus gpus Metrics_new) ops in
  let '(active, rm') := rm_steps ops (ResourceManager_new mem cpus gpus) in
  rm = rm' ∧
  CPUS_TOTAL m = as_i64 cpus ∧ MEM_TOTAL m = as_i64 mem ∧ GPUS_TOTAL m = as_i64 gpus ∧
  (CPUS_AVAILABLE m, MEM_AVAILABLE m, GPUS_AVAILABLE m) =
    (if active then (as_i64 (available_cpus rm), as_i64 (available_mem rm), as_i64 (available_gpus rm))
     else (0, 0, 0)%Z).
Proof.
  unfold ResourceManager_new_metered. rewrite metered_steps_spec.
  by destruct (rm_steps ops _) as [[] rm'].
Qed.
End gauges.

(** ** A registry *)

Section registry_example.
#[local] Instance prometheus_set : Prometheus := {|
  Registry := gset string;
  Family := string;
  registered r := r;
  reg_register n r := if decide (n ∈ r) then Err "Duplicate metrics collector" else Ok ({[n]} ∪ r);
  reg_gather r := elements r;
  text_encode _ := Ok [];
  zstd_compress bs := Ok bs
|}.
#[local] Instance prometheus_set_laws : PrometheusLaws.
Proof.
  split; intros n r Hn; simpl.
  - rewrite decide_False by done. eauto.
  - rewrite decide_True by done. eauto.
Qed.

Example registration_once :
  ∃ r, register_metrics ∅ = Ok r ∧ register_metrics r = Panic.
Proof.
  destruct (register_metrics_once ∅) as (r & H1 & _ & H2); [|eauto].
  apply Forall_forall. intros n _. apply not_elem_of_empty.
Qed.
End registry_example.
