(* ===== verification/Counters.v ===== *)
(** * The counters of the peer-to-peer node and of the scheduler
    ([networking/p2p/pea2pea.rs], [scheduler/mod.rs])

    The operations of [P2P.v] and [Scheduler.v] with the statements that count: the
    same code beside the collectors of [Metrics.v].  Counting changes nothing, and what
    is counted is related to what happened. *)

From S2P Require Import Prelude Types Models Files Transaction Event Mempool Workflow Resources Watchdog Scheduler Acl Database Rpc Protocol P2P Metrics.

(** ** Operations beside the collectors *)

Section metered.
Context {S X E : Type}.

(** An operation that does not count. *)
Definition unmetered {A} (m : M S E A) : M (S * X) E A := λ '(s, x),
  let '(r, s') := m s in (r, (s', x)).
Definition meter (f : X → X) : M (S * X) E () := modify (λ '(s, x), (s, f x)).

(** [m] does to the state what [m'] does, and returns the same. *)
Definition erases {A} (m : M (S * X) E A) (m' : M S E A) : Prop :=
  ∀ s x, let '(r, (s', _)) := m (s, x) in m' s = (r, s').

Lemma erases_unmetered {A} (m : M S E A) : erases (unmetered m) m.
Proof. intros s x. unfold unmetered. by destruct (m s) as [r s']. Qed.
Lemma erases_bind {A B} (m : M (S * X) E A) m' (f : A → M (S * X) E B) f' :
  erases m m' → (∀ a, erases (f a) (f' a)) → erases (m ≫= f) (m' ≫= f').
Proof.
  intros Hm Hf s x. unfold mbind, M_bind. specialize (Hm s x).
  destruct (m (s, x)) as [[a|e|] [s1 x1]]; rewrite Hm; [apply Hf|done..].
Qed.
Lemma erases_ret {A} (a : A) : erases (mret a) (mret a).
Proof. by intros s x. Qed.
Lemma erases_meter_last {A} (m : M (S * X) E A) m' f :
  erases m m' → erases (_ ← meter f; m) m'.
Proof. intros Hm s x. apply (Hm s (f x)). Qed.

Lemma unmetered_run {A} (m : M S E A) s x r s' :
  m s = (r, s') → unmetered m (s, x) = (r, (s', x)).
Proof. intros Hm. unfold unmetered. by rewrite Hm. Qed.
End metered.

#[export] Hint Resolve erases_unmetered erases_bind erases_ret erases_meter_last : gevulot.

(** ** The collectors *)

Section collectors.
Context {T : Type}.
Abbreviation Metrics := (Metrics T).

Definition set_p2p (version peers messages : Z) (m : Metrics) : Metrics :=
  MkMetrics (RPC_INCOMING_REQUESTS m) (RPC_RESPONSE_TIME_COLLECTOR m) version peers messages
    (TX_EXECUTION_TIME_COLLECTOR m) (TX_SCHEDULING_REQUEUED m) (CPUS_AVAILABLE m) (MEM_AVAILABLE m)
    (GPUS_AVAILABLE m) (CPUS_TOTAL m) (MEM_TOTAL m) (GPUS_TOTAL m).
Definition set_tx (times : list (list string * T)) (requeued : Z) (m : Metrics) : Metrics :=
  MkMetrics (RPC_INCOMING_REQUESTS m) (RPC_RESPONSE_TIME_COLLECTOR m) (P2P_PROTOCOL_VERSION m)
    (P2P_CONNECTED_PEERS m) (P2P_INCOMING_MESSAGES m) times requeued (CPUS_AVAILABLE m)
    (MEM_AVAILABLE m) (GPUS_AVAILABLE m) (CPUS_TOTAL m) (MEM_TOTAL m) (GPUS_TOTAL m).

(** A gauge is an [i64] that wraps. *)
Definition i64_inc (z : Z) : Z := if (z =? 2 ^ 63 - 1)%Z then (- 2 ^ 63)%Z else (z + 1)%Z.
Definition inc_connected_peers (m : Metrics) : Metrics :=
  set_p2p (P2P_PROTOCOL_VERSION m) (i64_inc (P2P_CONNECTED_PEERS m)) (P2P_INCOMING_MESSAGES m) m.
Definition inc_incoming_messages (m : Metrics) : Metrics :=
  set_p2p (P2P_PROTOCOL_VERSION m) (P2P_CONNECTED_PEERS m) (u64_wrap (P2P_INCOMING_MESSAGES m + 1)) m.
Definition inc_requeued (m : Metrics) : Metrics :=
  set_tx (TX_EXECUTION_TIME_COLLECTOR m) (u64_wrap (TX_SCHEDULING_REQUEUED m + 1)) m.
Definition observe_execution (kind status : string) (elapsed : T) (m : Metrics) : Metrics :=
  set_tx (TX_EXECUTION_TIME_COLLECTOR m ++ [([kind; status], elapsed)]) (TX_SCHEDULING_REQUEUED m) m.

(** ** The peer-to-peer node *)

Section p2p.
Context (cfg : P2PConfig).

Definition P2P_new_metered (ports : gmap SocketAddr (option Z)) (m : Metrics) : P2P * Metrics :=
  (P2P_new ports, set_p2p PROTOCOL_VERSION (P2P_CONNECTED_PEERS m) (P2P_INCOMING_MESSAGES m) m).
Definition perform_handshake_metered (remote_peer : SocketAddr) (msg : Handshake) (s : P2P * Metrics)
    : P2P * Metrics :=
  (perform_handshake cfg remote_peer msg (fst s), inc_connected_peers (snd s)).

(** What happens to a node's lists and counters; a message is counted before it is read. *)
Inductive P2POp := OpHandshake (remote : SocketAddr) (msg : Handshake) | OpDisconnect (addr : SocketAddr) | OpMessage.
Definition p2p_op (op : P2POp) (s : P2P * Metrics) : P2P * Metrics :=
  match op with
  | OpHandshake remote msg => perform_handshake_metered remote msg s
  | OpDisconnect addr => (on_disconnect addr (fst s), snd s)
  | OpMessage => (fst s, inc_incoming_messages (snd s))
  end.
Definition is_handshake (op : P2POp) : bool := match op with OpHandshake _ _ => true | _ => false end.
Definition is_message (op : P2POp) : bool := match op with OpMessage => true | _ => false end.
Definition count (f : P2POp → bool) (ops : list P2POp) : Z := Z.of_nat (length (filter (λ op, f op = true) ops)).

Lemma count_cons f op ops : count f (op :: ops) = ((if f op then 1 else 0) + count f ops)%Z.
Proof.
  unfold count. destruct (f op) eqn:Hf; [rewrite filter_cons_True by done|
    rewrite filter_cons_False by (by rewrite Hf)]; cbn [length]; lia.
Qed.
Lemma count_nonneg f ops : (0 ≤ count f ops)%Z.
Proof. unfold count. lia. Qed.

Lemma p2p_counts ops s :
  (0 ≤ P2P_CONNECTED_PEERS (snd s))%Z → (P2P_CONNECTED_PEERS (snd s) + count is_handshake ops < 2 ^ 63)%Z →
  (0 ≤ P2P_INCOMING_MESSAGES (snd s))%Z → (P2P_INCOMING_MESSAGES (snd s) + count is_message ops < 2 ^ 64)%Z →
  let s' := foldl (λ s op, p2p_op op s) s ops in
  P2P_CONNECTED_PEERS (snd s') = (P2P_CONNECTED_PEERS (snd s) + count is_handshake ops)%Z ∧
  P2P_INCOMING_MESSAGES (snd s') = (P2P_INCOMING_MESSAGES (snd s) + count is_message ops)%Z ∧
  P2P_PROTOCOL_VERSION (snd s') = P2P_PROTOCOL_VERSION (snd s).
Proof.
  revert s. induction ops as [|op ops IH]; intros s H1 H2 H3 H4; cbn [foldl]; [unfold count; simpl; lia|].
  rewrite !count_cons in *.
  pose proof (count_nonneg is_handshake ops). pose proof (count_nonneg is_message ops).
  assert (P2P_CONNECTED_PEERS (snd (p2p_op op s)) =
    P2P_CONNECTED_PEERS (snd s) + (if is_handshake op then 1 else 0) ∧
    P2P_INCOMING_MESSAGES (snd (p2p_op op s)) =
    P2P_INCOMING_MESSAGES (snd s) + (if is_message op then 1 else 0) ∧
    P2P_PROTOCOL_VERSION (snd (p2p_op op s)) = P2P_PROTOCOL_VERSION (snd s))%Z as (E1 & E2 & E3).
  { destruct op; cbn [p2p_op perform_handshake_metered inc_connected_peers inc_incoming_messages set_p2p
      is_handshake is_message fst snd P2P_CONNECTED_PEERS P2P_INCOMING_MESSAGES P2P_PROTOCOL_VERSION] in *;
      split_and!; try lia.
    - unfold i64_inc. destruct (Z.eqb_spec (P2P_CONNECTED_PEERS s.2) (2 ^ 63 - 1)); lia.
    - unfold u64_wrap. rewrite Z.mod_small; lia. }
  destruct (IH (p2p_op op s)) as (-> & -> & ->); rewrite ?E1, ?E2, ?E3;
    destruct (is_handshake op), (is_message op); lia.
Qed.

(** The gauge of connected peers is never decremented: after any history it shows the
    number of handshakes, whatever was disconnected since, while the messages are
    counted one by one. *)
Theorem connected_peers_counts_handshakes ops ports :
  (count is_handshake ops < 2 ^ 63)%Z → (count is_message ops < 2 ^ 64)%Z →
  let '(_, m) := foldl (λ s op, p2p_op op s) (P2P_new_metered ports Metrics_new) ops in
  P2P_CONNECTED_PEERS m = count is_handshake ops ∧ P2P_INCOMING_MESSAGES m = count is_message ops ∧
  P2P_PROTOCOL_VERSION m = PROTOCOL_VERSION.
Proof.
  intros H1 H2. pose proof (p2p_counts ops (P2P_new_metered ports Metrics_new)) as Hc.
  destruct (foldl _ _ ops) as [p m]. apply Hc; simpl; lia.
Qed.

(** One peer that came and went: no connection is mapped, one is shown. *)
Theorem gone_peer_still_counted remote msg :
  let '(p, m) := foldl (λ s op, p2p_op op s) (P2P_new_metered ∅ Metrics_new)
                   [OpHandshake remote msg; OpDisconnect remote] in
  peer_addr_mapping p = ∅ ∧ P2P_CONNECTED_PEERS m = 1%Z.
Proof.
  simpl. unfold on_disconnect. simpl. rewrite lookup_insert_eq. simpl.
  split; [|done]. by rewrite delete_insert_eq, delete_empty.
Qed.
End p2p.

(** ** The scheduler *)

Section scheduler.
Context `{Hex, Secp, Sha3, NumBigint, Bincode}.
Context {P D : Type} (provider : Provider P) (tx_store : TransactionStore D).
Context (find_program : D → Hash → result string (option Program)).
Context (engine_next_task : Transaction Validated → M D WorkflowError.t (option Task)).
Context (as_f64 : Z → T).

Abbreviation State := (SchedulerState P * Metrics)%type.
Abbreviation MWorld := (World (P:=P) (D:=D) * Metrics)%type.

Fixpoint start_pending_loop_metered (db : D) (current_pending_programs : list (Hash * Hash))
    : M State string bool :=
  match current_pending_programs with
  | [] => mret true
  | (tx_hash, program_id) :: rest =>
      _ ← unmetered (modify (λ st, set_pending (tail (pending_programs st)) st));
      r ← unmetered (attempt (on_pm (start_program provider (find_program db) tx_hash program_id None)));
      match r with
      | Ok p => _ ← unmetered (modify (insert_vm tx_hash p)); start_pending_loop_metered db rest
      | _ => _ ← unmetered (modify (λ st, set_pending (pending_programs st ++ [(tx_hash, program_id)]) st));
             _ ← meter inc_requeued;
             mret false
      end
  end.

Definition schedule_task_metered (now : Z) (db : D) (task : Task) : M State string () :=
  _ ← unmetered (modify (push_task now task));
  r ← unmetered (attempt (on_pm (start_program provider (find_program db) (task_tx task)
                        (task_program_id task) None)));
  match r with
  | Ok p => unmetered (modify (insert_vm (task_tx task) p))
  | Err err =>
      _ ← unmetered match err with
          | ProgramError.ProgramNotFound _ =>
              modify (λ st, set_queue (delete (task_tx task) (task_queue st)) st)
          | _ => mret ()
          end;
      _ ← unmetered (modify (λ st, set_pending (pending_programs st ++ [(task_tx task, task_program_id task)]) st));
      meter inc_requeued
  | Panic => mret ()
  end.

(** The state of the scheduler inside its world. *)
Definition on_state_metered {A} (m : M State string A) : M MWorld string A := λ '(w, x),
  let '(r, (st, x)) := m (w_state w, x) in
  (r, (MkWorld st (w_mempool w) (w_fs w) (w_signals w) (w_channel w), x)).

Definition run_turn_metered (now : Z) (alive : Z → result string bool) (data_directory : string)
    : M MWorld string () :=
  _ ← unmetered (on_state (reap_zombies provider now alive));
  w ← unmetered get;
  started ← on_state_metered (λ s, start_pending_loop_metered (storage (w_mempool w))
                                      (pending_programs (fst s)) s);
  if negb started then mret ()
  else
    _ ← unmetered (signal SchedulerLoopOk);
    '(task, mempool_size) ← unmetered (pick_task engine_next_task);
    match task with
    | None => unmetered (signal (SchedulerMempoolLen mempool_size))
    | Some task =>
        _ ← unmetered (copy_files tx_store data_directory task);
        _ ← unmetered (signal (SchedulerMempoolLen mempool_size));
        w ← unmetered get;
        on_state_metered (schedule_task_metered now (storage (w_mempool w)) task)
    end.

Definition kind_label (kind : TaskKind.t) : string :=
  match kind with
  | TaskKind.Proof => "proof" | TaskKind.Verification => "verification" | _ => "unknown"
  end.

Definition report_metered (time : T) (node_key : SecretKey) (data_directory http_download_host : string)
    (id : CallbackId) (answer : result MempoolError.t ()) (tx_hash program : Hash) (task : Task)
    (res : TaskResult) : M MWorld string () :=
  let kind := kind_label (task_kind task) in
  match res with
  | TaskOk data files =>
      executed_files ← unmetered (lift (collect_results (executed_file http_download_host tx_hash) files));
      tx ← unmetered (lift (result_tx node_key task program data executed_files.*2));
      _ ← meter (observe_execution kind "success" time);
      _ ← unmetered (for_eachM (λ sd : TaskVmFile VmOutput * TxFile Output,
            on_fs (move_vmfile (fst sd) (snd sd) data_directory (hash tx))) executed_files);
      r ← unmetered (attempt (on_channel (txresult_send_tx id tx)));
      match r ≫= λ _, answer with
      | Ok () => mret ()
      | _ => throw "failed to send Tx result to validation process"
      end
  | TaskErr _ => meter (observe_execution kind "failure" time)
  end.

Definition submit_result_metered (now : Z) (node_key : SecretKey) (data_directory http_download_host : string)
    (id : CallbackId) (answer : result MempoolError.t ())
    (tx_hash program : Hash) (res : TaskResult) : M MWorld string () :=
  w ← unmetered get;
  match running_tasks (w_state w) !! tx_hash with
  | None => throw ("submit_result task:" +:+ Hash_to_string tx_hash +:+ " not found.")
  | Some running_task =>
      let task_run_time := as_f64 (now - task_started running_task) in
      _ ← unmetered (on_state (modify (λ st, set_tasks (delete tx_hash (running_tasks st)) st)));
      _ ← unmetered (attempt (E:=string) (on_db (mark_tx_executed tx_store (task_tx (rt_task running_task)))));
      _ ← report_metered task_run_time node_key data_directory http_download_host id answer tx_hash program
            (rt_task running_task) res;
      unmetered (on_state (remove_and_stop provider tx_hash))
  end.

(** ** Counting changes nothing *)

Lemma erases_on_state {A} (m : M State string A) m' :
  erases m m' → erases (on_state_metered m) (on_state m').
Proof.
  intros Hm w x. unfold on_state_metered, on_state. specialize (Hm (w_state w) x).
  destruct (m (w_state w, x)) as [r [st x']]. by rewrite Hm.
Qed.

Lemma erases_throw {S X A} e : erases (S:=S) (X:=X) (A:=A) (throw (E:=string) e) (throw e).
Proof. by intros s x. Qed.

Lemma erases_meter {S X E} (f : X → X) : erases (S:=S) (E:=E) (meter f) (mret ()).
Proof. by intros s x. Qed.

Lemma start_pending_loop_erases db l :
  erases (start_pending_loop_metered db l) (start_pending_loop provider find_program db l).
Proof.
  induction l as [|[tx p] l IH]; [apply erases_ret|]. cbn [start_pending_loop_metered start_pending_loop].
  apply erases_bind; [apply erases_unmetered|intros _].
  apply erases_bind; [apply erases_unmetered|intros [h| |]]; auto 6 with gevulot.
Qed.

Lemma schedule_task_erases now db task :
  erases (schedule_task_metered now db task) (schedule_task provider find_program now db task).
Proof.
  apply erases_bind; [apply erases_unmetered|intros _].
  apply erases_bind; [apply erases_unmetered|intros [h|e|]]; auto with gevulot.
  apply erases_bind; [apply erases_unmetered|intros _]. intros st x. done.
Qed.

Lemma run_turn_erases now alive dir :
  erases (run_turn_metered now alive dir)
    (run_turn provider tx_store find_program engine_next_task now alive dir).
Proof.
  unfold run_turn_metered, run_turn.
  apply erases_bind; [apply erases_unmetered|intros _].
  apply erases_bind; [apply erases_unmetered|intros w].
  apply erases_bind.
  { apply erases_on_state. intros st x. apply start_pending_loop_erases. }
  intros [|]; [|apply erases_ret]. simpl.
  apply erases_bind; [apply erases_unmetered|intros _].
  apply erases_bind; [apply erases_unmetered|intros [[task|] size]]; [|apply erases_unmetered].
  repeat (apply erases_bind; [apply erases_unmetered|intros ?]).
  apply erases_on_state, schedule_task_erases.
Qed.

Lemma submit_result_erases now node_key dir host id answer tx_hash program res :
  erases (submit_result_metered now node_key dir host id answer tx_hash program res)
    (submit_result provider tx_store node_key dir host id answer tx_hash program res).
Proof.
  unfold submit_result_metered, submit_result.
  apply erases_bind; [apply erases_unmetered|intros w].
  destruct (running_tasks (w_state w) !! tx_hash) as [rt|]; [|apply erases_throw].
  do 2 (apply erases_bind; [apply erases_unmetered|intros _]).
  apply erases_bind; [|intros _; apply erases_unmetered]. unfold report_metered.
  destruct res as [data files|code]; [|apply erases_meter].
  do 2 (apply erases_bind; [apply erases_unmetered|intros ?]). apply erases_meter_last.
  do 2 (apply erases_bind; [apply erases_unmetered|intros ?]).
  destruct (_ ≫= _) as [[]| |]; [apply erases_ret|apply erases_throw..].
Qed.
(** ** What is counted *)

(** What a piece of a turn adds to the counter, given what it leaves pending. *)
Definition counted (st : SchedulerState P) (x x' : Metrics) : Prop :=
  x' = (if decide (pending_programs st = []) then x else inc_requeued x).

Lemma counted_none st x : pending_programs st = [] → counted st x x.
Proof. intros Hp. unfold counted. by rewrite decide_True. Qed.
Lemma counted_one st x l e : pending_programs st = l ++ [e] → counted st x (inc_requeued x).
Proof. intros Hp. unfold counted. rewrite decide_False; [done|]. rewrite Hp. by intros [_ [=]]%app_eq_nil. Qed.

Lemma insert_vm_pending tx h (st : SchedulerState P) : pending_programs (insert_vm tx h st) = pending_programs st.
Proof. unfold insert_vm. by destruct (running_vms st !! tx). Qed.

Lemma hoare_unmetered {S X A} (m : M S string A) (I : A → S → Prop) (J : S → Prop) (x : X) :
  hoare J m I (λ _, True) →
  hoare (λ s, J (fst s) ∧ snd s = x) (unmetered m) (λ a s, I a (fst s) ∧ snd s = x) (λ _, True).
Proof.
  intros Hm [s y] [Hs Hy]. specialize (Hm s Hs). unfold unmetered. destruct (m s) as [[] s']; by simpl.
Qed.
Lemma keeps_unmetered {S X A} (m : M S string A) (J : S → Prop) (x : X) :
  keeps J m → hoare (λ s, J (fst s) ∧ snd s = x) (unmetered m) (λ _ s, J (fst s) ∧ snd s = x) (λ _, True).
Proof. intros Hm. apply (hoare_unmetered m (λ _, J)). by eapply hoare_conseq; [exact Hm| | |]. Qed.

Lemma keeps_start l tx p db :
  keeps (λ st, pending_programs st = l)
    (attempt (F:=string) (on_pm (start_program provider (find_program db) tx p None))).
Proof.
  apply keeps_attempt. intros st Hst. unfold on_pm. by destruct (start_program _ _ _ _ _ _) as [[] pm].
Qed.

Lemma start_pending_loop_counted db l x :
  hoare (λ s, pending_programs (fst s) = l ∧ snd s = x) (start_pending_loop_metered db l)
    (λ b s, counted (fst s) x (snd s) ∧ (b = true ↔ pending_programs (fst s) = [])) (λ _, True).
Proof.
  induction l as [|[tx p] l IH]; cbn [start_pending_loop_metered].
  { intros [s y] [Hp Hy]; simpl in Hp, Hy; subst y. split; [by apply counted_none|done]. }
  eapply (hoare_bind _ _ _ (λ _ s, pending_programs (fst s) = l ∧ snd s = x)).
  { apply (hoare_unmetered _ (λ _ st, pending_programs st = l) (λ st, pending_programs st = (tx, p) :: l)).
    apply hoare_modify.
    intros st Hst. simpl. by rewrite Hst. }
  intros _. eapply hoare_bind; [apply (keeps_unmetered _ (λ st, pending_programs st = l)), keeps_start|]. intros [h|e|].
  - eapply (hoare_bind _ _ _ (λ _ s, pending_programs (fst s) = l ∧ snd s = x)); [|intros _; apply IH].
    apply (keeps_unmetered _ (λ st, pending_programs st = l)), keeps_modify. intros st Hst.
    by rewrite insert_vm_pending.
  - intros [st y] [Hst Hy]; simpl in Hst, Hy; subst y. cbn. split; [by eapply counted_one|].
    split; [done|]. by intros [_ [=]]%app_eq_nil.
  - intros [st y] [Hst Hy]; simpl in Hst, Hy; subst y. cbn. split; [by eapply counted_one|].
    split; [done|]. by intros [_ [=]]%app_eq_nil.
Qed.

Lemma schedule_task_counted now db task x :
  hoare (λ s, pending_programs (fst s) = [] ∧ snd s = x) (schedule_task_metered now db task)
    (λ _ s, counted (fst s) x (snd s)) (λ _, True).
Proof.
  unfold schedule_task_metered.
  eapply hoare_bind; [by apply (keeps_unmetered _ (λ st, pending_programs st = [])), keeps_modify|]. intros [].
  eapply hoare_bind; [apply (keeps_unmetered _ (λ st, pending_programs st = [])), keeps_start|]. intros [h|e|].
  - intros [st y] [Hst Hy]; simpl in Hst, Hy; subst y. cbn. apply counted_none. by rewrite insert_vm_pending.
  - intros [st y] [Hst Hy]; simpl in Hst, Hy; rewrite Hy; destruct e; cbn; by eapply counted_one.
  - intros [st y] [Hst Hy]; simpl in Hst, Hy; subst y. by apply counted_none.
Qed.

Lemma on_state_counted {A} (m : M State string A) l x (Q : A → State → Prop) :
  hoare (λ s, pending_programs (fst s) = l ∧ snd s = x) m Q (λ _, True) →
  hoare (λ s : MWorld, pending_programs (w_state (fst s)) = l ∧ snd s = x) (on_state_metered m)
    (λ a s, Q a (w_state (fst s), snd s)) (λ _, True).
Proof.
  intros Hm [w y] [Hw Hy]; simpl in Hw, Hy; subst y. unfold on_state_metered. specialize (Hm (w_state w, x) (conj Hw eq_refl)).
  destruct (m (w_state w, x)) as [[a|e|] [st y]]; done.
Qed.

(** Whatever does not touch the scheduler's own state. *)
Lemma copy_files_pending dir task l :
  keeps (λ w : World (P:=P) (D:=D), pending_programs (w_state w) = l) (copy_files tx_store dir task).
Proof.
  apply keeps_for_eachM. intros file. apply keeps_bind.
  - apply keeps_attempt. intros w Hw. unfold on_fs. by destruct (copy_file_for_vm_exe _ _ _ _) as [[] ?].
  - intros [u|e|]; [apply keeps_ret|..]; (apply keeps_bind; [|intros _; apply keeps_ret]);
      apply keeps_attempt; intros w Hw; unfold on_db; by destruct (mark_tx_executed _ _ _) as [[] ?].
Qed.
Lemma pick_task_pending l :
  keeps (λ w : World (P:=P) (D:=D), pending_programs (w_state w) = l) (pick_task engine_next_task).
Proof.
  intros w Hw. unfold pick_task. destruct (next (w_mempool w)) as [[tx|] m]; [|done].
  by destruct (engine_next_task tx (storage m)) as [[res|e|] d].
Qed.

(** A turn of the scheduling loop counts a requeued transaction exactly when it leaves a
    program pending. *)
Theorem turn_requeues now alive dir w x w' x' :
  run_turn_metered now alive dir (w, x) = (Ok (), (w', x')) →
  x' = (if decide (pending_programs (w_state w') = []) then x else inc_requeued x).
Proof.
  set (idle := λ s : MWorld, pending_programs (w_state (fst s)) = [] ∧ snd s = x).
  enough (hoare (λ s, True ∧ snd s = x) (run_turn_metered now alive dir)
    (λ _ s, counted (w_state (fst s)) x (snd s)) (λ _, True)) as Hh.
  { intros Hrun. exact (hoare_run_Ok _ _ _ _ (w, x) () (w', x') Hh (conj I eq_refl) Hrun). }
  unfold run_turn_metered.
  eapply hoare_bind; [apply (hoare_unmetered _ (λ _ _, True) (λ _, True)); intros s _; by destruct (on_state _ s) as [[] ?]|].
  intros []. eapply (hoare_bind _ _ _ (λ w s, fst s = w ∧ snd s = x)).
  { apply (hoare_unmetered get (λ w s, s = w) (λ _, True)). by apply hoare_get. }
  intros w1. eapply (hoare_bind _ _ _ (λ (b : bool) s, if b then idle s else counted (w_state (fst s)) x (snd s))).
  { intros [w2 y] [Hw Hy]; simpl in Hw, Hy; subst w2 y. cbn [fst].
    pose proof (on_state_counted _ (pending_programs (w_state w1)) x _
      (start_pending_loop_counted (storage (w_mempool w1)) _ x) (w1, x) (conj eq_refl eq_refl)) as Hs.
    unfold on_state_metered in *. cbn [fst].
    destruct (start_pending_loop_metered _ _ _) as [[b|e|] [st y]]; [|done..]. simpl in *.
    destruct Hs as [Hc Hb]. destruct b; [|done]. split; [by apply Hb|]. simpl.
    unfold counted in Hc. by rewrite decide_True in Hc by (by apply Hb). }
  intros [|]; simpl; [|by intros s Hs].
  eapply hoare_bind; [by apply (keeps_unmetered _ (λ w, pending_programs (w_state w) = [])), keeps_modify|].
  intros []. eapply hoare_bind; [apply (keeps_unmetered _ (λ w, pending_programs (w_state w) = [])), pick_task_pending|]. intros [[task|] size].
  2:{ intros [w2 y] [Hw Hy]; simpl in Hw, Hy; subst y. by apply counted_none. }
  eapply hoare_bind; [apply (keeps_unmetered _ (λ w, pending_programs (w_state w) = [])), copy_files_pending|]. intros [].
  eapply hoare_bind; [by apply (keeps_unmetered _ (λ w, pending_programs (w_state w) = [])), keeps_modify|]. intros [].
  eapply hoare_bind; [apply (keeps_unmetered _ (λ w, pending_programs (w_state w) = [])), keeps_get|]. intros w2.
  apply (on_state_counted (schedule_task_metered now _ task) [] x (λ _ s, counted (fst s) x (snd s))).
  apply schedule_task_counted.
Qed.

Lemma unmetered_uncounted {S X A} (m : M S string A) (x : X) : keeps (λ s, snd s = x) (unmetered m).
Proof. intros [s y] Hy. unfold unmetered. by destruct (m s) as [[] s']. Qed.

(** What reporting a result adds to the execution times. *)
Definition timed_as (time : T) (node_key : SecretKey) (host : string) (tx_hash program : Hash) (task : Task)
    (res : TaskResult) : Metrics → Metrics :=
  let kind := kind_label (task_kind task) in
  match res with
  | TaskErr _ => observe_execution kind "failure" time
  | TaskOk data files =>
      match (l ← collect_results (executed_file host tx_hash) files;
             result_tx node_key task program data l.*2) with
      | Ok _ => observe_execution kind "success" time
      | _ => id
      end
  end.

Lemma report_timed time node_key dir host id answer tx_hash program task res w x :
  snd (snd (report_metered time node_key dir host id answer tx_hash program task res (w, x))) =
    timed_as time node_key host tx_hash program task res x.
Proof.
  unfold report_metered, timed_as. destruct res as [data files|code]; [|done].
  unfold mbind at 1, M_bind at 1. cbn [unmetered lift].
  destruct (collect_results _ files) as [l|e|]; [|done..]. cbn [mbind result_bind].
  unfold mbind at 1, M_bind at 1. cbn [unmetered lift].
  destruct (result_tx _ _ _ _ _) as [tx|e|]; [|done..].
  unfold mbind at 1, M_bind at 1. cbn [meter modify].
  apply (keeps_snd (λ s, snd s = _)); [|done].
  apply keeps_bind; [apply unmetered_uncounted|intros _].
  apply keeps_bind; [apply unmetered_uncounted|intros a].
  destruct (a ≫= _) as [[]| |]; auto with gevulot.
Qed.

(** A result is timed once: under its task's kind, as a failure when the VM reports one,
    as a success when the result transaction could be made; and not at all when the task
    is not running, a checksum is malformed, or the kind has no result. *)
Theorem submit_result_timed now node_key dir host id answer tx_hash program res w x :
  (∀ h d, fst (mark_tx_executed tx_store h d) ≠ Panic) →
  snd (snd (submit_result_metered now node_key dir host id answer tx_hash program res (w, x))) =
    match running_tasks (w_state w) !! tx_hash with
    | None => x
    | Some rt => timed_as (as_f64 (now - task_started rt)) node_key host tx_hash program (rt_task rt) res x
    end.
Proof.
  intros Hmark. unfold submit_result_metered, mbind at 1, M_bind at 1. cbn [unmetered get].
  destruct (running_tasks (w_state w) !! tx_hash) as [rt|]; [|done].
  unfold mbind at 1, M_bind at 1. cbn [unmetered on_state modify].
  unfold mbind at 1, M_bind at 1. unfold unmetered at 1, attempt at 1, on_db at 1.
  specialize (Hmark (task_tx (rt_task rt)) (storage (w_mempool w))). cbn [w_mempool].
  destruct (mark_tx_executed _ _ _) as [[u|e|] d]; [..|by destruct Hmark];
    (unfold mbind at 1, M_bind at 1;
     match goal with |- context [report_metered ?t ?k ?d ?h ?i ?a ?tx ?p ?ta ?r (?w0, x)] =>
       pose proof (report_timed t k d h i a tx p ta r w0 x) as Hr end;
     destruct (report_metered _ _ _ _ _ _ _ _ _ _ _) as [[[]| |] [w1 x1]]; [|exact Hr..];
     rewrite <-Hr; by apply (keeps_snd (λ s, snd s = x1)); [apply unmetered_uncounted|]).
Qed.
End scheduler.
End collectors.
