(* ===== verification/Columns.v ===== *)
(** * Text columns and JSON strings ([crates/node/src/types/hash.rs], [types/signature.rs],
    [storage/database/entity/public_key.rs])

    Hashes, signatures and public keys are stored as text and read back by the
    conversions from strings.  The string codec of [sqlx] is the identity here. *)

From S2P Require Import Prelude Types Models Transaction Acl.

Section columns.
Context `{Hex, Secp}.

(** [.expect(..)] on an error. *)
Definition or_panic {E F A} (r : result E A) : result F A := match r with Ok a => Ok a | _ => Panic end.

(** [impl From<String>]. *)
Definition Signature_from_string {E} (value : string) : result E Signature :=
  or_panic (Signature_try_from value).
Definition PublicKey_from_string {E} (value : string) : result E PublicKey :=
  or_panic (PublicKey_try_from value).

(** [Encode] and [Decode] for Postgres; [str_value] is what the driver's own decoder of
    strings gives. *)
Definition Hash_encode_by_ref (h : Hash) : string := Hash_to_string h.
Definition Hash_decode (str_value : result string string) : result string Hash :=
  v ← str_value; Hash_from_str v.
Definition Signature_encode_by_ref (s : Signature) : string := Signature_to_string s.
Definition Signature_decode (str_value : result string string) : result string Signature :=
  v ← str_value; Signature_from_string v.
Definition PublicKey_encode_by_ref (k : PublicKey) : string := PublicKey_to_string k.
Definition PublicKey_decode (str_value : result string string) : result string PublicKey :=
  v ← str_value; PublicKey_from_string v.

(** The two functions called [deserialize_hash_from_json], on a JSON string: [hash.rs]
    for hashes, [signature.rs] for signatures. *)
Definition deserialize_hash_from_json (v : string) : result string Hash := Hash_from_str v.
Definition SignatureError_to_string (e : SignatureError) : string :=
  match e with SignatureParseError msg => "signature parse error: " +:+ msg end.
Definition deserialize_signature_from_json (v : string) : result string Signature :=
  map_err SignatureError_to_string (Signature_try_from v).
End columns.

(** The 64 byte form of a signature that was made by signing is read back. *)
Class SignatureBytesLaws `{Secp} : Prop := {
  sig_serialize_length m k : length (secp_sig_serialize (secp_sign m k)) = 64;
  sig_parse_serialize m k :
    secp_sig_parse_standard (secp_sig_serialize (secp_sign m k)) = Ok (secp_sign m k)
}.

Section roundtrip.
Context `{HexLaws, SecpLaws, !SignatureBytesLaws, Sha3, NumBigint, Bincode}.

Lemma array_of_length {n} (bs : list u8) : length bs = n → ∃ arr, array_of_list n bs = Some arr ∧ vec_to_list arr = bs.
Proof.
  intros Hl. destruct (array_of_list n bs) as [arr|] eqn:Ha.
  - exists arr. split; [done|]. by apply array_of_list_Some in Ha.
  - destruct (proj2 (array_of_list_length n _) Hl). congruence.
Qed.

Lemma Signature_try_from_encode m k :
  Signature_try_from (Signature_to_string (Signature_of_secp (secp_sign m k))) =
  Ok (Signature_of_secp (secp_sign m k)).
Proof.
  unfold Signature_try_from, Signature_to_string. rewrite signature_secp_roundtrip, hex_decode_encode.
  destruct (array_of_length _ (sig_serialize_length m k)) as (arr & Ha & Hv).
  cbn [map_err mbind result_bind]. rewrite Ha. cbn [ok_or mbind result_bind].
  by rewrite Hv, sig_parse_serialize.
Qed.

Lemma PublicKey_try_from_string k : PublicKey_try_from (PublicKey_to_string k) = Ok k.
Proof.
  unfold PublicKey_try_from, PublicKey_to_string. rewrite hex_decode_encode.
  destruct (array_of_length _ (pk_serialize_length k)) as (arr & Ha & Hv).
  cbn [map_err mbind result_bind]. rewrite Ha. cbn [ok_or mbind result_bind].
  by rewrite Hv, pk_parse_serialize.
Qed.

(** The identity of a signed transaction survives its columns: the author, the hash
    and the signature that [Transaction::new] gives a transaction are read back from the
    text they are stored as, without a panic, and what is read back still verifies: the
    stored signature is one of the stored author over the stored hash. *)
Theorem signed_columns_roundtrip p sk tx :
  Transaction_new (E:=TransactionError) p sk = Ok tx →
  ∃ a h s, PublicKey_decode (Ok (PublicKey_encode_by_ref (author tx))) = Ok a ∧
    Hash_decode (Ok (Hash_encode_by_ref (hash tx))) = Ok h ∧
    Signature_decode (Ok (Signature_encode_by_ref (signature tx))) = Ok s ∧
    a = author tx ∧ h = hash tx ∧ s = signature tx ∧
    secp_verify (Hash_to_message h) (Signature_to_secp s) a = true.
Proof.
  intros Hnew. exists (author tx), (hash tx), (signature tx).
  unfold Transaction_new, sign in Hnew. apply result_bind_Ok in Hnew as (h & _ & Htx).
  injection Htx as <-. simpl.
  unfold PublicKey_encode_by_ref, Signature_encode_by_ref, PublicKey_from_string, Signature_from_string.
  rewrite PublicKey_try_from_string, Signature_try_from_encode, signature_secp_roundtrip.
  split_and!; try done; [apply hash_string_back|apply secp_verify_sign].
Qed.

(** A string that is not hexadecimal is an error for a signature, and a panic for a hash. *)
Lemma malformed_json_hash_panics v e :
  hex_decode v = Err e →
  deserialize_hash_from_json v = Panic ∧
  deserialize_signature_from_json v = Err ("signature parse error: " +:+ e).
Proof.
  intros Hv. unfold deserialize_hash_from_json, Hash_from_str, deserialize_signature_from_json,
    Signature_try_from. by rewrite Hv.
Qed.
End roundtrip.

(** ** A signature scheme with the laws *)

Section columns_witness.
#[local] Existing Instances hex_crate hex_crate_laws sha3_toy bigint_toy bincode_toy.

(** One signature, which verifies everything. *)
Definition blank_signature : SecpSignature := MkSecpSignature (replicate 8 0%Z) (replicate 8 0%Z).
#[local] Instance secp_blank : Secp := {|
  PublicKey := vec u8 65;
  SecretKey := vec u8 65;
  PublicKey_countable := array_countable 65;
  pk_serialize := vec_to_list;
  pk_parse bs := ok_or (array_of_list 65 bs) "InvalidPublicKey";
  from_secret_key sk := sk;
  SecretKey_default := vreplicate 65 zero;
  secp_sign _ _ := blank_signature;
  secp_verify _ _ _ := true;
  secp_sig_serialize _ := replicate 64 zero;
  secp_sig_parse_standard _ := Ok blank_signature
|}.
#[local] Instance secp_blank_laws : SecpLaws.
Proof.
  split; [done|intros pk; apply length_vec_to_list|].
  intros pk. cbn [pk_parse pk_serialize secp_blank]. by rewrite array_of_list_vec.
Qed.
#[local] Instance secp_blank_bytes : SignatureBytesLaws.
Proof. by split. Qed.

Example signed_columns_roundtrip_witness :
  ∃ tx a h s, Transaction_new (E:=TransactionError) (Payload.Stake 7) SecretKey_default = Ok tx ∧
    PublicKey_decode (Ok (PublicKey_encode_by_ref (author tx))) = Ok a ∧
    Hash_decode (Ok (Hash_encode_by_ref (hash tx))) = Ok h ∧
    Signature_decode (Ok (Signature_encode_by_ref (signature tx))) = Ok s.
Proof.
  eexists. edestruct (signed_columns_roundtrip (Payload.Stake 7) SecretKey_default)
    as (a & h & s & H1 & H2 & H3 & _); [reflexivity|].
  exists a, h, s. split; [reflexivity|]. done.
Defined.
End columns_witness.
