(* ===== verification/Launch.v ===== *)
(** * The binary ([crates/node/src/main.rs], [scheduler/mod.rs])

    From the parsed command to the running node: the dispatch of [main], the stages of
    [run] in their order with what each may fail with, [start_scheduler], and the beacon.
    What the operating system answers to each stage is a record. *)

From S2P Require Import Prelude Types Models Files Transaction Event Mempool Workflow Watchdog Resources Scheduler Turns Acl Database Metrics StoreSpec Vmm VmServer Protocol P2P Node Startup NodeCli.
From stdpp Require Import pretty.

Section launch.
Context `{Hex, Secp, !SecretBytes, Sha3, NumBigint, Bincode, Lru, UrlParse, Uuid, !Wire, Prometheus}.
Context {D : Type} (iter : gset SocketAddr → list SocketAddr).
(** [IpAddr::to_string]. *)
Context (ip_to_string : IpAddr → string).

(** ** What a start meets *)

Record Boot := MkBoot {
  bt_fs : fs;
  bt_key_fault : option string;
  bt_database : result string Tables;
  bt_registry : Registry;
  bt_metrics : Metrics D;
  bt_file_server : result string ();
  bt_healthcheck : result string ();
  bt_sys_cpus : Z;
  bt_sys_mem : Z;
  bt_vsock : result string ();
  bt_listen : result string ();
  bt_outside : Outside;
  bt_rpc : result string ()
}.

(** [?] on an [eyre] error. *)
Definition try_ {A} (r : result string A) : result StartError A := map_err Failed r.

(** ** The scheduler *)

Record StartedScheduler := MkStartedScheduler {
  ss_state : SchedulerState Host;
  ss_metrics : Metrics D;
  ss_http_download_host : string;
  ss_data_directory : string
}.

Definition start_scheduler (config : Config) (b : Boot) : result StartError StartedScheduler :=
  let '(num_cpus, available_mem, num_gpus) :=
    get_configured_resources (gpu_devices config) (num_cpus config) (mem_gb config)
      (bt_sys_cpus b) (bt_sys_mem b) in
  let '(resource_manager, metrics) :=
    ResourceManager_new_metered available_mem num_cpus num_gpus (bt_metrics b) in
  _ ← (match bt_vsock b with Ok _ => Ok () | _ => Panic end);
  let program_manager := MkProgramManager resource_manager (MkHost Qemu_new ∅) in
  let download_url_prefix :=
    "http://" +:+ (ip_to_string (ip (p2p_listen_addr config)) +:+
                   (":" +:+ pretty (http_download_port config))) in
  Ok (MkStartedScheduler (SchedulerState_new program_manager) metrics download_url_prefix
        (data_directory config)).

(** The host in the urls of [RpcServer::run]. *)
Definition local_http_host (config : Config) : SocketAddr :=
  (ip (default (p2p_listen_addr config) (p2p_advertised_listen_addr config)), http_download_port config).

(** ** [run] *)

(** The node that is up; without execution it has no scheduler. *)
Record Launched := MkLaunched {
  l_node_key : SecretKey;
  l_registry : Registry;
  l_loop : EventLoop Tables;
  l_scheduler : option StartedScheduler;
  l_p2p_config : P2PConfig;
  l_net : P2P * gset SocketAddr
}.

(** [None]: connecting to the peers did not end within [fuel]. *)
Definition run (fuel : nat) (config : Config) (b : Boot) : option (result StartError Launched) :=
  let before :=
    node_key ← read_node_key (bt_key_fault b) (node_key_file config) (bt_fs b);
    registry ← match register_metrics (bt_registry b) with Ok r => Ok r | _ => Panic end;
    database ← try_ (bt_database b);
    _ ← try_ (bt_file_server b);
    scheduler ← (if no_execution config then Ok None
                 else _ ← try_ (bt_healthcheck b); Some <$> start_scheduler config b);
    _ ← try_ (bt_listen b);
    Ok (node_key, registry, EventLoop_new database, scheduler) in
  match before with
  | Ok (node_key, registry, loop, scheduler) =>
      let p2p_config := MkP2PConfig (p2p_listen_addr config) (Some (http_download_port config))
                          (p2p_advertised_listen_addr config) in
      joined ← join_network p2p_config iter (bt_outside b) fuel (p2p_discovery_addrs config) (P2P_new ∅, ∅);
      Some (net ← joined; _ ← try_ (bt_rpc b);
            Ok (MkLaunched node_key registry loop scheduler p2p_config net))
  | Err e => Some (Err e)
  | Panic => Some Panic
  end.

(** ** [p2p_beacon] *)

Definition p2p_beacon (fuel : nat) (config : P2PBeaconConfig) (listen : result string ())
    (outside : nat → Outside) (healthcheck : result string ())
    : option (result StartError (P2PConfig * (P2P * gset SocketAddr) * option string)) :=
  let p2p_config := MkP2PConfig (b_p2p_listen_addr config) None (b_p2p_advertised_listen_addr config) in
  match try_ listen with
  | Ok _ =>
      '(connected_nodes, _, net) ← beacon_join p2p_config iter outside fuel
          (b_p2p_discovery_addrs config) (Z.to_nat (cluster_join_attempt_limit config)) (P2P_new ∅, ∅);
      Some (_ ← try_ healthcheck;
            Ok (p2p_config, net, beacon_message (b_p2p_discovery_addrs config) connected_nodes))
  | Err e => Some (Err e)
  | Panic => Some Panic
  end.

(** ** [main] *)

(** What [main] leaves: lines, a node, a beacon. *)
Inductive Outcome :=
  | Printed (lines : list string)
  | NodeUp (l : Launched)
  | BeaconUp (c : P2PConfig) (net : P2P * gset SocketAddr) (message : option string).

Record Outer := MkOuter {
  o_key : SecretKey;
  o_open_fault : option IoError;
  o_write_fault : option (nat * string);
  o_boot : fs → Boot;
  o_connected : result string ();
  o_migrated : result string ();
  o_beacon : result string () * (nat → Outside) * result string ()
}.

Definition warning : string :=
  "WARNING: `node-key` command is deprecated. Please use `key` instead.".

(** The state is the files and the database the operator's commands change. *)
Abbreviation machine := (fs * Tables)%type.

Definition main_generate (o : Outer) (warnings : list string) (options : KeyOptions) (st : machine)
    : result StartError Outcome * machine :=
  let '(r, root') :=
    generate_key (o_key o) (o_open_fault o) (o_write_fault o) (key_file options) (fst st) in
  ((λ pubkey : string, Printed (warnings ++
      ["Key generated and saved in file " +:+ key_file options; "Public key: " +:+ pubkey])) <$> r,
   (root', snd st)).

Definition main_peer (o : Outer) (peer : string) (op : PeerCommand) (st : machine)
    : result StartError Outcome * machine :=
  let '(r, t') :=
    peer_command (o_connected o) peer
      (match op with WhitelistPeer _ => Whitelist | DenyPeer _ => Deny end) (snd st) in
  ((λ _ : (), Printed []) <$> try_ r, (fst st, t')).

Definition main (fuel : nat) (o : Outer) (cmd : Command) (st : machine)
    : option (result StartError Outcome * machine) :=
  match cmd with
  | Generate (GenNodeKey options) => Some (main_generate o [warning] options st)
  | Generate (GenKey options) => Some (main_generate o [] options st)
  | Migrate _ =>
      Some ((λ _ : (), Printed []) <$> try_ (o_connected o ≫= λ _ : (), o_migrated o), st)
  | Peer peer op => Some (main_peer o peer op st)
  | P2PBeacon config =>
      let '(listen, outside, healthcheck) := o_beacon o in
      r ← p2p_beacon fuel config listen outside healthcheck;
      Some (fmap (M:=result StartError) (λ '(c, net, msg), BeaconUp c net msg) r, st)
  | Run config => r ← run fuel config (o_boot o (fst st)); Some (fmap (M:=result StartError) NodeUp r, st)
  | Show (ShowPublicKeyOf key_file) =>
      Some ((λ line : string, Printed [line]) <$>
            show_public_key (bt_key_fault (o_boot o (fst st))) key_file (fst st), st)
  end.

(** ** A launched node *)

(** [mempool::Storage::fill_deque] of the database: it is never called. *)
Definition fill_deque (scan : ∀ A : Type, list A → list A) (t : Tables)
    (deque : list (Transaction Validated)) : result string (list (Transaction Validated)) :=
  l ← get_unexecuted_transactions scan t; Ok (deque ++ l).

(** C14: When [run] brings a node up, the key it signs with is the one in its key file, the
    metrics are registered, and event loop, database and scheduler are in a state from
    which every invariant of the running node holds, with the configured resources free.
    The mempool's queue is empty, whatever is stored: transactions that were stored and
    not executed before a restart are still in the database, where [fill_deque] would find
    them, but are not in the queue.  A node without execution has no scheduler. *)
Theorem run_starts_node fuel config b l t scan vm_config host_prefix :
  run fuel config b = Some (Ok l) → bt_database b = Ok t → db_wf t →
  read_node_key (bt_key_fault b) (node_key_file config) (bt_fs b) = Ok (l_node_key l) ∧
  register_metrics (bt_registry b) = Ok (l_registry l) ∧
  deque (el_mempool (l_loop l)) = [] ∧ storage (el_mempool (l_loop l)) = t ∧
  (∀ s, refines t s → ∃ q, fill_deque (λ _ l, l) t [] = Ok q ∧
     ∀ tx, tx ∈ q ↔ executed tx = false ∧ ∃ h, store_find s h = Some tx) ∧
  (no_execution config = true → l_scheduler l = None) ∧
  (no_execution config = false → ∃ ss, l_scheduler l = Some ss ∧
     let '(cpus, mem, gpus) := get_configured_resources (gpu_devices config) (num_cpus config)
                                 (mem_gb config) (bt_sys_cpus b) (bt_sys_mem b) in
     node_run scan vm_config (l_node_key l) host_prefix (ResourceManager_new mem cpus gpus) (t_acl t)
       (MkHistory [] []) (MkNode (l_loop l) (ss_state ss) (bt_fs b) [] AtReap)).
Proof.
  unfold run. intros Hrun Ht Hwf. rewrite Ht in Hrun.
  match type of Hrun with match ?r with _ => _ end = _ =>
    destruct r as [[[[key registry] loop] scheduler]|e|] eqn:Hb end; [|done..].
  apply bind_Some in Hrun as (joined & _ & [= Hjoin]).
  apply result_bind_Ok in Hjoin as (net & _ & (? & _ & [= <-])%result_bind_Ok).
  apply result_bind_Ok in Hb as (k & Hkey & (r & Hreg & (db & Hdb & (? & _ & (sc & Hsc & (? & _ &
    [= -> -> <- ->])%result_bind_Ok)%result_bind_Ok)%result_bind_Ok)%result_bind_Ok)%result_bind_Ok).
  injection Hdb as <-.
  cbn [l_node_key l_registry l_loop l_scheduler EventLoop_new el_mempool Mempool_new deque storage].
  split_and!; [done| |done|done|..].
  - destruct (register_metrics (bt_registry b)); [by injection Hreg as ->|done..].
  - intros s Hs. destruct (refines_unexecuted t s Hs) as (q & Hq & Hin). exists q.
    unfold fill_deque. by rewrite Hq.
  - intros Hno. rewrite Hno in Hsc. by injection Hsc as <-.
  - intros Hno. rewrite Hno in Hsc. apply result_bind_Ok in Hsc as (? & _ & Hsc).
    unfold start_scheduler in Hsc.
    destruct (get_configured_resources _ _ _ _ _) as [[cpus mem] gpus].
    destruct (bt_vsock b); [|done..]. injection Hsc as <-. eexists. split; [done|].
    by apply node_start.
Qed.

(** Which host a file is offered at: the scheduler's urls have the address the node
    listens on, those of the RPC server the one it advertises. *)
Lemma download_hosts config b ss :
  start_scheduler config b = Ok ss →
  ss_http_download_host ss =
    "http://" +:+ (ip_to_string (ip (p2p_listen_addr config)) +:+ (":" +:+ pretty (http_download_port config))) ∧
  (ip (local_http_host config) = ip (p2p_listen_addr config) ↔
   p2p_advertised_listen_addr config = None ∨
   ip <$> p2p_advertised_listen_addr config = Some (ip (p2p_listen_addr config))).
Proof.
  intros Hss. split.
  - unfold start_scheduler in Hss. destruct (get_configured_resources _ _ _ _ _) as [[? ?] ?].
    destruct (bt_vsock b); [|done..]. by injection Hss as <-.
  - unfold local_http_host. destruct (p2p_advertised_listen_addr config) as [a|]; [|by split; [left|]].
    change (ip a = ip (p2p_listen_addr config) ↔
      Some a = None ∨ Some (ip a) = Some (ip (p2p_listen_addr config))).
    split; [intros ->; by right|intros [|[= ->]]; done].
Qed.

End launch.

(** ** Keys and the environment *)

Section key_environment.
Context `{Hex, SecretBytes, !SecretBytesLaws, ClapLaws}.

Lemma read_key_back key path root :
  root !! path_resolve path = Some (vec_to_list (sk_serialize key)) →
  read_node_key None path root = Ok key.
Proof.
  intros Hk. unfold read_node_key, fs_read. rewrite Hk. cbn [ok_or]. rewrite array_of_list_vec.
  cbn [unwrap ok_or mbind result_bind]. by rewrite sk_parse_serialize.
Qed.

(** A key that is generated and a node that is run from the same environment, neither
    with a key file on its command line: without [GEVULOT_NODE_KEY_FILE] the node starts
    with the generated key; with it, the key went to the default file all the same, and
    the node, which has no key where the variable points, exits and asks to generate one. *)
Theorem generated_key_and_environment src c o key root root' name :
  on_cli src "node-key-file" = None → on_cli src "key-file" = None →
  parse_Config src = Ok c → parse_KeyOptions src = Ok o →
  generate_key key None None (key_file o) root = (Ok name, root') →
  (in_env src "GEVULOT_NODE_KEY_FILE" = None → read_node_key None (node_key_file c) root' = Ok key) ∧
  (∀ path, in_env src "GEVULOT_NODE_KEY_FILE" = Some path →
     path_resolve path ≠ path_resolve "/var/lib/gevulot/node.key" → root !! path_resolve path = None →
     read_node_key None (node_key_file c) root' = Err (Exit 1)).
Proof.
  intros Hn1 Hn2 Hc Ho Hgen.
  rewrite (options_key_file src o Ho), Hn2 in Hgen. rewrite (config_key_file src c Hc), Hn1. simpl in *.
  assert (root !! path_resolve "/var/lib/gevulot/node.key" = None) as Hfree.
  { unfold generate_key, open_new, try_exists in Hgen. case_bool_decide as Hb; [done|].
    by apply eq_None_not_Some. }
  assert (root' = <[path_resolve "/var/lib/gevulot/node.key" := vec_to_list (sk_serialize key)]> root) as ->.
  { revert Hgen. unfold generate_key, open_new, write_all, mbind, M_bind, mret, M_ret.
    destruct (try_exists _ _); [done|]. intros [= _ <-]. by rewrite insert_insert_eq. }
  split.
  - intros He. rewrite He. simpl. apply read_key_back, lookup_insert_eq.
  - intros path He Hne Hno. rewrite He. simpl. unfold read_node_key, fs_read.
    by rewrite lookup_insert_ne, Hno.
Qed.
End key_environment.

(** ** Evaluation *)

Section launch_witnesses.
#[local] Existing Instances hex_crate hex_crate_laws secp_padded secp_padded_laws secret_bytes
  secret_bytes_laws sha3_toy bigint_toy bincode_toy lru_list url_toy uuid_toy prometheus_set.

#[local] Instance clap_toy : Clap := {|
  clap_value a src :=
    match on_cli src (long a) with
    | Some v => Some v
    | None => match env a ≫= in_env src with Some v => Some v | None => default_value a end
    end;
  clap_list _ _ := [];
  parse_bool s := Ok (bool_decide (s = "true"));
  parse_socket_addr _ := Ok (inl 1%Z, 9999%Z);
  parse_u16 _ := Ok 9995%Z;
  parse_u32 _ := Ok 8080%Z;
  parse_u64 _ := Ok 4%Z
|}.
#[local] Instance clap_toy_laws : ClapLaws.
Proof. by split. Qed.

Definition launch_src (path : option string) : Sources :=
  MkSources (λ _, None) (λ v, if bool_decide (v = "GEVULOT_NODE_KEY_FILE") then path else None).
Definition launch_config (path : option string) : Config :=
  match parse_Config (launch_src path) with
  | Ok c => c
  | _ => MkConfig None "" "" (inl 0%Z, 0%Z) "" true "" [] (inl 0%Z, 0%Z) None 0 "" "" 0 None None None
           (inl 0%Z, 0%Z) None None
  end.
Definition default_key_file : KeyOptions := MkKeyOptions "/var/lib/gevulot/node.key".
Definition launch_fs : fs := snd (generate_key start_key None None (key_file default_key_file) ∅).

Example generated_key_and_environment_witness :
  read_node_key None (node_key_file (launch_config None)) launch_fs = Ok start_key ∧
  read_node_key None (node_key_file (launch_config (Some "/etc/node.key"))) launch_fs = Err (Exit 1).
Proof.
  assert (∀ p, parse_Config (launch_src p) = Ok (launch_config p)) as Hc by (by intros [p|]).
  assert (∀ p, parse_KeyOptions (launch_src p) = Ok default_key_file) as Ho by done.
  assert (∃ name, generate_key start_key None None (key_file default_key_file) ∅ = (Ok name, launch_fs))
    as [name Hg] by (eexists; reflexivity).
  split.
  - by apply (generated_key_and_environment (launch_src None) (launch_config None) default_key_file
      start_key ∅ launch_fs name).
  - apply (generated_key_and_environment (launch_src (Some "/etc/node.key"))
      (launch_config (Some "/etc/node.key")) default_key_file start_key ∅ launch_fs name) with
      (path := "/etc/node.key"); try done.
Defined.

#[local] Instance wire_mute : Wire := {|
  ser_hs0 _ := Err "unused"; de_hs0 _ := Err "unused";
  ser_hs1 _ := Err "unused"; de_hs1 _ := Err "unused";
  ser_msg0 _ := Err "unused"; de_msg0 _ := Err "unused";
  ser_msg1 _ := Err "unused"; de_msg1 _ := Err "unused"
|}.

(** A node with a run that was stored and not executed before a restart. *)
Definition launch_tx (h : u8) (p : Payload.t) : Transaction Validated :=
  MkTransaction (vreplicate 65 zero : PublicKey) (fill h) p 0 Signature_default true false MkValidated.
Definition launch_stored : Transaction Validated := launch_tx "r" (Payload.Run (MkWorkflow [])).
Definition launch_tables : Tables := snd (add_transaction launch_stored Tables_new).
Definition launch_boot : Boot (D:=nat) :=
  MkBoot launch_fs None (Ok launch_tables) (∅ : gset string) Metrics_new (Ok ()) (Ok ()) 4 8192
    (Ok ()) (Ok ()) (MkOutside (λ _, Ok []) (λ _, None)) (Ok ()).

Lemma launch_refines : refines launch_tables (store_add launch_stored Store_new).
Proof.
  apply (refines_add Tables_new Store_new launch_stored refines_new). split; [by_evaluation|constructor].
Qed.

Example run_starts_node_witness :
  ∃ l q, run elements (λ _, "127.0.0.1") 1 (launch_config None) launch_boot = Some (Ok l) ∧
    l_node_key l = start_key ∧ deque (el_mempool (l_loop l)) = [] ∧
    fill_deque (λ _ l, l) launch_tables [] = Ok q ∧ launch_stored ∈ q.
Proof.
  assert (match run elements (λ _, "127.0.0.1") 1 (launch_config None) launch_boot with
          | Some (Ok _) => true | _ => false end = true) as Hup by (vm_compute; reflexivity).
  destruct (run elements (λ _, "127.0.0.1") 1 (launch_config None) launch_boot) as [[l|e|]|] eqn:Hrun;
    [|discriminate..].
  exists l.
  destruct (run_starts_node elements (λ _, "127.0.0.1") 1 (launch_config None) launch_boot l launch_tables
    (λ _ l, l) toy_config "" Hrun eq_refl (rf_wf _ _ launch_refines))
    as (Hkey & _ & Hq & _ & Hfill & _).
  destruct (Hfill _ launch_refines) as (q & Hf & Hin). exists q.
  split; [done|]. split; [|split; [exact Hq|split; [exact Hf|]]].
  - assert (read_node_key None "/var/lib/gevulot/node.key" launch_fs = Ok start_key) as Hk by done.
    change (read_node_key None "/var/lib/gevulot/node.key" launch_fs = Ok (l_node_key l)) in Hkey.
    rewrite Hk in Hkey. by injection Hkey as <-.
  - apply Hin. split; [done|]. exists (fill "r"). by_evaluation.
Defined.
End launch_witnesses.
