(* ===== verification/Qmp.v ===== *)
(** * Monitor client ([crates/node/src/vmm/qemu.rs])

    The client of QEMU's monitor protocol: the commands it sends, and the probe the
    scheduler asks whether a VM is alive.  The stream of the [qapi] crate is a class:
    opening, negotiating and executing a command on it. *)

From S2P Require Import Prelude Types Models Resources Vmm.
From stdpp Require Import pretty.

(** ** Commands *)

(** [qmp::BlockdevOptions]: the options the client sets; the others are [None]. *)
Inductive BlockdevOptions :=
  | BlockdevFile (read_only : option bool) (filename : string)
  | BlockdevRaw (node_name : option string) (file : BlockdevOptions).
Inductive QmpCommand :=
  | query_status
  | blockdev_add (options : BlockdevOptions)
  | device_add (bus id : option string) (driver : string) (arguments : list (string * string))
  | system_reset.
Record StatusInfo := MkStatusInfo { running : bool }.

Class QmpLib := {
  QmpStream : Type;
  open_tcp : string → result string QmpStream;
  negotiate : QmpStream → result string QmpStream;
  execute_status : QmpStream → result string StatusInfo * QmpStream;
  execute : QmpCommand → QmpStream → result string () * QmpStream
}.

Section qmp.
Context `{QmpLib}.

(** [Qmp]; the mutex around the stream is held for one command. *)
Record Qmp := MkQmp { stream : QmpStream }.

Definition Qmp_new (addr : string) : result string Qmp :=
  s ← open_tcp addr; s ← negotiate s; Ok (MkQmp s).

Definition send (c : QmpCommand) : M Qmp string () := λ q,
  let '(r, s) := execute c (stream q) in (r, MkQmp s).

Definition Qmp_query_status : M Qmp string StatusInfo := λ q,
  let '(r, s) := execute_status (stream q) in (r, MkQmp s).
Definition Qmp_blockdev_add (node_name device_file : string) : M Qmp string () :=
  send (blockdev_add (BlockdevRaw (Some node_name) (BlockdevFile (Some false) device_file))).
Definition Qmp_device_add (node_name : string) (disk_id : Z) : M Qmp string () :=
  send (device_add (Some "scsi0.0") (Some node_name) "scsi-hd"
          [("drive", node_name); ("device_id", "persistent-disk-" +:+ pretty disk_id)]).
Definition Qmp_system_reset : M Qmp string () := send system_reset.

(** [VMClient::is_alive] *)
Definition is_alive : M Qmp string bool := λ q,
  let '(r, q) := Qmp_query_status q in (running <$> r, q).

(** The probe tells a stopped guest from a monitor that does not answer. *)
Lemma is_alive_spec q :
  (∀ b, fst (is_alive q) = Ok b ↔ fst (execute_status (stream q)) = Ok (MkStatusInfo b)) ∧
  (∀ e, fst (is_alive q) = Err e ↔ fst (execute_status (stream q)) = Err e).
Proof.
  unfold is_alive, Qmp_query_status. destruct (execute_status (stream q)) as [[[]|e|] s]; simpl.
  - split; intros; split; intros [= <-]; done.
  - split; intros; split; intros [= <-]; done.
  - split; intros; split; done.
Qed.
End qmp.
