(* ===== verification/Tests.v ===== *)
(** * The unit tests ([#[cfg(test)]] of the node's modules)

    The repository's own tests as scenarios of the model: each is a definition that
    follows the test statement by statement, where [assert!] and [unwrap] may panic,
    and an example that it passes.  Values a test draws at random are arguments. *)

From S2P Require Import Prelude Types Models Files Transaction Event Workflow Watchdog Resources Protocol KeyCapsule Database Rpc Cli Client.

(** ** Assertions *)

Definition assert_that {S} (b : bool) : M S string () := λ s, (if b then Ok () else Panic, s).
Definition assert_state {S} (b : S → bool) : M S string () := λ s, (if b s then Ok () else Panic, s).

Definition passes {S} (test : M S string ()) (s : S) : bool := is_ok (fst (test s)).

(** ** Dependencies of transactions ([mempool/event.rs]) *)

Section event_tests.
Context `{Hex, Secp, Sha3, NumBigint, Bincode, Lru}.

Record TestDb := MkTestDb { tx_db : gmap Hash (Transaction Validated); program_db : gset Hash }.
Definition TestDb_storage (db : TestDb) : ValidateStorage :=
  MkValidateStorage (λ h, Ok (tx_db db !! h)) (λ h, Ok (bool_decide (h ∈ program_db db))).

(** The variables of the tests, and the clock. *)
Record EventTest := MkEventTest { et_db : TestDb; et_caches : DepState; et_clock : Z }.

Definition set_tx (tx : Transaction Validated) : M EventTest string () := modify (λ s,
  MkEventTest (MkTestDb (<[hash tx := tx]> (tx_db (et_db s))) (program_db (et_db s))) (et_caches s) (et_clock s)).
Definition insert_program (h : Hash) : M EventTest string () := modify (λ s,
  MkEventTest (MkTestDb (tx_db (et_db s)) ({[h]} ∪ program_db (et_db s))) (et_caches s) (et_clock s)).
Definition sleep (ms : Z) : M EventTest string () := modify (λ s,
  MkEventTest (et_db s) (et_caches s) (et_clock s + ms)).

(** The call, and [assert!(res.is_ok())] with the [unwrap]. *)
Definition test_validate_tx_dep (ev : TxEvent WaitTx) : M EventTest string (list (TxEvent NewTx)) := λ s,
  let '(r, caches) := validate_tx_dep (et_clock s) ev (TestDb_storage (et_db s)) (et_caches s) in
  (match r with Ok l => Ok l | _ => Panic end, MkEventTest (et_db s) caches (et_clock s)).
Definition test_manage_program_dep (ev : TxEvent WaitTx) : M EventTest string (list (TxEvent WaitTx)) := λ s,
  let '(r, caches) := on_program (manage_program_dep (et_clock s) ev (TestDb_storage (et_db s))) (et_caches s) in
  (match r with Ok l => Ok l | _ => Panic end, MkEventTest (et_db s) caches (et_clock s)).

Definition waiting_programs (s : EventTest) : nat := size (waiting_tx (programid_cache (et_caches s))).
Definition cached_programs (s : EventTest) : nat :=
  length (lru_keys (cached_tx_for_verification (programid_cache (et_caches s)))).
Definition waiting_txs (s : EventTest) : nat := size (waiting_tx (parent_cache (et_caches s))).
Definition tx_cached (h : Hash) (s : EventTest) : bool := is_tx_cached (parent_cache (et_caches s)) h.

(** [key] is the draw of [SecretKey::random]. *)
Definition new_tx_event (key : SecretKey) (p : Payload.t) : result string (TxEvent WaitTx) :=
  tx ← Transaction_new p key;
  Ok (MkTxEvent (MkTransaction (author tx) (hash tx) (payload tx) (nonce tx) (signature tx) (executed tx)
    (executed tx) Received.P2P) MkWaitTx).
Definition new_empty_tx_event (key : SecretKey) : result string (TxEvent WaitTx) :=
  new_tx_event key Payload.Empty.
Definition new_proof_tx_event (key : SecretKey) (parent : Hash) : result string (TxEvent WaitTx) :=
  new_tx_event key (Payload.Proof parent Hash_default [] []).
Definition seed_hash (seed : nat) : Hash := fill (ascii_of_nat seed).
Definition seed_program (seed : nat) : ProgramMetadata := MkProgramMetadata "" (seed_hash seed) "" "" "" None.
Definition new_deploy_tx_event (key : SecretKey) (seed : nat) : result string (TxEvent WaitTx) :=
  new_tx_event key (Payload.Deploy "test" (seed_program seed) (seed_program (seed + 1))).
Definition new_run_tx_event_for_programs (key : SecretKey) (proover_seed verifier_seed : nat)
    : result string (TxEvent WaitTx) :=
  new_tx_event key (Payload.Run (MkWorkflow
    [MkWorkflowStep (seed_hash proover_seed) [] []; MkWorkflowStep (seed_hash verifier_seed) [] []])).
Definition new_run_tx_event (key : SecretKey) (seed : nat) : result string (TxEvent WaitTx) :=
  new_run_tx_event_for_programs key seed (seed + 1).
Definition into_receive (tx : Transaction Received.t) : Transaction Validated :=
  MkTransaction (author tx) (hash tx) (payload tx) (nonce tx) (signature tx) (executed tx) (executed tx)
    MkValidated.

(** [TxCache::build] of both caches. *)
Definition event_test (program_cache_size tx_cache_size : nat) : EventTest :=
  MkEventTest (MkTestDb ∅ ∅) (MkDepState (TxCache_build program_cache_size 2 10) (TxCache_build tx_cache_size 2 10)) 0.

Context (key : nat → SecretKey).

Definition test_wait_tx_for_different_deploy_program : M EventTest string () :=
  deploy1 ← lift (new_deploy_tx_event (key 1) 1);
  deploy2 ← lift (new_deploy_tx_event (key 2) 3);
  run1 ← lift (new_run_tx_event_for_programs (key 3) 1 4);
  res ← test_validate_tx_dep run1;
  _ ← assert_state (λ s, (waiting_programs s =? 1) && (length res =? 0) && (cached_programs s =? 0));
  res ← test_validate_tx_dep deploy1;
  _ ← assert_state (λ s, (waiting_programs s =? 1) && (length res =? 1) && (cached_programs s =? 2));
  res ← test_validate_tx_dep deploy2;
  assert_state (λ s, (waiting_programs s =? 0) && (length res =? 2) && (cached_programs s =? 4)).

Definition test_wait_tx_for_program : M EventTest string () :=
  deploy1 ← lift (new_deploy_tx_event (key 1) 1);
  run1 ← lift (new_run_tx_event (key 2) 1);
  res ← test_manage_program_dep deploy1;
  _ ← assert_state (λ s, (waiting_programs s =? 0) && (length res =? 1) && (cached_programs s =? 2));
  res ← test_manage_program_dep run1;
  _ ← assert_state (λ s, (waiting_programs s =? 0) && (length res =? 1) && (cached_programs s =? 2));
  deploy2 ← lift (new_deploy_tx_event (key 3) 3);
  run2 ← lift (new_run_tx_event (key 4) 3);
  proof2 ← lift (new_proof_tx_event (key 5) (hash (ev_tx run2)));
  res ← test_manage_program_dep run2;
  _ ← assert_state (λ s, (waiting_programs s =? 1) && (length res =? 0) && (cached_programs s =? 2));
  res ← test_manage_program_dep proof2;
  _ ← assert_state (λ s, (waiting_programs s =? 1) && (length res =? 1) && (cached_programs s =? 2));
  res ← test_manage_program_dep deploy2;
  _ ← assert_state (λ s, (waiting_programs s =? 0) && (length res =? 2) && (cached_programs s =? 4) &&
        bool_decide (hash ∘ ev_tx <$> head res = Some (hash (ev_tx deploy2))));
  _ ← insert_program (seed_hash 5);
  _ ← insert_program (seed_hash 6);
  run ← lift (new_run_tx_event (key 6) 5);
  res ← test_manage_program_dep run;
  assert_state (λ s, (waiting_programs s =? 0) && (length res =? 1) && (cached_programs s =? 4)).

Definition test_evict_wait_tx : M EventTest string () :=
  parent1 ← lift (new_empty_tx_event (key 1));
  parent2 ← lift (new_empty_tx_event (key 2));
  let parent1_hash := hash (ev_tx parent1) in
  tx_event ← lift (new_proof_tx_event (key 3) parent1_hash);
  _ ← test_validate_tx_dep tx_event;
  _ ← assert_state (λ s, waiting_txs s =? 1);
  tx_event ← lift (new_proof_tx_event (key 4) (hash (ev_tx parent2)));
  _ ← test_validate_tx_dep tx_event;
  _ ← assert_state (λ s, waiting_txs s =? 2);
  _ ← sleep 100;
  tx_event ← lift (new_proof_tx_event (key 5) parent1_hash);
  let tx_hash := hash (ev_tx tx_event) in
  _ ← test_validate_tx_dep tx_event;
  _ ← assert_state (λ s, waiting_txs s =? 1);
  ret_txs ← test_validate_tx_dep parent1;
  _ ← assert_that (length ret_txs =? 2);
  _ ← assert_that (bool_decide (parent1_hash ∈ hash ∘ ev_tx <$> ret_txs));
  assert_that (bool_decide (tx_hash ∈ hash ∘ ev_tx <$> ret_txs)).

Definition test_wait_tx_process_event : M EventTest string () :=
  tx_event1 ← lift (new_empty_tx_event (key 1));
  let tx1_hash := hash (ev_tx tx_event1) in
  _ ← test_validate_tx_dep tx_event1;
  _ ← set_tx (into_receive (ev_tx tx_event1));
  _ ← assert_state (λ s, (waiting_txs s =? 0) && tx_cached tx1_hash s);
  tx2_event ← lift (new_proof_tx_event (key 2) tx1_hash);
  let tx2_hash := hash (ev_tx tx2_event) in
  _ ← test_validate_tx_dep tx2_event;
  _ ← set_tx (into_receive (ev_tx tx2_event));
  _ ← assert_state (λ s, (waiting_txs s =? 0) && tx_cached tx2_hash s);
  parent ← lift (new_empty_tx_event (key 3));
  let parent_hash := hash (ev_tx parent) in
  tx_event3 ← lift (new_proof_tx_event (key 4) parent_hash);
  let tx3_hash := hash (ev_tx tx_event3) in
  _ ← test_validate_tx_dep tx_event3;
  _ ← assert_state (λ s, (waiting_txs s =? 1) && negb (tx_cached tx3_hash s));
  ret_events ← test_validate_tx_dep parent;
  _ ← assert_state (λ s, (waiting_txs s =? 0) && tx_cached parent_hash s && tx_cached tx3_hash s);
  _ ← assert_that (length ret_events =? 2);
  _ ← assert_that (bool_decide (parent_hash ∈ hash ∘ ev_tx <$> ret_events));
  _ ← assert_that (bool_decide (tx3_hash ∈ hash ∘ ev_tx <$> ret_events));
  _ ← assert_state (λ s, negb (tx_cached tx1_hash s));
  tx4_event ← lift (new_proof_tx_event (key 5) tx1_hash);
  _ ← test_validate_tx_dep tx4_event;
  assert_state (λ s, (waiting_txs s =? 0) && tx_cached (hash (ev_tx tx4_event)) s).
End event_tests.

(** ** Next tasks ([workflow/mod.rs]) *)

Section workflow_tests.
Context `{Hex, Secp, Sha3, NumBigint, Bincode, Uuid}.

Definition TxStore : Type := gmap Hash (Transaction Validated).
Definition TxStore_new (txs : list (Transaction Validated)) : TxStore :=
  fold_left (λ store tx, <[hash tx := tx]> store) txs ∅.
Definition TxStore_store : TransactionStore TxStore :=
  MkTransactionStore (λ txs h, Ok (txs !! h)) (λ _, mret ()).

Definition test_validated (tx : Transaction Created) : Transaction Validated :=
  MkTransaction (author tx) (hash tx) (payload tx) (nonce tx) (signature tx) (executed tx) (executed tx)
    MkValidated.
Definition new_validated (key : SecretKey) (p : Payload.t) : result string (Transaction Validated) :=
  tx ← Transaction_new p key; Ok (test_validated tx).
Definition transaction_for_workflow_steps (key : SecretKey) (steps : list WorkflowStep)
    : result string (Transaction Validated) := new_validated key (Payload.Run (MkWorkflow steps)).
Definition transaction_for_proof (key : SecretKey) (parent program : Hash) : result string (Transaction Validated) :=
  new_validated key (Payload.Proof parent program (as_bytes "proof.") []).
Definition transaction_for_proofkey (key : SecretKey) (parent : Hash) : result string (Transaction Validated) :=
  new_validated key (Payload.ProofKey parent (as_bytes "key.")).
Definition transaction_for_verification (key : SecretKey) (parent program : Hash)
    : result string (Transaction Validated) :=
  new_validated key (Payload.Verification parent program (as_bytes "verification.") []).

(** [id] is the draw of [Uuid::new_v4]; no transaction of the tests is more than three
    steps below its [Run]. *)
Context (key : nat → SecretKey) (id : TaskId).
Definition test_next_task (tx : Transaction Validated) : M TxStore string (option (result WorkflowError.t (option Task))) :=
  λ s, (Ok (fst <$> next_task TxStore_store 4 id tx s), s).

Definition test_next_task_for_empty_workflow_steps : M TxStore string () :=
  tx ← lift (transaction_for_workflow_steps (key 1) []);
  res ← test_next_task tx;
  assert_that (match res with Some (Err _) => true | _ => false end).

Definition test_next_task_for_simple_workflow_steps (prover_hash verifier_hash : Hash) : M TxStore string () :=
  let proving := MkWorkflowStep prover_hash [] [] in
  let verifying := MkWorkflowStep verifier_hash [] [ProgramData.Output prover_hash "proof.dat"] in
  tx ← lift (transaction_for_workflow_steps (key 1) [proving; verifying]);
  _ ← modify (λ _, TxStore_new [tx]);
  res ← test_next_task tx;
  match res with
  | Some (Ok (Some task)) =>
      assert_that (bool_decide (task_kind task = TaskKind.Proof) &&
        bool_decide (task_program_id task = ws_program proving) && bool_decide (task_args task = []))
  | _ => lift Panic
  end.

Definition test_next_task_for_verification (prover_hash verifier_hash : Hash) : M TxStore string () :=
  let workflow_steps := [MkWorkflowStep prover_hash [] []; MkWorkflowStep verifier_hash [] []] in
  root_tx ← lift (transaction_for_workflow_steps (key 1) workflow_steps);
  proof_tx ← lift (transaction_for_proof (key 2) (hash root_tx) prover_hash);
  proofkey_tx ← lift (transaction_for_proofkey (key 3) (hash proof_tx));
  verification_tx ← lift (transaction_for_verification (key 4) (hash proof_tx) verifier_hash);
  _ ← modify (λ _, TxStore_new [root_tx; proof_tx; proofkey_tx; verification_tx]);
  task ← test_next_task proofkey_tx;
  assert_that (match task with Some (Ok _) => true | _ => false end).
End workflow_tests.

(** ** The watchdog ([watchdog/mod.rs]) *)

(** The health check and the clock: the next tick of the timer, and when the waiting
    for a signal times out. *)
Record WatchdogTest := MkWatchdogTest {
  wt_watchdog : Watchdog; wt_now : Z; wt_tick : Z; wt_timeout : Z
}.
Definition test_signal_limit : nat := 2.
Definition test_signal_timeout : Z := 100.
Definition test_no_loop_timeout : Z := 300.

Definition watchdog_turn (e : Watchdog.Event) (now next_tick : Z) (s : WatchdogTest) : WatchdogTest :=
  MkWatchdogTest (run_healthcheck_turn test_signal_limit e (wt_watchdog s)) now next_tick (now + test_signal_timeout).

(** What the timers do until [until]; every turn starts a new timeout. *)
Fixpoint watchdog_wait (fuel : nat) (until : Z) (s : WatchdogTest) : option WatchdogTest :=
  if (until <? Z.min (wt_tick s) (wt_timeout s))%Z
  then Some (MkWatchdogTest (wt_watchdog s) until (wt_tick s) (wt_timeout s))
  else match fuel with
       | O => None
       | S fuel =>
           if (wt_tick s <=? wt_timeout s)%Z
           then watchdog_wait fuel until (watchdog_turn Tick (wt_tick s) (wt_tick s + test_no_loop_timeout) s)
           else watchdog_wait fuel until (watchdog_turn Timeout (wt_timeout s) (wt_tick s) s)
       end.

Definition test_sleep (ms : Z) : M WatchdogTest string () := λ s,
  match watchdog_wait 10 (wt_now s + ms) s with Some s => (Ok (), s) | None => (Panic, s) end.
Definition test_send (signal : HealthCheckSignal) : M WatchdogTest string () :=
  modify (λ s, watchdog_turn (Signal signal) (wt_now s) (wt_tick s) s).
Definition watchdog_is (w : WatchDogState) : M WatchdogTest string () :=
  assert_state (λ s, bool_decide (watchdog_state (wt_watchdog s) = w)).

(** [interval] ticks at once. *)
Definition watchdog_test : WatchdogTest := MkWatchdogTest Watchdog_new 0 0 test_signal_timeout.

Definition test_watchdog : M WatchdogTest string () :=
  _ ← watchdog_is Alive; _ ← test_send SchedulerLoopOk; _ ← test_sleep 20;
  _ ← watchdog_is Alive; _ ← test_send (SchedulerMempoolLen 0); _ ← test_sleep 20;
  _ ← watchdog_is Alive; _ ← test_send (SchedulerMempoolLen 1); _ ← test_sleep 20;
  _ ← watchdog_is Critical; _ ← test_send SchedulerLoopOk; _ ← test_send (SchedulerMempoolLen 0); _ ← test_sleep 20;
  _ ← watchdog_is Alive; _ ← test_sleep 150;
  _ ← watchdog_is Alive; _ ← test_sleep 100;
  _ ← watchdog_is Graceful; _ ← test_send (SchedulerMempoolLen 0); _ ← test_sleep 20;
  _ ← watchdog_is Alive; _ ← test_sleep 350;
  _ ← watchdog_is Critical; _ ← test_send SchedulerLoopOk; _ ← test_sleep 20;
  watchdog_is Alive.

(** ** Resources ([scheduler/resource_manager.rs]) *)

Definition test_allocate (req : ResourceRequest) : M ResourceManager string (result ResourceError ResourceAllocation) :=
  λ rm, let '(r, rm) := try_allocate req rm in (Ok r, rm).
Definition expect_allocation (req : ResourceRequest) : M ResourceManager string ResourceAllocation :=
  ra ← test_allocate req; lift (expect ra).
Definition refused (req : ResourceRequest) : M ResourceManager string () :=
  ra ← test_allocate req; assert_that (is_err ra).
Definition test_manager : ResourceManager := ResourceManager_new 2048 4 0.

(** An allocation that is not bound is dropped at once, and so freed. *)
Definition allocate_and_drop (req : ResourceRequest) : M ResourceManager string () :=
  ra ← expect_allocation req; modify (free ra).

Definition test_try_allocate_succeeds : M ResourceManager string () :=
  let req := MkResourceRequest 1024 1 0 in
  _ ← allocate_and_drop req; allocate_and_drop req.
Definition test_free_succeeds : M ResourceManager string () :=
  let req := MkResourceRequest 2048 4 0 in
  ra ← expect_allocation req;
  _ ← refused req;
  _ ← modify (free ra);
  allocate_and_drop req.
Definition test_try_allocate_fails_on_mem : M ResourceManager string () := refused (MkResourceRequest 4096 2 0).
Definition test_try_allocate_fails_on_cpus : M ResourceManager string () := refused (MkResourceRequest 1024 8 0).
Definition test_try_allocate_fails_on_gpus : M ResourceManager string () := refused (MkResourceRequest 1024 1 1).

(** ** Signatures ([types/transaction.rs]) *)

Section transaction_tests.
Context `{Hex, Secp, Sha3, NumBigint, Bincode}.
Context (sk : SecretKey).

Definition test_sign_and_verify_tx : result string bool :=
  tx ← Transaction_new Payload.Empty sk; verify (into_received tx Received.P2P).

Definition test_verify_fails_on_tamper : result string bool :=
  tx ← Transaction_new Payload.Empty sk;
  let tx := MkTransaction (author tx) (hash tx) (payload tx) (nonce tx + 1) (signature tx) (propagated tx)
              (executed tx) (state tx) in
  negb <$> verify (into_received tx Received.TXRESULT).

Definition test_tx_validate_ensures_unique_programs : bool :=
  let step := MkWorkflowStep Hash_default [] [] in
  let tx := MkTransaction (from_secret_key sk) Hash_default (Payload.Run (MkWorkflow [step; step])) 0
              Signature_default false false MkCreated in
  is_err (validate (into_received tx Received.RPC)).

Definition test_tx_validations_verifies_signature : bool :=
  is_err (validate (into_received Transaction_default Received.RPC)).
End transaction_tests.

(** ** Transaction trees ([rpc_server/mod.rs]) *)

Definition is_leaf (h : Hash) (t : TransactionTree) : bool :=
  match t with Leaf h' => bool_decide (h' = h) | _ => false end.
Definition is_node (h : Hash) (children : list (TransactionTree → bool)) (t : TransactionTree) : bool :=
  match t with
  | Node ts h' => bool_decide (h' = h) && (length ts =? length children) && forallb id (zip_with id children ts)
  | _ => false
  end.
Definition is_root (h : Hash) (children : list (TransactionTree → bool)) (t : TransactionTree) : bool :=
  match t with
  | Root ts h' => bool_decide (h' = h) && (length ts =? length children) && forallb id (zip_with id children ts)
  | _ => false
  end.
Definition tree_matches (p : TransactionTree → bool) (r : result Unfinished TransactionTree) : bool :=
  match r with Ok t => p t | _ => false end.

Definition test_build_tx_tree_as_expected (root node1 node2 leaf1 leaf2 leaf3 leaf4 : Hash) : bool :=
  let txs := [(root, None); (node1, Some root); (node2, Some root); (leaf1, Some node1); (leaf2, Some node1);
              (leaf3, Some node2); (leaf4, Some node2)] in
  tree_matches (is_root root [is_node node1 [is_leaf leaf1; is_leaf leaf2]; is_node node2 [is_leaf leaf3; is_leaf leaf4]])
    (build_tx_tree 3 root txs).
Definition test_build_tx_tree_just_root (root : Hash) : bool :=
  tree_matches (is_root root []) (build_tx_tree 3 root [(root, None)]).
Definition test_build_tx_tree_one_node_one_leaf (root node1 leaf1 : Hash) : bool :=
  tree_matches (is_root root [is_node node1 [is_leaf leaf1]])
    (build_tx_tree 3 root [(root, None); (node1, Some root); (leaf1, Some node1)]).
Definition test_build_tx_tree_root_and_leaf (root leaf1 : Hash) : bool :=
  tree_matches (is_root root [is_leaf leaf1]) (build_tx_tree 3 root [(root, None); (leaf1, Some root)]).

(** ** Key capsules ([types/key_capsule.rs]) *)

Section capsule_tests.
Context `{Ecies}.

Definition hello : list u8 := as_bytes "Hello, World!".

(** [sk] is the key [KeyCapsule::new] generates. *)
Definition test_recipients (sk : SecretKey) (recipients readers others : list SecretKey) : result string bool :=
  capsule ← KeyCapsule_new sk hello (from_secret_key <$> recipients);
  Ok (bool_decide (hello ≠ msg capsule) &&
      forallb (λ k, bool_decide (decrypt capsule k = Ok hello)) readers &&
      forallb (λ k, is_err (decrypt capsule k)) others).

Definition test_no_recipient (sk : SecretKey) : result string bool :=
  test_recipients sk [] [] [SecretKey_default].
Definition test_one_recipient (sk sk1 : SecretKey) : result string bool := test_recipients sk [sk1] [sk1] [].
Definition test_two_recipients (sk sk1 sk2 : SecretKey) : result string bool :=
  test_recipients sk [sk1; sk2] [sk1; sk2] [].
Definition test_not_in_recipients (sk sk1 sk2 : SecretKey) : result string bool :=
  test_recipients sk [sk1] [sk1] [sk2].
End capsule_tests.

(** ** Messages ([p2p/protocol/mod.rs]) *)

Section protocol_tests.
Context `{Wire, Hex, Sha3, NumBigint, Bincode}.

(** [new_tx] of these tests is [new_validated] of an empty payload. *)
Definition received_tx (orig_tx : Transaction Validated) (msg : result string Msg.t) : bool :=
  match msg with Ok (Msg.Transaction tx) => bool_decide (orig_tx = tx) | _ => false end.

Definition test_serialize_deserialize (orig_tx : Transaction Validated) : bool :=
  received_tx orig_tx (bs ← serialize_msg (Msg.Transaction orig_tx); deserialize_msg bs).
Definition test_v0_serialize_to_deserialize (orig_tx : Transaction Validated) : bool :=
  received_tx orig_tx (bs ← ser_msg0 (V0.V0 (V0.Transaction orig_tx)); deserialize_msg bs).
Definition test_new_serialize_v0_to_deserialize (orig_tx : Transaction Validated) : bool :=
  received_tx orig_tx (bs ← new_serialize_msg 0 (Msg.Transaction orig_tx); deserialize_msg bs).
Definition test_new_serialize_v1_to_deserialize (orig_tx : Transaction Validated) : bool :=
  received_tx orig_tx (bs ← new_serialize_msg 1 (Msg.Transaction orig_tx); deserialize_msg bs).
End protocol_tests.

(** ** Resource requirements ([crates/cli/src/main.rs]) *)

Definition test_default_resource_requirements : bool :=
  bool_decide (resource_requirements None None None = None).
Definition test_cpus_resource_requirements : bool :=
  bool_decide (resource_requirements (Some 16%Z) None None =
    Some (MkResourceRequest (rr_mem ResourceRequest_default) 16 (rr_gpus ResourceRequest_default))).
Definition test_mem_resource_requirements : bool :=
  bool_decide (resource_requirements None (Some 24576%Z) None =
    Some (MkResourceRequest 24576 (rr_cpus ResourceRequest_default) (rr_gpus ResourceRequest_default))).
Definition test_gpus_resource_requirements : bool :=
  bool_decide (resource_requirements None None (Some 1%Z) =
    Some (MkResourceRequest (rr_mem ResourceRequest_default) (rr_cpus ResourceRequest_default) 1)).
Definition test_cpu_mem_requirements : bool :=
  bool_decide (resource_requirements (Some 4%Z) (Some 4096%Z) None =
    Some (MkResourceRequest 4096 4 (rr_gpus ResourceRequest_default))).

(** ** They pass

    For every library with the documented properties, where the outcome does not depend
    on what is drawn; on the concrete models otherwise. *)

Section transaction_tests_pass.
Context `{Hex, SecpLaws, Sha3, NumBigint, Bincode}.

Lemma test_sign_and_verify_tx_passes sk : test_sign_and_verify_tx sk = Ok true.
Proof.
  unfold test_sign_and_verify_tx, verify, compute_hash. simpl.
  by rewrite signature_secp_roundtrip, secp_verify_sign.
Qed.

Lemma test_tx_validate_ensures_unique_programs_passes sk : test_tx_validate_ensures_unique_programs sk = true.
Proof.
  unfold test_tx_validate_ensures_unique_programs, validate. simpl.
  by rewrite decide_False, decide_True by set_solver.
Qed.
End transaction_tests_pass.

Ltac pairwise H := rewrite !NoDup_cons, !not_elem_of_cons in H; destruct_and! H.
Ltac build_tree := cbn [build_tx_tree filter list_filter]; repeat (case_decide; try congruence; cbn);
  unfold tree_matches, is_root, is_node, is_leaf; cbn; rewrite ?bool_decide_eq_true_2 by done; done.

(** For any hashes that differ. *)
Lemma test_build_tx_tree_just_root_passes root : test_build_tx_tree_just_root root = true.
Proof. unfold test_build_tx_tree_just_root. build_tree. Qed.
Lemma test_build_tx_tree_root_and_leaf_passes root leaf1 : NoDup [root; leaf1] →
  test_build_tx_tree_root_and_leaf root leaf1 = true.
Proof. intros Hd. pairwise Hd. unfold test_build_tx_tree_root_and_leaf. build_tree. Qed.
Lemma test_build_tx_tree_one_node_one_leaf_passes root node1 leaf1 : NoDup [root; node1; leaf1] →
  test_build_tx_tree_one_node_one_leaf root node1 leaf1 = true.
Proof. intros Hd. pairwise Hd. unfold test_build_tx_tree_one_node_one_leaf. build_tree. Qed.
Lemma test_build_tx_tree_as_expected_passes root node1 node2 leaf1 leaf2 leaf3 leaf4 :
  NoDup [root; node1; node2; leaf1; leaf2; leaf3; leaf4] →
  test_build_tx_tree_as_expected root node1 node2 leaf1 leaf2 leaf3 leaf4 = true.
Proof. intros Hd. pairwise Hd. unfold test_build_tx_tree_as_expected. build_tree. Qed.

Section capsule_tests_pass.
Context `{EciesLaws}.
(** A ciphertext is not its message, and the keys that are drawn differ. *)
Context (hidden : ∀ pk c, ecies_encrypt pk hello = Ok c → c ≠ hello).

Lemma test_recipients_passes sk recipients others :
  NoDup (pk_serialize ∘ from_secret_key <$> recipients) →
  (∀ k, k ∈ others → pk_serialize (from_secret_key k) ∉ pk_serialize ∘ from_secret_key <$> recipients) →
  test_recipients sk recipients recipients others = Ok true.
Proof.
  intros Hd Ho. destruct (capsule_recipients sk hello recipients) as (capsule & Hnew & Hin & Hout).
  unfold test_recipients. rewrite Hnew. simpl. f_equal. rewrite !andb_true_iff, bool_decide_eq_true.
  rewrite !forallb_forall. split; [split|].
  - unfold KeyCapsule_new in Hnew. apply result_bind_Ok in Hnew as (ks & _ & Hnew).
    destruct (ecies_encrypt _ hello) as [c|e|] eqn:Hc; simplify_eq/=. intros Heq. by eapply hidden.
  - intros k Hk%list_elem_of_In. apply bool_decide_eq_true, Hin; [done|]. intros k' Hk' Heq.
    apply list_elem_of_lookup in Hk as [i Hi]. apply list_elem_of_lookup in Hk' as [j Hj].
    assert (i = j) as ->; [|by simplify_eq].
    eapply NoDup_lookup; [exact Hd|..]; rewrite list_lookup_fmap, ?Hi, ?Hj; simpl; by rewrite ?Heq.
  - intros k Hk%list_elem_of_In. by rewrite Hout by auto.
Qed.
End capsule_tests_pass.

Section protocol_tests_pass.
Context `{Wire}.
(** What is documented of [bincode], for the transaction of the test. *)
Context (tx : Transaction Validated) (bs0 bs1 : list u8).
Context (S0 : ser_msg0 (V0.V0 (V0.Transaction tx)) = Ok bs0) (D0 : de_msg0 bs0 = Ok (V0.V0 (V0.Transaction tx))).

Lemma test_v0_serialize_to_deserialize_passes :
  test_serialize_deserialize tx = true ∧ test_v0_serialize_to_deserialize tx = true.
Proof.
  unfold test_serialize_deserialize, test_v0_serialize_to_deserialize, serialize_msg, deserialize_msg, msg0_parse.
  simpl. rewrite S0. simpl. rewrite D0. simpl. by rewrite bool_decide_eq_true_2.
Qed.

(** A version 0 message does not start with a version number. *)
Lemma test_new_serialize_v1_to_deserialize_passes :
  ser_msg1 (V1.V1m (V1.Transaction tx)) = Ok bs1 → de_msg1 bs1 = Ok (V1.V1m (V1.Transaction tx)) →
  bs0 ≠ [] → bs1 ≠ [] →
  (∀ v rest, (v = 0 ∨ v = 1)%Z → is_ok (de_msg0 (be_bytes 8 v ++ rest)) = false) →
  test_new_serialize_v0_to_deserialize tx = true ∧ test_new_serialize_v1_to_deserialize tx = true.
Proof.
  intros S1 D1 Hne0 Hne1 Htag.
  assert (∀ v bs, (v = 0 ∨ v = 1)%Z → bs ≠ [] → deserialize_msg (be_bytes 8 v ++ bs) =
    (if decide (v = 0)%Z then msg0_parse bs else msg1_parse bs)) as Hde.
  { intros v bs Hv Hne. unfold deserialize_msg. specialize (Htag v bs Hv).
    destruct (version_prefix v bs) as (-> & -> & ->); [done|].
    assert (¬ 8 + length bs < 9) as Hlen%Nat.ltb_nlt by (destruct bs; simpl; [done|lia]).
    rewrite Hlen. unfold msg0_parse at 1. destruct (de_msg0 (be_bytes 8 v ++ bs)); [done|..];
      by destruct Hv as [-> | ->]. }
  unfold test_new_serialize_v0_to_deserialize, test_new_serialize_v1_to_deserialize, new_serialize_msg.
  cbn [msg0_of msg1_of]. rewrite S0, S1. cbn [mbind result_bind]. rewrite !Hde by auto.
  unfold msg0_parse, msg1_parse. simpl.
  rewrite D0, D1. simpl. by rewrite bool_decide_eq_true_2.
Qed.
End protocol_tests_pass.

Lemma cli_tests_pass :
  [test_default_resource_requirements; test_cpus_resource_requirements; test_mem_resource_requirements;
   test_gpus_resource_requirements; test_cpu_mem_requirements] = replicate 5 true.
Proof. reflexivity. Qed.

Lemma resource_tests_pass :
  (λ t, passes t test_manager) <$> [test_try_allocate_succeeds; test_free_succeeds; test_try_allocate_fails_on_mem;
    test_try_allocate_fails_on_cpus; test_try_allocate_fails_on_gpus] = replicate 5 true.
Proof. reflexivity. Qed.

Lemma test_watchdog_passes : passes test_watchdog watchdog_test = true.
Proof. vm_compute. reflexivity. Qed.

Section toy_tests.
#[local] Existing Instances hex_crate secp_toy sha3_toy bigint_toy bincode_toy lru_list uuid_toy.
Definition draw (n : nat) : SecretKey := toy_key (ascii_of_nat n).

Lemma event_tests_pass :
  passes (test_wait_tx_for_different_deploy_program draw) (event_test 4 2) &&
  passes (test_wait_tx_for_program draw) (event_test 4 2) &&
  passes (test_evict_wait_tx draw) (event_test 2 2) &&
  passes (test_wait_tx_process_event draw) (event_test 2 2) = true.
Proof. vm_compute. reflexivity. Qed.

Lemma workflow_tests_pass (id : TaskId) :
  passes (test_next_task_for_empty_workflow_steps draw id) (TxStore_new []) &&
  passes (test_next_task_for_simple_workflow_steps draw id (fill "p") (fill "v")) (TxStore_new []) &&
  passes (test_next_task_for_verification draw id (fill "p") (fill "v")) (TxStore_new []) = true.
Proof. vm_compute. reflexivity. Qed.

Lemma test_tx_validations_verifies_signature_passes : test_tx_validations_verifies_signature = true.
Proof. vm_compute. reflexivity. Qed.

(** A digest that depends on every byte. *)
Definition sha3_sum : Sha3 := {|
  sha3_256 bs := default (vreplicate 32 zero) (array_of_list 32
    (be_bytes 32 (fold_left (λ acc b, ((acc * 257 + u8_val b) `mod` 2 ^ 256)%Z) bs 0%Z)))
|}.

Lemma test_verify_fails_on_tamper_passes :
  @test_verify_fails_on_tamper _ sha3_sum _ _ (draw 1) = Ok true.
Proof. vm_compute. reflexivity. Qed.
End toy_tests.
