(* ===== verification/NetTests.v ===== *)
(** * The tests of the network code ([p2p/pea2pea.rs], [networking/mod.rs])

    The scenarios of several connected nodes on [Mesh], and the merges of access lists
    into a list of strings on [Acl]. *)

From S2P Require Import Prelude Types Models Files Transaction Event Mempool Workflow Acl Protocol P2P Noise Mesh Tests.

(** ** Nodes ([pea2pea.rs]) *)

Section net_tests.
Context `{Wire, Hex, Sha3, NumBigint, Bincode, Snow, Framing}.

Record NetTest := MkNetTest { nt_net : Net; nt_traffic : Traffic }.
Definition nt_channels (s : NetTest) : gmap SocketAddr Channel := channels (nt_traffic s).
Definition set_channel (x : SocketAddr) (ch : Channel) (t : Traffic) : Traffic :=
  MkTraffic (wires t) (<[x := ch]> (channels t)).

(** The codecs of a connection that was just made. *)
Context (new_wire : NoiseWire).
Definition directions (net : Net) : list (SocketAddr * SocketAddr) :=
  '((i, r), _) ← map_to_list (links net); [(i, r); (r, i)].
Definition open_wires (net : Net) (t : Traffic) : Traffic :=
  MkTraffic (foldr (λ k ws, if ws !! k is Some _ then ws else <[k := new_wire]> ws) (wires t) (directions net))
    (channels t).
Definition close_wires (net : Net) (t : Traffic) : Traffic :=
  MkTraffic (filter (λ e, e.1 ∈ directions net) (wires t)) (channels t).

(** The order of sets and connections, the source address of a connection, and the
    answers to diagnostics requests (nobody asks). *)
Context (iter : gset SocketAddr → list SocketAddr) (scan : ∀ A : Type, list A → list A).
Context (source : SocketAddr → SocketAddr → SocketAddr).
Context (reply : SocketAddr → RequestKind.t → result string (list u8)).

(** A node that listens at [addr]. *)
Definition start_listening (addr : SocketAddr) (p : Peer) : M NetTest string () := modify (λ s,
  MkNetTest (MkNet (<[addr := p]> (peers_at (nt_net s))) (links (nt_net s)))
            (set_channel addr (MkChannel [] true) (nt_traffic s))).
Definition create_peer (addr : SocketAddr) : Peer := MkPeer (MkP2PConfig addr None None) (P2P_new ∅).
Definition faulty_addr : SocketAddr := (inl (128 * 2 ^ 24 + 1)%Z, 0%Z).
Definition create_faulty_peer (addr : SocketAddr) : Peer :=
  MkPeer (MkP2PConfig addr None (Some faulty_addr)) (P2P_new ∅).

Definition test_connect (x addr : SocketAddr) : M NetTest string (gset SocketAddr * gset SocketAddr) := λ s,
  match connect iter 50 (source x) x addr (nt_net s) with
  | Some (new_peers, fail_peers, net) => (Ok (new_peers, fail_peers), MkNetTest net (open_wires net (nt_traffic s)))
  | None => (Panic, s)
  end.

(** What a node is given to propagate, and what it received; a test that waits in vain
    does not pass. *)
Definition test_send_tx (x : SocketAddr) (tx : Transaction Validated) : M NetTest string () := modify (λ s,
  MkNetTest (nt_net s) (broadcast scan (λ _, true) reply (nt_net s) x tx (nt_traffic s))).
Definition test_recv (x : SocketAddr) : M NetTest string (Transaction Received.t) := λ s,
  match nt_channels s !! x with
  | Some (MkChannel ((tx, _) :: rest) open) =>
      (Ok tx, MkNetTest (nt_net s) (set_channel x (MkChannel rest open) (nt_traffic s)))
  | _ => (Panic, s)
  end.
Definition nothing_received (x : SocketAddr) : M NetTest string () :=
  assert_state (λ s, match nt_channels s !! x with Some (MkChannel [] _) => true | _ => false end).

Definition peer_state (x : SocketAddr) (s : NetTest) : P2P :=
  match peers_at (nt_net s) !! x with Some p => peer_p2p p | None => P2P_new ∅ end.
Definition knows_ports (x : SocketAddr) (n : nat) : M NetTest string () :=
  assert_state (λ s, size (peer_http_port_list (peer_state x s)) =? n).

Definition net_into_receive (tx : Transaction Validated) : Transaction Received.t :=
  MkTransaction (author tx) (hash tx) (payload tx) (nonce tx) (signature tx) (executed tx) (executed tx)
    Received.P2P.
Definition net_new_tx (key : SecretKey) : result string (Transaction Validated) := new_validated key Payload.Empty.

(** [from] sends a new transaction and all of [to] receive it. *)
Definition delivered (key : SecretKey) (from : SocketAddr) (to : list SocketAddr) : M NetTest string () :=
  tx ← lift (net_new_tx key);
  _ ← test_send_tx from tx;
  for_eachM (λ x, recv_tx ← test_recv x; assert_that (bool_decide (net_into_receive tx = recv_tx))) to.

Context (key : nat → SecretKey) (peer1 peer2 peer3 peer4 peer5 : SocketAddr).

Definition test_one_peer_fail : M NetTest string () :=
  _ ← start_listening peer1 (create_peer peer1);
  _ ← start_listening peer2 (create_faulty_peer peer2);
  _ ← start_listening peer3 (create_peer peer3);
  '(new_peers, fail_peers) ← test_connect peer2 peer1;
  _ ← assert_that ((size new_peers =? 1) && (size fail_peers =? 0));
  '(new_peers, fail_peers) ← test_connect peer3 peer1;
  _ ← assert_that ((size new_peers =? 1) && (size fail_peers =? 1) &&
        bool_decide (head (iter fail_peers) = Some faulty_addr));
  _ ← knows_ports peer1 2; _ ← knows_ports peer2 1; _ ← knows_ports peer3 1;
  _ ← delivered (key 1) peer2 [peer1];
  _ ← nothing_received peer3;
  _ ← delivered (key 2) peer3 [peer1];
  nothing_received peer2.

Definition test_peer_list_inter_connection : M NetTest string () :=
  _ ← for_eachM (λ x, start_listening x (create_peer x)) [peer1; peer2; peer3; peer4; peer5];
  '(new_peers, _) ← test_connect peer2 peer1;
  _ ← assert_that (size new_peers =? 1);
  _ ← knows_ports peer1 1; _ ← knows_ports peer2 1;
  '(new_peers, _) ← test_connect peer3 peer1;
  _ ← assert_that (size new_peers =? 2);
  '(new_peers, _) ← test_connect peer4 peer3;
  _ ← assert_that (size new_peers =? 3);
  '(new_peers, _) ← test_connect peer5 peer4;
  _ ← assert_that (size new_peers =? 4);
  _ ← for_eachM (λ x, knows_ports x 4) [peer1; peer2; peer3; peer4; peer5];
  _ ← delivered (key 1) peer2 [peer1; peer3; peer4; peer5];
  delivered (key 2) peer5 [peer1; peer2; peer3; peer4].

(** [disconnect] of every address in [connected_addrs]. *)
Definition test_two_peers_disconnect : M NetTest string () :=
  _ ← start_listening peer1 (create_peer peer1);
  _ ← start_listening peer2 (create_peer peer2);
  '(new_peers, fail_peers) ← test_connect peer1 peer2;
  _ ← assert_that ((size new_peers =? 1) && (size fail_peers =? 0));
  _ ← knows_ports peer1 1; _ ← knows_ports peer2 1;
  _ ← delivered (key 1) peer1 [peer2];
  _ ← delivered (key 2) peer2 [peer1];
  _ ← modify (λ s, let net := disconnect_all peer2 (nt_net s) in MkNetTest net (close_wires net (nt_traffic s)));
  tx ← lift (net_new_tx (key 3));
  _ ← test_send_tx peer1 tx;
  _ ← assert_state (λ s, (size (peer_list (peer_state peer1 s)) =? 1) &&
        (size (peer_addr_mapping (peer_state peer1 s)) =? 0));
  knows_ports peer1 0.

Definition test_two_peers : M NetTest string () :=
  _ ← start_listening peer1 (create_peer peer1);
  _ ← start_listening peer2 (create_peer peer2);
  '(new_peers, fail_peers) ← test_connect peer2 peer1;
  _ ← assert_that ((size new_peers =? 1) && (size fail_peers =? 0));
  _ ← delivered (key 1) peer1 [peer2];
  delivered (key 2) peer2 [peer1].
End net_tests.

Section net_tests_pass.
#[local] Existing Instances hex_crate secp_toy sha3_toy bigint_toy bincode_toy snow_toy framing_toy.

(** Transactions of the tests are determined by their key. *)
Definition wire_keys : @Wire secp_toy := {|
  ser_hs0 _ := Err "unused"; de_hs0 _ := Err "unused";
  ser_hs1 _ := Err "unused"; de_hs1 _ := Err "unused";
  ser_msg0 m := match m with V0.V0 (V0.Transaction tx) => Ok (pk_serialize (author tx)) | _ => Err "unused" end;
  de_msg0 bs :=
    match pk_parse bs with
    | Ok key => match net_new_tx key with Ok tx => Ok (V0.V0 (V0.Transaction tx)) | _ => Err "key" end
    | _ => Err "bytes"
    end;
  ser_msg1 _ := Err "unused"; de_msg1 _ := Err "unused"
|}.
#[local] Existing Instance wire_keys.

Definition local_addr (n : Z) : SocketAddr := (inl (127 * 2 ^ 24 + 1)%Z, (9000 + n)%Z).
(** Ports are told apart by the two ends. *)
Definition local_source (x b : SocketAddr) : SocketAddr := (ip x, (port x * 65536 + port b)%Z).
Definition no_net : NetTest := MkNetTest (MkNet ∅ ∅) (MkTraffic ∅ ∅).
Definition toy_wire : NoiseWire :=
  MkNoiseWire (tx_state (tx:=toy_side) None 0 0) (rx_state (rx:=toy_side) None 0 0) [].
Definition on_localhost
    (test : NoiseWire → (gset SocketAddr → list SocketAddr) → (∀ A : Type, list A → list A) →
            (SocketAddr → SocketAddr → SocketAddr) → (SocketAddr → RequestKind.t → result string (list u8)) →
            M NetTest string ()) : bool :=
  passes (test toy_wire elements (λ _ l, l) local_source (λ _ _, Err "nobody asks")) no_net.

Lemma test_two_peers_passes :
  on_localhost (λ nw it sc so re, test_two_peers nw it sc so re draw (local_addr 1) (local_addr 2)) = true.
Proof. vm_compute. reflexivity. Qed.

Lemma test_two_peers_disconnect_passes :
  on_localhost (λ nw it sc so re, test_two_peers_disconnect nw it sc so re draw (local_addr 1) (local_addr 2)) = true.
Proof. vm_compute. reflexivity. Qed.

Lemma test_one_peer_fail_passes :
  on_localhost (λ nw it sc so re, test_one_peer_fail nw it sc so re draw (local_addr 1) (local_addr 2) (local_addr 3)) = true.
Proof. vm_compute. reflexivity. Qed.

Lemma test_peer_list_inter_connection_passes :
  on_localhost (λ nw it sc so re, test_peer_list_inter_connection nw it sc so re draw (local_addr 1) (local_addr 2)
    (local_addr 3) (local_addr 4) (local_addr 5)) = true.
Proof. vm_compute. reflexivity. Qed.

(** A node that joins three others is told of the third one twice, by the first and by
    the second, and connects to it twice: the second attempt is refused, since the
    nodes are connected, and the node is reported as failed. *)
Definition test_fourth_peer : M NetTest string (gset SocketAddr * gset SocketAddr) :=
  let connect := test_connect toy_wire elements local_source in
  _ ← for_eachM (λ n, start_listening (local_addr n) (create_peer (local_addr n))) [1; 2; 3; 4]%Z;
  _ ← connect (local_addr 2) (local_addr 1);
  _ ← connect (local_addr 3) (local_addr 1);
  connect (local_addr 4) (local_addr 1).

Definition failed_but_connected (r : result string (gset SocketAddr * gset SocketAddr)) : bool :=
  match r with
  | Ok (connected, failed) =>
      (size connected =? 3) && bool_decide (failed ≠ ∅) && bool_decide (failed ⊆ connected)
  | _ => false
  end.
Theorem connected_peer_reported_failed : failed_but_connected (fst (test_fourth_peer no_net)) = true.
Proof. vm_compute. reflexivity. Qed.
End net_tests_pass.

(** ** Access lists ([networking/mod.rs]) *)

Section acl_tests.
Context `{Hex, Secp}.

(** [TestDb], a set of strings; its order is a parameter. *)
Context (iter : gset string → list string).
Definition string_acl : MergeStoredAcl (gset string) :=
  MkMergeStoredAcl
    (λ s, (map_err (λ e, match e with PublicKeyParseError m => m end)
             (collect_results PublicKey_try_from (iter s)), s))
    (λ k, modify (λ s, {[PublicKey_to_string k]} ∪ s))
    (λ k, modify (λ s, s ∖ {[PublicKey_to_string k]})).

(** The keys of the tests. *)
Definition key_generator : string := "0479be667ef9dcbbac55a06295ce870b07029bfcdb2dce28d959f2815b16f81798483ada7726a3c4655da4fbfc0e1108a8fd17b448a68554199c47d08ffb10d4b8".
Definition key_040f : string := "040f28123df7a638647d867dfe186395999a276048c76c1bd56d4b792eca56449751944d6cd0b208f44b9aec332b4b6d0630406ebb07ccfb17e7c505a07156a792".
Definition key_0448 : string := "04485539698460eb21864f22fdc2ff595980f67d6b43c90b35e022ea40a7465806144bdfe79e571ee196ce52f7d0c88da915733e838420b347f8e6f7920c2c91e7".
Definition key_043a : string := "043a1d3d3bfa8b91b18be20009f58616683695765c90c37a404af7635a3e047de50ee62b5da0c02a1ba54489294974aa6a3733ec82e34c8f6a26c29d6aa000e88d".
Definition not_a_key : string := "0000000000000000000000000000000000000000000000000000000000000000000000000000000000000000000000000000000000000000000000000000000000".

(** A merge of the lines, whether it is an error, and what is in the set then. *)
Definition test_merge (lines : list (result string string)) (ok : bool) (present absent : list string)
    : M (gset string) string () := λ s,
  let '(res, s) := merge_acl_white_list lines string_acl s in
  (if bool_decide (is_ok res = ok) && bool_decide (is_err res = negb ok) && (size s =? length present) &&
      forallb (λ k, bool_decide (k ∈ s)) present && forallb (λ k, bool_decide (k ∉ s)) absent
   then Ok () else Panic, s).

Definition test_acl_merge_multiple : M (gset string) string () :=
  _ ← modify (λ _, {[key_generator; key_040f; key_0448]});
  test_merge [Ok key_043a; Ok key_040f] true [key_043a; key_040f] [key_generator; key_0448].
Definition test_acl_merge_from_empty : M (gset string) string () :=
  test_merge [Ok key_043a; Ok key_040f] true [key_043a; key_040f] [].
Definition test_acl_merge_with_empty : M (gset string) string () :=
  _ ← modify (λ _, {[key_generator]}); test_merge [] true [key_generator] [].
Definition test_acl_merge_with_error : M (gset string) string () :=
  _ ← modify (λ _, {[key_generator]});
  test_merge [Ok key_043a; Err "a test"; Ok key_040f] false [key_generator] [].
Definition test_acl_merge_with_keyparseerror : M (gset string) string () :=
  _ ← modify (λ _, {[key_generator]});
  test_merge [Ok key_043a; Ok not_a_key; Ok key_040f] true [key_043a; key_040f] [].
End acl_tests.

(** Public keys start with the tag of uncompressed points. *)
Definition secp_tagged : Secp := {|
  PublicKey := vec u8 65;
  SecretKey := vec u8 65;
  PublicKey_countable := array_countable 65;
  pk_serialize := vec_to_list;
  pk_parse bs := if bool_decide (head bs = Some (ascii_of_nat 4)) then ok_or (array_of_list 65 bs) "InvalidPublicKey"
                 else Err "InvalidPublicKey";
  from_secret_key sk := sk;
  SecretKey_default := vreplicate 65 zero;
  secp_sign := @secp_sign secp_toy;
  secp_verify := @secp_verify secp_toy;
  secp_sig_serialize := @secp_sig_serialize secp_toy;
  secp_sig_parse_standard := @secp_sig_parse_standard secp_toy
|}.

Lemma acl_tests_pass :
  forallb (λ t, passes t ∅)
    [@test_acl_merge_multiple hex_crate secp_tagged elements; @test_acl_merge_from_empty hex_crate secp_tagged elements;
     @test_acl_merge_with_empty hex_crate secp_tagged elements; @test_acl_merge_with_error hex_crate secp_tagged elements;
     @test_acl_merge_with_keyparseerror hex_crate secp_tagged elements] = true.
Proof. vm_compute. reflexivity. Qed.
