(* ===== verification/DbTests.v ===== *)
(** * The tests of the database ([storage/database/postgres.rs])

    What is stored is read back, and taken back; the tests run against the tables of
    [Database] with the deletions of [Deletion]. *)

From S2P Require Import Prelude Types Models Files Transaction Event Mempool Workflow Resources Acl Database Deletion Client Tests.

Section db_tests.
Context `{Hex, Secp, Sha3, NumBigint, Bincode}.
Context (scan : ∀ A : Type, list A → list A).

(** A query, with [expect]. *)
Definition query {A} (q : Tables → result string A) : M Tables string A := λ t, (expect (q t), t).
Definition expect_done (m : M Tables string ()) : M Tables string () := λ t,
  let '(r, t) := m t in (expect r, t).

Definition test_deployment : result string (Transaction Validated) :=
  prover_hash ← Hash_from_str "0123456789abcdef0123456789abcdef0123456789abcdef0123456789abcdef";
  verifier_hash ← Hash_from_str "fedcba9876543210fedcba9876543210fedcba9876543210fedcba9876543210";
  Ok (MkTransaction (from_secret_key SecretKey_default) Hash_default
    (Payload.Deploy "test deployment"
      (MkProgramMetadata "test prover" prover_hash "test_prover.img"
        "http://example.localhost:8080/foobar/test_prover.img"
        "ebc81c06a5ae263d0d4e4efcb06e668b3b786ccc83cb738de5aabb9b966668db" None)
      (MkProgramMetadata "test verifier" verifier_hash "test_verifier.img"
        "http://example.localhost:8080/foobar/test_verifier.img"
        "ebc81c06a5ae263d0d4e4efcb06e668b3b786ccc83cb738de5aabb9b966668aa" None))
    64 Signature_default false false MkValidated).

Definition test_add_and_find_deploy_transaction : M Tables string () :=
  tx ← lift test_deployment;
  _ ← expect_done (add_transaction tx);
  read_tx ← query (λ t, Ok (db_find_transaction scan t (hash tx)));
  _ ← expect_done (delete_transaction (hash tx));
  assert_that (bool_decide (read_tx = Ok (Some tx))).

Definition test_program (h : Hash) (name : string) (limits : option ResourceRequest) : Program :=
  MkProgram h name (name +:+ ".img") ("http://example.com/" +:+ name +:+ ".img") "nope" limits.

(** The transactions of the tree, as [(parent, payload)] of the proofs and their
    verifications. *)
Definition db_test_tx (key : SecretKey) (p : Payload.t) : result string (Transaction Validated) :=
  new_validated key p.
Definition tree_txs (key : SecretKey) (prover verifier : Hash) : result string (list (Transaction Validated)) :=
  run_tx ← db_test_tx key (Payload.Run (MkWorkflow []));
  proofs ← collect_results (λ n, db_test_tx key (Payload.Proof (hash run_tx) prover [ascii_of_nat n] [])) [1; 2; 3; 4];
  verifications ← collect_results (λ e : nat * Transaction Validated,
    db_test_tx key (Payload.Verification (hash e.2) verifier [ascii_of_nat e.1] [])) (zip [1; 2; 3; 4] proofs);
  Ok (run_tx :: proofs ++ verifications).

(** The loop that removes one result per transaction, or panics. *)
Fixpoint remove_all (txs : list Hash) (results : list (Hash * option Hash)) : option (list (Hash * option Hash)) :=
  match txs with
  | [] => Some results
  | h :: txs => '(idx, _) ← list_find (λ x : Hash * option Hash, x.1 = h) results; remove_all txs (delete idx results)
  end.

Definition test_get_transaction_tree (key : SecretKey) (prover_hash verifier_hash : Hash) (random_idx : nat)
    : M Tables string () :=
  let prover := test_program prover_hash "prover" None in
  let verifier := test_program verifier_hash "verifier" None in
  txs ← lift (tree_txs key prover_hash verifier_hash);
  _ ← modify (add_program prover);
  _ ← modify (add_program verifier);
  _ ← for_eachM (λ tx, expect_done (add_transaction tx)) txs;
  tx ← lift (unwrap (txs !! random_idx));
  results ← query (λ t, get_transaction_tree scan t (hash tx));
  _ ← assert_that (bool_decide (remove_all (hash <$> txs) results = Some []));
  _ ← for_eachM (λ tx : Transaction Validated, expect_done (delete_transaction (hash tx))) txs;
  _ ← expect_done (delete_program prover_hash);
  expect_done (delete_program verifier_hash).

Definition test_limits : ResourceRequest := MkResourceRequest 53912 13 3.

(** [limits] are those of the two tests. *)
Definition test_program_read_back (prg : Program) : M Tables string () :=
  _ ← modify (add_program prg);
  p ← query (get_program (prg_hash prg));
  _ ← expect_done (delete_program (prg_hash prg));
  assert_that (bool_decide (p = prg)).
Definition test_programs_with_resource_requirements (h : Hash) : M Tables string () :=
  test_program_read_back (test_program h "prover" (Some test_limits)).
Definition test_programs_without_resource_requirements (h : Hash) : M Tables string () :=
  test_program_read_back (test_program h "prover" None).

Definition test_programs_with_and_without_resource_requirements (h1 h2 : Hash) : M Tables string () :=
  let prg1 := test_program h1 "prover" (Some test_limits) in
  let prg2 := test_program h2 "prover" None in
  _ ← modify (add_program prg1);
  _ ← modify (add_program prg2);
  programs ← query (get_programs scan);
  _ ← expect_done (delete_program h1);
  _ ← expect_done (delete_program h2);
  assert_that (forallb (λ p,
    if decide (prg_hash p = h1) then bool_decide (p = prg1)
    else if decide (prg_hash p = h2) then bool_decide (p = prg2) else true) programs).
End db_tests.

(** ** They pass *)

(** [get_program] finds a new program with the limits it was added with, for every
    hash and all tables that do not have it, when the limits fit an [i64]. *)
Lemma test_program_read_back_passes `{Secp} prg t :
  t_program t !! prg_hash prg = None → t_prr t !! prg_hash prg = None →
  match prg_limits prg with
  | Some r => (0 ≤ rr_mem r < 2 ^ 63 ∧ 0 ≤ rr_cpus r < 2 ^ 63 ∧ 0 ≤ rr_gpus r < 2 ^ 63)%Z
  | None => True
  end →
  passes (test_program_read_back prg) t = true.
Proof.
  intros Hp Hr Hl.
  assert (get_program (prg_hash prg) (add_program prg t) = Ok prg) as Hget.
  { rewrite (proj1 (add_program_spec prg t)), Hp, Hr. simpl.
    destruct prg as [h n f u c [[mem cpus gpus]|]]; [|done]. simpl in Hl. unfold as_i64. simpl.
    rewrite !(proj2 (Z.ltb_lt _ _)) by lia. by rewrite !(proj2 (Z.leb_le _ _)) by lia. }
  unfold passes, test_program_read_back, query, assert_that, mbind, M_bind, modify. rewrite Hget. simpl.
  by rewrite bool_decide_eq_true_2.
Qed.

Section db_tests_pass.
#[local] Existing Instances hex_crate secp_toy sha3_sum bigint_toy bincode_toy.

Lemma test_add_and_find_deploy_transaction_passes :
  passes (test_add_and_find_deploy_transaction (λ _ l, l)) Tables_new = true.
Proof. vm_compute. reflexivity. Qed.

(** A proof is drawn. *)
Lemma test_get_transaction_tree_passes :
  passes (test_get_transaction_tree (λ _ l, l) (draw 1) (fill "p") (fill "v") 2) Tables_new = true.
Proof. vm_compute. reflexivity. Qed.

Lemma test_programs_with_and_without_resource_requirements_passes :
  passes (test_programs_with_and_without_resource_requirements (λ _ l, l) (fill "1") (fill "2")) Tables_new = true.
Proof. vm_compute. reflexivity. Qed.
End db_tests_pass.
